(* ===== verification/_CoqProject ===== *)
-Q . S2P
Prelude.v
Json.v
JsNumber.v
NumberText.v
IntegerText.v
Task.v
Platform.v
TaskService.v
TaskStoreSpec.v
RawStore.v
Race.v
StoreShape.v
UserService.v
TaskList.v
TaskListView.v
RawPage.v
Tabs.v
App.v
Root.v
