(* ===== verification/Prelude.v ===== *)
(** * A verification development for nilspolek/List, a browser to-do list

    The program (src/list/src) is a React application over two service
    singletons:

    - the task store, [TaskService] (services/taskService.ts): the task
      collection lives as one JSON blob under the local-storage key
      ["tasks"]; every method reads the whole blob, works in memory and
      writes the whole blob back;
    - the user/session store, [UserService] (services/userService.ts): an
      in-memory registry of users with plaintext passwords, and a session
      that is nothing but the cookie ["auth_token"];
    - the presentation layer: [TaskList] (components/TaskList.tsx) keeps a
      cached copy of the tasks and calls the task store from its handlers;
      [App] (App.tsx) sequences the auth checks before it shows the list.

    ** Files, in dependency order

    - Prelude.v (this file): the [outcome] of a JavaScript call (a value or
      a thrown error), the state-and-exception monad [M S A] with the
      notation [x <- m ;; k], the labelled closure [steps], the JavaScript
      [findIndex], and the list/string lemmas the components share, in the
      hint databases [svc] and [svc_rw].
    - Json.v, Module [Json]: [JSON.stringify] and [JSON.parse] (a
      recursive-descent parser with fuel) on the values the store writes.
      Theorems: [parse (stringify v) = Some v] for every value, and every
      step of the parser consumes input, so the fuel [parse] gives is
      enough on every input.
    - JsNumber.v, Module [JsNumber]: the JavaScript Number as an IEEE
      binary64 [double] ([Fin neg m e], the value [m * 2^e], or an
      infinity), its [canonical] encoding, and the rounding of a positive
      rational [a / b] to the nearest double, ties to even ([round_pos]:
      the binary exponent [expo] by [Z.log2] and a comparison [gep], the
      significand by [round_half_even], the carry to [2^53], the overflow
      to Infinity past [emax], the subnormals below [emin]).
    - NumberText.v, Module [NumberText]: a number token of [JSON.parse]
      ([scan_number]: the ECMA-404 grammar, [json_number]: its correctly
      rounded value) and [Number::toString] of ECMA-262 6.1.6.1.20
      ([to_string]: the fewest digits [k] whose [s * 10^(n-k)] rounds back,
      found by [shortest] trying the two candidates [pick] gives for each
      [k], the nearer one first, and [format], the layout of steps 6-10);
      [stringify_number] is what [JSON.stringify] writes for a Number.
    - IntegerText.v, Module [IntegerText]: the safe integers, where the
      double model of NumberText.v and the integer model of Json.v agree.
    - Task.v, Modules [Task] and [TaskJson]: the [Task] interface as a
      record, [Partial<Task>] as [Task.patch] with the object spread as
      [Task.merge]; the class [TaskCodec] states what the store needs of its
      blob encoding (decode inverts encode, encodings are non-empty) and
      the instance [json_codec] discharges it with Json.v.
    - Platform.v: the browser [world] (local storage, cookie jar with each
      cookie's expiry time, counters of clock readings and UUIDs drawn), the [env] of clock readings and
      UUIDs, the platform calls as [M world] computations,
      [Array.prototype.sort] as a stable insertion sort with its
      permutation, sortedness and stability lemmas, [Date] values with
      [getTime()] (NaN for an Invalid Date) and number comparison;
      js-cookie's [expires: days] reads the clock and keeps whole
      seconds, and time passing ([elapse]) evicts the expired cookies.
    - TaskService.v, Module [TaskService]: one definition per method of
      the class ([getTasksFromStorage], [saveTasksToStorage], [getTasks],
      [addTask], [updateTask], [deleteTask], [getTasksByDateRange],
      [getTasksSortedByDate]) in [M world], proved against the [TaskCodec]
      class; the abstraction [stored w] (the collection a read returns);
      the invariant [wf] (distinct ids drawn from [crypto.randomUUID],
      [createdAt <= updatedAt <= clock]) and the step relation
      [client_step] of the calls the UI makes.
    - TaskStoreSpec.v, Module [TaskStoreSpec]: the public contract of the
      task store in section 4.1 of the spec, as a relation [contract] on
      collections, operations and answers, and [run], which sends an
      operation to its method; the store refines the contract; the
      equivalence of worlds that read as the same collection.
    - RawStore.v, Module [RawStore]: the store as the code runs it, on the
      dynamic values [JSON.parse] returns: JavaScript objects with their
      own-key order ([obj_set] is [CreateDataProperty], [assign] an object
      literal or spread, [js_of] the objects [JSON.parse] builds),
      [t.id] that throws on [null], [findIndex] and [filter] over arrays of
      any values, and [getTasks], [addTask], [updateTask], [deleteTask]
      with a [TypeError] where an array method meets another value; the
      relation [rel_task] of a raw object to the task the typed store reads.
    - Race.v, Module [Race]: store calls of several tabs that overlap:
      a call is its read and computation ([Call]: the clock and the UUIDs
      move, the computed blob waits in the tab) and its write ([Commit]:
      [localStorage.setItem] lands over whatever was written meanwhile);
      [race_step] interleaves them in any order.
    - StoreShape.v, Module [StoreShape]: what one client step does to the
      stored collection ([effect]: an added task, one task updated in place
      with its creation time kept, or a filter), the JSON schema of the
      blob ([task_schema], read from the object literal of [addTask]) and
      the range of its timestamps, as invariants of any run of the store.
    - UserService.v, Modules [User] and [UserService]: the registry and
      cookie session ([register], [login], [logout], [getCurrentUser],
      [isAuthenticated] and the cookie helpers) in [M ustate]; the spec's
      session machine (LoggedOut/LoggedIn, with the cookie's expiry) as
      [session_next], the calls and time passing as the labelled step
      relation [ustep].
    - TaskList.v, Module [TaskList]: the component's seven [useState]
      hooks as the record [ui] with one setter each; [loadTasks],
      [handleAddTask], [handleEditTask], [handleDeleteTask],
      [toggleTaskDone] in [M app], where [app] pairs [ui] with the browser
      world and [svc] runs a store method; [String.prototype.trim];
      [dispatch] maps each element of the rendered page to its handler and
      [ui_step] is one event.
    - TaskListView.v, Module [TaskListView]: what the task page renders,
      as a value ([render_page]: the add dialog and one card per cached
      task, keyed by its id, showing the edit form or the title with its
      menu and the body), and [offers], which elements, hence which events,
      the rendered page has, the modal add dialog blocking the page behind
      it while it is open; [offered_step] is an event fired by one of
      them.
    - RawPage.v, Module [RawPage]: the page rendered after the mount from
      the value [getTasks] returns, whatever its shape ([mounted_tasks],
      [render_page_raw]): [tasks.map] and the member reads of each card as
      JavaScript does them (truthiness of [task.done], [editingTaskId ===
      task.id]), then React's rendering of [{task.caption}] and
      [{task.body}] as children ([child_text]: an object throws).
    - Tabs.v, Module [Tabs]: several tabs of the origin over one local
      storage, each with its own TaskList; [tabs_step] opens or closes a
      tab or runs an event of any tab's page, in any interleaving, stale
      caches included.
    - App.v, Module [App]: the root component's four hooks ([appstate]),
      [checkAuth], [handleLogin], [handleLogout], the screen it renders,
      and the [Avatar] of components/ui/avatar.tsx with the initials and
      first name App gives it ([header]), over the user service's state
      ([page]);
      [page_step] is one event: a click, a callback of the absent
      Login/Register forms, one of their service calls, or a reload of the
      tab (the service singleton is created again, the world persists);
      [offers] says which of them the screen App renders has an element
      for, and [offered_step] is an event fired by one of them.
    - Root.v, Module [Root]: the whole application: App's page, the user
      registry, one browser world shared by both services, and the
      TaskList's state while the task page is on screen ([reconcile]
      mounts it, running [loadTasks], and drops it, as React does);
      [root_step] is an event of either component.

    ** What the theorems show

    - the invariant of the whole application ([Root.app_invariant]): from
      the first render on a well-formed store, along any sequence of
      events of App and of the mounted TaskList, the store stays
      well-formed, and whenever the task list is on screen it shows
      exactly the stored collection under a registered user with a live
      session; it is assembled from the invariants of the parts below;
    - the JSON codec round-trips, so what [saveTasksToStorage] writes
      [getTasksFromStorage] reads back ([Json.parse_stringify],
      [TaskService.addTask_then_getTasks]);
    - JSON numbers as JavaScript has them: [JSON.parse] reads back every
      finite Number [JSON.stringify] writes, [-0] as [0], the shortest
      digits and the exponent layout included
      ([NumberText.stringify_parse_number]); the rounding of a decimal
      gives a canonical double and is exact on doubles
      ([JsNumber.round_pos_canonical], [JsNumber.round_exact]); and on the
      integers below [2^53] in magnitude, the range of the stored
      timestamps, [JSON.stringify] writes the decimal digits of Json.v and
      [JSON.parse] reads them as the same double
      ([IntegerText.safe_integer_exact]), which fails from [2^53 + 1] on
      and in the printing from [10^21] on
      ([IntegerText.unsafe_integers_differ]);
    - each task-store method on every branch: add appends a fresh task,
      update finds the first task with the id or throws ["Task not found"]
      without writing, delete filters, the sorted read is
      a stable sort that writes nothing;
    - the date-range read returns, in stored order and without writing,
      exactly the tasks created in the inclusive range, and nothing when a
      bound is an Invalid Date (NaN compares false); on a blob
      [JSON.parse] rejects every method throws before it writes; the
      spec's add/mark-done/delete/delete scenario runs as the spec says;
      the decoder reads a task whose members come in any order;
    - the store refines the spec's contract: from a well-formed store,
      every operation's answer and resulting collection are ones the
      contract allows ([TaskStoreSpec.store_refines_contract]); and the
      store sees the blob only through that collection: on worlds whose
      blobs read the same (white space, an absent or an empty entry), every
      operation answers the same and leaves equivalent worlds;
    - the typed store is exact: on every blob it reads, the store run on
      the raw values answers each call of the task page as the typed
      model does and keeps the worlds equivalent, along any sequence of
      calls ([RawStore.raw_simulation]); what the raw store writes it reads
      back ([RawStore.raw_read_after_write]); on the blobs the typed model
      rejects, the raw store shows the code's errors: a non-array blob
      makes [addTask] throw a [TypeError] after drawing a UUID and reading
      the clock ([RawStore.addTask_non_array]), and a [null] element makes
      [deleteTask] and [updateTask] throw a [TypeError]
      ([RawStore.null_element_throws]); on every blob the typed store reads,
      the page rendered from the raw value is the typed page in every
      state of the other hooks ([RawPage.raw_page_refines]), and a blob
      of valid JSON that is not an array or holds a [null] breaks the
      first render after the mount with a [TypeError], where the typed
      model shows an empty list ([RawPage.corrupt_blob_breaks_page])
      ([TaskStoreSpec.store_respects_stored], a setoid equivalence with a
      [Respects] class whose instances compose through [bind]);
    - the invariant [wf] holds in every world the UI's calls reach
      ([wf_reachable], by induction on [rtc client_step]);
    - the user store's branches (duplicate email, login success and
      failure), the refinement of the spec's session machine by the
      cookie ([session_refinement]), distinct emails along any run, and
      the session's lifetime: on exactly while the clock is within the
      cookie's expiry, which lies in the last second before seven days
      after the login ([UserService.session_lifetime]);
    - the task page's cache equals the stored collection and the store
      stays well-formed along any sequence of UI events
      ([TaskList.coherent_reachable]), and every event is a sequence of
      [client_step]s ([TaskList.dispatch_refines_client]), so the store's
      invariant applies to the real UI; what the add (blank-caption guard
      included), edit and toggle handlers do;
    - with several tabs interleaving their events the store still stays
      well-formed, because no tab's cached task disagrees with the store on
      its creation time ([Tabs.tabs_store_wf]); updates are lost: a tab's
      toggle writes its whole cached task over the stored one, whatever
      another tab saved meanwhile ([Tabs.stale_tab_toggle_loses_edit]); even one call's read and its
      write may be split by other tabs' writes, and the store still stays
      well-formed ([Race.race_store_wf]); without overlap the split
      semantics is the sequential store ([Race.race_serial]); with overlap
      two successful adds keep one task ([Race.concurrent_adds_lose_task]),
      the last-writer-wins limitation of sections 2 and 5 of the spec;
    - the root component shows the task page only while the auth cookie is
      set and to a registered user, along any sequence of events
      ([App.tasks_page_needs_session]);
    - the rendered task page: on every reachable page the cards' React
      keys are distinct and at most one card is in edit mode
      ([TaskListView.keys_distinct_reachable]);
    - liveness: from any reachable page of the application a registered
      user who logs in gets the task page with the TaskList mounted on the
      stored collection ([Root.login_mounts_task_list]), and from any coherent
      task page any task can be given any non-blank caption by clicking
      what the page shows ([TaskListView.edit_task_reachable]); a visitor
      with a new email reaches the task page from the mounted login form
      by clicking only what each screen shows: register, switch back, log
      in ([App.onboarding_reaches_tasks]);
    - the type of the blob: it stays JSON of an array of objects with the
      six members of a task, in order, at their JSON types, also when the
      store runs on the values [JSON.parse] returns, with JavaScript's key
      order ([StoreShape.raw_blob_typed]); its bounds: with clock readings
      in the time-value range every stored timestamp and every value of the
      sort comparator is a safe integer ([StoreShape.sort_comparator_safe]);
    - findings: [addTask] reads the clock twice, so [createdAt] and
      [updatedAt] are two readings ([TaskService.addTask_two_clock_reads]);
      [updateTask] does not protect ids: an update carrying another
      task's id duplicates it and breaks the invariant
      ([TaskService.updateTask_can_duplicate_ids]); [getCurrentUser]
      answers with the first registered user whoever logged in, and the
      page greets that user; a reload shows the login form although the
      cookie session lives ([App.reload_shows_login]); the tasks are one
      collection for every user: along logouts and logins of anyone the
      task list shows the same tasks ([Root.tasks_shared_between_users]);
      at a concrete run, an empty first name shows as the initials
      ["undefinedD"] ([App.empty_first_name_initials]).

    ** Bounds, fuel and environment

    [Json.parse] runs [parse_value] with fuel [1 + length s]; the round
    trip needs fuel above the number of nodes of the value, and a value
    has at most as many nodes as its text has characters
    ([json_size_le_length]), so the fuel is always enough.  On any input,
    printed or not, each call consumes text ([Json.parse_value_length]),
    and any fuel above the length gives the same answer
    ([Json.parse_value_fuel_enough]): the model never fails for lack of
    fuel.  [NumberText.shortest] tries at most [kmax m e] digit counts,
    the digits of the exact decimal expansion of [m * 2^e], at which
    the exact value is a candidate, so its fuel is always enough
    ([NumberText.shortest_some]).  Timestamps are integers [Z] in the
    blob's [json] type: JavaScript numbers are doubles, and the integer
    model is exact ([IntegerText.safe_integer_exact]) because every timestamp is a reading of
    [Date.now()], a time value of at most 8.64e15 ms, below
    [Number.MAX_SAFE_INTEGER] = 2^53 - 1, and so is every difference the
    sort comparator takes ([StoreShape.sort_comparator_safe], under the
    hypothesis [clock_in_range] that the clock reads after the epoch).
    Clock readings and UUIDs come from an [env]; theorems that need a
    monotone clock or distinct UUIDs take [clock_monotone] and
    [uuid_injective] as hypotheses, and the witnesses run in [demo_env].

    Each UI event runs to completion before the next: a handler's awaited
    store call resolves before another click is handled, and the [.then]
    of [handleLogin] runs before the next event.  [trim] knows the seven
    white-space and line-terminator code points of ECMAScript below
    U+0100, the no-break space U+00A0 included (a character of the model
    stands for the code unit of the same number, as a [\u00XX] escape
    reads it).

    ** Not modelled

    The styling of the rendered pages (class names, icons, layout) and
    the UI widgets' internals (the modal add dialog is modelled only by
    which elements take events while it is open, [TaskListView.offers];
    the dropdown menu of a card by its items, its trigger click elided);
    the Login and Register components, which App.tsx imports but the
    repository does not contain (their calls and callbacks are events of
    [App.dispatch], allowed at any time); time passing while a page is
    open, which is a step of the user service ([EvElapse]) but not an
    event of App or Root: the App and Root theorems describe runs within
    the cookie's lifetime, as the spec's "LoggedIn persists as long as
    the cookie has not expired" does, and App, which checks the session
    only on mount and login, does not notice an expiry; inside the
    blob's [json] type, numbers with a fraction or an exponent and
    integers beyond [2^53] (kept exact there; NumberText.v and
    IntegerText.v model them as doubles, on their own, and show where the
    two models agree) and characters outside 8 bits (JavaScript strings
    have 16-bit code units; Json.v's parser rejects such text, so the
    theorems on unreadable blobs cover text [JSON.parse] accepts only
    where it has no such numbers or characters); on a blob of another shape, the two reads the task page
    never calls ([getTasksByDateRange], [getTasksSortedByDate]) are
    modelled on typed tasks only, as comparing [createdAt] of arbitrary
    values needs [ToNumber] of strings; the handlers of the task page
    after the mount over a raw blob (RawPage.v renders the mounted value;
    the handlers run on the typed cache, which the raw store refines on
    every blob the typed store reads); interleaving inside one handler of the task
    page, between its store call and its [setTasks] (Race.v splits the
    store calls, Tabs.v interleaves whole events), which the
    single-threaded event loop of one tab rules out for the page itself. *)

(** * Prelude: the shared vocabulary of the development.

    - [outcome]: the result of a JavaScript call, a value or a thrown
      [Error] (the message is kept, as [new Error('Task not found')] does);
    - [M S A]: a state-and-exception monad, [S -> outcome A * S]: the state
      after a throw is kept, as the effects of a JavaScript function that
      ran before the [throw] persist; notation [x <- m ;; k] in [svc_scope];
    - generic lemmas on [list_find] (JavaScript [findIndex]/[find]),
      [filter] and [NoDup] that the services share, collected with the
      monad's equations in the hint databases [svc] and [svc_rw]. *)

From stdpp Require Export base list gmap strings sorting.
From Stdlib Require Export ZArith Lia.

Declare Scope svc_scope.
Delimit Scope svc_scope with svc.

(** ** The outcome of a call *)

Inductive outcome (A : Type) : Type :=
  | Ok (a : A)
  | Throw (msg : string).
Arguments Ok {A} a.
Arguments Throw {A} msg.

Definition is_ok {A} (o : outcome A) : bool :=
  match o with Ok _ => true | Throw _ => false end.

(** ** The state-and-exception monad *)

Definition M (S A : Type) : Type := S -> outcome A * S.

Definition ret {S A} (a : A) : M S A := fun s => (Ok a, s).

Definition throw {S A} (msg : string) : M S A := fun s => (Throw msg, s).

Definition bind {S A B} (m : M S A) (k : A -> M S B) : M S B :=
  fun s =>
    match m s with
    | (Ok a, s') => k a s'
    | (Throw e, s') => (Throw e, s')
    end.

Definition get {S} : M S S := fun s => (Ok s, s).

Definition put {S} (s : S) : M S unit := fun _ => (Ok tt, s).

Definition modify {S} (f : S -> S) : M S unit := fun s => (Ok tt, f s).

(** Run a computation and keep only its value or its error. *)
Definition eval {S A} (m : M S A) (s : S) : outcome A := fst (m s).
Definition exec {S A} (m : M S A) (s : S) : S := snd (m s).

Notation "x <- m ;; k" := (bind m (fun x => k))
  (at level 100, m at next level, k at level 200, right associativity) : svc_scope.
Notation "m ;;; k" := (bind m (fun _ => k))
  (at level 100, k at level 200, right associativity) : svc_scope.

Open Scope svc_scope.

(** A labelled transition relation iterated along a list of labels. *)
Inductive steps {S L : Type} (R : S -> L -> S -> Prop) : S -> list L -> S -> Prop :=
  | steps_nil s : steps R s [] s
  | steps_cons s l s' ls s'' : R s l s' -> steps R s' ls s'' -> steps R s (l :: ls) s''.

Lemma steps_app {S L} (R : S -> L -> S -> Prop) s ls1 s' ls2 s'' :
  steps R s ls1 s' -> steps R s' ls2 s'' -> steps R s (ls1 ++ ls2) s''.
Proof. induction 1; simpl; [done|]. intros Hst. econstructor; eauto. Qed.

(** ** Monad laws and evaluation equations *)

Section MonadLaws.
Context {S : Type}.

Lemma bind_ret_l {A B} (a : A) (k : A -> M S B) (s : S) :
    bind (ret a) k s = k a s.
  Proof. reflexivity. Qed.

Lemma bind_ret_r {A} (m : M S A) (s : S) : bind m ret s = m s.
  Proof. unfold bind, ret. by destruct (m s) as [[] ?]. Qed.

Lemma bind_assoc {A B C} (m : M S A) (k : A -> M S B) (h : B -> M S C) (s : S) :
    bind (bind m k) h s = bind m (fun a => bind (k a) h) s.
  Proof. unfold bind. by destruct (m s) as [[] ?]. Qed.

Lemma bind_throw {A B} (e : string) (k : A -> M S B) (s : S) :
    bind (throw e) k s = (Throw e, s).
  Proof. reflexivity. Qed.

Lemma bind_Ok {A B} (m : M S A) (k : A -> M S B) (s s' : S) (a : A) :
    m s = (Ok a, s') -> bind m k s = k a s'.
  Proof. unfold bind. by intros ->. Qed.

Lemma bind_Throw {A B} (m : M S A) (k : A -> M S B) (s s' : S) (e : string) :
    m s = (Throw e, s') -> bind m k s = (Throw e, s').
  Proof. unfold bind. by intros ->. Qed.
End MonadLaws.

Create HintDb svc.
Create Rewrite HintDb svc_rw.
#[export] Hint Rewrite @bind_ret_l @bind_assoc @bind_throw : svc_rw.

(** Unfold one layer of the monad in the goal. *)
Ltac svc_simpl :=
  repeat (unfold bind, ret, throw, get, put, modify, eval, exec in *; simpl in *).

(** ** JavaScript [Array.prototype.findIndex] and [find] *)

Section Find.
Context {A : Type} (P : A -> Prop) `{!∀ x, Decision (P x)}.

  (** [findIndex] as a JavaScript number: [-1] when nothing matches. *)
Definition findIndex (l : list A) : Z :=
    match list_find P l with
    | Some (i, _) => Z.of_nat i
    | None => (-1)%Z
    end.

Lemma findIndex_neg1 (l : list A) :
    findIndex l = (-1)%Z <-> Forall (fun x => ¬ P x) l.
  Proof.
    unfold findIndex. rewrite Forall_forall.
    destruct (list_find P l) as [[i x]|] eqn:E.
    - split; [lia|]. intros Hall.
      apply list_find_Some in E as (Hi & HP & _).
      exfalso. apply (Hall x); [by eapply list_elem_of_lookup_2|done].
    - apply list_find_None in E. rewrite Forall_forall in E. naive_solver.
  Qed.

Lemma findIndex_Some (l : list A) i x :
    list_find P l = Some (i, x) -> findIndex l = Z.of_nat i.
  Proof. unfold findIndex. by intros ->. Qed.
End Find.

(** ** Shared list lemmas *)

(** Filtering twice with the same predicate filters once. *)
Lemma filter_idemp {A} (P : A -> Prop) `{!∀ x, Decision (P x)} (l : list A) :
  filter P (filter P l) = filter P l.
Proof.
  induction l as [|x l IH]; [done|].
  rewrite filter_cons. case_decide as Hx.
  - by rewrite filter_cons_True, IH.
  - done.
Qed.

(** [NoDup] of a projection survives a filter. *)
Lemma NoDup_fmap_filter {A B} (f : A -> B) (P : A -> Prop)
    `{!∀ x, Decision (P x)} (l : list A) :
  NoDup (f <$> l) -> NoDup (f <$> filter P l).
Proof.
  induction l as [|x l IH]; [done|].
  rewrite fmap_cons, NoDup_cons. intros [Hx Hl].
  rewrite filter_cons. case_decide; [|by apply IH].
  rewrite fmap_cons, NoDup_cons. split; [|by apply IH].
  intros Hin. apply Hx. apply list_elem_of_fmap in Hin as (y & -> & Hy).
  apply list_elem_of_fmap. exists y. split; [done|].
  by apply list_elem_of_filter in Hy as [_ Hy].
Qed.

(** A property of every element survives a filter. *)
Lemma Forall_filter_sub {A} (P Q : A -> Prop) `{!∀ x, Decision (P x)} (l : list A) :
  Forall Q l -> Forall Q (filter P l).
Proof.
  rewrite !Forall_forall. intros HQ x Hx.
  apply list_elem_of_filter in Hx as [_ Hx]. by apply HQ.
Qed.

(** A filter no element passes is empty. *)
Lemma filter_none {A} (P : A -> Prop) `{!∀ x, Decision (P x)} (l : list A) :
  (∀ x, ¬ P x) -> filter P l = [].
Proof. intros Hn. induction l as [|x l IH]; [done|]. by rewrite filter_cons_False. Qed.

(** A filter every element passes keeps the list. *)
Lemma filter_all {A} (P : A -> Prop) `{!∀ x, Decision (P x)} (l : list A) :
  (∀ x, x ∈ l -> P x) -> filter P l = l.
Proof.
  induction l as [|x l IH]; intros Hl; [done|].
  rewrite filter_cons_True by (apply Hl; left). f_equal. apply IH. intros y Hy. apply Hl. by right.
Qed.

#[export] Hint Resolve NoDup_fmap_filter Forall_filter_sub : svc.
#[export] Hint Rewrite @filter_idemp : svc_rw.

Lemma sum_list_with_elem {A} (f : A -> nat) x l : x ∈ l -> f x <= sum_list_with f l.
Proof. induction 1; simpl; lia. Qed.

Lemma sum_list_with_length {A} (f : A -> nat) l :
  (∀ x, 1 <= f x) -> length l <= sum_list_with f l.
Proof. intros Hf. induction l as [|x l IH]; simpl; [lia|]. specialize (Hf x). lia. Qed.

(** ** Strings

    stdpp makes [String.append] ([+:+]) opaque to [simpl]; these are its
    equations. *)

Lemma str_app_cons x (a b : string) : String x a +:+ b = String x (a +:+ b).
Proof. reflexivity. Qed.
Lemma str_app_nil_l (a : string) : EmptyString +:+ a = a.
Proof. reflexivity. Qed.
Lemma str_app_assoc (a b c : string) : (a +:+ b) +:+ c = a +:+ (b +:+ c).
Proof. induction a as [|x a IH]; [done|]. rewrite !str_app_cons. by rewrite IH. Qed.
Lemma str_app_nil_r (a : string) : a +:+ EmptyString = a.
Proof. induction a as [|x a IH]; [done|]. rewrite str_app_cons. by rewrite IH. Qed.
Lemma str_length_app (a b : string) : String.length (a +:+ b) = String.length a + String.length b.
Proof. induction a as [|x a IH]; [done|]. rewrite str_app_cons. simpl. by rewrite IH. Qed.

Lemma substring_0_long (s : string) m : String.length s <= m -> String.substring 0 m s = s.
Proof.
  revert m. induction s as [|x s IH]; intros [|m] Hm; simpl in *; try done; [lia|].
  rewrite IH; [done|lia].
Qed.


(** ** Replacing by key

    [l.map(x => key(x) === k ? y : x)] replaces every element with key [k];
    when the keys are distinct it is the in-place write at the index
    [findIndex] returns. *)

Lemma insert_as_replace {A B} (key : A -> B) `{!EqDecision B} (l : list A) k i x y :
  NoDup (key <$> l) -> list_find (fun a => key a = k) l = Some (i, x) ->
  <[i := y]> l = (fun a => if decide (key a = k) then y else a) <$> l.
Proof.
  intros Hnd (Hi & Hx & _)%list_find_Some. apply list_eq. intros j.
  rewrite list_lookup_fmap. destruct (decide (i = j)) as [<-|Hij].
  - rewrite list_lookup_insert_eq by (eapply lookup_lt_Some; exact Hi).
    rewrite Hi. simpl. by rewrite decide_True.
  - rewrite list_lookup_insert_ne by done.
    destruct (l !! j) as [a|] eqn:Ha; [|done]. simpl. case_decide as Hk; [|done].
    exfalso. apply Hij. eapply NoDup_lookup; [exact Hnd| |].
    + by rewrite list_lookup_fmap, Hi.
    + rewrite list_lookup_fmap, Ha. simpl. by rewrite Hk, Hx.
Qed.

(** Replacing by a key no element has changes nothing. *)
Lemma replace_absent {A B} (key : A -> B) `{!EqDecision B} (l : list A) k y :
  Forall (fun a => key a ≠ k) l ->
  (fun a => if decide (key a = k) then y else a) <$> l = l.
Proof. induction 1 as [|a l Ha _ IH]; [done|]. by rewrite fmap_cons, decide_False, IH. Qed.

(** With distinct keys, [list_find] by the key of an element finds it at
    its index. *)
Lemma NoDup_key_find {A B} (key : A -> B) `{!EqDecision B} (l : list A) i x :
  NoDup (key <$> l) -> l !! i = Some x -> list_find (fun a => key a = key x) l = Some (i, x).
Proof.
  intros Hnd Hx. apply list_find_Some. split_and!; [done|done|].
  intros j y Hy Hj Hk. assert (j = i) by (eapply NoDup_lookup; [exact Hnd| |];
    rewrite list_lookup_fmap; [rewrite Hy; simpl; by rewrite Hk|by rewrite Hx]). lia.
Qed.

(** With distinct keys, at most one element has a given key. *)
Lemma NoDup_key_filter_length {A B} (key : A -> B) `{!EqDecision B} (l : list A) k :
  NoDup (key <$> l) -> length (filter (fun a => key a = k) l) <= 1.
Proof.
  induction l as [|x l IH]; [simpl; lia|]. rewrite fmap_cons, NoDup_cons. intros [Hx Hl].
  rewrite filter_cons. case_decide as Hk; [|by apply IH].
  destruct (filter (fun a => key a = k) l) as [|y r] eqn:Hf; [simpl; lia|].
  exfalso. assert (Hy : y ∈ filter (fun a => key a = k) l) by (rewrite Hf; left).
  apply list_elem_of_filter in Hy as [Hy Hyl]. apply Hx, list_elem_of_fmap.
  exists y. by rewrite Hy, Hk.
Qed.

(** With distinct keys, two elements with the same key are equal. *)
Lemma NoDup_key_elem_eq {A B} (key : A -> B) (l : list A) x y :
  NoDup (key <$> l) -> x ∈ l -> y ∈ l -> key x = key y -> x = y.
Proof.
  intros Hnd (i & Hi)%list_elem_of_lookup (j & Hj)%list_elem_of_lookup Hk.
  assert (i = j) as <-; [|congruence].
  eapply NoDup_lookup; [exact Hnd| |]; rewrite list_lookup_fmap; [by rewrite Hi|by rewrite Hj, Hk].
Qed.

(** An element of a list written at one index is the written value or an
    element of the list. *)
Lemma elem_of_insert_inv {A} (l : list A) i x y : y ∈ <[i := x]> l -> y = x ∨ y ∈ l.
Proof.
  intros (j & Hj)%list_elem_of_lookup. apply list_lookup_insert_Some in Hj as [(_ & -> & _)|(_ & Hj)].
  - by left.
  - right. by eapply list_elem_of_lookup_2.
Qed.

(** The same for the replacement by key. *)
Lemma elem_of_replace_inv {A B} (key : A -> B) `{!EqDecision B} (l : list A) k x y :
  y ∈ (fun a => if decide (key a = k) then x else a) <$> l -> y = x ∨ y ∈ l.
Proof. intros (a & -> & Ha)%list_elem_of_fmap. case_decide; [by left|by right]. Qed.
