(* ===== verification/Json.v ===== *)
(** * Json: the [JSON.stringify] / [JSON.parse] pair behind the task blob.

    [TaskService] (src/list/src/services/taskService.ts, lines 14-21) keeps
    the whole task collection as one string under the local-storage key
    ["tasks"], written by [JSON.stringify] and read back by [JSON.parse].
    These are platform functions, not code of the repository; they are
    modelled here as ECMA-404 / ECMA-262 specify them, on the values the
    store writes: [null], booleans, integral numbers, strings of 8-bit
    characters, arrays and objects (with their key order).

    - [stringify] prints with no whitespace and escapes strings the way
      [QuoteJSONString] does;
    - [parse] is a recursive-descent parser with fuel that accepts
      whitespace around every token; it returns [None] where [JSON.parse]
      throws a [SyntaxError];
    - the main theorems are the round trip [parse (stringify v) = Some v]
      and the adequacy of the parser's fuel on every input.

    Not covered: numbers with a fraction or an exponent (the store only
    writes integral millisecond timestamps) and [\u] escapes above
    [ÿ] (a JavaScript string has 16-bit code units, the model 8-bit
    characters); [parse] rejects both.  Integers are exact here, where
    JavaScript rounds those beyond [2^53] to the nearest double and
    [JSON.stringify] writes those from [10^21] on with an exponent: the
    model agrees with the code on safe integers, which the stored
    timestamps are (StoreShape.v, and IntegerText.v against the double
    model of NumberText.v). *)

From S2P Require Import Prelude.
From Stdlib Require Import Ascii String DecimalString DecimalPos DecimalZ.

Module Json.

Local Open Scope string_scope.

#[local] Set Warnings "-register-all".

Inductive json : Type :=
  | JNull
  | JBool (b : bool)
  | JNum (n : Z)
  | JStr (s : string)
  | JArr (xs : list json)
  | JObj (fs : list (string * json)).

(** The induction principle with hypotheses on the elements of arrays and
    the values of objects. *)
Section json_ind_strong.
Context (P : json -> Prop)
    (HNull : P JNull) (HBool : ∀ b, P (JBool b)) (HNum : ∀ n, P (JNum n))
    (HStr : ∀ s, P (JStr s))
    (HArr : ∀ xs, Forall P xs -> P (JArr xs))
    (HObj : ∀ fs, Forall (fun kv => P kv.2) fs -> P (JObj fs)).

Fixpoint json_ind_strong (v : json) : P v :=
    match v with
    | JNull => HNull
    | JBool b => HBool b
    | JNum n => HNum n
    | JStr s => HStr s
    | JArr xs =>
        HArr xs ((fix go (l : list json) : Forall P l :=
                    match l with
                    | [] => Forall_nil_2 _
                    | x :: l => Forall_cons_2 _ _ _ (json_ind_strong x) (go l)
                    end) xs)
    | JObj fs =>
        HObj fs ((fix go (l : list (string * json)) : Forall (fun kv => P kv.2) l :=
                    match l with
                    | [] => Forall_nil_2 _
                    | kv :: l => Forall_cons_2 _ _ _ (json_ind_strong kv.2) (go l)
                    end) fs)
    end.
End json_ind_strong.

(** ** Characters *)

Definition quote : ascii := "034"%char.
Definition backslash : ascii := "\"%char.

(** The lowercase hexadecimal digit of [n < 16]. *)
Definition hex_digit (n : nat) : ascii :=
  ascii_of_nat (if decide (n < 10) then 48 + n else 87 + n).

Definition hex_value (c : ascii) : option nat :=
  let n := nat_of_ascii c in
  if decide (48 <= n <= 57) then Some (n - 48)
  else if decide (97 <= n <= 102) then Some (n - 87)
  else if decide (65 <= n <= 70) then Some (n - 55)
  else None.

Definition is_ws (c : ascii) : bool :=
  bool_decide (c = " "%char ∨ c = "009"%char ∨ c = "010"%char ∨ c = "013"%char).

Definition is_num_char (c : ascii) : bool :=
  bool_decide (c = "-"%char ∨ 48 <= nat_of_ascii c <= 57).

(** ** [JSON.stringify] *)

(** [QuoteJSONString] on one character. *)
Definition escape_char (c : ascii) : string :=
  if decide (c = quote) then String backslash (String quote EmptyString)
  else if decide (c = backslash) then String backslash (String backslash EmptyString)
  else if decide (c = "008"%char) then "\b"
  else if decide (c = "012"%char) then "\f"
  else if decide (c = "010"%char) then "\n"
  else if decide (c = "013"%char) then "\r"
  else if decide (c = "009"%char) then "\t"
  else if decide (nat_of_ascii c < 32) then
    String backslash (String "u"%char (String "0"%char (String "0"%char
      (String (hex_digit (nat_of_ascii c / 16))
        (String (hex_digit (nat_of_ascii c mod 16)) EmptyString)))))
  else String c EmptyString.

Fixpoint escape (s : string) : string :=
  match s with
  | EmptyString => EmptyString
  | String c s => escape_char c +:+ escape s
  end.

Definition quote_string (s : string) : string :=
  String quote (escape s +:+ String quote EmptyString).

Definition print_number (n : Z) : string :=
  NilEmpty.string_of_int (Z.to_int n).

(** The comma-separated items of an array or an object. *)
Fixpoint sep_list {A} (pr : A -> string) (l : list A) : string :=
  match l with
  | [] => EmptyString
  | [x] => pr x
  | x :: l => pr x +:+ "," +:+ sep_list pr l
  end.

Fixpoint stringify (v : json) : string :=
  match v with
  | JNull => "null"
  | JBool true => "true"
  | JBool false => "false"
  | JNum n => print_number n
  | JStr s => quote_string s
  | JArr xs => "[" +:+ sep_list stringify xs +:+ "]"
  | JObj fs =>
      "{" +:+ sep_list (fun '(k, x) => quote_string k +:+ ":" +:+ stringify x) fs +:+ "}"
  end.

Example stringify_array :
  stringify (JArr [JStr (String quote "b"); JBool false; JNum (-12)])
  = "[" +:+ String quote (String backslash (String quote (String "b"%char
      (String quote ",false,-12]")))).
Proof. reflexivity. Qed.

(** ** [JSON.parse] *)

Fixpoint skip_ws (s : string) : string :=
  match s with
  | String c r => if is_ws c then skip_ws r else s
  | EmptyString => EmptyString
  end.

(** The characters of a string literal after its opening quote, up to and
    including the closing quote; escapes decoded, raw control characters
    refused. *)
Fixpoint parse_chars (s : string) : option (string * string) :=
  match s with
  | EmptyString => None
  | String c r =>
      if decide (c = quote) then Some (EmptyString, r)
      else if decide (c = backslash) then
        match r with
        | String e r' =>
            let cont (d : ascii) :=
              match parse_chars r' with
              | Some (t, rest) => Some (String d t, rest)
              | None => None
              end in
            if decide (e = quote) then cont quote
            else if decide (e = backslash) then cont backslash
            else if decide (e = "/"%char) then cont "/"%char
            else if decide (e = "b"%char) then cont "008"%char
            else if decide (e = "f"%char) then cont "012"%char
            else if decide (e = "n"%char) then cont "010"%char
            else if decide (e = "r"%char) then cont "013"%char
            else if decide (e = "t"%char) then cont "009"%char
            else if decide (e = "u"%char) then
              match r' with
              | String h1 (String h2 (String h3 (String h4 r''))) =>
                  match hex_value h1, hex_value h2, hex_value h3, hex_value h4 with
                  | Some 0, Some 0, Some d3, Some d4 =>
                      match parse_chars r'' with
                      | Some (t, rest) => Some (String (ascii_of_nat (16 * d3 + d4)) t, rest)
                      | None => None
                      end
                  | _, _, _, _ => None
                  end
              | _ => None
              end
            else None
        | EmptyString => None
        end
      else if decide (nat_of_ascii c < 32) then None
      else match parse_chars r with
           | Some (t, rest) => Some (String c t, rest)
           | None => None
           end
  end.

Fixpoint take_num (s : string) : string * string :=
  match s with
  | String c r =>
      if is_num_char c then let '(t, rest) := take_num r in (String c t, rest)
      else (EmptyString, s)
  | EmptyString => (EmptyString, EmptyString)
  end.

#[local] Instance uint_eq_dec : EqDecision Decimal.uint.
Proof. solve_decision. Defined.
#[local] Instance int_eq_dec : EqDecision Decimal.int.
Proof. solve_decision. Defined.

(** A JSON integer: an optional minus sign and digits without a leading
    zero ([-0] included). *)
Definition json_int (d : Decimal.int) : bool :=
  bool_decide (Decimal.norm d = d ∨ d = Decimal.Neg (Decimal.D0 Decimal.Nil)).

Definition parse_number (s : string) : option (json * string) :=
  let '(t, rest) := take_num s in
  match NilEmpty.int_of_string t with
  | Some d => if json_int d then Some (JNum (Z.of_int d), rest) else None
  | None => None
  end.

Definition parse_literal (lit : string) (v : json) (s : string) : option (json * string) :=
  if String.prefix lit s then Some (v, substring (String.length lit) (String.length s) s)
  else None.

(** The punctuation [c], after optional whitespace. *)
Definition expect (c : ascii) (s : string) : option string :=
  match skip_ws s with
  | String d r => if decide (d = c) then Some r else None
  | EmptyString => None
  end.

(** The items of an array after its [[], each parsed by [p], up to the
    closing []]; [g] bounds the number of items. *)
Fixpoint parse_elems (p : string -> option (json * string)) (g : nat) (s : string)
    : option (list json * string) :=
  match g with
  | 0 => None
  | S g =>
      match p s with
      | Some (x, rest) =>
          match expect "," rest with
          | Some rest' =>
              match parse_elems p g rest' with
              | Some (xs, rest'') => Some (x :: xs, rest'')
              | None => None
              end
          | None =>
              match expect "]" rest with
              | Some rest' => Some ([x], rest')
              | None => None
              end
          end
      | None => None
      end
  end.

(** The members [key : value] of an object after its [{], up to the
    closing [}]. *)
Fixpoint parse_members (p : string -> option (json * string)) (g : nat) (s : string)
    : option (list (string * json) * string) :=
  match g with
  | 0 => None
  | S g =>
      match expect quote s with
      | Some r1 =>
          match parse_chars r1 with
          | Some (k, r2) =>
              match expect ":" r2 with
              | Some r3 =>
                  match p r3 with
                  | Some (x, rest) =>
                      match expect "," rest with
                      | Some rest' =>
                          match parse_members p g rest' with
                          | Some (fs, rest'') => Some ((k, x) :: fs, rest'')
                          | None => None
                          end
                      | None =>
                          match expect "}" rest with
                          | Some rest' => Some ([(k, x)], rest')
                          | None => None
                          end
                      end
                  | None => None
                  end
              | None => None
              end
          | None => None
          end
      | None => None
      end
  end.

Fixpoint parse_value (fuel : nat) (s : string) : option (json * string) :=
  match fuel with
  | 0 => None
  | S f =>
      match skip_ws s with
      | EmptyString => None
      | String c r as s' =>
          if decide (c = "n"%char) then parse_literal "null" JNull s'
          else if decide (c = "t"%char) then parse_literal "true" (JBool true) s'
          else if decide (c = "f"%char) then parse_literal "false" (JBool false) s'
          else if decide (c = quote) then
            match parse_chars r with
            | Some (t, rest) => Some (JStr t, rest)
            | None => None
            end
          else if decide (c = "["%char) then
            match expect "]" r with
            | Some rest => Some (JArr [], rest)
            | None => option_map (fun '(xs, rest) => (JArr xs, rest)) (parse_elems (parse_value f) f r)
            end
          else if decide (c = "{"%char) then
            match expect "}" r with
            | Some rest => Some (JObj [], rest)
            | None => option_map (fun '(fs, rest) => (JObj fs, rest)) (parse_members (parse_value f) f r)
            end
          else if is_num_char c then parse_number s'
          else None
      end
  end.

(** [JSON.parse]: one value, surrounded by whitespace only. *)
Definition parse (s : string) : option json :=
  match parse_value (S (String.length s)) s with
  | Some (v, rest) => if decide (skip_ws rest = EmptyString) then Some v else None
  | None => None
  end.

Example parse_object :
  parse (" { " +:+ quote_string "id" +:+ " : " +:+ quote_string "aA" +:+ " , "
         +:+ quote_string "xs" +:+ " : [ 1 , -20 , true , null ] } ")
  = Some (JObj [("id", JStr "aA"); ("xs", JArr [JNum 1; JNum (-20); JBool true; JNull])]).
Proof. reflexivity. Qed.

Example parse_rejects_leading_zero : parse "[01]" = None.
Proof. reflexivity. Qed.

(** ** The round trip [JSON.parse (JSON.stringify v) = v] *)

#[local] Arguments String.append : simpl nomatch.

Definition stops (rest : string) : Prop :=
  match rest with String c _ => is_num_char c = false | EmptyString => True end.

Lemma parse_literal_app lit v rest :
  parse_literal lit v (lit +:+ rest) = Some (v, rest).
Proof.
  unfold parse_literal.
  assert (Hp : String.prefix lit (lit +:+ rest) = true).
  { induction lit as [|x lit IH]; [by destruct rest|].
    rewrite str_app_cons. simpl. destruct (ascii_dec x x); [done|congruence]. }
  rewrite Hp. f_equal. f_equal.
  assert (Hs : ∀ m, substring (String.length lit) m (lit +:+ rest) = substring 0 m rest).
  { clear Hp. intros m. induction lit as [|x lit IH]; [done|]. rewrite str_app_cons. simpl. exact IH. }
  rewrite Hs. apply substring_0_long. rewrite str_length_app. lia.
Qed.

Lemma hex_value_digit k : k < 16 -> hex_value (hex_digit k) = Some k.
Proof. intros. do 16 (destruct k as [|k]; [reflexivity|]). lia. Qed.

Lemma parse_chars_escape_char c r t rest :
  parse_chars r = Some (t, rest) ->
  parse_chars (escape_char c +:+ r) = Some (String c t, rest).
Proof.
  intros H. unfold escape_char.
  do 7 (case_decide; [subst; cbn; by rewrite H|]).
  case_decide as Hlt.
  - assert (nat_of_ascii c / 16 < 16) by (apply Nat.Div0.div_lt_upper_bound; lia).
    assert (nat_of_ascii c mod 16 < 16) by (apply Nat.mod_upper_bound; lia).
    pose proof (Nat.div_mod_eq (nat_of_ascii c) 16) as Hdm.
    remember (nat_of_ascii c / 16) as hi. remember (nat_of_ascii c mod 16) as lo.
    simpl. rewrite !hex_value_digit by done. rewrite H.
    replace (ascii_of_nat _) with c; [done|].
    rewrite <- (ascii_nat_embedding c) at 1. f_equal. lia.
  - cbn. rewrite decide_False by done. rewrite decide_False by done.
    rewrite decide_False by done. by rewrite H.
Qed.

Lemma parse_chars_escape s rest :
  parse_chars (escape s +:+ String quote rest) = Some (s, rest).
Proof.
  induction s as [|c s IH]; [done|].
  simpl. rewrite str_app_assoc. by apply parse_chars_escape_char.
Qed.

Lemma quote_string_app s rest :
  quote_string s +:+ rest = String quote (escape s +:+ String quote rest).
Proof. unfold quote_string. rewrite str_app_cons, str_app_assoc. done. Qed.

(** Numbers *)
Lemma take_num_uint d rest :
  stops rest -> take_num (NilEmpty.string_of_uint d +:+ rest) = (NilEmpty.string_of_uint d, rest).
Proof.
  intros Hs. induction d; simpl; try (rewrite IHd; done).
  destruct rest as [|c r]; simpl in *; [done|]. by rewrite Hs.
Qed.

Lemma take_num_int d rest :
  stops rest -> take_num (NilEmpty.string_of_int d +:+ rest) = (NilEmpty.string_of_int d, rest).
Proof.
  intros Hs. destruct d as [d|d]; simpl; [by apply take_num_uint|].
  by rewrite take_num_uint.
Qed.

Lemma json_int_to_int n : json_int (Z.to_int n) = true.
Proof.
  unfold json_int. apply bool_decide_eq_true. left.
  by rewrite <- DecimalZ.to_of, DecimalZ.of_to.
Qed.

Lemma parse_number_print n rest :
  stops rest -> parse_number (print_number n +:+ rest) = Some (JNum n, rest).
Proof.
  intros Hs. unfold parse_number, print_number.
  rewrite take_num_int by done. rewrite NilEmpty.isi, json_int_to_int.
  by rewrite DecimalZ.of_to.
Qed.

Lemma print_number_cons n :
  ∃ c t, print_number n = String c t ∧ is_num_char c = true.
Proof.
  unfold print_number. destruct n as [|p|p]; simpl.
  - by eexists _, _; split; [reflexivity|].
  - pose proof (Unsigned.to_uint_nonnil p) as Hnn.
    destruct (Pos.to_uint p); simpl; try done; by eexists _, _; split; [reflexivity|].
  - by eexists _, _; split; [reflexivity|].
Qed.

Lemma parse_value_num_start f c t :
  is_num_char c = true -> parse_value (S f) (String c t) = parse_number (String c t).
Proof.
  intros Hc. pose proof Hc as Hc'. apply bool_decide_eq_true in Hc' as [->|Hr]; [reflexivity|].
  simpl. unfold is_ws. rewrite bool_decide_eq_false_2
    by (intros [-> | [-> | [-> | ->]]]; cbv in Hr; lia).
  rewrite !decide_False; [by rewrite Hc|..]; intros ->; cbv in Hr; lia.
Qed.

Fixpoint json_size (v : json) : nat :=
  match v with
  | JArr xs => S (sum_list_with json_size xs)
  | JObj fs => S (sum_list_with (fun kv => json_size kv.2) fs)
  | _ => 1
  end.

Lemma json_size_pos v : 1 <= json_size v.
Proof. destruct v; simpl; lia. Qed.

Lemma expect_hit c r : is_ws c = false -> expect c (String c EmptyString +:+ r) = Some r.
Proof. intros Hw. unfold expect. simpl. rewrite Hw. by rewrite decide_True. Qed.

Lemma expect_miss c d r : is_ws d = false -> d ≠ c -> expect c (String d r) = None.
Proof. intros Hw Hd. unfold expect. simpl. rewrite Hw. by rewrite decide_False. Qed.

Lemma stringify_head v :
  ∃ c t, stringify v = String c t ∧ is_ws c = false ∧ c ≠ "]"%char ∧ c ≠ "}"%char
         ∧ c ≠ ","%char.
Proof.
  destruct v as [|[]|n|s|xs|fs]; try (by eexists _, _; split; [reflexivity|]).
  destruct (print_number_cons n) as (c & t & Hp & Hc). exists c, t. simpl. rewrite Hp.
  apply bool_decide_eq_true in Hc as [->|Hr]; [done|].
  split_and!; [done|..]; [unfold is_ws; apply bool_decide_eq_false_2;
    intros [-> | [-> | [-> | ->]]]| intros ->..]; cbv in Hr; lia.
Qed.

Lemma sep_list_cons_app {A} (pr : A -> string) x l r :
  ∃ r', sep_list pr (x :: l) +:+ r = pr x +:+ r'.
Proof. destruct l; simpl; [by exists r|]. eexists. by rewrite !str_app_assoc. Qed.

Lemma parse_elems_sep (p : string -> option (json * string)) xs g rest :
  xs ≠ [] -> List.length xs <= g ->
  Forall (fun x => ∀ r, stops r -> p (stringify x +:+ r) = Some (x, r)) xs ->
  parse_elems p g (sep_list stringify xs +:+ "]" +:+ rest) = Some (xs, rest).
Proof.
  revert g. induction xs as [|x [|y l] IH]; intros [|g] Hne Hlen Hall; simpl in Hlen; try lia; [done|done|..].
  - apply Forall_cons in Hall as [Hx _]. simpl.
    rewrite Hx by reflexivity. done.
  - apply Forall_cons in Hall as [Hx Hall].
    change (sep_list stringify (x :: y :: l))
      with (stringify x +:+ "," +:+ sep_list stringify (y :: l)).
    rewrite !str_app_assoc. cbn [parse_elems]. rewrite Hx by reflexivity.
    rewrite expect_hit by reflexivity.
    rewrite IH; [done|done|simpl in *; lia|done].
Qed.

Lemma expect_hit' c r : is_ws c = false -> expect c (String c r) = Some r.
Proof. apply expect_hit. Qed.

Lemma parse_members_sep (p : string -> option (json * string)) pr fs g rest :
  (∀ k x, pr (k, x) = quote_string k +:+ ":" +:+ stringify x) ->
  fs ≠ [] -> List.length fs <= g ->
  Forall (fun kv => ∀ r, stops r -> p (stringify kv.2 +:+ r) = Some (kv.2, r)) fs ->
  parse_members p g (sep_list pr fs +:+ "}" +:+ rest) = Some (fs, rest).
Proof.
  intros Hpr. revert g.
  induction fs as [|[k x] [|[k' y] l] IH]; intros [|g] Hne Hlen Hall; simpl in Hlen;
    try lia; [done|done|..].
  - apply Forall_cons in Hall as [Hx _]. simpl in Hx.
    change (sep_list pr [(k, x)]) with (pr (k, x)). rewrite Hpr.
    rewrite !str_app_assoc, quote_string_app. cbn [parse_members].
    rewrite expect_hit', parse_chars_escape, expect_hit, Hx by reflexivity.
    simpl. done.
  - apply Forall_cons in Hall as [Hx Hall]. simpl in Hx.
    change (sep_list pr ((k, x) :: (k', y) :: l))
      with (pr (k, x) +:+ "," +:+ sep_list pr ((k', y) :: l)).
    rewrite Hpr, !str_app_assoc, quote_string_app. cbn [parse_members].
    rewrite expect_hit', parse_chars_escape, expect_hit, Hx by reflexivity.
    rewrite expect_hit by reflexivity.
    rewrite IH; [done|done|simpl in *; lia|done].
Qed.

Lemma parse_value_open_arr f r :
  parse_value (S f) (String "[" r) =
  match expect "]" r with
  | Some rest => Some (JArr [], rest)
  | None => option_map (fun '(xs, rest) => (JArr xs, rest)) (parse_elems (parse_value f) f r)
  end.
Proof. reflexivity. Qed.

Lemma parse_value_open_obj f r :
  parse_value (S f) (String "{" r) =
  match expect "}" r with
  | Some rest => Some (JObj [], rest)
  | None => option_map (fun '(fs, rest) => (JObj fs, rest)) (parse_members (parse_value f) f r)
  end.
Proof. reflexivity. Qed.

Lemma expect_stringify c v r :
  c = "]"%char ∨ c = "}"%char -> expect c (stringify v +:+ r) = None.
Proof.
  intros Hc. destruct (stringify_head v) as (d & t & -> & Hw & H1 & H2 & _).
  rewrite str_app_cons. apply expect_miss; [done|]. intros ->. by destruct Hc as [-> | ->].
Qed.

Lemma parse_value_stringify v : ∀ fuel rest,
  json_size v < fuel -> stops rest ->
  parse_value fuel (stringify v +:+ rest) = Some (v, rest).
Proof.
  induction v as [| [] | n | s | xs IH | fs IH] using json_ind_strong;
    intros [|f] rest Hf Hs; simpl in Hf; try lia.
  - rewrite <- (parse_literal_app "null" JNull rest). reflexivity.
  - rewrite <- (parse_literal_app "true" (JBool true) rest). reflexivity.
  - rewrite <- (parse_literal_app "false" (JBool false) rest). reflexivity.
  - destruct (print_number_cons n) as (c & t & Hp & Hc). cbn [stringify].
    rewrite Hp, str_app_cons, parse_value_num_start by done.
    by rewrite <- str_app_cons, <- Hp, parse_number_print.
  - cbn [stringify]. rewrite quote_string_app. simpl. by rewrite parse_chars_escape.
  - destruct xs as [|x l]; [reflexivity|].
    cbn [stringify]. rewrite !str_app_assoc, str_app_cons, str_app_nil_l, parse_value_open_arr.
    destruct (sep_list_cons_app stringify x l ("]" +:+ rest)) as [r' Hr'].
    rewrite Hr', expect_stringify by auto. rewrite <- Hr'.
    rewrite parse_elems_sep; [done|done|..].
    + pose proof (sum_list_with_length json_size (x :: l) json_size_pos). lia.
    + rewrite Forall_forall in IH |- *. intros y Hin r Hr. apply IH; [done| |done].
      pose proof (sum_list_with_elem json_size y (x :: l) Hin). lia.
  - destruct fs as [|[k x] l]; [reflexivity|].
    cbn [stringify]. set (pr := λ '(k, x), quote_string k +:+ ":" +:+ stringify x).
    rewrite !str_app_assoc, str_app_cons, str_app_nil_l, parse_value_open_obj.
    assert (E : expect "}" (sep_list pr ((k, x) :: l) +:+ "}" +:+ rest) = None).
    { destruct (sep_list_cons_app pr (k, x) l ("}" +:+ rest)) as [r' ->].
      unfold pr. rewrite str_app_assoc, quote_string_app. by apply expect_miss. }
    rewrite E, parse_members_sep; [done|done|done|..].
    + pose proof (sum_list_with_length (λ kv : string * json, json_size kv.2) ((k, x) :: l)
        (λ kv, json_size_pos kv.2)). lia.
    + rewrite Forall_forall in IH |- *. intros kv Hin r Hr. apply IH; [done| |done].
      pose proof (sum_list_with_elem (λ kv : string * json, json_size kv.2) kv _ Hin).
      simpl in *. lia.
Qed.

Lemma sep_list_length {A} (pr : A -> string) (f : A -> nat) l :
  Forall (fun x => f x <= String.length (pr x)) l ->
  sum_list_with f l <= String.length (sep_list pr l).
Proof.
  induction l as [|x l IH]; intros Hall; [simpl; lia|].
  apply Forall_cons in Hall as [Hx Hall]. destruct l as [|y l]; [simpl; lia|].
  change (sep_list pr (x :: y :: l)) with (pr x +:+ "," +:+ sep_list pr (y :: l)).
  change (sum_list_with f (x :: y :: l)) with (f x + sum_list_with f (y :: l)).
  rewrite !str_length_app. specialize (IH Hall). change (String.length ",") with 1. lia.
Qed.

Lemma json_size_le_length v : json_size v <= String.length (stringify v).
Proof.
  induction v as [| [] | n | s | xs IH | fs IH] using json_ind_strong;
    cbn [stringify json_size]; try (simpl; lia).
  - destruct (print_number_cons n) as (c & t & -> & _). simpl. lia.
  - rewrite !str_length_app. pose proof (sep_list_length stringify json_size xs IH).
    cbn [String.length]. lia.
  - set (pr := λ '(k, x), quote_string k +:+ ":" +:+ stringify x).
    assert (Forall (fun kv => json_size kv.2 <= String.length (pr kv)) fs).
    { eapply Forall_impl; [apply IH|]. intros [k x] Hk. simpl in *.
      rewrite !str_length_app. simpl. lia. }
    rewrite !str_length_app. pose proof (sep_list_length _ _ fs H).
    cbn [String.length]. lia.
Qed.

Lemma parse_stringify_eq v : parse (stringify v) = Some v.
Proof.
  unfold parse. rewrite <- (str_app_nil_r (stringify v)) at 2.
  rewrite parse_value_stringify; [done| |done].
  pose proof (json_size_le_length v). lia.
Qed.

(** C18: [JSON.parse] inverts [JSON.stringify]: every value the printer
    writes, the parser reads back as the same value, with the fuel
    [1 + length] the parser is given. *)
Theorem parse_stringify v : parse (stringify v) = Some v.
Proof. apply parse_stringify_eq. Qed.

(** ** The fuel of [parse] is always enough

    Every step of the parser consumes input ([parse_value_length]), so
    the nesting depth and the number of items are bounded by the length
    of the text, and any fuel above it gives the same answer
    ([parse_value_fuel_enough]): on every string, printed or not, the
    model returns what the unbounded parser returns. *)

Local Abbreviation len := String.length.

(** ** Every step consumes input *)

Lemma skip_ws_length s : len (skip_ws s) <= len s.
Proof. induction s as [|c s IH]; simpl; [lia|]. destruct (is_ws c); simpl; lia. Qed.

Lemma expect_length c s r : expect c s = Some r -> len r < len s.
Proof.
  unfold expect. pose proof (skip_ws_length s).
  destruct (skip_ws s) as [|d t]; [done|]. simpl in *. case_decide; [|done].
  intros [= <-]. lia.
Qed.

Lemma parse_chars_length s t rest : parse_chars s = Some (t, rest) -> len rest < len s.
Proof.
  revert t rest. induction s as [s IH] using (induction_ltof1 _ len). unfold ltof in IH.
  intros t rest. destruct s as [|c r]; simpl; [done|].
  repeat (case_decide || case_match); intros; simplify_eq/=;
    repeat match goal with
    | H : parse_chars ?x = Some _ |- _ =>
        let Hl := fresh in pose proof (IH x ltac:(simpl; lia) _ _ H) as Hl; clear H
    end; simpl in *; lia.
Qed.

Lemma take_num_length s t rest : take_num s = (t, rest) -> len rest <= len s.
Proof.
  revert t rest. induction s as [|c s IH]; intros t rest; simpl; [intros [= _ <-]; simpl; lia|].
  destruct (is_num_char c); [|intros [= _ <-]; simpl; lia].
  destruct (take_num s) as [t' rest'] eqn:Ht. intros [= _ <-]. specialize (IH _ _ eq_refl). lia.
Qed.

Lemma parse_number_length c r v rest :
  is_num_char c = true -> parse_number (String c r) = Some (v, rest) -> len rest < S (len r).
Proof.
  intros Hc. unfold parse_number. simpl. rewrite Hc.
  destruct (take_num r) as [t rest'] eqn:Ht. apply take_num_length in Ht.
  repeat case_match; intros; simplify_eq/=; lia.
Qed.

Lemma substring_length n m s : len (String.substring n m s) <= len s - n.
Proof.
  revert n m. induction s as [|c s IH]; intros [|n] m; simpl.
  - destruct m; simpl; lia.
  - lia.
  - destruct m; simpl; [lia|]. specialize (IH 0 m). lia.
  - specialize (IH n m). lia.
Qed.

Lemma prefix_length lit s : String.prefix lit s = true -> len lit <= len s.
Proof.
  revert s. induction lit as [|c lit IH]; intros [|d s]; simpl; try (intros; lia); try done.
  destruct (ascii_dec c d); [|done]. intros H. specialize (IH s H). lia.
Qed.

Lemma parse_literal_length lit v s w rest :
  lit ≠ EmptyString -> parse_literal lit v s = Some (w, rest) -> len rest < len s.
Proof.
  unfold parse_literal. intros Hl. destruct (String.prefix lit s) eqn:Hp; [|done].
  intros [= _ <-]. pose proof (substring_length (len lit) (len s) s).
  apply prefix_length in Hp. destruct lit; [done|]. simpl in *. lia.
Qed.

Section Items.
Context (p : string -> option (json * string)).
Hypothesis Hp : ∀ s x rest, p s = Some (x, rest) -> len rest < len s.

Lemma parse_elems_length g s xs rest : parse_elems p g s = Some (xs, rest) -> len rest < len s.
Proof.
  revert s xs rest. induction g as [|g IH]; intros s xs rest; simpl; [done|].
  destruct (p s) as [[x r1]|] eqn:H1; [|done]. apply Hp in H1.
  destruct (expect "," r1) as [r2|] eqn:H2.
  - apply expect_length in H2. destruct (parse_elems p g r2) as [[xs' r3]|] eqn:H3; [|done].
    intros [= _ <-]. apply IH in H3. lia.
  - destruct (expect "]" r1) as [r2|] eqn:H3; [|done]. apply expect_length in H3.
    intros [= _ <-]. lia.
Qed.

Lemma parse_members_length g s fs rest : parse_members p g s = Some (fs, rest) -> len rest < len s.
Proof.
  revert s fs rest. induction g as [|g IH]; intros s fs rest; simpl; [done|].
  repeat case_match; intros; simplify_eq;
    repeat match goal with
    | H : expect _ _ = Some _ |- _ => apply expect_length in H
    | H : parse_chars _ = Some _ |- _ => apply parse_chars_length in H
    | H : p _ = Some _ |- _ => apply Hp in H
    | H : parse_members p g _ = Some _ |- _ => apply IH in H
    end; lia.
Qed.
End Items.

Lemma parse_value_length n s v rest : parse_value n s = Some (v, rest) -> len rest < len s.
Proof.
  revert s v rest. induction n as [|n IH]; intros s v rest; simpl; [done|].
  pose proof (skip_ws_length s) as Hsk. destruct (skip_ws s) as [|c r] eqn:Hs; [done|].
  repeat case_decide; subst.
  - intros Hl%parse_literal_length; [lia|done].
  - intros Hl%parse_literal_length; [lia|done].
  - intros Hl%parse_literal_length; [lia|done].
  - destruct (parse_chars r) as [[t r']|] eqn:Hc; [|done].
    apply parse_chars_length in Hc. intros [= _ <-]. simpl in *. lia.
  - destruct (expect "]" r) as [r'|] eqn:He.
    + apply expect_length in He. intros [= _ <-]. simpl in *. lia.
    + destruct (parse_elems _ n r) as [[xs r']|] eqn:Hl; [|done].
      apply parse_elems_length in Hl; [|exact IH]. intros [= _ <-]. simpl in *. lia.
  - destruct (expect "}" r) as [r'|] eqn:He.
    + apply expect_length in He. intros [= _ <-]. simpl in *. lia.
    + destruct (parse_members _ n r) as [[fs r']|] eqn:Hl; [|done].
      apply parse_members_length in Hl; [|exact IH]. intros [= _ <-]. simpl in *. lia.
  - destruct (is_num_char c) eqn:Hn; [|done].
    intros Hn'. apply parse_number_length in Hn'; [|done]. simpl in *. lia.
Qed.
(** ** More fuel gives the same answer *)

Section Agree.
Context (p p' : string -> option (json * string)).
Hypothesis Hp : ∀ s x rest, p s = Some (x, rest) -> len rest < len s.

Lemma parse_elems_agree g g' r :
  (∀ s, len s <= len r -> p s = p' s) -> len r < g -> len r < g' ->
  parse_elems p g r = parse_elems p' g' r.
Proof.
  revert g' r. induction g as [|g IH]; intros [|g'] r Hag Hg Hg'; try lia. simpl.
  rewrite <- (Hag r) by lia. destruct (p r) as [[x r1]|] eqn:H1; [|done].
  apply Hp in H1. destruct (expect "," r1) as [r2|] eqn:H2; [|done].
  apply expect_length in H2. rewrite (IH g' r2); [done| |lia|lia].
  intros s Hs. apply Hag. lia.
Qed.

Lemma parse_members_agree g g' r :
  (∀ s, len s <= len r -> p s = p' s) -> len r < g -> len r < g' ->
  parse_members p g r = parse_members p' g' r.
Proof.
  revert g' r. induction g as [|g IH]; intros [|g'] r Hag Hg Hg'; try lia. simpl.
  destruct (expect quote r) as [r1|] eqn:H1; [|done]. apply expect_length in H1.
  destruct (parse_chars r1) as [[k r2]|] eqn:H2; [|done]. apply parse_chars_length in H2.
  destruct (expect ":" r2) as [r3|] eqn:H3; [|done]. apply expect_length in H3.
  rewrite <- (Hag r3) by lia. destruct (p r3) as [[x r4]|] eqn:H4; [|done].
  apply Hp in H4. destruct (expect "," r4) as [r5|] eqn:H5; [|done].
  apply expect_length in H5. rewrite (IH g' r5); [done| |lia|lia].
  intros s Hs. apply Hag. lia.
Qed.
End Agree.

Lemma parse_value_fuel n : ∀ m s, len s < n -> len s < m -> parse_value n s = parse_value m s.
Proof.
  induction n as [|n IH]; intros [|m] s Hn Hm; try lia. simpl.
  pose proof (skip_ws_length s) as Hsk. destruct (skip_ws s) as [|c r] eqn:Hs; [done|].
  simpl in Hsk. assert (Hag : ∀ s', len s' <= len r -> parse_value n s' = parse_value m s')
    by (intros s' Hs'; apply IH; lia).
  repeat case_decide; try done.
  - destruct (expect "]" r); [done|]. f_equal.
    apply parse_elems_agree; [apply parse_value_length|exact Hag|lia|lia].
  - destruct (expect "}" r); [done|]. f_equal.
    apply parse_members_agree; [apply parse_value_length|exact Hag|lia|lia].
Qed.

(** [Json.parse]'s fuel is enough: [parse_value] with any fuel
    above the length of the text gives the answer it gives with
    [1 + length s], the fuel [Json.parse] uses; no input is rejected for
    lack of fuel. *)
Theorem parse_value_fuel_enough n s :
  len s < n -> parse_value n s = parse_value (S (len s)) s.
Proof. intros Hn. apply parse_value_fuel; lia. Qed.
End Json.

Lemma parse_value_fuel_enough_witness :
  String.length "[1,[2]]" < 100 ∧
  Json.parse_value 100 "[1,[2]]" = Json.parse_value (S (String.length "[1,[2]]")) "[1,[2]]".
Proof.
  assert (Hl : String.length "[1,[2]]" < 100) by (simpl; lia).
  split; [exact Hl|]. exact (Json.parse_value_fuel_enough 100 _ Hl).
Defined.
