(* ===== verification/JsNumber.v ===== *)
(** * JsNumber: the Number values of the task blob, as IEEE doubles.

    [JSON.parse] (src/list/src/services/taskService.ts, line 16) reads a
    number token as the Number value nearest to its decimal value, and
    [JSON.stringify] (line 20) writes a Number as [Number::toString]
    does.  The timestamps [Date.now()] returns (lines 32-33, 49) are such
    Numbers.  This file models the Numbers themselves:

    - [double]: a finite double as its sign, integral significand [m] and
      exponent [e] (value [m * 2^e]), in the canonical form of IEEE 754
      binary64 ([canonical]: [m < 2^53], [-1074 <= e <= 971], and
      [m >= 2^52] unless the double is subnormal), or an infinity;
    - [round]: the double nearest to a positive rational [a / b], ties to
      an even significand, an infinity past the largest double: the
      rounding ECMA-262 prescribes for the value of a numeric literal
      (V8 rounds every literal correctly, which is what is modelled);
    - the lemmas that [round] depends only on the value [a / b]
      ([round_pos_eqv]) and is exact on doubles ([round_exact]), which
      NumberText.v uses for the round trip of [JSON.stringify] and
      [JSON.parse] on Numbers. *)

From S2P Require Import Prelude.

Module JsNumber.

Local Open Scope Z_scope.

Inductive double : Type :=
  | Fin (neg : bool) (m e : Z)
  | Inf (neg : bool).

#[export] Instance double_eq_dec : EqDecision double.
Proof. solve_decision. Defined.

Definition emin : Z := -1074.
Definition emax : Z := 971.

(** The binary64 encoding: one representation per double ([+0] and [-0]
    are two doubles, as in IEEE 754). *)
Definition canonical (x : double) : bool :=
  match x with
  | Fin _ m e =>
      (0 <=? m) && (m <? 2^53) && (emin <=? e) && (e <=? emax) && ((2^52 <=? m) || (e =? emin))
  | Inf _ => true
  end.

(** [m * 2^e] as a fraction [a / b]. *)
Definition val2 (m e : Z) : Z * Z :=
  if 0 <=? e then (m * 2^e, 1) else (m, 2^(-e)).

(** [a / b >= r^k], for [b > 0] and any integer [k]. *)
Definition gep (r a b k : Z) : bool :=
  if 0 <=? k then b * r^k <=? a else b <=? a * r^(-k).

(** The exponent [e] with [2^52 <= a / b / 2^e < 2^53]. *)
Definition expo (a b : Z) : Z :=
  let l := Z.log2 a - Z.log2 b in
  (if gep 2 a b l then l else l - 1) - 52.

(** [a / b / 2^e] as a fraction. *)
Definition scale2 (a b e : Z) : Z * Z :=
  if 0 <=? e then (a, b * 2^e) else (a * 2^(-e), b).

(** The integer nearest to [num / den], ties to even. *)
Definition round_half_even (num den : Z) : Z :=
  let q := num / den in
  let r := num mod den in
  if (den <? 2 * r) || ((2 * r =? den) && Z.odd q) then q + 1 else q.

(** The double nearest to [a / b > 0]: the significand at the exponent
    of [a / b] (or the subnormal exponent), rounded; a carry to [2^53]
    moves to the next exponent; past [emax] the value overflows. *)
Definition round_pos (neg : bool) (a b : Z) : double :=
  let e := Z.max (expo a b) emin in
  let m := round_half_even (scale2 a b e).1 (scale2 a b e).2 in
  let '(m', e') := if m =? 2^53 then (2^52, e + 1) else (m, e) in
  if emax <? e' then Inf neg else Fin neg m' e'.

(** The double [x] with sign [neg]. *)
Definition with_sign (neg : bool) (x : double) : double :=
  match x with Fin _ m e => Fin neg m e | Inf _ => Inf neg end.

Definition round (neg : bool) (a b : Z) : double :=
  if a =? 0 then Fin neg 0 emin else round_pos neg a b.

(** ** Comparisons with powers of two *)

Lemma pow2_pos k : 0 <= k -> 0 < 2^k.
Proof. intros. by apply Z.pow_pos_nonneg. Qed.

Lemma pow2_add k l : 0 <= k -> 0 <= l -> 2^(k + l) = 2^k * 2^l.
Proof. intros. by apply Z.pow_add_r. Qed.
Section Gep.
Context (r a b : Z) (Hr : 1 <= r) (Ha : 0 < a) (Hb : 0 < b).

Lemma gep_true k : gep r a b k = true <-> (0 <= k ∧ b * r^k <= a) ∨ (k < 0 ∧ b <= a * r^(-k)).
Proof using Hr Ha Hb. unfold gep. destruct (Z.leb_spec 0 k); rewrite Z.leb_le; lia. Qed.

Lemma gep_mono k k' : k' <= k -> gep r a b k = true -> gep r a b k' = true.
Proof using Hr Ha Hb.
  intros Hk. rewrite !gep_true. intros [[H0 H]|[H0 H]].
  - destruct (Z.leb_spec 0 k') as [H'|H'].
    + left. split; [lia|]. enough (b * r^k' <= b * r^k) by lia.
      apply Z.mul_le_mono_nonneg_l; [lia|]. apply Z.pow_le_mono_r; lia.
    + right. split; [lia|]. pose proof (Z.pow_pos_nonneg r k ltac:(lia) H0).
      pose proof (Z.pow_pos_nonneg r (-k') ltac:(lia) ltac:(lia)). nia.
  - right. split; [lia|]. enough (a * r^(-k) <= a * r^(-k')) by lia.
    apply Z.mul_le_mono_nonneg_l; [lia|]. apply Z.pow_le_mono_r; lia.
Qed.

(** The [n] with [a / b] between [r^(n-1)] and [r^n] is unique. *)
Lemma gep_unique k k' :
  gep r a b (k - 1) = true -> gep r a b k = false -> gep r a b (k' - 1) = true -> gep r a b k' = false -> k = k'.
Proof using Hr Ha Hb.
  intros H1 H2 H3 H4. destruct (Z.lt_total k k') as [Hlt|[?|Hgt]]; [|done|].
  - rewrite (gep_mono (k' - 1) k) in H2 by (lia || done). done.
  - rewrite (gep_mono (k - 1) k') in H4 by (lia || done). done.
Qed.

End Gep.

(** [a / b] from the powers of [r] around [a] and [b]. *)
Lemma gep_bounds r a b la lb :
  2 <= r -> 0 <= la -> 0 <= lb -> r^la <= a < r^(la + 1) -> r^lb <= b < r^(lb + 1) ->
  gep r a b (la - lb - 1) = true ∧ gep r a b (la - lb + 1) = false.
Proof.
  intros Hr Hla Hlb [Ha1 Ha2] [Hb1 Hb2].
  assert (P : ∀ k, 0 <= k -> 0 < r^k) by (intros; apply Z.pow_pos_nonneg; lia).
  assert (Hr' : 1 <= r) by lia. pose proof (P la Hla). pose proof (P lb Hlb). split.
  - apply (gep_true r a b Hr' ltac:(lia) ltac:(lia)).
    destruct (Z.leb_spec 0 (la - lb - 1)) as [Hl|Hl]; [left|right]; split; try lia.
    + assert (r^la = r^(lb + 1) * r^(la - lb - 1)) by (rewrite <- Z.pow_add_r; [f_equal|..]; lia). nia.
    + assert (r^(lb + 1) = r^la * r^(-(la - lb - 1))) by (rewrite <- Z.pow_add_r; [f_equal|..]; lia). nia.
  - destruct (gep r a b _) eqn:E; [|done].
    apply (gep_true r a b Hr' ltac:(lia) ltac:(lia)) in E as [[Hl E]|[Hl E]].
    + assert (r^(la + 1) = r^lb * r^(la - lb + 1)) by (rewrite <- Z.pow_add_r; [f_equal|..]; lia). nia.
    + assert (r^lb = r^(la + 1) * r^(-(la - lb + 1))) by (rewrite <- Z.pow_add_r; [f_equal|..]; lia).
      pose proof (P (-(la - lb + 1)) ltac:(lia)). nia.
Qed.

(** Dividing by [r^t] shifts the exponent by [t]. *)
Lemma gep_shift r a t j : 2 <= r -> 0 < a -> 0 <= t -> gep r a (r^t) j = gep r a 1 (j + t).
Proof.
  intros Hr Ha Ht. unfold gep.
  assert (P : ∀ k, 0 <= k -> 0 < r^k) by (intros; apply Z.pow_pos_nonneg; lia).
  destruct (Z.leb_spec 0 j), (Z.leb_spec 0 (j + t)); apply Bool.eq_iff_eq_true; rewrite !Z.leb_le; try lia.
  - rewrite Z.pow_add_r by lia. lia.
  - assert (E : r^t = r^(j + t) * r^(- j)) by (rewrite <- Z.pow_add_r; [f_equal|..]; lia).
    rewrite E. pose proof (P (- j) ltac:(lia)). nia.
  - assert (E : r^(- j) = r^t * r^(- (j + t))) by (rewrite <- Z.pow_add_r; [f_equal|..]; lia).
    rewrite E. pose proof (P t Ht). pose proof (P (- (j + t)) ltac:(lia)). nia.
Qed.

Lemma gep_scale r c a b k : 0 < c -> gep r (c * a) (c * b) k = gep r a b k.
Proof.
  intros Hc. unfold gep. destruct (0 <=? k).
  - apply Bool.eq_iff_eq_true. rewrite !Z.leb_le, <- Z.mul_assoc. split; [|apply Z.mul_le_mono_pos_l; lia].
    intros H. by apply Z.mul_le_mono_pos_l in H.
  - apply Bool.eq_iff_eq_true. rewrite !Z.leb_le, <- Z.mul_assoc. split; [|apply Z.mul_le_mono_pos_l; lia].
    intros H. by apply Z.mul_le_mono_pos_l in H.
Qed.

Section Ge2.
Context (a b : Z) (Ha : 0 < a) (Hb : 0 < b).
Lemma gep_log2 : gep 2 a b (Z.log2 a - Z.log2 b - 1) = true ∧ gep 2 a b (Z.log2 a - Z.log2 b + 1) = false.
Proof using Ha Hb.
  apply gep_bounds; [lia|apply Z.log2_nonneg|apply Z.log2_nonneg|..];
    [pose proof (Z.log2_spec a Ha)|pose proof (Z.log2_spec b Hb)]; rewrite <- ?Z.pow_succ_r, ?Z.add_1_r by apply Z.log2_nonneg; lia.
Qed.

(** The exponent of [a / b]. *)
Lemma expo_spec : gep 2 a b (expo a b + 52) = true ∧ gep 2 a b (expo a b + 53) = false.
Proof using Ha Hb.
  destruct gep_log2 as [Hlo Hhi]. unfold expo.
  destruct (gep 2 a b (Z.log2 a - Z.log2 b)) eqn:E.
  - split; [by replace (_ - 52 + 52) with (Z.log2 a - Z.log2 b) by lia|].
    by replace (_ - 52 + 53) with (Z.log2 a - Z.log2 b + 1) by lia.
  - split; [by replace (_ - 52 + 52) with (Z.log2 a - Z.log2 b - 1) by lia|].
    by replace (_ - 52 + 53) with (Z.log2 a - Z.log2 b) by lia.
Qed.

Lemma expo_unique k : gep 2 a b (k + 52) = true -> gep 2 a b (k + 53) = false -> expo a b = k.
Proof using Ha Hb.
  intros H1 H2. destruct expo_spec as [E1 E2].
  destruct (Z.lt_total (expo a b) k) as [Hlt|[?|Hgt]]; [|done|].
  - rewrite (gep_mono 2 a b ltac:(lia) Ha Hb (k + 52) (expo a b + 53)) in E2 by (lia || done). done.
  - rewrite (gep_mono 2 a b ltac:(lia) Ha Hb (expo a b + 52) (k + 53)) in H2 by (lia || done). done.
Qed.

Lemma expo_ge k : gep 2 a b (k + 52) = true -> k <= expo a b.
Proof using Ha Hb.
  intros H. destruct expo_spec as [_ E2]. destruct (Z.le_gt_cases k (expo a b)) as [|Hgt]; [done|].
  rewrite (gep_mono 2 a b ltac:(lia) Ha Hb (k + 52) (expo a b + 53)) in E2 by (lia || done). done.
Qed.

End Ge2.

(** ** [round_pos] depends only on the value [a / b] *)


Lemma expo_scale c a b : 0 < c -> 0 < a -> 0 < b -> expo (c * a) (c * b) = expo a b.
Proof.
  intros Hc Ha Hb. destruct (expo_spec a b Ha Hb) as [E1 E2].
  apply expo_unique; [nia|nia|by rewrite gep_scale|by rewrite gep_scale].
Qed.

Lemma round_half_even_scale c num den :
  0 < c -> 0 < den -> round_half_even (c * num) (c * den) = round_half_even num den.
Proof.
  intros Hc Hd. unfold round_half_even.
  rewrite Z.div_mul_cancel_l, Z.mul_mod_distr_l by lia.
  set (r := num mod den). set (q := num / den).
  assert (E1 : (c * den <? 2 * (c * r)) = (den <? 2 * r)).
  { apply Bool.eq_iff_eq_true. rewrite !Z.ltb_lt. nia. }
  assert (E2 : (2 * (c * r) =? c * den) = (2 * r =? den)).
  { apply Bool.eq_iff_eq_true. rewrite !Z.eqb_eq. nia. }
  by rewrite E1, E2.
Qed.

Lemma scale2_scale c a b e :
  scale2 (c * a) (c * b) e = (c * (scale2 a b e).1, c * (scale2 a b e).2).
Proof. unfold scale2. destruct (0 <=? e); simpl; f_equal; lia. Qed.

Lemma scale2_den a b e : 0 < b -> 0 < (scale2 a b e).2.
Proof. intros Hb. unfold scale2. destruct (Z.leb_spec 0 e); simpl; [pose proof (pow2_pos e); nia|lia]. Qed.

Lemma round_pos_scale neg c a b :
  0 < c -> 0 < a -> 0 < b -> round_pos neg (c * a) (c * b) = round_pos neg a b.
Proof.
  intros Hc Ha Hb. unfold round_pos. rewrite expo_scale by done.
  rewrite scale2_scale. cbn [fst snd]. rewrite round_half_even_scale by (done || by apply scale2_den).
  done.
Qed.

(** Two fractions of the same value round alike. *)
Lemma round_pos_eqv neg a1 b1 a2 b2 :
  0 < a1 -> 0 < b1 -> 0 < a2 -> 0 < b2 -> a1 * b2 = a2 * b1 ->
  round_pos neg a1 b1 = round_pos neg a2 b2.
Proof.
  intros. rewrite <- (round_pos_scale neg b2 a1 b1), <- (round_pos_scale neg b1 a2 b2) by done.
  f_equal; lia.
Qed.

(** ** [round_pos] is exact on doubles *)

Lemma val2_pos m e : 0 < m -> 0 < (val2 m e).1 ∧ 0 < (val2 m e).2.
Proof.
  intros Hm. unfold val2. destruct (Z.leb_spec 0 e); simpl;
    [pose proof (pow2_pos e); nia|pose proof (pow2_pos (-e)); lia].
Qed.

(** [m * 2^e >= 2^k] exactly when [m >= 2^(k - e)]. *)
Lemma gep_val2 m e k : 0 < m -> e <= k -> gep 2 (val2 m e).1 (val2 m e).2 k = (2^(k - e) <=? m).
Proof.
  intros Hm Hk. unfold val2, gep. apply Bool.eq_iff_eq_true. rewrite !Z.leb_le.
  destruct (Z.leb_spec 0 e), (Z.leb_spec 0 k); simpl; try lia.
  - assert (E : 2^k = 2^(k - e) * 2^e) by (rewrite <- pow2_add by lia; f_equal; lia).
    pose proof (pow2_pos e). rewrite E. nia.
  - assert (E : 2^(k - e) = 2^k * 2^(-e)) by (rewrite <- pow2_add by lia; f_equal; lia).
    rewrite E. lia.
  - assert (E : 2^(-e) = 2^(k - e) * 2^(-k)) by (rewrite <- pow2_add by lia; f_equal; lia).
    pose proof (pow2_pos (-k)). rewrite E. nia.
Qed.

Lemma scale2_val2 m e : scale2 (val2 m e).1 (val2 m e).2 e = (m * (val2 m e).2 * (if 0 <=? e then 2^e else 1), (val2 m e).2 * (if 0 <=? e then 2^e else 1)).
Proof. unfold scale2, val2. destruct (0 <=? e); simpl; f_equal; lia. Qed.

Lemma round_half_even_exact m d : 0 < d -> round_half_even (m * d) d = m.
Proof.
  intros Hd. unfold round_half_even. cbv zeta. rewrite Z.div_mul, Z.mod_mul by lia.
  rewrite Z.mul_0_r. destruct (Z.ltb_spec d 0); [lia|]. destruct (Z.eqb_spec 0 d); [lia|]. done.
Qed.

Theorem round_exact neg m e :
  canonical (Fin neg m e) = true -> 0 < m -> round_pos neg (val2 m e).1 (val2 m e).2 = Fin neg m e.
Proof.
  intros Hc Hm. cbn in Hc. rewrite !andb_true_iff, orb_true_iff, !Z.leb_le, Z.ltb_lt, Z.eqb_eq in Hc.
  destruct Hc as [[[[H0 H53] Hlo] Hhi] Hn]. destruct (val2_pos m e Hm) as [Ha Hb].
  assert (He : Z.max (expo (val2 m e).1 (val2 m e).2) emin = e).
  { destruct (Z.le_gt_cases (2^52) m) as [Hn'|Hs].
    - assert (E1 : gep 2 (val2 m e).1 (val2 m e).2 (e + 52) = true).
      { rewrite gep_val2 by lia. apply Z.leb_le. by replace (e + 52 - e) with 52 by lia. }
      assert (E2 : gep 2 (val2 m e).1 (val2 m e).2 (e + 53) = false).
      { rewrite gep_val2 by lia. apply Z.leb_gt. by replace (e + 53 - e) with 53 by lia. }
      rewrite (expo_unique _ _ Ha Hb e E1 E2). lia.
    - destruct Hn as [|He]; [lia|]. subst e.
      destruct (Z.lt_ge_cases (expo (val2 m emin).1 (val2 m emin).2) emin) as [|Hge]; [lia|].
      destruct (expo_spec _ _ Ha Hb) as [E _].
      assert (E' : gep 2 (val2 m emin).1 (val2 m emin).2 (emin + 52) = true)
        by (eapply gep_mono; [lia|exact Ha|exact Hb| |exact E]; lia).
      rewrite gep_val2 in E' by lia. apply Z.leb_le in E'.
      replace (emin + 52 - emin) with 52 in E' by lia. lia. }
  unfold round_pos. rewrite He, scale2_val2. cbn [fst snd].
  rewrite <- Z.mul_assoc, round_half_even_exact
    by (destruct (Z.leb_spec 0 e); [pose proof (pow2_pos e)|]; nia).
  destruct (Z.eqb_spec m (2^53)); [lia|]. destruct (Z.ltb_spec emax e); [lia|]. done.
Qed.

(** ** [round_pos] yields a double *)

(** [a / b / 2^e >= 2^j] read on the scaled fraction. *)
Lemma scale2_ge2 a b e j :
  0 < a -> 0 < b -> 0 <= j -> gep 2 a b (e + j) = true <-> (scale2 a b e).2 * 2^j <= (scale2 a b e).1.
Proof.
  intros Ha Hb Hj. rewrite (gep_true 2 a b ltac:(lia) Ha Hb). unfold scale2.
  destruct (Z.leb_spec 0 e), (Z.leb_spec 0 (e + j)); simpl; try lia.
  - rewrite pow2_add by lia. lia.
  - assert (E : 2^j = 2^(e + j) * 2^(-e)) by (rewrite <- pow2_add by lia; f_equal; lia).
    rewrite E. pose proof (pow2_pos (-e)). nia.
  - assert (E : 2^(-e) = 2^j * 2^(-(e + j))) by (rewrite <- pow2_add by lia; f_equal; lia).
    rewrite E. pose proof (pow2_pos (-(e + j))). pose proof (pow2_pos j). nia.
Qed.

Lemma round_half_even_bounds num den :
  0 < den -> num / den <= round_half_even num den <= num / den + 1.
Proof. intros Hd. unfold round_half_even. cbv zeta. destruct (_ || _); lia. Qed.

Lemma div_ge_pow num den k : 0 < den -> 0 <= k -> den * k <= num -> k <= num / den.
Proof. intros. apply Z.div_le_lower_bound; lia. Qed.

Lemma div_lt_pow num den k : 0 < den -> num < den * k -> num / den < k.
Proof. intros. apply Z.div_lt_upper_bound; lia. Qed.

Theorem round_pos_canonical neg a b : 0 < a -> 0 < b -> canonical (round_pos neg a b) = true.
Proof.
  intros Ha Hb. destruct (expo_spec a b Ha Hb) as [E52 E53].
  set (e := Z.max (expo a b) emin).
  assert (Hhi : ¬ (scale2 a b e).2 * 2^53 <= (scale2 a b e).1).
  { rewrite <- scale2_ge2 by (done || lia). intros H.
    rewrite (gep_mono 2 a b ltac:(lia) Ha Hb (e + 53) (expo a b + 53)) in E53 by (lia || done). done. }
  pose proof (scale2_den a b e Hb) as Hd.
  assert (Hnum : 0 <= (scale2 a b e).1).
  { unfold scale2. destruct (Z.leb_spec 0 e); simpl; [lia|pose proof (pow2_pos (-e)); nia]. }
  pose proof (round_half_even_bounds (scale2 a b e).1 _ Hd) as Hr.
  pose proof (div_lt_pow (scale2 a b e).1 _ (2^53) Hd ltac:(lia)) as Hq.
  pose proof (Z.div_pos _ _ Hnum Hd) as Hq0.
  assert (Hlo : e = emin ∨ 2^52 <= round_half_even (scale2 a b e).1 (scale2 a b e).2).
  { destruct (Z.max_spec (expo a b) emin) as [[_ Hm]|[_ Hm]]; [left; unfold e; lia|right].
    assert (He : e = expo a b) by (unfold e; lia). rewrite <- He in E52.
    apply scale2_ge2 in E52; [|done|done|lia]. pose proof (div_ge_pow (scale2 a b e).1 _ (2^52) Hd ltac:(lia) E52). lia. }
  fold e in Hlo, Hr, Hq, Hq0.
  unfold round_pos. fold e. cbn zeta.
  assert (Hemin : emin <= e) by (unfold e; lia).
  destruct (Z.eqb_spec (round_half_even (scale2 a b e).1 (scale2 a b e).2) (2^53)) as [Hm|Hm].
  - destruct (Z.ltb_spec emax (e + 1)); [done|]. cbn.
    rewrite !andb_true_iff, !orb_true_iff, !Z.leb_le, Z.ltb_lt, Z.eqb_eq. lia.
  - destruct (Z.ltb_spec emax e); [done|]. cbn.
    rewrite !andb_true_iff, !orb_true_iff, !Z.leb_le, Z.ltb_lt, Z.eqb_eq. lia.
Qed.

Lemma round_pos_sign neg a b : round_pos neg a b = with_sign neg (round_pos false a b).
Proof.
  unfold round_pos. destruct (round_half_even _ _ =? 2^53); cbn iota beta;
    by destruct (emax <? _).
Qed.

(** The exponent of the result is at least the exponent of [a / b]. *)
Lemma round_pos_expo neg a b neg' m' e' : round_pos neg a b = Fin neg' m' e' -> expo a b <= e'.
Proof.
  unfold round_pos. destruct (round_half_even _ _ =? 2^53); cbn iota beta;
    destruct (emax <? _); intros [= _ _ <-]; lia.
Qed.

End JsNumber.
