(* ===== verification/IntegerText.v ===== *)
(** * IntegerText: the integer model of Json.v against the doubles.

    Json.v models the numbers of the task blob as integers: [JNum] holds a
    [Z], printed by [print_number] and parsed by [parse_number].  In
    JavaScript they are doubles (JsNumber.v), printed by [Number::toString]
    and parsed with rounding (NumberText.v).  This file proves the two
    agree exactly on the safe integers, [|n| <= 2^53 - 1], the range of
    the timestamps [Date.now()] returns (src/list/src/services/
    taskService.ts, lines 32-33, 49):

    - [of_Z_safe]: a safe integer is the double [m * 2^e] with
      [m = n * 2^(52 - log2 n)], and distinct safe integers are distinct
      doubles;
    - [json_number_print]: [JSON.parse] of the integer text is [of_Z n],
      for every integer;
    - [safe_integer_exact]: on safe integers [JSON.stringify] prints the
      digits of Json.v and [JSON.parse] reads them back.

    Outside that range the integer model is not exact: [2^53 + 1] is read
    as [2^53], and [10^21] is written [1e+21]
    ([unsafe_integers_differ]). *)

From S2P Require Import Prelude Json JsNumber NumberText.
From Stdlib Require Import Ascii String.

Module IntegerText.
Import Json JsNumber NumberText.
Local Open Scope Z_scope.

(** ** Safe integers as doubles *)

(** The significand and exponent of a positive integer below [2^53]. *)
Definition int_sig (n : Z) : Z := n * 2^(52 - Z.log2 n).
Definition int_exp (n : Z) : Z := Z.log2 n - 52.

Lemma log2_safe n : 0 < n < 2^53 -> 0 <= Z.log2 n <= 52 ∧ 2^(Z.log2 n) <= n < 2^(Z.log2 n + 1).
Proof.
  intros Hn. pose proof (Z.log2_spec n ltac:(lia)) as [H1 H2]. pose proof (Z.log2_nonneg n).
  split; [|rewrite Z.add_1_r; lia].
  split; [done|]. destruct (Z.le_gt_cases (Z.log2 n) 52) as [|Hgt]; [done|].
  assert (2^53 <= 2^(Z.log2 n)) by (apply Z.pow_le_mono_r; lia). lia.
Qed.

Lemma int_canonical n : 0 < n < 2^53 -> canonical (Fin false (int_sig n) (int_exp n)) = true.
Proof.
  intros Hn. destruct (log2_safe n Hn) as [Hl [H1 H2]]. unfold int_sig, int_exp. cbn.
  assert (E52 : 2^52 = 2^(Z.log2 n) * 2^(52 - Z.log2 n)) by (rewrite <- Z.pow_add_r by lia; f_equal; lia).
  assert (E53 : 2^53 = 2^(Z.log2 n + 1) * 2^(52 - Z.log2 n)) by (rewrite <- Z.pow_add_r by lia; f_equal; lia).
  pose proof (Z.pow_pos_nonneg 2 (52 - Z.log2 n) ltac:(lia) ltac:(lia)).
  rewrite !andb_true_iff, !orb_true_iff, !Z.leb_le, Z.ltb_lt, Z.eqb_eq. unfold emin, emax. nia.
Qed.

Lemma val2_int n : 0 < n < 2^53 ->
  (val2 (int_sig n) (int_exp n)).1 = n * 2^(52 - Z.log2 n) ∧ (val2 (int_sig n) (int_exp n)).2 = 2^(52 - Z.log2 n).
Proof.
  intros Hn. destruct (log2_safe n Hn) as [Hl _]. unfold val2, int_sig, int_exp.
  destruct (Z.leb_spec 0 (Z.log2 n - 52)); cbn [fst snd].
  - replace (Z.log2 n - 52) with 0 by lia. replace (52 - Z.log2 n) with 0 by lia. cbn. lia.
  - split; [done|]. f_equal. lia.
Qed.

(** A positive integer below [2^53] is exactly a double. *)
Lemma of_Z_safe n : 0 < n < 2^53 -> round_pos false n 1 = Fin false (int_sig n) (int_exp n).
Proof.
  intros Hn. destruct (log2_safe n Hn) as [Hl _]. pose proof (int_canonical n Hn) as Hc. destruct (val2_int n Hn) as [Ea Eb].
  pose proof (Z.pow_pos_nonneg 2 (52 - Z.log2 n) ltac:(lia) ltac:(lia)).
  rewrite <- (round_exact false _ _ Hc) by (unfold int_sig; nia). rewrite Ea, Eb.
  apply round_pos_eqv; lia.
Qed.

(** Rounding is injective on the integers around the safe ones: an
    integer past [2^53] rounds to a double with a positive exponent. *)
Lemma round_int_inj y n : 0 < y -> 0 < n < 2^53 -> round_pos false y 1 = round_pos false n 1 -> y = n.
Proof.
  intros Hy Hn. rewrite (of_Z_safe n Hn). destruct (log2_safe n Hn) as [Hl _].
  destruct (Z.lt_ge_cases y (2^53)) as [Hy'|Hy'].
  - rewrite (of_Z_safe y ltac:(lia)). intros [= Hs He]. unfold int_sig, int_exp in *.
    assert (Z.log2 y = Z.log2 n) by lia. rewrite H in Hs.
    pose proof (Z.pow_pos_nonneg 2 (52 - Z.log2 n) ltac:(lia) ltac:(lia)). nia.
  - intros Hr. apply round_pos_expo in Hr.
    assert (1 <= expo y 1); [|unfold int_exp in Hr; lia].
    apply expo_ge; [lia|lia|]. apply gep_true; [lia|lia|lia|]. left. split; [lia|]. lia.
Qed.

(** ** The search on a safe integer *)

Lemma choose_scale ok lo r den c : 0 < c -> choose ok lo (c * r) (c * den) = choose ok lo r den.
Proof.
  intros Hc. unfold choose.
  assert (E0 : (c * r =? 0) = (r =? 0)) by (apply Bool.eq_iff_eq_true; rewrite !Z.eqb_eq; nia).
  assert (E1 : (2 * (c * r) <? c * den) = (2 * r <? den)) by (apply Bool.eq_iff_eq_true; rewrite !Z.ltb_lt; nia).
  assert (E2 : (c * den <? 2 * (c * r)) = (den <? 2 * r)) by (apply Bool.eq_iff_eq_true; rewrite !Z.ltb_lt; nia).
  by rewrite E0, E1, E2.
Qed.

Lemma pick_scale x a b n k c : 0 < c -> 0 < b -> pick x (c * a) (c * b) n k = pick x a b n k.
Proof.
  intros Hc Hb. unfold pick.
  assert (E : scale10 (c * a) (c * b) (k - n) = (c * (scale10 a b (k - n)).1, c * (scale10 a b (k - n)).2)).
  { unfold scale10. destruct (0 <=? k - n); cbn; f_equal; lia. }
  pose proof (scale10_den a b (k - n) Hb).
  rewrite E. cbn [fst snd]. rewrite Z.div_mul_cancel_l, Z.mul_mod_distr_l, choose_scale by lia. done.
Qed.

Lemma shortest_scale x a b n k c fuel :
  0 < c -> 0 < b -> shortest x (c * a) (c * b) n k fuel = shortest x a b n k fuel.
Proof.
  intros Hc Hb. revert k. induction fuel as [|f IH]; intros k; [done|]. cbn [shortest].
  rewrite pick_scale by done. by rewrite IH.
Qed.

Lemma shortest_scale_r x a c n k fuel :
  0 < c -> shortest x (a * c) c n k fuel = shortest x a 1 n k fuel.
Proof.
  intros Hc. pose proof (shortest_scale x a 1 n k c fuel Hc ltac:(lia)) as E.
  by rewrite Z.mul_1_r, Z.mul_comm in E.
Qed.

Lemma dexp_scale_r a c : 0 < a -> 0 < c -> dexp (a * c) c = dexp a 1.
Proof.
  intros Ha Hc. destruct (dexp_spec a 1 Ha ltac:(lia)) as [G1 G2].
  apply dexp_unique; [nia|done|..]; rewrite <- (Z.mul_1_r c) at 2; rewrite Z.mul_comm, gep_scale by done; done.
Qed.

Section SafeInt.
Context (N : Z) (HN : 0 < N < 2^53).

Local Abbreviation x := (Fin false (int_sig N) (int_exp N)).
Local Abbreviation D := (ndigits N).

(** A candidate names [N] exactly when it is [N] at its scale. *)
Lemma ok_int c p : 0 < c -> 0 <= p -> dec_value false c p = x <-> c * 10^p = N.
Proof using HN.
  intros Hc Hp. unfold dec_value, round. rewrite (Z.max_l p 0), (Z.max_r (- p) 0), Z.pow_0_r by lia.
  assert (0 < 10^p) by (apply Z.pow_pos_nonneg; lia). rewrite (proj2 (Z.eqb_neq _ 0)) by nia.
  rewrite <- (of_Z_safe N HN). split; [apply round_int_inj; nia|by intros ->].
Qed.

(** At [k] digits the search finds [N] exactly when [N] ends in [D - k] zeros. *)
Lemma pick_int k : 1 <= k <= D ->
  pick x N 1 D k = if N mod 10^(D - k) =? 0 then Some (N / 10^(D - k), D) else None.
Proof using HN.
  intros Hk. destruct (ndigits_spec N ltac:(lia)) as [HD HND].
  set (P := 10^(D - k)). assert (HP : 0 < P) by (apply Z.pow_pos_nonneg; lia).
  assert (HPk : P * 10^(k - 1) = 10^(D - 1) ∧ P * 10^k = 10^D).
  { unfold P. split; rewrite <- Z.pow_add_r by lia; f_equal; lia. }
  unfold pick. assert (Hs : (scale10 N 1 (k - D)).1 = N ∧ (scale10 N 1 (k - D)).2 = P).
  { unfold scale10, P. destruct (Z.leb_spec 0 (k - D)); cbn [fst snd].
    - replace (k - D) with 0 by lia. replace (D - k) with 0 by lia. cbn. lia.
    - split; [done|]. rewrite Z.mul_1_l. f_equal. lia. }
  destruct Hs as [-> ->].
  assert (Hlo : 10^(k - 1) <= N / P < 10^k) by (split; [apply Z.div_le_lower_bound|apply Z.div_lt_upper_bound]; lia).
  assert (Hok : ∀ c, 0 < c -> bool_decide (dec_value false c (D - k) = x) = bool_decide (c * P = N)).
  { intros c Hc. apply bool_decide_ext. by apply ok_int; [|lia]. }
  pose proof (Z.div_mod N P ltac:(lia)) as Hdm. pose proof (Z.mod_pos_bound N P HP) as Hr.
  pose proof (Z.pow_pos_nonneg 10 (k - 1) ltac:(lia) ltac:(lia)).
  unfold choose. rewrite !Hok by lia.
  destruct (Z.eqb_spec (N mod P) 0) as [H0|H0].
  - rewrite bool_decide_eq_true_2 by lia. unfold renorm. rewrite (proj2 (Z.eqb_neq _ _)) by lia. done.
  - rewrite !bool_decide_eq_false_2 by nia. done.
Qed.

(** [N] has at most 16 digits. *)
Lemma ndigits_safe : 1 <= D <= 16.
Proof using HN.
  destruct (ndigits_spec N ltac:(lia)) as [HD [HND _]]. split; [done|].
  destruct (Z.le_gt_cases D 16) as [|Hgt]; [done|].
  assert (10^16 <= 10^(D - 1)) by (apply Z.pow_le_mono_r; lia). assert (2^53 < 10^16) by reflexivity. lia.
Qed.

Lemma shortest_int fuel :
  shortest x (val2 (int_sig N) (int_exp N)).1 (val2 (int_sig N) (int_exp N)).2
    (dexp (val2 (int_sig N) (int_exp N)).1 (val2 (int_sig N) (int_exp N)).2) 1 fuel = shortest x N 1 D 1 fuel.
Proof using HN.
  destruct (val2_int N HN) as [-> ->]. destruct (log2_safe N HN) as [Hl _].
  assert (Hc : 0 < 2^(52 - Z.log2 N)) by (apply Z.pow_pos_nonneg; lia).
  rewrite dexp_scale_r, shortest_scale_r by lia. destruct (gep_ndigits N ltac:(lia)) as [G1 G2].
  by rewrite (dexp_unique N 1 D ltac:(lia) ltac:(lia) G1 G2).
Qed.

(** [Number::toString] of a positive safe integer is its digits. *)
Lemma to_string_safe_pos : to_string x = print_number N.
Proof using HN.
  pose proof (int_canonical N HN) as Hc. assert (Hm : 0 < int_sig N).
  { unfold int_sig. destruct (log2_safe N HN) as [Hl _]. pose proof (Z.pow_pos_nonneg 2 (52 - Z.log2 N) ltac:(lia) ltac:(lia)). nia. }
  cbn [to_string]. rewrite (proj2 (Z.eqb_neq _ 0)) by lia. unfold pos_to_string.
  pose proof (shortest_some _ _ Hc Hm) as Hs. rewrite shortest_int in Hs |- *.
  destruct Hs as [[[s k] n] Hs]. rewrite Hs.
  destruct (shortest_spec _ _ _ _ _ _ _ _ _ Hs) as (Hk & Hp & Hnone). pose proof ndigits_safe as HD.
  assert (HkD : k <= D).
  { destruct (Z.le_gt_cases k D) as [|Hgt]; [done|].
    specialize (Hnone D ltac:(lia)). rewrite pick_int, Z.sub_diag, Z.pow_0_r, Z.mod_1_r in Hnone by lia. done. }
  rewrite pick_int in Hp by lia.
  destruct (Z.eqb_spec (N mod 10^(D - k)) 0) as [Hdiv|]; [injection Hp as <- <-|done].
  pose proof (Z.pow_pos_nonneg 10 (D - k) ltac:(lia) ltac:(lia)) as HP.
  assert (HN' : N = N / 10^(D - k) * 10^(D - k)) by (rewrite (Z.div_mod N (10^(D - k))) at 1 by lia; lia).
  assert (Hs0 : 0 < N / 10^(D - k)) by nia.
  unfold format. rewrite (proj2 (Z.leb_le k D)), (proj2 (Z.leb_le D 21)) by lia. cbn [andb].
  destruct (print_number_pos _ Hs0) as (Hd & Hl & Hv). destruct (zeros_spec (Z.to_nat (D - k))) as (Hzd & Hzv & Hzl).
  rewrite (print_number_unique (print_number (N / 10^(D - k)) +:+ zeros (Z.to_nat (D - k)))).
  - f_equal. rewrite dval_app, Hv, Hzv, Hzl, Z2Nat.id by lia. lia.
  - by rewrite all_digits_app, Hd, Hzd.
  - by apply lead_ok_app.
Qed.

End SafeInt.

(** [JSON.parse] of the text of any integer is the double nearest to it. *)
Lemma json_number_print n : json_number (print_number n) = Some (of_Z n).
Proof.
  destruct n as [|p|p]; [reflexivity|..].
  - destruct (print_number_pos (Z.pos p) ltac:(lia)) as (Hd & Hl & Hv).
    assert (Hsc : scan_number (print_number (Z.pos p)) = Some (false, Z.pos p, 0)).
    { rewrite <- (str_app_nil_r (print_number (Z.pos p))) at 1. rewrite scan_lead by done.
      cbn [frac_part exp_part]. rewrite str_app_nil_r, Hv. done. }
    unfold json_number. rewrite Hsc. unfold dec_value, of_Z.
    replace (10^(Z.max 0 0)) with 1 by reflexivity. by rewrite Z.mul_1_r.
  - destruct (print_number_pos (Z.pos p) ltac:(lia)) as (Hd & Hl & Hv).
    assert (Hsc : scan_number (print_number (Z.pos p)) = Some (false, Z.pos p, 0)).
    { rewrite <- (str_app_nil_r (print_number (Z.pos p))) at 1. rewrite scan_lead by done.
      cbn [frac_part exp_part]. rewrite str_app_nil_r, Hv. done. }
    change (print_number (Z.neg p)) with (String "-"%char (print_number (Z.pos p))).
    unfold json_number. rewrite (scan_number_neg _ _ _ Hsc). unfold dec_value, of_Z.
    replace (10^(Z.max 0 0)) with 1 by reflexivity. by rewrite Z.mul_1_r.
Qed.

Lemma to_string_neg m e : m ≠ 0 -> to_string (Fin true m e) = String "-"%char (to_string (Fin false m e)).
Proof. intros Hm. cbn [to_string]. by rewrite (proj2 (Z.eqb_neq m 0)). Qed.

(** ** Properties *)

(** C3: on the safe integers, [|n| <= 2^53 - 1], the integer model of
    Json.v is exact: [JSON.stringify] of the double [of_Z n] is the text
    [print_number n] that Json.v writes, and [JSON.parse] reads that text
    as [of_Z n]. *)
Theorem safe_integer_exact n :
  Z.abs n < 2^53 -> stringify_number (of_Z n) = print_number n ∧ json_number (print_number n) = Some (of_Z n).
Proof.
  intros Hn. split; [|apply json_number_print]. unfold of_Z, round.
  destruct n as [|p|p]; [reflexivity|..]; cbn [Z.ltb Z.compare].
  - change (Z.abs (Z.pos p)) with (Z.pos p) in *. cbn [Z.eqb].
    rewrite (of_Z_safe (Z.pos p)) by lia. by apply to_string_safe_pos.
  - change (Z.abs (Z.neg p)) with (Z.pos p) in *. cbn [Z.eqb].
    rewrite (round_pos_sign true), (of_Z_safe (Z.pos p)) by lia. cbn [with_sign stringify_number].
    assert (int_sig (Z.pos p) ≠ 0).
    { destruct (log2_safe (Z.pos p) ltac:(lia)) as [Hl _]. unfold int_sig.
      pose proof (Z.pow_pos_nonneg 2 (52 - Z.log2 (Z.pos p)) ltac:(lia) ltac:(lia)). nia. }
    rewrite to_string_neg, to_string_safe_pos by (done || lia). reflexivity.
Qed.

(** Past the safe integers the model and the code part: [2^53 + 1] is
    read as [2^53], and [10^21] is written with an exponent. *)
Example unsafe_integers_differ :
  json_number (print_number (2^53 + 1)) = Some (of_Z (2^53)) ∧
  stringify_number (of_Z (10^21)) = "1e+21"%string ∧
  print_number (10^21) = "1000000000000000000000"%string.
Proof. split_and!; vm_compute; reflexivity. Qed.

Lemma safe_integer_exact_witness :
  Z.abs 1700000000000 < 2^53 ∧
  stringify_number (of_Z 1700000000000) = print_number 1700000000000 ∧
  json_number (print_number 1700000000000) = Some (of_Z 1700000000000).
Proof.
  assert (H : Z.abs 1700000000000 < 2^53) by (vm_compute; reflexivity).
  split; [exact H|]. exact (safe_integer_exact 1700000000000 H).
Defined.

End IntegerText.
