(* ===== verification/Task.v ===== *)
(** * Task: the task record and its storage codec.

    - [Task.t] is the [Task] interface of
      src/list/src/services/taskService.ts (lines 2-9);
    - [Task.draft] is [Omit<Task, 'id' | 'createdAt' | 'updatedAt'>], the
      argument of [addTask] (line 27);
    - [Task.patch] is [Partial<Task>], the second argument of
      [updateTask]: every field optional; [Task.merge] is the object
      spread [{...old, ...updates}] of line 45-47;
    - [TaskCodec] is the interface the task store needs from the blob
      encoding: a decoder that inverts the encoder, and an encoder whose
      output is never the empty string (the store reads an empty blob as
      "no tasks", [tasksJson ? ... : []], line 16);
    - [json_codec] implements it with [JSON.stringify]/[JSON.parse] of
      Json.v; the task objects carry their keys in the order the store
      creates them ([{...task, id, createdAt, updatedAt}], lines 29-34). *)

From S2P Require Import Prelude Json.
From Stdlib Require Import String.
Import Json.

Module Task.

Record t : Type := mk {
  id : string;
  caption : string;
  body : string;
  done : bool;
  createdAt : Z;
  updatedAt : Z
}.

#[global] Instance eq_dec : EqDecision t.
Proof. solve_decision. Defined.

(** [Partial<Task>]: the fields an update supplies. *)
Record patch : Type := mk_patch {
  p_id : option string;
  p_caption : option string;
  p_body : option string;
  p_done : option bool;
  p_createdAt : option Z;
  p_updatedAt : option Z
}.

(** [Omit<Task, 'id' | 'createdAt' | 'updatedAt'>], the argument of
    [addTask]. *)
Record draft : Type := mk_draft {
  d_caption : string;
  d_body : string;
  d_done : bool
}.

Definition empty_patch : patch := mk_patch None None None None None None.

(** [{...old, ...updates}]: a supplied field wins. *)
Definition merge (old : t) (u : patch) : t :=
  mk (default (id old) (p_id u))
     (default (caption old) (p_caption u))
     (default (body old) (p_body u))
     (default (done old) (p_done u))
     (default (createdAt old) (p_createdAt u))
     (default (updatedAt old) (p_updatedAt u)).

Definition set_updatedAt (task : t) (ms : Z) : t :=
  mk (id task) (caption task) (body task) (done task) (createdAt task) ms.

End Task.

(** ** The blob codec *)

Class TaskCodec : Type := {
  encode_tasks : list Task.t -> string;
  decode_tasks : string -> option (list Task.t);
  decode_encode : ∀ ts, decode_tasks (encode_tasks ts) = Some ts;
  encode_nonempty : ∀ ts, encode_tasks ts ≠ EmptyString
}.

Module TaskJson.

Local Open Scope string_scope.

(** The members of the object the store writes for a task, in the order
    [{...task, id, createdAt, updatedAt}] creates them. *)
Definition fields (task : Task.t) : list (string * json) :=
  [("caption", JStr (Task.caption task)); ("body", JStr (Task.body task));
   ("done", JBool (Task.done task)); ("id", JStr (Task.id task));
   ("createdAt", JNum (Task.createdAt task)); ("updatedAt", JNum (Task.updatedAt task))].

Definition to_json (task : Task.t) : json := JObj (fields task).

(** Property access on a parsed object: with duplicate keys, [JSON.parse]
    keeps the last one. *)
Definition field (k : string) (fs : list (string * json)) : option json :=
  fold_left (fun acc '(k', v) => if decide (k = k') then Some v else acc) fs None.

Definition as_str (v : option json) : option string :=
  match v with Some (JStr s) => Some s | _ => None end.
Definition as_bool (v : option json) : option bool :=
  match v with Some (JBool b) => Some b | _ => None end.
Definition as_num (v : option json) : option Z :=
  match v with Some (JNum n) => Some n | _ => None end.

(** A parsed value read as a [Task]: an object with the six fields at
    their types.  The code does not check this ([JSON.parse(...)] is
    returned as [Task[]], and TypeScript's types are erased): a blob that
    is JSON but not an array of complete task objects is returned as it
    is, where the typed store reads it as an error.  RawStore.v runs the
    store on the values themselves and shows that the typed store is
    exact on every blob it reads. *)
Definition of_json (v : json) : option Task.t :=
  match v with
  | JObj fs =>
      i ← as_str (field "id" fs);
      c ← as_str (field "caption" fs);
      b ← as_str (field "body" fs);
      d ← as_bool (field "done" fs);
      ca ← as_num (field "createdAt" fs);
      ua ← as_num (field "updatedAt" fs);
      Some (Task.mk i c b d ca ua)
  | _ => None
  end.

Definition tasks_of_json (v : json) : option (list Task.t) :=
  match v with
  | JArr xs => mapM of_json xs
  | _ => None
  end.

Definition encode (ts : list Task.t) : string := stringify (JArr (to_json <$> ts)).

Definition decode (s : string) : option (list Task.t) := parse s ≫= tasks_of_json.

Lemma of_to_json task : of_json (to_json task) = Some task.
Proof. by destruct task. Qed.

Lemma tasks_of_to_json ts : tasks_of_json (JArr (to_json <$> ts)) = Some ts.
Proof.
  apply mapM_Some_2. induction ts as [|task ts IH]; constructor; [|done].
  apply of_to_json.
Qed.

(** What [saveTasksToStorage] writes parses as the array of the tasks'
    objects. *)
Lemma parse_encode ts : parse (encode ts) = Some (JArr (to_json <$> ts)).
Proof. apply parse_stringify_eq. Qed.

(** The codec's round trip: what [saveTasksToStorage] writes,
    [getTasksFromStorage] reads back. *)
Lemma decode_encode_json ts : decode (encode ts) = Some ts.
Proof. unfold decode. rewrite parse_encode. apply tasks_of_to_json. Qed.

(** Property access on an object whose keys are distinct. *)
Lemma field_absent (k : string) (fs : list (string * json)) (acc : option json) :
  k ∉ fst <$> fs ->
  fold_left (fun acc '(k', v) => if decide (k = k') then Some v else acc) fs acc = acc.
Proof.
  revert acc. induction fs as [|[k' v'] fs IH]; intros acc Hk; [done|]. simpl.
  rewrite decide_False by (intros ->; apply Hk; left).
  apply IH. intros Hin. apply Hk. by right.
Qed.

Lemma field_elem_acc (k : string) (v : json) (fs : list (string * json)) (acc : option json) :
  NoDup (fst <$> fs) -> (k, v) ∈ fs ->
  fold_left (fun acc '(k', v) => if decide (k = k') then Some v else acc) fs acc = Some v.
Proof.
  revert acc. induction fs as [|[k' v'] fs IH]; intros acc Hnd Hin; [by apply elem_of_nil in Hin|].
  simpl in Hnd |- *. apply NoDup_cons in Hnd as [Hk' Hnd].
  apply elem_of_cons in Hin as [[= -> ->]|Hin].
  - rewrite decide_True by done. by apply field_absent.
  - rewrite decide_False; [by apply IH|]. intros ->. apply Hk'.
    apply list_elem_of_fmap. by exists (k', v).
Qed.

Lemma field_elem k v fs : NoDup (fst <$> fs) -> (k, v) ∈ fs -> field k fs = Some v.
Proof. apply field_elem_acc. Qed.

Lemma encode_nonempty_json ts : encode ts ≠ EmptyString.
Proof. unfold encode. cbn [stringify]. by rewrite str_app_cons. Qed.

(** [JSON.parse] of an object with the six members in any order
    reads the same task: data written by another program with a different
    key order is read back. *)
Theorem of_json_any_order task fs :
  fs ≡ₚ fields task -> of_json (JObj fs) = Some task.
Proof.
  intros Hp. assert (Hnd : NoDup (fst <$> fs)).
  { rewrite Hp. apply (bool_decide_unpack _). by vm_compute. }
  unfold of_json. destruct task as [i c b d ca ua].
  repeat (erewrite field_elem; [|exact Hnd|rewrite Hp; by repeat constructor]); done.
Qed.

End TaskJson.

#[export] Instance json_codec : TaskCodec := {|
  encode_tasks := TaskJson.encode;
  decode_tasks := TaskJson.decode;
  decode_encode := TaskJson.decode_encode_json;
  encode_nonempty := TaskJson.encode_nonempty_json
|}.

(** The members of a task written in reverse order. *)
Lemma of_json_any_order_witness :
  let task := Task.mk "u" "Buy milk" "2%" false 0 1 in
  rev (TaskJson.fields task) ≡ₚ TaskJson.fields task ∧
  TaskJson.of_json (JObj (rev (TaskJson.fields task))) = Some task.
Proof.
  intros task. assert (Hp : rev (TaskJson.fields task) ≡ₚ TaskJson.fields task)
    by (symmetry; apply Permutation_rev).
  split; [exact Hp|]. exact (TaskJson.of_json_any_order task _ Hp).
Defined.
