(* ===== verification/Platform.v ===== *)
(** * Platform: the browser services the two stores call.

    None of this is code of the repository: it is the environment that
    src/list/src/services/*.ts run against, modelled as far as the stores
    observe it.

    - [world]: the mutable part: the [localStorage] area (string keys and
      values), the cookie jar of [js-cookie] (each cookie with its expiry
      time, evicted once the clock passes it), and two counters that index
      the readings of [Date.now()] and [crypto.randomUUID()];
    - [env]: what the program cannot choose: the clock readings, the UUIDs
      drawn, and the build mode ([process.env.NODE_ENV === 'production']).
      Theorems that need a well-behaved clock or distinct UUIDs say so as
      hypotheses ([clock_monotone], [uuid_injective]);
    - [js_sort]: [Array.prototype.sort] with a comparator, which ECMAScript
      2019 requires to be stable; any two stable sorts agree, and this one
      is an insertion sort;
    - [js_date]: a [Date] argument, whose [getTime()] is NaN when it is
      invalid, and [num_le], number comparison with NaN. *)

From S2P Require Import Prelude.
From Stdlib Require Import Ascii.

(** A cookie of the jar: its value, its expiry time (ms since the epoch,
    to the second, as the [expires] attribute is written), and its
    transport attributes. *)
Record cookie : Type := mk_cookie {
  c_value : string;
  c_expires : Z;
  c_secure : bool;
  c_sameSite : string
}.

Definition DAY_MS : Z := 86400000.

(** js-cookie's [expires: days]: [new Date(Date.now() + days * 864e5)],
    written with [toUTCString()], which keeps whole seconds. *)
Definition expiry_of (now days : Z) : Z := (now + days * DAY_MS) / 1000 * 1000.

(** The expiry lies in the last second before [days] days from [now]. *)
Lemma expiry_of_bounds now days :
  (now + days * DAY_MS - 1000 < expiry_of now days <= now + days * DAY_MS)%Z.
Proof.
  unfold expiry_of. pose proof (Z.div_mod (now + days * DAY_MS) 1000 ltac:(lia)) as Hd.
  pose proof (Z.mod_pos_bound (now + days * DAY_MS) 1000 ltac:(lia)). lia.
Qed.

(** The cookies still alive at time [now]: a cookie is evicted once its
    expiry time is past. *)
Definition evict (now : Z) (cs : gmap string cookie) : gmap string cookie :=
  filter (fun kc => now <= c_expires kc.2)%Z cs.

Record world : Type := mk_world {
  storage : gmap string string;
  cookies : gmap string cookie;
  ticks : nat;
  uuids : nat
}.

Record env : Type := mk_env {
  now_at : nat -> Z;
  uuid_at : nat -> string;
  production : bool
}.

Definition clock_monotone (E : env) : Prop := ∀ i j, i <= j -> (now_at E i <= now_at E j)%Z.
Definition uuid_injective (E : env) : Prop := ∀ i j, uuid_at E i = uuid_at E j -> i = j.

(** One more reading of the clock, one more UUID drawn. *)
Definition tick (w : world) : world := mk_world (storage w) (cookies w) (S (ticks w)) (uuids w).
Definition draw (w : world) : world := mk_world (storage w) (cookies w) (ticks w) (S (uuids w)).

Definition set_storage (st : gmap string string) (w : world) : world :=
  mk_world st (cookies w) (ticks w) (uuids w).
Definition set_cookies (cs : gmap string cookie) (w : world) : world :=
  mk_world (storage w) cs (ticks w) (uuids w).

Section Platform.
Context (E : env).

  (** [localStorage.getItem(key)]: [null] is [None]. *)
Definition local_get (key : string) : M world (option string) :=
    fun w => (Ok (storage w !! key), w).

  (** [localStorage.setItem(key, value)]. *)
Definition local_set (key value : string) : M world unit :=
    modify (fun w => set_storage (<[key := value]> (storage w)) w).

  (** [Cookies.get(name)]: [undefined] is [None]. *)
Definition cookie_get (name : string) : M world (option string) :=
    fun w => (Ok (c_value <$> cookies w !! name), w).

  (** [Date.now()]: each call is one more reading of the clock. *)
Definition date_now : M world Z :=
    fun w => (Ok (now_at E (ticks w)), tick w).

  (** [Cookies.set(name, value, {expires: days, secure, sameSite})]:
      js-cookie reads the clock to turn [days] into a date. *)
Definition cookie_set (name value : string) (days : Z) (secure : bool) (sameSite : string) : M world unit :=
    now <- date_now ;;
    modify (fun w => set_cookies (<[name := mk_cookie value (expiry_of now days) secure sameSite]> (cookies w)) w).

Definition cookie_remove (name : string) : M world unit :=
    modify (fun w => set_cookies (delete name (cookies w)) w).

  (** Time passes while the page is open: the clock moves on to its next
      reading and the browser evicts the cookies expired by then. *)
Definition elapse : M world unit :=
    now <- date_now ;;
    modify (fun w => set_cookies (evict now (cookies w)) w).

  (** [crypto.randomUUID()]. *)
Definition random_uuid : M world string :=
    fun w => (Ok (uuid_at E (uuids w)), draw w).
End Platform.

(** ** [Date] and number comparison *)

(** A [Date] as the store uses it: [getTime()] is its time value, or NaN
    for an Invalid Date ([new Date("not a date")]). *)
Inductive js_date : Type :=
  | ValidDate (ms : Z)
  | InvalidDate.

Definition getTime (d : js_date) : option Z :=
  match d with ValidDate ms => Some ms | InvalidDate => None end.

(** [x <= y] on numbers, NaN ([None]) comparing false with everything. *)
Definition num_le (x y : option Z) : bool :=
  match x, y with
  | Some x, Some y => bool_decide (x <= y)%Z
  | _, _ => false
  end.

(** A concrete environment: a clock that advances by one millisecond per
    reading and distinct UUIDs; the examples and witnesses run in it. *)
Fixpoint unary_uuid (k : nat) : string :=
  match k with
  | 0 => "u"%string
  | S k => String "a"%char (unary_uuid k)
  end.

Definition demo_env : env := mk_env (fun k => Z.of_nat k) unary_uuid false.

Lemma demo_clock_monotone : clock_monotone demo_env.
Proof. intros i j Hij. simpl. lia. Qed.

Lemma demo_uuid_injective : uuid_injective demo_env.
Proof.
  intros i. simpl. induction i as [|i IH]; intros [|j]; simpl; try done.
  intros H. injection H as H. by rewrite (IH j H).
Qed.

Definition empty_world : world := mk_world ∅ ∅ 0 0.

(** ** [Array.prototype.sort(comparefn)] *)

Section Sort.
Context {A : Type} (cmp : A -> A -> Z).

  (** Insert [x], which came before every element of [l], in front of the
      first element it does not compare greater than. *)
Fixpoint sort_insert (x : A) (l : list A) : list A :=
    match l with
    | [] => [x]
    | y :: l' => if decide (cmp x y <= 0)%Z then x :: y :: l' else y :: sort_insert x l'
    end.

Fixpoint js_sort (l : list A) : list A :=
    match l with
    | [] => []
    | x :: l' => sort_insert x (js_sort l')
    end.

Lemma sort_insert_perm x l : sort_insert x l ≡ₚ x :: l.
  Proof.
    induction l as [|y l IH]; simpl; [done|].
    case_decide; [done|]. rewrite IH. by constructor.
  Qed.

Lemma js_sort_perm l : js_sort l ≡ₚ l.
  Proof. induction l as [|x l IH]; simpl; [done|]. by rewrite sort_insert_perm, IH. Qed.
End Sort.

(** The comparators of [getTasksSortedByDate]: [a - b] ascending,
    [b - a] descending, on a numeric key. *)
Definition by_key {A} (asc : bool) (key : A -> Z) (a b : A) : Z :=
  if asc then (key a - key b)%Z else (key b - key a)%Z.

Section SortByKey.
Context {A : Type} (asc : bool) (key : A -> Z).

Definition key_le (a b : A) : Prop :=
    if asc then (key a <= key b)%Z else (key b <= key a)%Z.

Lemma by_key_le a b : (by_key asc key a b <= 0)%Z <-> key_le a b.
  Proof. unfold by_key, key_le. destruct asc; lia. Qed.

Lemma sort_insert_sorted x l :
    Sorted key_le l -> Sorted key_le (sort_insert (by_key asc key) x l).
  Proof.
    induction 1 as [|y l Hl IH Hhd]; simpl; [by repeat constructor|].
    case_decide as Hc.
    - constructor; [by constructor|]. constructor. by apply by_key_le.
    - constructor; [done|].
      assert (key_le y x) by (rewrite <- by_key_le in *; unfold by_key in *; destruct asc; lia).
      destruct l as [|z l]; simpl; [by repeat constructor|].
      inversion Hhd; subst. case_decide; constructor; done.
  Qed.

Lemma js_sort_sorted l : Sorted key_le (js_sort (by_key asc key) l).
  Proof. induction l; simpl; [constructor|]. by apply sort_insert_sorted. Qed.

  (** Stability: the elements of one key keep their relative order. *)
Lemma sort_insert_stable c x l :
    Sorted key_le l ->
    filter (fun y => key y = c) (sort_insert (by_key asc key) x l)
    = filter (fun y => key y = c) (x :: l).
  Proof.
    induction 1 as [|y l Hl IH Hhd]; simpl; [done|].
    case_decide as Hc; [done|].
    rewrite !filter_cons, IH, filter_cons.
    repeat case_decide; try done.
    exfalso. rewrite by_key_le in Hc. unfold key_le in Hc. destruct asc; lia.
  Qed.

Lemma js_sort_stable c l :
    filter (fun y => key y = c) (js_sort (by_key asc key) l) = filter (fun y => key y = c) l.
  Proof.
    induction l as [|x l IH]; simpl; [done|].
    rewrite sort_insert_stable by apply js_sort_sorted.
    by rewrite !filter_cons, IH.
  Qed.
End SortByKey.
