(* ===== verification/TaskService.v ===== *)
(** * TaskService: the task store of src/list/src/services/taskService.ts.

    The class keeps no state of its own: every method reads the whole
    collection from the local-storage key ["tasks"%string]
    ([getTasksFromStorage]), works on it in memory and writes the whole
    collection back ([saveTasksToStorage]).  Each method is a computation
    in [M world] (Prelude.v) over the browser world of Platform.v, written
    against the [TaskCodec] interface of Task.v, so that the theorems hold
    for any codec whose decoder inverts its encoder, JSON among them.

    The abstraction [stored w] is the collection a read of [w] returns; the
    theorems show what each method does to it, which errors it raises, and
    that the invariant [wf] (distinct ids drawn from [crypto.randomUUID],
    [createdAt <= updatedAt], timestamps in the past) is kept. *)

From S2P Require Import Prelude Json Task Platform.

Module TaskService.

Section Ops.
Context `{!TaskCodec} (E : env).

Definition STORAGE_KEY : string := "tasks"%string.

  (** [getTasksFromStorage] (lines 14-17): [tasksJson ? JSON.parse(tasksJson) : []];
      both [null] and [""] read as the empty collection. *)
Definition getTasksFromStorage : M world (list Task.t) :=
    tasksJson <- local_get STORAGE_KEY ;;
    match tasksJson with
    | Some s =>
        if decide (s = EmptyString) then ret []
        else match decode_tasks s with
             | Some ts => ret ts
             | None => throw "SyntaxError"%string
             end
    | None => ret []
    end.

  (** [saveTasksToStorage] (lines 19-21). *)
Definition saveTasksToStorage (tasks : list Task.t) : M world unit :=
    local_set STORAGE_KEY (encode_tasks tasks).

  (** [getTasks] (lines 23-25). *)
Definition getTasks : M world (list Task.t) := getTasksFromStorage.

  (** [addTask] (lines 27-38): the fields of the object literal are
      evaluated left to right, so the id is drawn first and [Date.now()] is
      read twice, once for [createdAt] and once for [updatedAt]. *)
Definition addTask (task : Task.draft) : M world Task.t :=
    tasks <- getTasksFromStorage ;;
    newId <- random_uuid E ;;
    created <- date_now E ;;
    updated <- date_now E ;;
    let newTask := Task.mk newId (Task.d_caption task) (Task.d_body task)
                           (Task.d_done task) created updated in
    saveTasksToStorage (tasks ++ [newTask]) ;;;
    ret newTask.

  (** [updateTask] (lines 40-53): [findIndex] then [tasks[taskIndex]] is
      [list_find]; [-1] is [None]. *)
Definition updateTask (id : string) (updates : Task.patch) : M world Task.t :=
    tasks <- getTasksFromStorage ;;
    match list_find (fun t => Task.id t = id) tasks with
    | None => throw "Task not found"%string
    | Some (taskIndex, old) =>
        now <- date_now E ;;
        let updatedTask := Task.set_updatedAt (Task.merge old updates) now in
        saveTasksToStorage (<[taskIndex := updatedTask]> tasks) ;;;
        ret updatedTask
    end.

  (** [deleteTask] (lines 55-59). *)
Definition deleteTask (id : string) : M world unit :=
    tasks <- getTasksFromStorage ;;
    saveTasksToStorage (filter (fun t => Task.id t ≠ id) tasks).

  (** [getTasksByDateRange] (lines 62-66): [task.createdAt >=
      startDate.getTime() && task.createdAt <= endDate.getTime()]. *)
Definition getTasksByDateRange (startDate endDate : js_date) : M world (list Task.t) :=
    tasks <- getTasksFromStorage ;;
    ret (filter (fun task => num_le (getTime startDate) (Some (Task.createdAt task)) &&
                             num_le (Some (Task.createdAt task)) (getTime endDate) = true) tasks).

  (** [getTasksSortedByDate] (lines 68-75): a sorted copy. *)
Definition getTasksSortedByDate (ascending : bool) : M world (list Task.t) :=
    tasks <- getTasksFromStorage ;;
    ret (js_sort (by_key ascending Task.createdAt) tasks).

  (** The collection a read of [w] returns, if it does not throw. *)
Definition stored (w : world) : option (list Task.t) :=
    match eval getTasksFromStorage w with
    | Ok ts => Some ts
    | Throw _ => None
    end.
End Ops.

(** ** Reading and writing the blob *)

Section Blob.
Context `{!TaskCodec}.

Lemma getTasksFromStorage_stored w :
    getTasksFromStorage w =
    (match stored w with Some ts => Ok ts | None => Throw "SyntaxError"%string end, w).
  Proof.
    unfold stored, getTasksFromStorage, eval, local_get. svc_simpl.
    destruct (storage w !! STORAGE_KEY) as [s|]; [|done].
    case_decide; [done|]. svc_simpl. by destruct (decode_tasks s).
  Qed.

Lemma get_ok w ts : stored w = Some ts -> getTasksFromStorage w = (Ok ts, w).
  Proof. intros Hs. by rewrite getTasksFromStorage_stored, Hs. Qed.

Lemma get_err w : stored w = None -> getTasksFromStorage w = (Throw "SyntaxError"%string, w).
  Proof. intros Hs. by rewrite getTasksFromStorage_stored, Hs. Qed.

Definition write (ts : list Task.t) (w : world) : world :=
    set_storage (<[STORAGE_KEY := encode_tasks ts]> (storage w)) w.

Lemma save_eq ts w : saveTasksToStorage ts w = (Ok tt, write ts w).
  Proof. reflexivity. Qed.

  (** What is written is what the next read returns. *)
Lemma stored_write ts w : stored (write ts w) = Some ts.
  Proof.
    unfold stored, write, getTasksFromStorage, eval, local_get. svc_simpl.
    rewrite lookup_insert_eq. rewrite decide_False by apply encode_nonempty.
    by rewrite decode_encode.
  Qed.

Lemma write_write ts ts' w : write ts (write ts' w) = write ts w.
  Proof. unfold write, set_storage. simpl. by rewrite insert_insert_eq. Qed.

Lemma write_counters ts w :
    ticks (write ts w) = ticks w ∧ uuids (write ts w) = uuids w ∧ cookies (write ts w) = cookies w.
  Proof. done. Qed.
End Blob.

#[export] Hint Rewrite @stored_write @write_write : svc_rw.
#[export] Hint Resolve stored_write : svc.

(** ** What each method does *)

Section Methods.
Context `{!TaskCodec} (E : env).

  (** The task [addTask] creates from [d] in world [w]. *)
Definition new_task (d : Task.draft) (w : world) : Task.t :=
    Task.mk (uuid_at E (uuids w)) (Task.d_caption d) (Task.d_body d) (Task.d_done d)
            (now_at E (ticks w)) (now_at E (S (ticks w))).

  (** [addTask] on a readable store appends the new task, draws one UUID
      and reads the clock twice. *)
Lemma addTask_eq d w ts :
    stored w = Some ts ->
    addTask E d w = (Ok (new_task d w), write (ts ++ [new_task d w]) (tick (tick (draw w)))).
  Proof. intros Hs. unfold addTask, bind. by rewrite (get_ok _ _ Hs). Qed.

  (** On an unreadable blob every method fails before it writes. *)
Lemma addTask_corrupt d w :
    stored w = None -> addTask E d w = (Throw "SyntaxError"%string, w).
  Proof. intros Hs. unfold addTask, bind. by rewrite (get_err _ Hs). Qed.

  (** The updated task of [updateTask]: the spread of the old task and the
      update, with [updatedAt] read from the clock. *)
Definition updated (old : Task.t) (u : Task.patch) (w : world) : Task.t :=
    Task.set_updatedAt (Task.merge old u) (now_at E (ticks w)).

Lemma updateTask_found id u w ts i old :
    stored w = Some ts ->
    list_find (fun t => Task.id t = id) ts = Some (i, old) ->
    updateTask E id u w = (Ok (updated old u w), write (<[i := updated old u w]> ts) (tick w)).
  Proof. intros Hs Hf. unfold updateTask, bind. by rewrite (get_ok _ _ Hs), Hf. Qed.

Lemma updateTask_absent id u w ts :
    stored w = Some ts -> Forall (fun t => Task.id t ≠ id) ts ->
    updateTask E id u w = (Throw "Task not found"%string, w).
  Proof.
    intros Hs Hf. unfold updateTask, bind. rewrite (get_ok _ _ Hs).
    by rewrite (proj2 (list_find_None _ _) Hf).
  Qed.

Lemma deleteTask_eq id w ts :
    stored w = Some ts ->
    deleteTask id w = (Ok tt, write (filter (fun t => Task.id t ≠ id) ts) w).
  Proof. intros Hs. unfold deleteTask, bind. by rewrite (get_ok _ _ Hs). Qed.

Lemma deleteTask_corrupt id w : stored w = None -> deleteTask id w = (Throw "SyntaxError"%string, w).
  Proof. intros Hs. unfold deleteTask, bind. by rewrite (get_err _ Hs). Qed.
End Methods.

(** ** The store invariant *)

Section Invariant.
Context `{!TaskCodec} (E : env).

  (** A stored task's id is a UUID drawn earlier, and its timestamps are
      ordered and not in the future. *)
Definition task_ok (w : world) (t : Task.t) : Prop :=
    (∃ k, k < uuids w ∧ Task.id t = uuid_at E k) ∧
    (Task.createdAt t <= Task.updatedAt t)%Z ∧
    (Task.updatedAt t <= now_at E (ticks w))%Z.

Definition wf (w : world) : Prop :=
    ∃ ts, stored w = Some ts ∧ NoDup (Task.id <$> ts) ∧ Forall (task_ok w) ts.

Lemma task_ok_mono w w' t :
    clock_monotone E -> uuids w <= uuids w' -> ticks w <= ticks w' ->
    task_ok w t -> task_ok w' t.
  Proof.
    intros Hc Hu Ht ([k [Hk Hid]] & Hca & Hua). split_and!; [|done|].
    - exists k. split; [lia|done].
    - etrans; [exact Hua|]. by apply Hc.
  Qed.

  (** An update that leaves the id and the creation time alone, as the
      edit and toggle handlers of the UI send. *)
Definition keeps_identity (old : Task.t) (u : Task.patch) : Prop :=
    Task.id (Task.merge old u) = Task.id old ∧
    Task.createdAt (Task.merge old u) = Task.createdAt old.

#[global] Instance keeps_identity_dec old u : Decision (keeps_identity old u).
  Proof. unfold keeps_identity. apply _. Defined.

Lemma new_task_fresh d w ts :
    uuid_injective E -> Forall (task_ok w) ts ->
    Task.id (new_task E d w) ∉ Task.id <$> ts.
  Proof.
    intros Hinj Hok Hin. apply list_elem_of_fmap in Hin as (t & Heq & Ht).
    rewrite Forall_forall in Hok. destruct (Hok t Ht) as ([k [Hk Hid]] & _).
    simpl in Heq. rewrite Hid in Heq. apply Hinj in Heq. lia.
  Qed.

Lemma wf_add d w :
    clock_monotone E -> uuid_injective E -> wf w -> wf (exec (addTask E d) w).
  Proof.
    intros Hc Hinj (ts & Hs & Hnd & Hok). unfold exec. erewrite addTask_eq by exact Hs.
    exists (ts ++ [new_task E d w]). simpl. split_and!.
    - apply stored_write.
    - rewrite fmap_app, NoDup_app. split_and!; [done| |apply NoDup_singleton].
      intros x Hx Hin. apply list_elem_of_fmap in Hin as (t & -> & Ht%list_elem_of_singleton).
      subst t. by eapply new_task_fresh.
    - apply Forall_app. split.
      + eapply Forall_impl; [exact Hok|]. intros t. apply task_ok_mono; simpl; lia || done.
      + constructor; [|constructor]. split_and!; simpl.
        * exists (uuids w). split; [lia|done].
        * apply Hc. lia.
        * apply Hc. lia.
  Qed.

Lemma wf_update id u w ts i old :
    clock_monotone E -> wf w -> stored w = Some ts ->
    list_find (fun t => Task.id t = id) ts = Some (i, old) -> keeps_identity old u ->
    wf (exec (updateTask E id u) w).
  Proof.
    intros Hc (ts' & Hs' & Hnd & Hok) Hs Hf [Hid Hca]. rewrite Hs in Hs'. injection Hs' as <-.
    cbn [Task.merge Task.id Task.createdAt] in Hid, Hca.
    unfold exec. erewrite updateTask_found by eauto. simpl.
    apply list_find_Some in Hf as (Hi & _ & _).
    assert (Hold : task_ok w old) by (rewrite Forall_forall in Hok; eapply Hok, list_elem_of_lookup_2, Hi).
    exists (<[i := updated E old u w]> ts). split_and!.
    - apply stored_write.
    - rewrite list_fmap_insert. simpl. rewrite Hid, list_insert_id; [done|].
      by rewrite list_lookup_fmap, Hi.
    - apply Forall_insert.
      + eapply Forall_impl; [exact Hok|]. intros t. apply task_ok_mono; simpl; lia || done.
      + destruct Hold as (Hk & Hco & Huo). split_and!; simpl.
        * by rewrite Hid.
        * rewrite Hca. lia.
        * apply Hc. lia.
  Qed.

Lemma wf_delete id w : wf w -> wf (exec (deleteTask id) w).
  Proof.
    intros (ts & Hs & Hnd & Hok). unfold exec. rewrite (deleteTask_eq id w ts Hs). simpl.
    exists (filter (fun t => Task.id t ≠ id) ts). split_and!; eauto with svc.
  Qed.

  (** The calls the UI makes: reads, adds, deletes, and updates that keep
      the identity of the task they find. *)
Inductive client_step : world -> world -> Prop :=
    | cs_read w : client_step w (exec getTasks w)
    | cs_add d w : client_step w (exec (addTask E d) w)
    | cs_update id u w :
        (∀ ts i old, stored w = Some ts ->
           list_find (fun t => Task.id t = id) ts = Some (i, old) -> keeps_identity old u) ->
        client_step w (exec (updateTask E id u) w)
    | cs_delete id w : client_step w (exec (deleteTask id) w).

Lemma wf_step w w' :
    clock_monotone E -> uuid_injective E -> wf w -> client_step w w' -> wf w'.
  Proof.
    intros Hc Hinj Hw Hstep. destruct Hstep as [w|d w|id u w Hkeep|id w].
    - unfold exec. destruct Hw as (ts & Hs & ?). unfold getTasks. rewrite (get_ok _ _ Hs).
      by exists ts.
    - by apply wf_add.
    - pose proof Hw as (ts & Hs & _).
      destruct (list_find (fun t => Task.id t = id) ts) as [[i old]|] eqn:Hf.
      + eapply wf_update; eauto.
      + unfold exec. rewrite (updateTask_absent E id u w ts Hs); [done|].
        by apply list_find_None in Hf.
    - by apply wf_delete.
  Qed.

  (** The store's calls leave the cookie jar alone. *)
  (** A client step keeps the cookies and moves the counters forward. *)
Lemma client_step_counters w w' :
    client_step w w' -> cookies w' = cookies w ∧ ticks w <= ticks w' ∧ uuids w <= uuids w'.
  Proof.
    destruct 1 as [w|d w|id u w _|id w]; unfold exec.
    - unfold getTasks. rewrite getTasksFromStorage_stored. simpl. split_and!; [done|lia..].
    - destruct (stored w) as [ts|] eqn:Hs.
      + rewrite (addTask_eq E d w ts Hs). simpl. split_and!; [done|lia..].
      + rewrite (addTask_corrupt E d w Hs). simpl. split_and!; [done|lia..].
    - destruct (stored w) as [ts|] eqn:Hs.
      + destruct (list_find (fun t => Task.id t = id) ts) as [[i old]|] eqn:Hf.
        * rewrite (updateTask_found E id u w ts i old Hs Hf). simpl. split_and!; [done|lia..].
        * apply list_find_None in Hf. rewrite (updateTask_absent E id u w ts Hs Hf).
          simpl. split_and!; [done|lia..].
      + unfold updateTask, bind. rewrite (get_err w Hs). simpl. split_and!; [done|lia..].
    - destruct (stored w) as [ts|] eqn:Hs.
      + rewrite (deleteTask_eq id w ts Hs). simpl. split_and!; [done|lia..].
      + rewrite (deleteTask_corrupt id w Hs). simpl. split_and!; [done|lia..].
  Qed.
Lemma client_step_cookies w w' : client_step w w' -> cookies w' = cookies w.
  Proof. intros Hs. apply (client_step_counters w w' Hs). Qed.

Lemma rtc_client_step_cookies w w' : rtc client_step w w' -> cookies w' = cookies w.
  Proof. induction 1 as [|w1 w2 w3 Hs _ IH]; [done|]. rewrite IH. by apply client_step_cookies. Qed.

  (** [stored] reads the storage area only. *)
Lemma stored_storage w w' : storage w' = storage w -> stored w' = stored w.
  Proof.
    intros Hst. unfold stored, getTasksFromStorage, eval, local_get. svc_simpl. rewrite Hst.
    destruct (storage w !! STORAGE_KEY) as [s|]; [|done]. case_decide; [done|].
    by destruct (decode_tasks s).
  Qed.

  (** Calls of other components that leave the storage alone and only
      move the counters forward keep the store well-formed. *)
Lemma wf_world_le w w' :
    clock_monotone E -> storage w' = storage w -> ticks w <= ticks w' -> uuids w <= uuids w' ->
    wf w -> wf w'.
  Proof.
    intros Hc Hst Ht Hu (ts & Hs & Hnd & Hok). exists ts. split_and!; [|done|].
    - by rewrite (stored_storage w w' Hst).
    - eapply Forall_impl; [exact Hok|]. intros t. by apply task_ok_mono.
  Qed.

Lemma wf_empty w : storage w !! STORAGE_KEY = None -> wf w.
  Proof.
    intros Hn. exists []. split_and!; [|constructor|constructor].
    unfold stored, getTasksFromStorage, eval, local_get. svc_simpl. by rewrite Hn.
  Qed.
End Invariant.

(** On two valid dates the filter is the inclusive range. *)
Lemma getTasksByDateRange_valid `{!TaskCodec} a b w ts :
  stored w = Some ts ->
  getTasksByDateRange (ValidDate a) (ValidDate b) w =
    (Ok (filter (fun t => a <= Task.createdAt t <= b)%Z ts), w).
Proof.
  intros Hs. unfold getTasksByDateRange, bind. rewrite (get_ok _ _ Hs). unfold ret. do 2 f_equal.
  apply list_filter_iff. intros t. simpl. rewrite andb_true_iff, !bool_decide_eq_true. lia.
Qed.

(** ** Properties of the task store *)

Section Properties.
Context `{!TaskCodec} (E : env).

  (** C6: every world the UI's calls reach from a well-formed world is
      well-formed: stored ids are distinct UUIDs drawn earlier, and every
      task has [createdAt <= updatedAt], neither in the future. *)
Theorem wf_reachable w0 w :
    clock_monotone E -> uuid_injective E -> wf E w0 ->
    rtc (client_step E) w0 w -> wf E w.
  Proof.
    intros Hc Hinj Hw0 Hr. induction Hr as [|w1 w2 w3 Hs Hr IH]; [done|].
    apply IH. by eapply wf_step.
  Qed.

  (** C20: after [addTask], [getTasks] returns the previous collection with
      the new task appended, and the new task carries the caption, body
      and done flag it was given. *)
Theorem addTask_then_getTasks d w ts :
    stored w = Some ts ->
    ∃ t w', addTask E d w = (Ok t, w') ∧ getTasks w' = (Ok (ts ++ [t]), w') ∧
            Task.caption t = Task.d_caption d ∧ Task.body t = Task.d_body d ∧
            Task.done t = Task.d_done d.
  Proof.
    intros Hs. eexists _, _. split; [by apply addTask_eq|].
    split_and!; [|done..]. apply get_ok, stored_write.
  Qed.


  (** C21: on a well-formed store, with a monotone clock and distinct UUIDs,
      [addTask] returns a task whose id differs from every stored id, whose
      [createdAt] is at most its [updatedAt], and leaves the store
      well-formed. *)
Theorem addTask_fresh_id d w :
    clock_monotone E -> uuid_injective E -> wf E w ->
    ∃ ts t w', stored w = Some ts ∧ addTask E d w = (Ok t, w') ∧
      (Task.id t ∉ Task.id <$> ts) ∧ (Task.createdAt t <= Task.updatedAt t)%Z ∧ wf E w'.
  Proof.
    intros Hc Hinj Hw. pose proof Hw as (ts & Hs & _ & Hok).
    pose proof (wf_add E d w Hc Hinj Hw) as Hw'. unfold exec in Hw'.
    rewrite (addTask_eq E d w ts Hs) in Hw' |- *.
    eexists _, _, _. split_and!; [done|done| |simpl; apply Hc; lia|done].
    by apply new_task_fresh.
  Qed.

  (** C33: [addTask] reads the clock twice: [createdAt] and [updatedAt] are
      two successive readings, so they differ whenever the clock moves
      between the two calls of [Date.now()]. *)
Theorem addTask_two_clock_reads d w ts t w' :
    stored w = Some ts -> addTask E d w = (Ok t, w') ->
    Task.createdAt t = now_at E (ticks w) ∧ Task.updatedAt t = now_at E (S (ticks w)) ∧
    ticks w' = S (S (ticks w)).
  Proof. intros Hs. rewrite (addTask_eq E d w ts Hs). by intros [= <- <-]. Qed.

  (** C22: [updateTask] fails with [Task not found] exactly when no stored
      task has the id, and then the world is unchanged: it never creates a
      record. *)
Theorem updateTask_not_found_iff id u w ts :
    stored w = Some ts ->
    ((updateTask E id u w).1 = Throw "Task not found"%string <-> id ∉ Task.id <$> ts) ∧
    (id ∉ Task.id <$> ts -> (updateTask E id u w).2 = w).
  Proof.
    intros Hs.
    destruct (list_find (fun t => Task.id t = id) ts) as [[i old]|] eqn:Hf.
    - rewrite (updateTask_found E id u w ts i old Hs Hf). simpl.
      apply list_find_Some in Hf as (Hi & Hid & _).
      assert (id ∈ Task.id <$> ts) by (subst; eapply list_elem_of_fmap_2, list_elem_of_lookup_2, Hi).
      naive_solver.
    - apply list_find_None in Hf.
      rewrite (updateTask_absent E id u w ts Hs Hf). simpl.
      assert (id ∉ Task.id <$> ts).
      { intros (t & -> & Ht)%list_elem_of_fmap. rewrite Forall_forall in Hf. by apply (Hf t). }
      naive_solver.
  Qed.

  (** C23: toggling a stored task with [{done: b}] keeps its id, caption,
      body and creation time, sets [done] to [b], writes it back in place,
      and moves [updatedAt] forward (monotone clock, well-formed store). *)
Theorem updateTask_toggle_done id b w ts i old :
    clock_monotone E -> wf E w -> stored w = Some ts ->
    list_find (fun t => Task.id t = id) ts = Some (i, old) ->
    let u := Task.mk_patch None None None (Some b) None None in
    ∃ t w', updateTask E id u w = (Ok t, w') ∧ stored w' = Some (<[i := t]> ts) ∧
      Task.id t = Task.id old ∧ Task.caption t = Task.caption old ∧
      Task.body t = Task.body old ∧ Task.createdAt t = Task.createdAt old ∧
      Task.done t = b ∧ (Task.updatedAt old <= Task.updatedAt t)%Z.
  Proof.
    intros Hc (ts' & Hs' & _ & Hok) Hs Hf u. rewrite Hs in Hs'. injection Hs' as <-.
    rewrite (updateTask_found E id u w ts i old Hs Hf).
    eexists _, _. split_and!; [done|apply stored_write|done..|].
    apply list_find_Some in Hf as (Hi & _ & _). rewrite Forall_forall in Hok.
    destruct (Hok old) as (_ & _ & Hle); [by eapply list_elem_of_lookup_2|]. done.
  Qed.

  (** [deleteTask] is idempotent: deleting twice gives the same result
      and the same world as deleting once, on any world. *)
Theorem deleteTask_idempotent id w :
    (deleteTask id ;;; deleteTask id) w = deleteTask id w.
  Proof.
    unfold bind. destruct (stored w) as [ts|] eqn:Hs.
    - rewrite (deleteTask_eq id w ts Hs).
      rewrite (deleteTask_eq id _ (filter (fun t => Task.id t ≠ id) ts)) by apply stored_write.
      by autorewrite with svc_rw.
    - by rewrite (deleteTask_corrupt id w Hs).
  Qed.

  (** After [deleteTask id] the store holds exactly the tasks whose id
      differs, in their previous order. *)
Theorem deleteTask_removes id w ts :
    stored w = Some ts ->
    ∃ w', deleteTask id w = (Ok tt, w') ∧ stored w' = Some (filter (fun t => Task.id t ≠ id) ts) ∧
      (id ∉ Task.id <$> filter (fun t => Task.id t ≠ id) ts) ∧
      (∀ t, Task.id t ≠ id -> t ∈ ts -> t ∈ filter (fun t => Task.id t ≠ id) ts).
  Proof.
    intros Hs. eexists. split_and!; [by apply deleteTask_eq|apply stored_write| |].
    - intros (t & -> & Ht)%list_elem_of_fmap. by apply list_elem_of_filter in Ht as [? _].
    - intros t Hne Ht. by apply list_elem_of_filter.
  Qed.

  (** [getTasksSortedByDate] returns, without writing, a permutation of
      the stored tasks ordered by [createdAt] (non-decreasing when
      ascending, non-increasing otherwise), tasks of equal [createdAt] in
      stored order. *)
Theorem getTasksSortedByDate_spec asc w ts :
    stored w = Some ts ->
    ∃ ts', getTasksSortedByDate asc w = (Ok ts', w) ∧
      Sorted (key_le asc Task.createdAt) ts' ∧ ts' ≡ₚ ts ∧
      (∀ c, filter (fun t => Task.createdAt t = c) ts' = filter (fun t => Task.createdAt t = c) ts).
  Proof.
    intros Hs. unfold getTasksSortedByDate, bind. rewrite (get_ok _ _ Hs).
    eexists. split_and!; [done|apply js_sort_sorted|apply js_sort_perm|].
    intros c. apply js_sort_stable.
  Qed.
  (** C24: [getTasksByDateRange] on two valid dates returns, without
      writing, the stored tasks whose [createdAt] lies in the inclusive
      range, in stored order; with an Invalid Date on either side it
      returns no task, as every comparison with NaN is false. *)
Theorem getTasksByDateRange_spec startDate endDate w ts :
    stored w = Some ts ->
    (∃ ts', getTasksByDateRange (ValidDate startDate) (ValidDate endDate) w = (Ok ts', w) ∧
      ts' `sublist_of` ts ∧ (∀ t, t ∈ ts' <-> t ∈ ts ∧ (startDate <= Task.createdAt t <= endDate)%Z)) ∧
    (∀ d, getTasksByDateRange InvalidDate d w = (Ok [], w) ∧ getTasksByDateRange d InvalidDate w = (Ok [], w)).
  Proof.
    intros Hs. split.
    - rewrite (getTasksByDateRange_valid _ _ _ _ Hs). eexists. split_and!; [done|apply sublist_filter|].
      intros t. rewrite list_elem_of_filter. tauto.
    - intros d. unfold getTasksByDateRange, bind. rewrite (get_ok _ _ Hs).
      split; (rewrite filter_none; [done|]); intros t; destruct d; simpl;
        [done|done|rewrite andb_false_r; done|done].
  Qed.

  (** C34: [updateTask] does not protect a task's id: on any store where
      the task matching [id] and another task with id [j] are stored, the
      update [{id: j}] succeeds, writes the merged task in place with the
      id [j], and leaves two stored tasks with the id [j], a world that is
      no longer well-formed. *)
Theorem updateTask_can_duplicate_ids id j w ts i k old other :
    stored w = Some ts -> list_find (fun t => Task.id t = id) ts = Some (i, old) ->
    ts !! k = Some other -> k ≠ i -> Task.id other = j ->
    let u := Task.mk_patch (Some j) None None None None None in
    ∃ t w', updateTask E id u w = (Ok t, w') ∧ stored w' = Some (<[i := t]> ts) ∧
      Task.id t = j ∧ ¬ NoDup (Task.id <$> <[i := t]> ts) ∧ ¬ wf E w'.
  Proof.
    intros Hs Hf Hk Hki Hj u. rewrite (updateTask_found E id u w ts i old Hs Hf).
    assert (Hnd : ¬ NoDup (Task.id <$> <[i := updated E old u w]> ts)).
    { apply list_find_Some in Hf as (Hi & _ & _). intros Hnd. apply Hki.
      apply (NoDup_lookup _ k i j Hnd); rewrite list_lookup_fmap.
      - rewrite list_lookup_insert_ne, Hk by congruence. simpl. by rewrite Hj.
      - by rewrite list_lookup_insert_eq by (by eapply lookup_lt_Some). }
    eexists _, _. split_and!; [done|apply stored_write|done|exact Hnd|].
    intros (ts' & Hs' & Hnd' & _). rewrite stored_write in Hs'. by injection Hs' as <-.
  Qed.

End Properties.

(** ** Witnesses: the properties at concrete worlds, with the JSON codec *)

Lemma wf_reachable_witness :
  clock_monotone demo_env ∧ uuid_injective demo_env ∧ wf demo_env empty_world ∧
  rtc (client_step demo_env) empty_world
      (exec (addTask demo_env (Task.mk_draft "Buy milk" "2%" false)) empty_world) ∧
  wf demo_env (exec (addTask demo_env (Task.mk_draft "Buy milk" "2%" false)) empty_world).
Proof.
  split_and!; [apply demo_clock_monotone|apply demo_uuid_injective|by apply wf_empty|
               apply rtc_once; constructor|].
  apply (wf_reachable demo_env empty_world);
    [apply demo_clock_monotone|apply demo_uuid_injective|by apply wf_empty|].
  apply rtc_once. constructor.
Defined.

Lemma addTask_then_getTasks_witness :
  stored empty_world = Some [] ∧
  ∃ t w', addTask demo_env (Task.mk_draft "Buy milk" "2%" false) empty_world = (Ok t, w') ∧
          getTasks w' = (Ok ([] ++ [t]), w') ∧ Task.caption t = "Buy milk"%string ∧
          Task.body t = "2%"%string ∧ Task.done t = false.
Proof.
  split; [reflexivity|]. apply (addTask_then_getTasks demo_env). reflexivity.
Defined.

Definition milk : Task.draft := Task.mk_draft "Buy milk" "2%" false.
Definition milk_task : Task.t := Task.mk "u" "Buy milk" "2%" false 0 1.
Definition w_milk : world := exec (addTask demo_env milk) empty_world.

Lemma stored_w_milk : stored w_milk = Some [milk_task].
Proof. by vm_compute. Qed.

Lemma addTask_fresh_id_witness :
  clock_monotone demo_env ∧ uuid_injective demo_env ∧ wf demo_env empty_world ∧
  ∃ ts t w', stored empty_world = Some ts ∧ addTask demo_env milk empty_world = (Ok t, w') ∧
    (Task.id t ∉ Task.id <$> ts) ∧ (Task.createdAt t <= Task.updatedAt t)%Z ∧ wf demo_env w'.
Proof.
  split_and!; [apply demo_clock_monotone|apply demo_uuid_injective|by apply wf_empty|].
  apply addTask_fresh_id; [apply demo_clock_monotone|apply demo_uuid_injective|by apply wf_empty].
Defined.

Lemma addTask_two_clock_reads_witness :
  stored empty_world = Some [] ∧ addTask demo_env milk empty_world = (Ok milk_task, w_milk) ∧
  Task.createdAt milk_task = 0%Z ∧ Task.updatedAt milk_task = 1%Z ∧
  (Task.createdAt milk_task ≠ Task.updatedAt milk_task).
Proof.
  assert (Hs : stored empty_world = Some []) by reflexivity.
  assert (Ha : addTask demo_env milk empty_world = (Ok milk_task, w_milk)) by reflexivity.
  destruct (addTask_two_clock_reads demo_env milk empty_world [] milk_task w_milk Hs Ha)
    as (Hc & Hu & _).
  split_and!; [exact Hs|exact Ha|exact Hc|exact Hu|by rewrite Hc, Hu].
Defined.

Lemma updateTask_not_found_iff_witness :
  stored w_milk = Some [milk_task] ∧
  ((updateTask demo_env "nope" Task.empty_patch w_milk).1 = Throw "Task not found"%string
     <-> "nope"%string ∉ Task.id <$> [milk_task]) ∧
  ("nope"%string ∉ Task.id <$> [milk_task] ->
     (updateTask demo_env "nope" Task.empty_patch w_milk).2 = w_milk).
Proof.
  split; [apply stored_w_milk|]. apply updateTask_not_found_iff, stored_w_milk.
Defined.

Lemma updateTask_toggle_done_witness :
  clock_monotone demo_env ∧ wf demo_env w_milk ∧ stored w_milk = Some [milk_task] ∧
  list_find (fun t => Task.id t = "u"%string) [milk_task] = Some (0, milk_task) ∧
  ∃ t w', updateTask demo_env "u" (Task.mk_patch None None None (Some true) None None) w_milk
            = (Ok t, w') ∧ stored w' = Some (<[0 := t]> [milk_task]) ∧
    Task.id t = Task.id milk_task ∧ Task.caption t = Task.caption milk_task ∧
    Task.body t = Task.body milk_task ∧ Task.createdAt t = Task.createdAt milk_task ∧
    Task.done t = true ∧ (Task.updatedAt milk_task <= Task.updatedAt t)%Z.
Proof.
  assert (Hw : wf demo_env w_milk).
  { apply wf_add; [apply demo_clock_monotone|apply demo_uuid_injective|by apply wf_empty]. }
  split_and!; [apply demo_clock_monotone|exact Hw|apply stored_w_milk|reflexivity|].
  apply (updateTask_toggle_done demo_env); [apply demo_clock_monotone|exact Hw|
                                            apply stored_w_milk|reflexivity].
Defined.

Lemma deleteTask_removes_witness :
  stored w_milk = Some [milk_task] ∧
  ∃ w', deleteTask "u" w_milk = (Ok tt, w') ∧
    stored w' = Some (filter (fun t => Task.id t ≠ "u"%string) [milk_task]) ∧
    ("u"%string ∉ Task.id <$> filter (fun t => Task.id t ≠ "u"%string) [milk_task]) ∧
    (∀ t, Task.id t ≠ "u"%string -> t ∈ [milk_task] ->
          t ∈ filter (fun t => Task.id t ≠ "u"%string) [milk_task]).
Proof. split; [apply stored_w_milk|]. apply deleteTask_removes, stored_w_milk. Defined.

Definition tea : Task.draft := Task.mk_draft "Tea" "" true.
Definition tea_task : Task.t := Task.mk "au" "Tea" "" true 2 3.
Definition w_two : world := exec (addTask demo_env tea) w_milk.

Lemma stored_w_two : stored w_two = Some [milk_task; tea_task].
Proof. by vm_compute. Qed.

Lemma getTasksSortedByDate_spec_witness :
  stored w_two = Some [milk_task; Task.mk "au" "Tea" "" true 2 3] ∧
  ∃ ts', getTasksSortedByDate false w_two = (Ok ts', w_two) ∧
    Sorted (key_le false Task.createdAt) ts' ∧ ts' ≡ₚ [milk_task; Task.mk "au" "Tea" "" true 2 3] ∧
    (∀ c, filter (fun t => Task.createdAt t = c) ts'
          = filter (fun t => Task.createdAt t = c) [milk_task; Task.mk "au" "Tea" "" true 2 3]).
Proof.
  assert (Hs : stored w_two = Some [milk_task; Task.mk "au" "Tea" "" true 2 3]) by (by vm_compute).
  split; [exact Hs|]. by apply getTasksSortedByDate_spec.
Defined.

Lemma updateTask_can_duplicate_ids_witness :
  wf demo_env w_two ∧
  ∃ t w', updateTask demo_env "u" (Task.mk_patch (Some "au"%string) None None None None None) w_two
            = (Ok t, w') ∧ stored w' = Some [t; tea_task] ∧ ¬ wf demo_env w'.
Proof.
  split.
  - apply wf_add; [apply demo_clock_monotone|apply demo_uuid_injective|].
    apply wf_add; [apply demo_clock_monotone|apply demo_uuid_injective|by apply wf_empty].
  - destruct (updateTask_can_duplicate_ids demo_env "u" "au" w_two _ 0 1 milk_task tea_task
                stored_w_two eq_refl eq_refl ltac:(lia) eq_refl) as (t & w' & Hu & Hs & _ & _ & Hwf).
    exists t, w'. split_and!; [exact Hu|exact Hs|exact Hwf].
Defined.

(** A world whose blob another program overwrote with text that is not
    JSON. *)
Definition w_garbage : world :=
  set_storage (<[STORAGE_KEY := "not json"%string]> ∅) empty_world.

(** On a blob [JSON.parse] rejects, every method throws the parse
    error before it writes: the world, clock and UUID counters included,
    is left as it was. *)
Theorem corrupt_blob_throws E w s d id u a b asc :
  storage w !! STORAGE_KEY = Some s -> s ≠ EmptyString -> Json.parse s = None ->
  getTasks w = (Throw "SyntaxError"%string, w) ∧
  addTask E d w = (Throw "SyntaxError"%string, w) ∧
  updateTask E id u w = (Throw "SyntaxError"%string, w) ∧
  deleteTask id w = (Throw "SyntaxError"%string, w) ∧
  getTasksByDateRange a b w = (Throw "SyntaxError"%string, w) ∧
  getTasksSortedByDate asc w = (Throw "SyntaxError"%string, w).
Proof.
  intros Hk Hne Hp. assert (Hs : stored w = None).
  { unfold stored, getTasksFromStorage, eval, local_get. svc_simpl. rewrite Hk, decide_False by done.
    simpl. unfold TaskJson.decode. by rewrite Hp. }
  pose proof (get_err w Hs) as He.
  split_and!; [exact He|by apply addTask_corrupt| |by apply deleteTask_corrupt|..];
    unfold updateTask, getTasksByDateRange, getTasksSortedByDate, bind; by rewrite He.
Qed.

Lemma corrupt_blob_throws_witness :
  storage w_garbage !! STORAGE_KEY = Some "not json"%string ∧ Json.parse "not json" = None ∧
  addTask demo_env milk w_garbage = (Throw "SyntaxError"%string, w_garbage).
Proof.
  assert (Hk : storage w_garbage !! STORAGE_KEY = Some "not json"%string) by reflexivity.
  assert (Hp : Json.parse "not json" = None) by (by vm_compute).
  split_and!; [exact Hk|exact Hp|].
  apply (corrupt_blob_throws demo_env w_garbage _ milk "u"%string Task.empty_patch InvalidDate InvalidDate true Hk);
    [discriminate|exact Hp].
Defined.

Lemma getTasksByDateRange_spec_witness :
  stored w_two = Some [milk_task; tea_task] ∧
  ∃ ts', getTasksByDateRange (ValidDate 1) (ValidDate 5) w_two = (Ok ts', w_two) ∧
    ts' `sublist_of` [milk_task; tea_task] ∧
    (∀ t, t ∈ ts' <-> t ∈ [milk_task; tea_task] ∧ (1 <= Task.createdAt t <= 5)%Z).
Proof. split; [exact stored_w_two|]. apply (getTasksByDateRange_spec _ _ _ _ stored_w_two). Defined.

(** The scenario of the spec: add "Buy milk", mark it done, delete it,
    delete it again. *)
Definition done_patch : Task.patch := Task.mk_patch None None None (Some true) None None.
Definition w_done : world := exec (updateTask demo_env "u" done_patch) w_milk.
Definition w_deleted : world := exec (deleteTask "u") w_done.

(** The spec's scenario: the added task is returned with
    [done = false] and a non-empty id and is the one stored task; the
    update stores it with [done = true] and the same caption; the delete
    leaves no task; a second delete succeeds and changes nothing. *)
Theorem spec_scenario :
  addTask demo_env milk empty_world = (Ok milk_task, w_milk) ∧
  Task.done milk_task = false ∧ Task.id milk_task ≠ EmptyString ∧
  stored w_milk = Some [milk_task] ∧
  stored w_done = Some [Task.mk "u" "Buy milk" "2%" true 0 2] ∧
  stored w_deleted = Some [] ∧
  deleteTask "u" w_deleted = (Ok tt, w_deleted).
Proof. split_and!; try (by vm_compute); discriminate. Qed.

End TaskService.
