(* ===== verification/TaskStoreSpec.v ===== *)
(** * TaskStoreSpec: the public contract of the task store, and its proof.

    Section 4.1 of the spec states what each operation of the task store
    promises, on the collection alone: [listTasks] returns it, [addTask]
    appends a task with a fresh id and ordered timestamps, [updateTask]
    merges the supplied fields over the task with the id and refreshes
    [updatedAt] (forward in time) or fails with [NotFoundError], and so on.
    [contract ts op o ts'] is that promise: from collection [ts], operation
    [op] may answer [o] and leave [ts'].  It says nothing about the blob,
    the clock or the UUIDs.

    [run] is the store's dispatch of an operation to its method of
    TaskService.v; [store_refines_contract] shows that on a well-formed
    store (distinct UUID ids, ordered timestamps), with a monotone clock
    and distinct UUIDs, every method's answer and resulting collection are
    allowed by the contract: the implementation refines the spec.
    [store_respects_stored] shows that the collection is all the store
    sees of the blob: worlds that read as the same collection are
    equivalent for every operation. *)

From S2P Require Import Prelude Task Platform TaskService.

Module TaskStoreSpec.
Import TaskService.

(** The operations of the contract. *)
Inductive op : Type :=
  | OpList
  | OpAdd (d : Task.draft)
  | OpUpdate (id : string) (u : Task.patch)
  | OpDelete (id : string)
  | OpRange (startDate endDate : Z)
  | OpSorted (ascending : bool).

Inductive answer : Type :=
  | ATasks (ts : list Task.t)
  | ATask (t : Task.t)
  | AUnit.

(** What the spec allows: the answer and the collection afterwards. *)
Inductive contract : list Task.t -> op -> outcome answer -> list Task.t -> Prop :=
  | c_list ts : contract ts OpList (Ok (ATasks ts)) ts
  | c_add ts d t :
      Task.id t ∉ Task.id <$> ts ->
      Task.caption t = Task.d_caption d -> Task.body t = Task.d_body d ->
      Task.done t = Task.d_done d -> (Task.createdAt t <= Task.updatedAt t)%Z ->
      contract ts (OpAdd d) (Ok (ATask t)) (ts ++ [t])
  | c_update ts id u i old now :
      list_find (fun t => Task.id t = id) ts = Some (i, old) ->
      (Task.updatedAt old <= now)%Z ->
      contract ts (OpUpdate id u) (Ok (ATask (Task.set_updatedAt (Task.merge old u) now)))
               (<[i := Task.set_updatedAt (Task.merge old u) now]> ts)
  | c_update_missing ts id u :
      id ∉ Task.id <$> ts -> contract ts (OpUpdate id u) (Throw "Task not found"%string) ts
  | c_delete ts id :
      contract ts (OpDelete id) (Ok AUnit) (filter (fun t => Task.id t ≠ id) ts)
  | c_range ts a b :
      contract ts (OpRange a b) (Ok (ATasks (filter (fun t => a <= Task.createdAt t <= b)%Z ts))) ts
  | c_sorted ts asc ts' :
      Sorted (key_le asc Task.createdAt) ts' -> ts' ≡ₚ ts ->
      (∀ c, filter (fun t => Task.createdAt t = c) ts' = filter (fun t => Task.createdAt t = c) ts) ->
      contract ts (OpSorted asc) (Ok (ATasks ts')) ts.

Section Run.
Context `{!TaskCodec} (E : env).

(** An operation, run by the store's method. *)
Definition run (o : op) : M world answer :=
  match o with
  | OpList => ts <- getTasks ;; ret (ATasks ts)
  | OpAdd d => t <- addTask E d ;; ret (ATask t)
  | OpUpdate id u => t <- updateTask E id u ;; ret (ATask t)
  | OpDelete id => deleteTask id ;;; ret AUnit
  | OpRange a b => ts <- getTasksByDateRange (ValidDate a) (ValidDate b) ;; ret (ATasks ts)
  | OpSorted asc => ts <- getTasksSortedByDate asc ;; ret (ATasks ts)
  end.
End Run.

Lemma not_found_ids id ts :
  list_find (fun t => Task.id t = id) ts = None -> id ∉ Task.id <$> ts.
Proof.
  intros Hf%list_find_None (t & -> & Ht)%list_elem_of_fmap.
  rewrite Forall_forall in Hf. by apply (Hf t).
Qed.

Section Refinement.
Context `{!TaskCodec} (E : env).
Hypothesis Hclock : clock_monotone E.
Hypothesis Huuid : uuid_injective E.

(** C2: the store implements its contract: from a well-formed store
    holding [ts], every operation answers, and leaves a readable store
    holding a collection, as the spec's contract allows (fresh id and
    ordered timestamps on add; merge, in-place write and [updatedAt]
    moved forward on update, or [Task not found] without change; filter
    on delete and on the date range; a stable sort that writes nothing). *)
Theorem store_refines_contract o w ts r w' :
  wf E w -> stored w = Some ts -> run E o w = (r, w') ->
  ∃ ts', stored w' = Some ts' ∧ contract ts o r ts'.
Proof.
  intros (ts0 & Hs0 & Hnd & Hok) Hs Hrun. rewrite Hs in Hs0. injection Hs0 as <-.
  destruct o as [|d|id u|id|a b|asc]; simpl in Hrun; unfold bind in Hrun.
  - unfold getTasks in Hrun. rewrite (get_ok _ _ Hs) in Hrun. injection Hrun as <- <-.
    exists ts. split; [done|constructor].
  - rewrite (addTask_eq E d w ts Hs) in Hrun. injection Hrun as <- <-.
    eexists. split; [apply stored_write|]. constructor; [by apply new_task_fresh|done..|].
    simpl. apply Hclock. lia.
  - destruct (list_find (fun t => Task.id t = id) ts) as [[i old]|] eqn:Hf.
    + rewrite (updateTask_found E id u w ts i old Hs Hf) in Hrun. injection Hrun as <- <-.
      eexists. split; [apply stored_write|]. constructor; [done|].
      apply list_find_Some in Hf as (Hi & _ & _). rewrite Forall_forall in Hok.
      by destruct (Hok old) as (_ & _ & Hle); [eapply list_elem_of_lookup_2|].
    + pose proof (not_found_ids id ts Hf) as Hn. apply list_find_None in Hf.
      rewrite (updateTask_absent E id u w ts Hs Hf) in Hrun. injection Hrun as <- <-.
      exists ts. split; [done|]. by constructor.
  - rewrite (deleteTask_eq id w ts Hs) in Hrun. injection Hrun as <- <-.
    eexists. split; [apply stored_write|constructor].
  - rewrite (getTasksByDateRange_valid a b w ts Hs) in Hrun.
    injection Hrun as <- <-. exists ts. split; [done|constructor].
  - unfold getTasksSortedByDate, bind in Hrun. rewrite (get_ok _ _ Hs) in Hrun.
    injection Hrun as <- <-. exists ts. split; [done|].
    constructor; [apply js_sort_sorted|apply js_sort_perm|intros c; apply js_sort_stable].
Qed.
End Refinement.

(** ** The store sees the blob only through [stored]

    Two worlds are equivalent when their blobs read as the same collection
    (or both fail to parse) and their cookies and counters agree: the blob
    text may differ (white space, an absent entry and an empty one).  A
    computation [Respects] the equivalence when it answers the same on
    equivalent worlds and leaves them equivalent; the instances compose
    through [bind], so every method respects it. *)

Section Equiv.
Context `{!TaskCodec}.

Definition world_equiv (w1 w2 : world) : Prop :=
  stored w1 = stored w2 ∧ cookies w1 = cookies w2 ∧ ticks w1 = ticks w2 ∧ uuids w1 = uuids w2.

#[export] Instance world_equiv_inst : Equiv world := world_equiv.

#[export] Instance world_equiv_Equivalence : Equivalence (≡@{world}).
Proof.
  unfold equiv, world_equiv_inst, world_equiv. split.
  - by intros w.
  - intros w1 w2 (? & ? & ? & ?). done.
  - intros w1 w2 w3 (H1 & H2 & H3 & H4) (H5 & H6 & H7 & H8). split_and!; congruence.
Qed.

#[export] Instance stored_proper : Proper ((≡) ==> (=)) stored.
Proof. by intros w1 w2 [Hs _]. Qed.

#[export] Instance write_proper ts : Proper ((≡) ==> (≡)) (write ts).
Proof.
  intros w1 w2 (_ & Hc & Ht & Hu). unfold equiv, world_equiv_inst, world_equiv.
  rewrite !stored_write. by split_and!.
Qed.

Class Respects {A} (m : M world A) : Prop :=
  respects : ∀ w1 w2, w1 ≡ w2 -> fst (m w1) = fst (m w2) ∧ snd (m w1) ≡ snd (m w2).

#[export] Instance ret_respects {A} (a : A) : Respects (ret a).
Proof. by intros w1 w2 Hw. Qed.

#[export] Instance throw_respects {A} e : Respects (throw (A:=A) e).
Proof. by intros w1 w2 Hw. Qed.

#[export] Instance bind_respects {A B} (m : M world A) (k : A -> M world B) :
  Respects m -> (∀ a, Respects (k a)) -> Respects (bind m k).
Proof.
  intros Hm Hk w1 w2 Hw. unfold bind. destruct (Hm w1 w2 Hw) as [Hr Hw'].
  destruct (m w1) as [[a|e] w1'], (m w2) as [[a'|e'] w2']; simpl in *; try discriminate.
  - injection Hr as <-. by apply Hk.
  - by injection Hr as <-.
Qed.

(** Reading and writing the blob, and the clock and UUID readings. *)
Lemma equiv_storage w1 w2 w1' w2' :
  w1 ≡ w2 -> storage w1' = storage w1 -> storage w2' = storage w2 -> cookies w1' = cookies w1 ->
  cookies w2' = cookies w2 -> ticks w1' = ticks w2' -> uuids w1' = uuids w2' -> w1' ≡ w2'.
Proof.
  intros (Hs & Hc & _) H1 H2 H3 H4 Ht Hu. split_and!; [|congruence|done|done].
  by rewrite (stored_storage w1 w1' H1), (stored_storage w2 w2' H2).
Qed.

#[export] Instance getTasksFromStorage_respects : Respects getTasksFromStorage.
Proof. intros w1 w2 Hw. rewrite !getTasksFromStorage_stored. simpl. by rewrite Hw. Qed.

#[export] Instance saveTasksToStorage_respects ts : Respects (saveTasksToStorage ts).
Proof. intros w1 w2 Hw. rewrite !save_eq. split; [done|]. simpl. by rewrite Hw. Qed.

#[export] Instance date_now_respects E : Respects (date_now E).
Proof.
  intros w1 w2 Hw. pose proof Hw as (_ & _ & Ht & Hu). simpl. rewrite Ht. split; [done|].
  eapply equiv_storage; [exact Hw|done..|simpl; congruence|simpl; congruence].
Qed.

#[export] Instance random_uuid_respects E : Respects (random_uuid E).
Proof.
  intros w1 w2 Hw. pose proof Hw as (_ & _ & Ht & Hu). simpl. rewrite Hu. split; [done|].
  eapply equiv_storage; [exact Hw|done..|simpl; congruence|simpl; congruence].
Qed.

#[export] Instance updateTask_respects E id u : Respects (updateTask E id u).
Proof.
  unfold updateTask. apply bind_respects; [apply _|]. intros ts.
  destruct (list_find (fun t => Task.id t = id) ts) as [[i old]|]; apply _.
Qed.

#[export] Instance run_respects E o : Respects (run E o).
Proof. destruct o; simpl; unfold getTasks, addTask, deleteTask, getTasksByDateRange, getTasksSortedByDate; apply _. Qed.
End Equiv.

Section Abstraction.
Context `{!TaskCodec} (E : env).

(** The store sees the blob only through the collection it reads: on
    two worlds whose blobs read as the same collection (or both fail to
    parse), with the same cookies and counters, every operation gives the
    same answer and leaves equivalent worlds. *)
Theorem store_respects_stored o w1 w2 :
  w1 ≡ w2 -> eval (run E o) w1 = eval (run E o) w2 ∧ exec (run E o) w1 ≡ exec (run E o) w2.
Proof. apply run_respects. Qed.
End Abstraction.

Lemma store_refines_contract_witness :
  wf demo_env w_milk ∧ stored w_milk = Some [milk_task] ∧
  run demo_env (OpUpdate "u" done_patch) w_milk = (Ok (ATask (Task.mk "u" "Buy milk" "2%" true 0 2)), w_done) ∧
  ∃ ts', stored w_done = Some ts' ∧
         contract [milk_task] (OpUpdate "u" done_patch) (Ok (ATask (Task.mk "u" "Buy milk" "2%" true 0 2))) ts'.
Proof.
  assert (Hw : wf demo_env w_milk).
  { apply wf_add; [apply demo_clock_monotone|apply demo_uuid_injective|by apply wf_empty]. }
  assert (Hr : run demo_env (OpUpdate "u" done_patch) w_milk
               = (Ok (ATask (Task.mk "u" "Buy milk" "2%" true 0 2)), w_done)) by (by vm_compute).
  split_and!; [exact Hw|exact stored_w_milk|exact Hr|].
  exact (store_refines_contract demo_env demo_clock_monotone demo_uuid_injective _ _ _ _ _ Hw stored_w_milk Hr).
Defined.
(** A blob of white space around an empty array, and no blob at all. *)
Definition w_spaces : world := mk_world {["tasks" := " [ ] "]}%string ∅ 0 0.

Lemma store_respects_stored_witness :
  empty_world ≡ w_spaces ∧
  eval (run demo_env (OpAdd milk)) empty_world = eval (run demo_env (OpAdd milk)) w_spaces.
Proof.
  assert (H : empty_world ≡ w_spaces).
  { unfold equiv, world_equiv_inst, world_equiv. split_and!; [vm_compute; reflexivity|done..]. }
  split; [exact H|]. exact (proj1 (store_respects_stored demo_env (OpAdd milk) _ _ H)).
Defined.
End TaskStoreSpec.
