(* ===== verification/RawStore.v ===== *)
(** * RawStore: the task store over the values [JSON.parse] returns.

    TypeScript's types are erased: [getTasksFromStorage]
    (src/list/src/services/taskService.ts, lines 14-17) returns whatever
    [JSON.parse] makes of the blob, an array of task objects or not, and
    the methods then call [push], [findIndex] and [filter] on it and read
    [t.id] on its elements.  TaskService.v reads the blob as a typed
    collection and treats any other shape as an error; this file models
    the methods on the dynamic values themselves:

    - a JavaScript object as the list of its own properties in the order
      [OrdinaryOwnPropertyKeys] gives (array indices ascending, then the
      other keys in creation order); [obj_set] is [CreateDataProperty],
      [assign] the spread [{...a, ...b}], [js_of] the object
      [JSON.parse] builds from the text (a duplicate key keeps its first
      position and its last value);
    - property reads ([get_id]: [t.id] throws a [TypeError] on [null] and
      is [undefined] on the other primitives), strict equality
      ([strict_eq_str]), [findIndex] ([find_task]) and [filter]
      ([filter_id]) over arrays of arbitrary values;
    - the methods the task page calls ([getTasks], [addTask],
      [updateTask], [deleteTask]), with a [TypeError] wherever the code
      calls an array method on a value that is not an array.

    The theorems: what the raw store writes it reads back
    ([raw_read_after_write]); on every blob the typed store can read, the
    raw store answers as the typed one and leaves an equivalent world,
    along any sequence of calls ([raw_simulation]): the typed model of
    TaskService.v is exact wherever it does not report an error; and on
    a blob of valid JSON that is not an array, adding a task throws a
    [TypeError] after drawing a UUID and reading the clock twice
    ([addTask_non_array]). *)

From S2P Require Import Prelude Json Task Platform TaskService TaskStoreSpec.
From Stdlib Require Import Ascii String.

Module RawStore.
Import Json TaskService TaskStoreSpec.

(** ** Property keys *)

Fixpoint digits_value (s : string) (acc : Z) : option Z :=
  match s with
  | EmptyString => Some acc
  | String c s' =>
      let n := Z.of_nat (nat_of_ascii c) in
      if (48 <=? n)%Z && (n <=? 57)%Z then digits_value s' (acc * 10 + (n - 48))%Z else None
  end.

(** An array index: the canonical decimal string of an integer below
    [2^32 - 1]. *)
Definition array_index (k : string) : option Z :=
  match k with
  | EmptyString => None
  | String "0" EmptyString => Some 0%Z
  | String "0" _ => None
  | _ => match digits_value k 0 with
         | Some n => if (n <? 4294967295)%Z then Some n else None
         | None => None
         end
  end.

(** [k] comes before [k'] among the own keys of an object: indices first,
    in ascending order. *)
Definition key_before (k k' : string) : bool :=
  match array_index k, array_index k' with
  | Some n, Some n' => (n <? n')%Z
  | Some _, None => true
  | None, _ => false
  end.

Definition keys (fs : list (string * json)) : list string := fst <$> fs.

(** ** Ordinary objects *)

(** A new property takes its place in the key order. *)
Fixpoint insert_key (k : string) (v : json) (fs : list (string * json)) : list (string * json) :=
  match fs with
  | [] => [(k, v)]
  | (k', v') :: fs' => if key_before k k' then (k, v) :: fs else (k', v') :: insert_key k v fs'
  end.

(** An existing property keeps its place and takes the new value. *)
Fixpoint replace_key (k : string) (v : json) (fs : list (string * json)) : list (string * json) :=
  match fs with
  | [] => []
  | (k', v') :: fs' => if decide (k = k') then (k, v) :: fs' else (k', v') :: replace_key k v fs'
  end.

(** [CreateDataProperty(O, k, v)]. *)
Definition obj_set (k : string) (v : json) (fs : list (string * json)) : list (string * json) :=
  if decide (k ∈ keys fs) then replace_key k v fs else insert_key k v fs.

(** The properties [kvs] defined on [fs] in order: the spread [{...fs, ...kvs}]
    and the members of an object literal. *)
Definition assign (fs kvs : list (string * json)) : list (string * json) :=
  fold_left (fun acc kv => obj_set kv.1 kv.2 acc) kvs fs.

(** The value [JSON.parse] builds from a parsed text: each object is
    created empty and its members defined in source order. *)
Fixpoint js_of (v : json) : json :=
  match v with
  | JArr xs => JArr (map js_of xs)
  | JObj fs => JObj (assign [] (map (fun kv => (kv.1, js_of kv.2)) fs))
  | _ => v
  end.

(** The own enumerable properties a spread copies: an object's in key
    order, an array's and a string's indices; other primitives have none. *)
Definition own_entries (v : json) : list (string * json) :=
  match v with
  | JObj fs => fs
  | JArr xs => imap (fun i x => (print_number (Z.of_nat i), x)) xs
  | JStr s => imap (fun i c => (print_number (Z.of_nat i), JStr (String c EmptyString)))
                   (list_ascii_of_string s)
  | _ => []
  end.

(** Keys in the order [OrdinaryOwnPropertyKeys] returns them. *)
Fixpoint ordered_keys (ks : list string) : bool :=
  match ks with
  | [] => true
  | k :: ks' => forallb (fun k' => negb (key_before k' k)) ks' && ordered_keys ks'
  end.

(** A value as JavaScript holds it: every object has distinct keys in
    their order. *)
Fixpoint canonical (v : json) : bool :=
  match v with
  | JArr xs => forallb canonical xs
  | JObj fs => bool_decide (NoDup (keys fs)) && ordered_keys (keys fs) &&
               forallb (fun kv => canonical kv.2) fs
  | _ => true
  end.

(** ** Objects: keys, reads and definitions *)

Section Objects.

Local Abbreviation fld k := (fun (acc : option json) (kv : string * json) =>
  let '(k', v) := kv in if decide (k = k') then Some v else acc).

Lemma key_before_asym k k' : key_before k k' = true -> key_before k' k = false.
Proof.
  unfold key_before. destruct (array_index k), (array_index k'); try done.
  rewrite !Z.ltb_lt, Z.ltb_ge. lia.
Qed.

Lemma key_before_trans a b c : key_before a b = true -> key_before b c = true -> key_before a c = true.
Proof.
  unfold key_before. destruct (array_index a), (array_index b), (array_index c); try done.
  rewrite !Z.ltb_lt. lia.
Qed.

Lemma keys_replace k v fs : keys (replace_key k v fs) = keys fs.
Proof.
  induction fs as [|[k' v'] fs IH]; [done|]. simpl.
  case_decide; simpl; [by subst|]. by rewrite <- IH.
Qed.

Lemma insert_key_perm k v fs : insert_key k v fs ≡ₚ (k, v) :: fs.
Proof.
  induction fs as [|[k' v'] fs IH]; [done|]. simpl.
  destruct (key_before k k'); [done|]. rewrite IH. by constructor.
Qed.

Lemma replace_key_perm k v fs :
  NoDup (keys fs) -> k ∈ keys fs -> replace_key k v fs ≡ₚ (k, v) :: filter (fun kv => kv.1 ≠ k) fs.
Proof.
  induction fs as [|[k' v'] fs IH]; intros Hnd Hk; [unfold keys in Hk; by apply elem_of_nil in Hk|].
  unfold keys in Hnd, Hk. simpl in Hnd, Hk. apply NoDup_cons in Hnd as [Hk' Hnd].
  simpl. rewrite (filter_cons (λ kv : string * json, kv.1 ≠ k)). simpl.
  destruct (decide (k = k')) as [<-|Hne].
  - rewrite decide_False by (intros []; done).
    rewrite (filter_all (λ kv : string * json, kv.1 ≠ k)); [done|].
    intros [k'' v''] Hin Heq. simpl in Heq. subst k''. apply Hk'.
    apply list_elem_of_fmap. by exists (k, v'').
  - rewrite decide_True by done. rewrite IH; [apply perm_swap|done|].
    by apply elem_of_cons in Hk as [->|Hk].
Qed.

(** [CreateDataProperty] on an object with distinct keys: the new value,
    and every other property. *)
Lemma obj_set_perm k v fs :
  NoDup (keys fs) -> obj_set k v fs ≡ₚ (k, v) :: filter (fun kv => kv.1 ≠ k) fs.
Proof.
  intros Hnd. unfold obj_set. case_decide as Hk; [by apply replace_key_perm|].
  rewrite insert_key_perm, (filter_all (λ kv : string * json, kv.1 ≠ k)); [done|].
  intros [k' v'] Hin Heq. simpl in Heq. subst k'. apply Hk.
  apply list_elem_of_fmap. by exists (k, v').
Qed.

Lemma keys_filter_not k fs : k ∉ keys (filter (fun kv => kv.1 ≠ k) fs).
Proof.
  intros ([k' v'] & Heq & Hin)%list_elem_of_fmap. simpl in Heq. subst k'.
  by apply list_elem_of_filter in Hin as [? _].
Qed.

Lemma NoDup_keys_filter k fs : NoDup (keys fs) -> NoDup (keys (filter (fun kv => kv.1 ≠ k) fs)).
Proof. apply NoDup_fmap_filter. Qed.

Lemma NoDup_obj_set k v fs : NoDup (keys fs) -> NoDup (keys (obj_set k v fs)).
Proof.
  intros Hnd. unfold keys. rewrite (obj_set_perm k v fs Hnd). simpl.
  constructor; [apply keys_filter_not|by apply NoDup_keys_filter].
Qed.

Lemma NoDup_assign fs kvs : NoDup (keys fs) -> NoDup (keys (assign fs kvs)).
Proof.
  revert fs. induction kvs as [|kv kvs IH]; intros fs Hnd; [done|].
  apply IH. by apply NoDup_obj_set.
Qed.

(** Property reads ([TaskJson.field]) on objects with distinct keys. *)
Lemma field_acc k fs acc :
  fold_left (fld k) fs acc = match TaskJson.field k fs with Some v => Some v | None => acc end.
Proof.
  unfold TaskJson.field. revert acc.
  induction fs as [|[k' v'] fs IH]; intros acc; [done|]. simpl.
  case_decide; [|apply IH]. rewrite (IH (Some v')). by destruct (fold_left _ fs None).
Qed.

Lemma field_cons q k v kvs :
  TaskJson.field q ((k, v) :: kvs) =
    match TaskJson.field q kvs with Some x => Some x | None => if decide (q = k) then Some v else None end.
Proof. unfold TaskJson.field at 1. simpl. apply field_acc. Qed.

Lemma field_cons_fresh q k v gs :
  k ∉ keys gs -> TaskJson.field q ((k, v) :: gs) = if decide (q = k) then Some v else TaskJson.field q gs.
Proof.
  intros Hk. unfold TaskJson.field at 1. simpl. case_decide; [subst q|done].
  by apply TaskJson.field_absent.
Qed.

Lemma field_filter_other q k gs :
  q ≠ k -> TaskJson.field q (filter (fun kv => kv.1 ≠ k) gs) = TaskJson.field q gs.
Proof.
  intros Hq. unfold TaskJson.field. generalize (@None json) as acc.
  induction gs as [|[k' v'] gs IH]; intros acc; [done|].
  rewrite (filter_cons (λ kv : string * json, kv.1 ≠ k)). simpl.
  case_decide as Hk'; simpl; [apply IH|]. subst k'.
  rewrite decide_False by done. apply IH.
Qed.

Lemma field_perm q fs gs : NoDup (keys fs) -> fs ≡ₚ gs -> TaskJson.field q fs = TaskJson.field q gs.
Proof.
  intros Hnd Hp. assert (Hnd' : NoDup (keys gs)) by (unfold keys; by rewrite <- Hp).
  destruct (decide (q ∈ keys fs)) as [([q' v] & Hq & Hin)%list_elem_of_fmap|Hq].
  - simpl in Hq. subst q'. rewrite (TaskJson.field_elem q v fs Hnd Hin).
    symmetry. apply TaskJson.field_elem; [done|by rewrite <- Hp].
  - unfold TaskJson.field. rewrite !TaskJson.field_absent; [done| |done].
    unfold keys in Hq. by rewrite <- Hp.
Qed.

Lemma field_obj_set q k v fs :
  NoDup (keys fs) ->
  TaskJson.field q (obj_set k v fs) = if decide (q = k) then Some v else TaskJson.field q fs.
Proof.
  intros Hnd. rewrite (field_perm q _ _ (NoDup_obj_set k v fs Hnd) (obj_set_perm k v fs Hnd)).
  rewrite field_cons_fresh by apply keys_filter_not. case_decide; [done|].
  by apply field_filter_other.
Qed.

(** The properties an object literal or a spread defines win over those
    of the object it starts from. *)
Lemma field_assign q fs kvs :
  NoDup (keys fs) ->
  TaskJson.field q (assign fs kvs) =
    match TaskJson.field q kvs with Some v => Some v | None => TaskJson.field q fs end.
Proof.
  revert fs. induction kvs as [|[k v] kvs IH]; intros fs Hnd; [done|].
  change (assign fs ((k, v) :: kvs)) with (assign (obj_set k v fs) kvs).
  rewrite IH by (by apply NoDup_obj_set). rewrite field_obj_set by done.
  rewrite field_cons. destruct (TaskJson.field q kvs); [done|].
  case_decide; [done|]. by destruct (TaskJson.field q fs).
Qed.

Lemma Forall_obj_set (P : string * json -> Prop) k v fs :
  P (k, v) -> Forall P fs -> Forall P (obj_set k v fs).
Proof.
  intros Hkv Hfs. unfold obj_set. case_decide as Hin; clear Hin.
  - induction Hfs as [|[k' v'] fs Hx Hfs IH]; simpl; [constructor|].
    case_decide; constructor; done.
  - induction Hfs as [|[k' v'] fs Hx Hfs IH]; simpl; [by constructor|].
    destruct (key_before k k'); by repeat constructor.
Qed.

Lemma Forall_assign (P : string * json -> Prop) fs kvs :
  Forall P fs -> Forall P kvs -> Forall P (assign fs kvs).
Proof.
  revert fs. induction kvs as [|[k v] kvs IH]; intros fs Hfs Hkvs; [done|].
  apply Forall_cons in Hkvs as [Hkv Hkvs]. apply IH; [by apply Forall_obj_set|done].
Qed.

(** ** The order of the keys *)

Lemma ordered_keys_cons k ks :
  ordered_keys (k :: ks) = true <-> (∀ k', k' ∈ ks -> key_before k' k = false) ∧ ordered_keys ks = true.
Proof.
  simpl. rewrite andb_true_iff, forallb_forall. split; intros [H1 H2]; split; [|done| |done].
  - intros k' Hk'. apply negb_true_iff, H1. by apply list_elem_of_In.
  - intros k' Hk'. apply negb_true_iff, H1. by apply list_elem_of_In.
Qed.

Lemma ordered_keys_app l1 l2 :
  ordered_keys (l1 ++ l2) = true ->
  ordered_keys l2 = true ∧ ∀ a b, a ∈ l1 -> b ∈ l2 -> key_before b a = false.
Proof.
  induction l1 as [|k l1 IH]; simpl; intros Ho.
  - split; [done|]. intros a b Ha. by apply elem_of_nil in Ha.
  - apply (ordered_keys_cons k (l1 ++ l2)) in Ho as [Hk Ho].
    destruct (IH Ho) as [H2 H12]. split; [done|]. intros a b Ha Hb.
    apply elem_of_cons in Ha as [->|Ha]; [apply Hk; by apply elem_of_app; right|by apply H12].
Qed.

Lemma insert_key_last k v pre :
  (∀ k', k' ∈ keys pre -> key_before k k' = false) -> insert_key k v pre = pre ++ [(k, v)].
Proof.
  induction pre as [|[k' v'] pre IH]; intros Hk; [done|]. simpl.
  rewrite Hk by (unfold keys; simpl; left). f_equal. apply IH.
  intros k'' Hk''. apply Hk. unfold keys. simpl. by right.
Qed.

Lemma ordered_insert_key k v fs :
  ordered_keys (keys fs) = true -> ordered_keys (keys (insert_key k v fs)) = true.
Proof.
  induction fs as [|[k' v'] fs IH]; intros Ho; [done|].
  change (keys ((k', v') :: fs)) with (k' :: keys fs) in Ho.
  apply ordered_keys_cons in Ho as [Hk' Ho]. cbn [insert_key].
  destruct (key_before k k') eqn:Hb.
  - change (keys ((k, v) :: (k', v') :: fs)) with (k :: k' :: keys fs).
    apply ordered_keys_cons. split; [|by apply ordered_keys_cons].
    intros k'' [->|Hk'']%elem_of_cons; [by apply key_before_asym|].
    destruct (key_before k'' k) eqn:Hb'; [|done].
    pose proof (key_before_trans _ _ _ Hb' Hb) as Hc. by rewrite (Hk' k'' Hk'') in Hc.
  - change (keys ((k', v') :: insert_key k v fs)) with (k' :: keys (insert_key k v fs)).
    apply ordered_keys_cons. split; [|by apply IH].
    intros k'' Hk''. unfold keys in Hk''. rewrite (insert_key_perm k v fs) in Hk''.
    apply elem_of_cons in Hk'' as [->|Hk'']; [done|by apply Hk'].
Qed.

Lemma ordered_obj_set k v fs :
  ordered_keys (keys fs) = true -> ordered_keys (keys (obj_set k v fs)) = true.
Proof. unfold obj_set. case_decide; [by rewrite keys_replace|apply ordered_insert_key]. Qed.

Lemma ordered_assign fs kvs :
  ordered_keys (keys fs) = true -> ordered_keys (keys (assign fs kvs)) = true.
Proof.
  revert fs. induction kvs as [|[k v] kvs IH]; intros fs Ho; [done|].
  apply IH. by apply ordered_obj_set.
Qed.

(** Defining, in order, the properties of an object that is already in
    key order rebuilds it. *)
Lemma assign_ordered pre rest :
  NoDup (keys (pre ++ rest)) -> ordered_keys (keys (pre ++ rest)) = true -> assign pre rest = pre ++ rest.
Proof.
  revert pre. induction rest as [|[k v] rest IH]; intros pre Hnd Ho; [by rewrite app_nil_r|].
  change (assign pre ((k, v) :: rest)) with (assign (obj_set k v pre) rest).
  pose proof Hnd as Hnd0. pose proof Ho as Ho0.
  unfold keys in Hnd, Ho. rewrite fmap_app in Hnd, Ho. simpl in Hnd, Ho.
  apply NoDup_app in Hnd as (_ & Hdis & _).
  assert (Hk : k ∉ keys pre) by (intros Hk; by apply (Hdis k); [|left]).
  unfold obj_set. rewrite decide_False by done.
  rewrite insert_key_last; [|intros k' Hk'; apply (ordered_keys_app _ _ Ho); [done|left]].
  rewrite (IH (pre ++ [(k, v)])); by rewrite <- app_assoc.
Qed.

End Objects.

(** Distinct keys of an object built by definitions. *)
Ltac nodup_keys :=
  match goal with
  | |- NoDup (keys (assign _ _)) => apply NoDup_assign; nodup_keys
  | |- NoDup (keys (obj_set _ _ _)) => apply NoDup_obj_set; nodup_keys
  | |- NoDup (keys []) => constructor
  | _ => done
  end.

(** ** Values as JavaScript holds them *)

Lemma canonical_obj fs :
  canonical (JObj fs) = true <->
  NoDup (keys fs) ∧ ordered_keys (keys fs) = true ∧ Forall (fun kv => canonical kv.2 = true) fs.
Proof.
  simpl. rewrite !andb_true_iff, bool_decide_eq_true, forallb_forall, Forall_forall.
  split; intros H; [destruct H as [[? ?] H]|destruct H as (? & ? & H)];
    split_and!; try done; intros x Hx; apply H; by apply list_elem_of_In.
Qed.

Lemma canonical_arr xs : canonical (JArr xs) = true <-> Forall (fun x => canonical x = true) xs.
Proof.
  simpl. rewrite forallb_forall, Forall_forall.
  split; intros H x Hx; apply H; by apply list_elem_of_In.
Qed.

Lemma map_id_in {A} (f : A -> A) (l : list A) : (∀ x, x ∈ l -> f x = x) -> map f l = l.
Proof.
  intros Hf. transitivity (map id l); [|apply map_id].
  apply map_ext_in. intros x Hx. apply Hf. by apply list_elem_of_In.
Qed.

(** What [JSON.parse] returns is a value as JavaScript holds it. *)
Lemma canonical_js_of v : canonical (js_of v) = true.
Proof.
  induction v as [| | | |xs IH|fs IH] using json_ind_strong; try done.
  - apply canonical_arr. by apply Forall_map.
  - apply canonical_obj. split_and!.
    + apply NoDup_assign. constructor.
    + by apply ordered_assign.
    + apply Forall_assign; [constructor|]. by apply Forall_map.
Qed.

(** ... and it leaves such a value as it is. *)
Lemma js_of_canonical v : canonical v = true -> js_of v = v.
Proof.
  induction v as [| | | |xs IH|fs IH] using json_ind_strong; try done.
  - intros Hc%canonical_arr. simpl. f_equal. apply map_id_in.
    intros x Hx. rewrite Forall_forall in IH, Hc. by apply IH; [|apply Hc].
  - intros (Hnd & Ho & Hc)%canonical_obj. simpl. f_equal.
    transitivity (assign [] fs); [f_equal|by apply (assign_ordered [] fs)].
    apply map_id_in. intros [k x] Hx. rewrite Forall_forall in IH, Hc. simpl.
    f_equal. by apply (IH (k, x)); [|apply (Hc (k, x))].
Qed.

(** ** Reads, comparisons and array methods on dynamic values *)

(** [t.id]: reading a property of [null] throws; the other primitives and
    arrays have no property [id] (nor do their prototypes), so it is
    [undefined] ([None]); an object's is its own property. *)
Definition get_id (t : json) : outcome (option json) :=
  match t with
  | JNull => Throw "TypeError"%string
  | JObj fs => Ok (TaskJson.field "id" fs)
  | _ => Ok None
  end.

(** [x === id] for a string [id]: only a string with the same characters. *)
Definition strict_eq_str (x : option json) (id : string) : bool :=
  match x with
  | Some (JStr s) => bool_decide (s = id)
  | _ => false
  end.

(** [tasks.findIndex(t => t.id === id)] and the element at that index:
    the callback runs on each element until it returns [true]. *)
Fixpoint find_task (id : string) (xs : list json) : outcome (option (nat * json)) :=
  match xs with
  | [] => Ok None
  | x :: xs' =>
      match get_id x with
      | Throw e => Throw e
      | Ok p =>
          if strict_eq_str p id then Ok (Some (0, x))
          else match find_task id xs' with
               | Ok (Some (i, y)) => Ok (Some (S i, y))
               | r => r
               end
      end
  end.

(** [tasks.filter(t => t.id !== id)]: the callback runs on every element. *)
Fixpoint filter_id (id : string) (xs : list json) : outcome (list json) :=
  match xs with
  | [] => Ok []
  | x :: xs' =>
      match get_id x with
      | Throw e => Throw e
      | Ok p =>
          match filter_id id xs' with
          | Throw e => Throw e
          | Ok ys => Ok (if strict_eq_str p id then ys else x :: ys)
          end
      end
  end.

(** The callback [t => t.id === id] answers [true] on [x]. *)
Definition matches_id (id : string) (x : json) : bool :=
  match get_id x with
  | Ok p => strict_eq_str p id
  | Throw _ => false
  end.

Definition lift {A} (o : outcome A) : M world A := fun w => (o, w).

(** The object literal [{caption, body, done}] the task page passes to
    [addTask] (TaskList.tsx, lines 42-46). *)
Definition draft_obj (d : Task.draft) : list (string * json) :=
  [("caption"%string, JStr (Task.d_caption d)); ("body"%string, JStr (Task.d_body d));
   ("done"%string, JBool (Task.d_done d))].

(** A [Partial<Task>] as the object the task page passes to [updateTask]:
    the supplied members, in the order of a task object. *)
Definition patch_obj (u : Task.patch) : list (string * json) :=
  option_list (pair "caption"%string ∘ JStr <$> Task.p_caption u) ++
  option_list (pair "body"%string ∘ JStr <$> Task.p_body u) ++
  option_list (pair "done"%string ∘ JBool <$> Task.p_done u) ++
  option_list (pair "id"%string ∘ JStr <$> Task.p_id u) ++
  option_list (pair "createdAt"%string ∘ JNum <$> Task.p_createdAt u) ++
  option_list (pair "updatedAt"%string ∘ JNum <$> Task.p_updatedAt u).

(** ** The methods *)

Section Methods.
Context (E : env).
Local Open Scope string_scope.

  (** [getTasksFromStorage] (lines 14-17): the parsed value, unchecked. *)
Definition getTasksFromStorage : M world json :=
    tasksJson <- local_get STORAGE_KEY ;;
    match tasksJson with
    | Some s =>
        if decide (s = EmptyString) then ret (JArr [])
        else match parse s with
             | Some v => ret (js_of v)
             | None => throw "SyntaxError"
             end
    | None => ret (JArr [])
    end.

  (** [saveTasksToStorage] (lines 19-21). *)
Definition saveTasksToStorage (tasks : json) : M world unit :=
    local_set STORAGE_KEY (stringify tasks).

  (** [getTasks] (lines 23-25). *)
Definition getTasks : M world json := getTasksFromStorage.

  (** [addTask] (lines 27-38): the literal is built, drawing the UUID and
      reading the clock twice, before [tasks.push] throws on a value that
      is not an array. *)
Definition addTask (task : Task.draft) : M world json :=
    tasks <- getTasksFromStorage ;;
    newId <- random_uuid E ;;
    created <- date_now E ;;
    updated <- date_now E ;;
    let newTask := JObj (assign (assign [] (draft_obj task))
                     [("id", JStr newId); ("createdAt", JNum created); ("updatedAt", JNum updated)]) in
    match tasks with
    | JArr xs => saveTasksToStorage (JArr (xs ++ [newTask])) ;;; ret newTask
    | _ => throw "TypeError"
    end.

  (** [updateTask] (lines 40-53): [{...tasks[taskIndex], ...updates,
      updatedAt: Date.now()}] written at the index. *)
Definition updateTask (id : string) (updates : list (string * json)) : M world json :=
    tasks <- getTasksFromStorage ;;
    match tasks with
    | JArr xs =>
        found <- lift (find_task id xs) ;;
        match found with
        | None => throw "Task not found"
        | Some (taskIndex, old) =>
            now <- date_now E ;;
            let updatedTask := JObj (assign (assign (assign [] (own_entries old)) updates)
                                            [("updatedAt", JNum now)]) in
            saveTasksToStorage (JArr (<[taskIndex := updatedTask]> xs)) ;;;
            ret updatedTask
        end
    | _ => throw "TypeError"
    end.

  (** [deleteTask] (lines 55-59). *)
Definition deleteTask (id : string) : M world unit :=
    tasks <- getTasksFromStorage ;;
    match tasks with
    | JArr xs => filteredTasks <- lift (filter_id id xs) ;; saveTasksToStorage (JArr filteredTasks)
    | _ => throw "TypeError"
    end.
End Methods.

(** ** Raw values and typed tasks *)

(** A raw value the typed store reads as task [t]: an object with distinct
    keys whose six members have the types of a task. *)
Definition rel_task (x : json) (t : Task.t) : Prop :=
  ∃ fs, x = JObj fs ∧ NoDup (keys fs) ∧ TaskJson.of_json x = Some t.

Section Related.
Local Open Scope string_scope.

Lemma field_map_values (f : json -> json) q fs :
  TaskJson.field q (map (fun kv => (kv.1, f kv.2)) fs) = f <$> TaskJson.field q fs.
Proof.
  unfold TaskJson.field. change (@None json) with (f <$> @None json) at 1.
  generalize (@None json) as acc. induction fs as [|[k v] fs IH]; intros acc; [done|].
  simpl. rewrite <- IH. f_equal. by case_decide.
Qed.

Lemma field_assign_nil q fs : TaskJson.field q (assign [] fs) = TaskJson.field q fs.
Proof. rewrite field_assign by nodup_keys. by destruct (TaskJson.field q fs). Qed.

Lemma as_str_js_of o : TaskJson.as_str (js_of <$> o) = TaskJson.as_str o.
Proof. by destruct o as [[]|]. Qed.
Lemma as_bool_js_of o : TaskJson.as_bool (js_of <$> o) = TaskJson.as_bool o.
Proof. by destruct o as [[]|]. Qed.
Lemma as_num_js_of o : TaskJson.as_num (js_of <$> o) = TaskJson.as_num o.
Proof. by destruct o as [[]|]. Qed.

(** [JSON.parse]'s object building does not change how the typed store
    reads a value. *)
Lemma of_json_js_of y : TaskJson.of_json (js_of y) = TaskJson.of_json y.
Proof.
  destruct y as [| | | | |fs]; try done. cbn [js_of]. unfold TaskJson.of_json.
  by rewrite !field_assign_nil, !field_map_values, !as_str_js_of, !as_bool_js_of, !as_num_js_of.
Qed.

Lemma rel_task_js_of y t : TaskJson.of_json y = Some t -> rel_task (js_of y) t.
Proof.
  intros Hy. destruct y as [| | | | |fs]; try discriminate.
  eexists. split_and!; [done|nodup_keys|by rewrite of_json_js_of].
Qed.

Lemma as_str_Some o s : TaskJson.as_str o = Some s -> o = Some (JStr s).
Proof. destruct o as [[]|]; by intros [= ->]. Qed.
Lemma as_bool_Some o b : TaskJson.as_bool o = Some b -> o = Some (JBool b).
Proof. destruct o as [[]|]; by intros [= ->]. Qed.
Lemma as_num_Some o n : TaskJson.as_num o = Some n -> o = Some (JNum n).
Proof. destruct o as [[]|]; by intros [= ->]. Qed.

(** The six members the typed store reads. *)
Lemma of_json_iff fs t :
  TaskJson.of_json (JObj fs) = Some t <->
  TaskJson.field "id" fs = Some (JStr (Task.id t)) ∧
  TaskJson.field "caption" fs = Some (JStr (Task.caption t)) ∧
  TaskJson.field "body" fs = Some (JStr (Task.body t)) ∧
  TaskJson.field "done" fs = Some (JBool (Task.done t)) ∧
  TaskJson.field "createdAt" fs = Some (JNum (Task.createdAt t)) ∧
  TaskJson.field "updatedAt" fs = Some (JNum (Task.updatedAt t)).
Proof.
  unfold TaskJson.of_json. split.
  - intros H.
    apply bind_Some in H as (i & Hi%as_str_Some & H). apply bind_Some in H as (c & Hc%as_str_Some & H).
    apply bind_Some in H as (b & Hb%as_str_Some & H). apply bind_Some in H as (d & Hd%as_bool_Some & H).
    apply bind_Some in H as (ca & Hca%as_num_Some & H). apply bind_Some in H as (ua & Hua%as_num_Some & H).
    injection H as <-. by split_and!.
  - intros (-> & -> & -> & -> & -> & ->). by destruct t.
Qed.

Lemma rel_task_get_id x t : rel_task x t -> get_id x = Ok (Some (JStr (Task.id t))).
Proof. intros (fs & -> & _ & (Hid & _)%of_json_iff). simpl. by rewrite Hid. Qed.

Lemma field_app q l1 l2 :
  TaskJson.field q (l1 ++ l2) = match TaskJson.field q l2 with Some v => Some v | None => TaskJson.field q l1 end.
Proof. unfold TaskJson.field at 1. rewrite fold_left_app. apply field_acc. Qed.

Lemma field_patch_obj u :
  TaskJson.field "id" (patch_obj u) = JStr <$> Task.p_id u ∧
  TaskJson.field "caption" (patch_obj u) = JStr <$> Task.p_caption u ∧
  TaskJson.field "body" (patch_obj u) = JStr <$> Task.p_body u ∧
  TaskJson.field "done" (patch_obj u) = JBool <$> Task.p_done u ∧
  TaskJson.field "createdAt" (patch_obj u) = JNum <$> Task.p_createdAt u ∧
  TaskJson.field "updatedAt" (patch_obj u) = JNum <$> Task.p_updatedAt u.
Proof. destruct u as [[?|] [?|] [?|] [?|] [?|] [?|]]; split_and!; reflexivity. Qed.

End Related.

(** ** The methods on each branch *)

Section Equations.
Context (E : env).
Local Open Scope string_scope.

(** What [saveTasksToStorage] leaves. *)
Definition raw_write (xs : list json) (w : world) : world :=
  set_storage (<[STORAGE_KEY := stringify (JArr xs)]> (storage w)) w.

(** The object [addTask] builds, from the world before the call. *)
Definition new_obj (d : Task.draft) (w : world) : json :=
  JObj (assign (assign [] (draft_obj d))
          [("id", JStr (uuid_at E (uuids w))); ("createdAt", JNum (now_at E (ticks w)));
           ("updatedAt", JNum (now_at E (S (ticks w))))]).

(** The object [updateTask] builds from the stored [old]. *)
Definition merged_obj (old : json) (updates : list (string * json)) (w : world) : json :=
  JObj (assign (assign (assign [] (own_entries old)) updates) [("updatedAt", JNum (now_at E (ticks w)))]).

Lemma addTask_array d w xs :
  getTasksFromStorage w = (Ok (JArr xs), w) ->
  addTask E d w = (Ok (new_obj d w), raw_write (xs ++ [new_obj d w]) (tick (tick (draw w)))).
Proof. intros Hr. unfold addTask, bind. by rewrite Hr. Qed.

Lemma addTask_other d w v :
  getTasksFromStorage w = (Ok v, w) -> (∀ xs, v ≠ JArr xs) ->
  addTask E d w = (Throw "TypeError", tick (tick (draw w))).
Proof. intros Hr Hv. unfold addTask, bind. rewrite Hr. simpl. by destruct v; [..|by destruct (Hv xs)|]. Qed.

Lemma updateTask_found_raw id upd w xs i old :
  getTasksFromStorage w = (Ok (JArr xs), w) -> find_task id xs = Ok (Some (i, old)) ->
  updateTask E id upd w = (Ok (merged_obj old upd w), raw_write (<[i := merged_obj old upd w]> xs) (tick w)).
Proof. intros Hr Hf. unfold updateTask, bind. rewrite Hr. unfold lift. by rewrite Hf. Qed.

Lemma updateTask_missing_raw id upd w xs :
  getTasksFromStorage w = (Ok (JArr xs), w) -> find_task id xs = Ok None ->
  updateTask E id upd w = (Throw "Task not found", w).
Proof. intros Hr Hf. unfold updateTask, bind. rewrite Hr. unfold lift. by rewrite Hf. Qed.

Lemma deleteTask_raw id w xs ys :
  getTasksFromStorage w = (Ok (JArr xs), w) -> filter_id id xs = Ok ys ->
  deleteTask id w = (Ok tt, raw_write ys w).
Proof. intros Hr Hf. unfold deleteTask, bind. rewrite Hr. unfold lift. by rewrite Hf. Qed.

End Equations.

(** ** Relating the raw store to the typed one *)

Section Relate.
Context (E : env).
Local Open Scope string_scope.

(** A blob the typed store reads as [ts] is, for the raw store, an array
    of objects it relates to [ts] one by one. *)
Lemma read_rel w ts :
  stored w = Some ts -> ∃ xs, getTasksFromStorage w = (Ok (JArr xs), w) ∧ Forall2 rel_task xs ts.
Proof.
  unfold stored, TaskService.getTasksFromStorage, getTasksFromStorage, eval, local_get, bind.
  cbn [fst]. destruct (storage w !! STORAGE_KEY) as [s|]; [|intros [= <-]; by exists []].
  case_decide; [intros [= <-]; by exists []|].
  cbn [decode_tasks json_codec]. unfold TaskJson.decode.
  destruct (parse s) as [v|]; [|done]. cbn [mbind option_bind].
  destruct v as [| | | |ys|]; try done. cbn [TaskJson.tasks_of_json].
  destruct (mapM TaskJson.of_json ys) as [ts'|] eqn:Hm; [|done]. intros [= <-].
  exists (map js_of ys). split; [done|]. apply mapM_Some_1 in Hm.
  induction Hm; constructor; [by apply rel_task_js_of|done].
Qed.

Lemma stored_raw_write xs ts w : Forall2 rel_task xs ts -> stored (raw_write xs w) = Some ts.
Proof.
  intros Hxs. unfold stored, TaskService.getTasksFromStorage, raw_write, eval, local_get, bind.
  cbn [fst storage set_storage]. rewrite lookup_insert_eq.
  rewrite decide_False by (cbn [stringify]; by rewrite str_app_cons).
  cbn [decode_tasks json_codec]. unfold TaskJson.decode. rewrite parse_stringify_eq. cbn.
  rewrite (mapM_Some_2 _ _ ts); [done|]. eapply Forall2_impl; [exact Hxs|].
  by intros x t (? & _ & _ & ?).
Qed.

(** What the raw store writes is equivalent to what the typed one writes. *)
Lemma raw_write_equiv xs ts w : Forall2 rel_task xs ts -> raw_write xs w ≡ write ts w.
Proof.
  intros Hxs. unfold equiv, world_equiv_inst, world_equiv.
  rewrite stored_write, (stored_raw_write xs ts w Hxs). by split_and!.
Qed.

Lemma find_rel id xs ts :
  Forall2 rel_task xs ts ->
  match list_find (fun t => Task.id t = id) ts with
  | Some (i, t) => ∃ x, find_task id xs = Ok (Some (i, x)) ∧ rel_task x t
  | None => find_task id xs = Ok None
  end.
Proof.
  induction 1 as [|x t xs ts Hxt Hr IH]; [done|]. cbn [find_task list_find].
  rewrite (rel_task_get_id x t Hxt). cbn [strict_eq_str]. case_decide as Heq.
  - rewrite bool_decide_eq_true_2 by done. eauto.
  - rewrite bool_decide_eq_false_2 by done.
    destruct (list_find _ ts) as [[i t']|]; simpl; [|by rewrite IH].
    destruct IH as (x' & -> & ?). eauto.
Qed.

Lemma filter_rel id xs ts :
  Forall2 rel_task xs ts ->
  ∃ ys, filter_id id xs = Ok ys ∧ Forall2 rel_task ys (filter (fun t => Task.id t ≠ id) ts).
Proof.
  induction 1 as [|x t xs ts Hxt Hr (ys & Hys & IH)]; [by exists []|]. cbn [filter_id].
  rewrite (rel_task_get_id x t Hxt), Hys. cbn [strict_eq_str].
  rewrite (filter_cons (fun t => Task.id t ≠ id)).
  destruct (decide (Task.id t = id)) as [Heq|Hne].
  - rewrite bool_decide_eq_true_2, decide_False by auto. eauto.
  - rewrite bool_decide_eq_false_2, decide_True by auto. eexists. split; [done|by constructor].
Qed.

Lemma new_obj_fields d w : new_obj E d w = JObj (TaskJson.fields (new_task E d w)).
Proof.
  unfold new_obj. rewrite (assign_ordered [] (draft_obj d)), assign_ordered; [done|..];
    first [apply (bool_decide_unpack _)|idtac]; vm_compute; reflexivity.
Qed.

Lemma new_rel d w : rel_task (new_obj E d w) (new_task E d w).
Proof.
  rewrite new_obj_fields. eexists. split_and!; [done| |apply TaskJson.of_to_json].
  apply (bool_decide_unpack _). vm_compute. reflexivity.
Qed.

Lemma field_merged q fs upd now :
  NoDup (keys fs) ->
  TaskJson.field q (assign (assign (assign [] fs) upd) [("updatedAt", JNum now)]) =
    if decide (q = "updatedAt") then Some (JNum now)
    else match TaskJson.field q upd with Some v => Some v | None => TaskJson.field q fs end.
Proof.
  intros Hnd. rewrite field_assign by nodup_keys.
  rewrite field_cons. cbn [TaskJson.field fold_left].
  rewrite field_assign, field_assign_nil by nodup_keys. by case_decide.
Qed.

Lemma merged_rel x old u w :
  rel_task x old -> rel_task (merged_obj E x (patch_obj u) w) (updated E old u w).
Proof.
  intros (fs & -> & Hnd & Hold%of_json_iff). unfold merged_obj. cbn [own_entries].
  eexists. split_and!; [done|nodup_keys|]. apply of_json_iff.
  rewrite !field_merged by done.
  destruct (field_patch_obj u) as (-> & -> & -> & -> & -> & ->).
  destruct Hold as (-> & -> & -> & -> & -> & _).
  destruct u as [[?|] [?|] [?|] [?|] [?|] [?|]]; split_and!; reflexivity.
Qed.

End Relate.

(** ** Null elements *)

Lemma is_null x : x = JNull ∨ x ≠ JNull.
Proof. destruct x; [by left|by right..]. Qed.

Lemma get_id_ok x : x ≠ JNull -> get_id x = Ok (match x with JObj fs => TaskJson.field "id" fs | _ => None end).
Proof. by destruct x. Qed.

(** [findIndex] throws exactly when it reaches a [null] before an element
    with the id. *)
Lemma find_task_throw id xs :
  find_task id xs = Throw "TypeError" <->
  ∃ i, xs !! i = Some JNull ∧ ∀ j x, j < i -> xs !! j = Some x -> matches_id id x = false.
Proof.
  induction xs as [|x xs IH]; simpl.
  - split; [done|]. by intros (i & Hi & _).
  - destruct (is_null x) as [->|Hx].
    + split; [|done]. intros _. exists 0. split; [done|]. lia.
    + unfold matches_id at 1. rewrite (get_id_ok x Hx).
      destruct (strict_eq_str _ id) eqn:Hm.
      * split; [done|]. intros ([|i] & Hi & Hb); [by simplify_eq/=|].
        enough (matches_id id x = false) as Hf by (unfold matches_id in Hf; by rewrite get_id_ok, Hm in Hf).
        by apply (Hb 0); [lia|].
      * transitivity (find_task id xs = Throw "TypeError").
        { by destruct (find_task id xs) as [[[i y]|]|e]. }
        rewrite IH. split.
        -- intros (i & Hi & Hb). exists (S i). split; [done|]. intros [|j] y Hj Hy.
           ++ injection Hy as <-. unfold matches_id. by rewrite get_id_ok.
           ++ apply (Hb j); [lia|done].
        -- intros ([|i] & Hi & Hb); [by simplify_eq/=|]. exists i. split; [done|].
           intros j y Hj Hy. apply (Hb (S j)); [lia|done].
Qed.

(** [filter] throws exactly when the array holds a [null]. *)
Lemma filter_id_throw id xs : filter_id id xs = Throw "TypeError" <-> JNull ∈ xs.
Proof.
  induction xs as [|x xs IH]; simpl.
  - split; [done|]. by intros ?%elem_of_nil.
  - rewrite elem_of_cons. destruct (is_null x) as [->|Hx]; [split; [by left|done]|].
    rewrite (get_id_ok x Hx). transitivity (filter_id id xs = Throw "TypeError").
    { by destruct (filter_id id xs). }
    rewrite IH. split; [by right|]. by intros [?|?].
Qed.

(** ** Calls of the task page, on both stores *)

(** The store methods the task page calls (TaskList.tsx, lines 33, 42,
    57, 67 and 75). *)
Inductive call : Type :=
  | CList
  | CAdd (d : Task.draft)
  | CUpdate (id : string) (u : Task.patch)
  | CDelete (id : string).

Definition op_of (c : call) : op :=
  match c with
  | CList => OpList
  | CAdd d => OpAdd d
  | CUpdate id u => OpUpdate id u
  | CDelete id => OpDelete id
  end.

Inductive raw_answer : Type :=
  | RTasks (v : json)
  | RTask (v : json)
  | RUnit.

Definition raw_run (E : env) (c : call) : M world raw_answer :=
  match c with
  | CList => v <- getTasks ;; ret (RTasks v)
  | CAdd d => v <- addTask E d ;; ret (RTask v)
  | CUpdate id u => v <- updateTask E id (patch_obj u) ;; ret (RTask v)
  | CDelete id => deleteTask id ;;; ret RUnit
  end.

(** The raw answer the typed answer abstracts. *)
Definition answer_rel (a : raw_answer) (b : answer) : Prop :=
  match a, b with
  | RTasks (JArr xs), ATasks ts => Forall2 rel_task xs ts
  | RTask x, ATask t => rel_task x t
  | RUnit, AUnit => True
  | _, _ => False
  end.

Definition outcome_rel (o : outcome raw_answer) (o' : outcome answer) : Prop :=
  match o, o' with
  | Ok a, Ok b => answer_rel a b
  | Throw e, Throw e' => e = e'
  | _, _ => False
  end.

(** The answers and the final world of a sequence of calls. *)
Fixpoint trace {A} (m : call -> M world A) (cs : list call) (w : world) : list (outcome A) * world :=
  match cs with
  | [] => ([], w)
  | c :: cs' => let t := trace m cs' (exec (m c) w) in (eval (m c) w :: t.1, t.2)
  end.

Section Simulation.
Context (E : env).

(** One call: on a blob the typed store reads, the raw store answers as
    the typed one and leaves an equivalent world. *)
Lemma raw_run_refines c w ts :
  stored w = Some ts ->
  outcome_rel (eval (raw_run E c) w) (eval (run E (op_of c)) w) ∧
  exec (raw_run E c) w ≡ exec (run E (op_of c)) w.
Proof.
  intros Hs. destruct (read_rel w ts Hs) as (xs & Hr & Hxs).
  unfold eval, exec. destruct c as [|d|id u|id]; cbn [raw_run op_of run]; unfold bind.
  - unfold getTasks, TaskService.getTasks. rewrite Hr, (get_ok _ _ Hs). done.
  - rewrite (addTask_array E d w xs Hr), (addTask_eq E d w ts Hs). split; [apply new_rel|].
    apply raw_write_equiv, Forall2_app; [done|]. constructor; [apply new_rel|constructor].
  - pose proof (find_rel id xs ts Hxs) as Hf.
    destruct (list_find (fun t => Task.id t = id) ts) as [[i old]|] eqn:Hfind.
    + destruct Hf as (x & Hf & Hx).
      rewrite (updateTask_found_raw E id _ w xs i x Hr Hf), (updateTask_found E id u w ts i old Hs Hfind).
      split; [by apply merged_rel|]. apply raw_write_equiv, Forall2_insert; [done|by apply merged_rel].
    + apply list_find_None in Hfind.
      rewrite (updateTask_missing_raw E id _ w xs Hr Hf), (updateTask_absent E id u w ts Hs Hfind). done.
  - destruct (filter_rel id xs ts Hxs) as (ys & Hf & Hys).
    rewrite (deleteTask_raw id w xs ys Hr Hf), (deleteTask_eq id w ts Hs).
    split; [done|]. by apply raw_write_equiv.
Qed.

(** The typed store keeps a readable blob readable. *)
Lemma run_readable c w ts : stored w = Some ts -> is_Some (stored (exec (run E (op_of c)) w)).
Proof.
  intros Hs. unfold exec. destruct c as [|d|id u|id]; cbn [op_of run]; unfold bind.
  - unfold TaskService.getTasks. rewrite (get_ok _ _ Hs). cbn [snd ret]. by eexists.
  - rewrite (addTask_eq E d w ts Hs). cbn [snd ret]. rewrite stored_write. by eexists.
  - destruct (list_find (fun t => Task.id t = id) ts) as [[i old]|] eqn:Hfind.
    + rewrite (updateTask_found E id u w ts i old Hs Hfind). cbn [snd ret]. rewrite stored_write. by eexists.
    + apply list_find_None in Hfind. rewrite (updateTask_absent E id u w ts Hs Hfind). cbn [snd]. by eexists.
  - rewrite (deleteTask_eq id w ts Hs). cbn [snd ret]. rewrite stored_write. by eexists.
Qed.

End Simulation.

(** ** Properties *)

Section Properties.
Local Open Scope string_scope.

Lemma js_of_non_array v : (∀ xs, v ≠ JArr xs) -> ∀ xs, js_of v ≠ JArr xs.
Proof. destruct v; try done. intros Hv. by destruct (Hv xs). Qed.

(** C4: on every blob the typed store of TaskService.v can read, the
    store as the code runs it, over the values [JSON.parse] returns,
    agrees with the typed model along any sequence of the task page's
    calls: started on equivalent worlds, each call gets the answer the
    typed store gives (up to the object a task is stored as, with its key
    order and extra members) or the same error, and the worlds stay
    equivalent.  The typed model is exact wherever it reports no error. *)
Theorem raw_simulation E cs wr wt :
  wr ≡ wt -> is_Some (stored wt) ->
  Forall2 outcome_rel (trace (raw_run E) cs wr).1 (trace (fun c => run E (op_of c)) cs wt).1 ∧
  (trace (raw_run E) cs wr).2 ≡ (trace (fun c => run E (op_of c)) cs wt).2.
Proof.
  revert wr wt. induction cs as [|c cs IH]; intros wr wt Hw [ts Hs]; [by split; [constructor|]|].
  assert (Hr : stored wr = Some ts) by (by rewrite Hw).
  destruct (raw_run_refines E c wr ts Hr) as [Ho Hx].
  destruct (run_respects E (op_of c) wr wt Hw) as [He Hx'].
  destruct (IH (exec (raw_run E c) wr) (exec (run E (op_of c)) wt)) as [IH1 IH2].
  - by rewrite Hx, <- Hx'.
  - rewrite <- Hx'. apply (run_readable E c wr ts Hr).
  - split; [|done]. constructor; [|done]. unfold eval. by rewrite <- He.
Qed.

(** What the raw store writes it reads back: after
    [saveTasksToStorage(v)], [getTasksFromStorage] returns [v] for every
    value as JavaScript holds it (distinct keys in their order), the
    values [JSON.parse] builds among them ([canonical_js_of]). *)
Theorem raw_read_after_write v w :
  canonical v = true ->
  getTasksFromStorage (exec (saveTasksToStorage v) w) = (Ok v, exec (saveTasksToStorage v) w).
Proof.
  intros Hc. unfold getTasksFromStorage, saveTasksToStorage, local_get, local_set, bind, exec, modify.
  cbn [snd storage set_storage]. rewrite lookup_insert_eq.
  destruct (stringify_head v) as (c & t & Hs & _). rewrite decide_False by (rewrite Hs; done).
  rewrite parse_stringify_eq. by rewrite js_of_canonical.
Qed.

(** C25: a blob of valid JSON that is not an array ([null], an object, a
    number) breaks adding: [addTask] draws a UUID and reads the clock
    twice building the task, then [tasks.push] throws a [TypeError] and
    nothing is written; the typed model reports the blob as unreadable
    without drawing or reading anything. *)
Theorem addTask_non_array E d w s v :
  storage w !! STORAGE_KEY = Some s -> s ≠ EmptyString -> parse s = Some v -> (∀ xs, v ≠ JArr xs) ->
  addTask E d w = (Throw "TypeError", tick (tick (draw w))) ∧
  TaskService.addTask E d w = (Throw "SyntaxError", w).
Proof.
  intros Hst Hs Hp Hv. split.
  - apply (addTask_other E d w (js_of v)); [|by apply js_of_non_array].
    unfold getTasksFromStorage, local_get, bind. cbn [fst]. rewrite Hst, decide_False, Hp by done. done.
  - assert (Hn : stored w = None).
    { unfold stored, TaskService.getTasksFromStorage, local_get, eval, bind. cbn [fst].
      rewrite Hst, decide_False by done. cbn [decode_tasks json_codec]. unfold TaskJson.decode.
      rewrite Hp. by destruct v; [..|destruct (Hv xs)|]. }
    unfold TaskService.addTask, bind. by rewrite (get_err _ Hn).
Qed.

(** C26: a [null] in the stored array breaks the methods that read
    [t.id]: [deleteTask] throws a [TypeError] and writes nothing exactly
    when the array holds a [null], whatever the id; [updateTask] throws a
    [TypeError] instead of [Task not found] exactly when a [null] comes
    before every element with the id. *)
Theorem null_element_throws E id upd w xs :
  getTasksFromStorage w = (Ok (JArr xs), w) ->
  (deleteTask id w = (Throw "TypeError", w) <-> JNull ∈ xs) ∧
  (updateTask E id upd w = (Throw "TypeError", w) <->
     ∃ i, xs !! i = Some JNull ∧ ∀ j x, j < i -> xs !! j = Some x -> matches_id id x = false).
Proof.
  intros Hr. rewrite <- (filter_id_throw id xs), <- (find_task_throw id xs). split.
  - unfold deleteTask, bind. rewrite Hr. unfold lift.
    destruct (filter_id id xs) as [ys|e]; [split; intros H; discriminate|].
    split; by intros [= ->].
  - unfold updateTask, bind. rewrite Hr. unfold lift.
    destruct (find_task id xs) as [[[i x]|]|e]; [split; intros H; discriminate..|].
    split; by intros [= ->].
Qed.

End Properties.

(** ** Witnesses *)

Local Open Scope string_scope.

(** The stored milk task with its members in another order and one more. *)
Definition milk_obj : json :=
  JObj [("updatedAt", JNum 1); ("id", JStr "u"); ("caption", JStr "Buy milk"); ("body", JStr "2%");
        ("done", JBool false); ("createdAt", JNum 0); ("tag", JStr "x")].

Definition w_raw : world := mk_world {["tasks" := stringify (JArr [milk_obj])]} ∅ 2 1.

Definition milk_calls : list call := [CUpdate "u" done_patch; CAdd tea; CDelete "u"; CList].

Lemma raw_simulation_witness :
  w_raw ≡ w_milk ∧ is_Some (stored w_milk) ∧
  Forall2 outcome_rel (trace (raw_run demo_env) milk_calls w_raw).1
                      (trace (fun c => run demo_env (op_of c)) milk_calls w_milk).1.
Proof.
  assert (Hw : w_raw ≡ w_milk).
  { unfold equiv, world_equiv_inst, world_equiv. split_and!; [vm_compute; reflexivity|done..]. }
  assert (Hs : is_Some (stored w_milk)) by (vm_compute; by eexists).
  split_and!; [exact Hw|exact Hs|].
  exact (proj1 (raw_simulation demo_env milk_calls w_raw w_milk Hw Hs)).
Defined.

(** An object with an index key, which comes first. *)
Definition indexed_obj : json := JArr [JObj [("7", JBool true); ("id", JStr "u")]].

Lemma raw_read_after_write_witness :
  canonical indexed_obj = true ∧
  getTasksFromStorage (exec (saveTasksToStorage indexed_obj) empty_world) =
    (Ok indexed_obj, exec (saveTasksToStorage indexed_obj) empty_world).
Proof.
  assert (Hc : canonical indexed_obj = true) by (vm_compute; reflexivity).
  split; [exact Hc|exact (raw_read_after_write indexed_obj empty_world Hc)].
Defined.

Definition w_null : world := mk_world {["tasks" := "null"]} ∅ 0 0.

Lemma addTask_non_array_witness :
  addTask demo_env milk w_null = (Throw "TypeError", tick (tick (draw w_null))) ∧
  TaskService.addTask demo_env milk w_null = (Throw "SyntaxError", w_null).
Proof.
  assert (Hst : storage w_null !! STORAGE_KEY = Some "null") by reflexivity.
  assert (Hs : "null" ≠ EmptyString) by discriminate.
  assert (Hp : parse "null" = Some JNull) by (vm_compute; reflexivity).
  assert (Hv : ∀ xs, JNull ≠ JArr xs) by discriminate.
  exact (addTask_non_array demo_env milk w_null "null" JNull Hst Hs Hp Hv).
Defined.

Definition w_null_last : world := mk_world {["tasks" := stringify (JArr [milk_obj; JNull])]} ∅ 0 0.

Lemma null_element_throws_witness :
  getTasksFromStorage w_null_last = (Ok (JArr [js_of milk_obj; JNull]), w_null_last) ∧
  updateTask demo_env "zz" [] w_null_last = (Throw "TypeError", w_null_last) ∧
  deleteTask "u" w_null_last = (Throw "TypeError", w_null_last).
Proof.
  assert (Hr : getTasksFromStorage w_null_last = (Ok (JArr [js_of milk_obj; JNull]), w_null_last))
    by (vm_compute; reflexivity).
  destruct (null_element_throws demo_env "zz" [] w_null_last _ Hr) as [_ [_ Hu]].
  destruct (null_element_throws demo_env "u" [] w_null_last _ Hr) as [[_ Hd] _].
  split_and!; [exact Hr|apply Hu|apply Hd].
  - exists 1. split; [reflexivity|]. intros [|j] x Hj Hx; [|lia]. injection Hx as <-. vm_compute. reflexivity.
  - right. left.
Defined.

End RawStore.
