(* ===== verification/Race.v ===== *)
(** * Race: tabs whose store calls overlap.

    Each method of the task store (src/list/src/services/taskService.ts)
    reads the whole blob with [localStorage.getItem] (line 15), computes
    in memory, and writes the whole blob back with [localStorage.setItem]
    (line 20).  Tabs.v interleaves whole events of several tabs; the
    tabs of one origin run in separate event loops, though, and another
    tab's write can land between one call's read and its write.  Here a
    call of tab [i] is two steps:

    - [Call i c]: the read and the computation, on the current world; the
      clock and the UUID generator move at once ([defer]), and the blob the
      call will write waits in the tab ([Writing]), if the method writes at
      all ([writes]: [addTask], [updateTask] and [deleteTask] when they
      return normally);
    - [Commit i]: the write lands ([set_blob]), over whatever other tabs
      wrote meanwhile.

    [race_step] is the step relation and [race_next] the same step as a
    function.  The theorems: every interleaving keeps the store
    well-formed, and every blob waiting to land would too
    ([race_store_wf]); a schedule in which each write follows its read is
    the sequential store ([race_serial]); and two overlapping adds lose
    one task though both calls succeed ([concurrent_adds_lose_task]). *)

From S2P Require Import Prelude Task Platform TaskService TaskStoreSpec RawStore.

Module Race.
Import TaskService TaskStoreSpec.

(** A tab is idle, or has computed a call whose write has not landed. *)
Inductive tab : Type :=
  | Idle
  | Writing (blob : option string).

Record config : Type := mk_config { cworld : world; ctabs : list tab }.

Inductive label : Type :=
  | Call (i : nat) (c : RawStore.call)
  | Commit (i : nat).

(** The calls that reach [saveTasksToStorage]: an add, update or delete
    that returns normally. *)
Definition writes {A} (c : RawStore.call) (r : outcome A) : bool :=
  match c, r with
  | (RawStore.CAdd _ | RawStore.CUpdate _ _ | RawStore.CDelete _), Ok _ => true
  | _, _ => false
  end.

(** The world after a call's read and computation: the storage is still
    the one it read, the counters are the ones it moved. *)
Definition defer (w w' : world) : world := mk_world (storage w) (cookies w') (ticks w') (uuids w').

(** [localStorage.setItem(STORAGE_KEY, ...)] of a computed blob. *)
Definition set_blob (b : option string) (w : world) : world :=
  set_storage (partial_alter (fun _ => b) STORAGE_KEY (storage w)) w.

Section Race.
Context `{!TaskCodec} (E : env).

Definition call_step (i : nat) (c : RawStore.call) (s : config) : config :=
  let w' := exec (run E (RawStore.op_of c)) (cworld s) in
  mk_config (defer (cworld s) w')
            (<[i := if writes c (eval (run E (RawStore.op_of c)) (cworld s))
                    then Writing (storage w' !! STORAGE_KEY) else Idle]> (ctabs s)).

Definition commit_step (i : nat) (b : option string) (s : config) : config :=
  mk_config (set_blob b (cworld s)) (<[i := Idle]> (ctabs s)).

(** A call the task page makes: its updates keep the task's identity
    ([TaskService.keeps_identity]). *)
Definition ui_call (c : RawStore.call) (w : world) : Prop :=
  match c with
  | RawStore.CUpdate id u => ∀ ts i old, stored w = Some ts ->
      list_find (fun t => Task.id t = id) ts = Some (i, old) -> keeps_identity old u
  | _ => True
  end.

Inductive race_step : config -> label -> config -> Prop :=
  | rs_call s i c :
      ctabs s !! i = Some Idle -> ui_call c (cworld s) -> race_step s (Call i c) (call_step i c s)
  | rs_commit s i b :
      ctabs s !! i = Some (Writing b) -> race_step s (Commit i) (commit_step i b s).

Definition race_next (s : config) (l : label) : config :=
  match l with
  | Call i c => match ctabs s !! i with Some Idle => call_step i c s | _ => s end
  | Commit i => match ctabs s !! i with Some (Writing b) => commit_step i b s | _ => s end
  end.

Definition run_race (s : config) (ls : list label) : config := fold_left race_next ls s.

(** Each call of [cs] by tab [i], its write landing at once. *)
Fixpoint atomic (i : nat) (cs : list RawStore.call) : list label :=
  match cs with
  | [] => []
  | c :: cs' => Call i c :: Commit i :: atomic i cs'
  end.

(** Every step of [ls] is enabled where it is taken. *)
Definition race_enabled (s : config) (l : label) : Prop :=
  match l with
  | Call i c => ctabs s !! i = Some Idle ∧ ui_call c (cworld s)
  | Commit i => ∃ b, ctabs s !! i = Some (Writing b)
  end.

Fixpoint race_enabled_run (s : config) (ls : list label) : Prop :=
  match ls with
  | [] => True
  | l :: ls' => race_enabled s l ∧ race_enabled_run (race_next s l) ls'
  end.

(** The invariant: the store is well-formed, and so would it be if any
    waiting write landed now. *)
Definition race_ok (s : config) : Prop :=
  wf E (cworld s) ∧ ∀ i b, ctabs s !! i = Some (Writing b) -> wf E (set_blob b (cworld s)).

End Race.

(** ** What one call does to the world *)

Section Shape.
Context `{!TaskCodec} (E : env).

Lemma exec_bind_ret {A B} (m : M world A) (f : A -> B) w : exec (x <- m ;; ret (f x)) w = exec m w.
Proof. unfold exec, bind. by destruct (m w) as [[] ?]. Qed.

Lemma storage_write ts w0 w :
  storage w0 = storage w ->
  storage (write ts w0) = partial_alter (fun _ => storage (write ts w0) !! STORAGE_KEY) STORAGE_KEY (storage w).
Proof. intros Hw. unfold write. cbn [storage set_storage]. by rewrite lookup_insert_eq, Hw. Qed.

(** A call keeps the cookies, moves the counters forward, and changes the
    storage only by the write it makes, if it writes. *)
Lemma run_shape c w :
  cookies (exec (run E (RawStore.op_of c)) w) = cookies w ∧
  ticks w <= ticks (exec (run E (RawStore.op_of c)) w) ∧ uuids w <= uuids (exec (run E (RawStore.op_of c)) w) ∧
  storage (exec (run E (RawStore.op_of c)) w) =
    if writes c (eval (run E (RawStore.op_of c)) w)
    then partial_alter (fun _ => storage (exec (run E (RawStore.op_of c)) w) !! STORAGE_KEY) STORAGE_KEY (storage w)
    else storage w.
Proof.
  unfold eval, exec. destruct c as [|d|id u|id]; cbn [RawStore.op_of run]; unfold bind;
    destruct (stored w) as [ts|] eqn:Hs.
  - unfold getTasks. rewrite (get_ok _ _ Hs). cbn. split_and!; done || lia.
  - unfold getTasks. rewrite (get_err _ Hs). cbn. split_and!; done || lia.
  - rewrite (addTask_eq E d w ts Hs). cbn [fst snd writes]. split_and!; [done|cbn; lia|cbn; lia|].
    by apply storage_write.
  - rewrite (addTask_corrupt E d w Hs). cbn. split_and!; done || lia.
  - destruct (list_find (fun t => Task.id t = id) ts) as [[i old]|] eqn:Hf.
    + rewrite (updateTask_found E id u w ts i old Hs Hf). cbn [fst snd writes].
      split_and!; [done|cbn; lia|cbn; lia|]. by apply storage_write.
    + apply list_find_None in Hf. rewrite (updateTask_absent E id u w ts Hs Hf). cbn.
      split_and!; done || lia.
  - assert (Hu : updateTask E id u w = (Throw "SyntaxError"%string, w))
      by (unfold updateTask, bind; by rewrite (get_err _ Hs)).
    rewrite Hu. cbn. split_and!; done || lia.
  - rewrite (deleteTask_eq id w ts Hs). cbn [fst snd writes]. split_and!; [done|cbn; lia|cbn; lia|].
    by apply storage_write.
  - rewrite (deleteTask_corrupt id w Hs). cbn. split_and!; done || lia.
Qed.

(** A call whose write lands at once is the method itself. *)
Lemma commit_after_call c w :
  (if writes c (eval (run E (RawStore.op_of c)) w)
   then set_blob (storage (exec (run E (RawStore.op_of c)) w) !! STORAGE_KEY) (defer w (exec (run E (RawStore.op_of c)) w))
   else defer w (exec (run E (RawStore.op_of c)) w)) = exec (run E (RawStore.op_of c)) w.
Proof.
  destruct (run_shape c w) as (Hc & _ & _ & Hst). revert Hc Hst.
  generalize (exec (run E (RawStore.op_of c)) w) as w'. intros [st cs tk uu] Hc Hst. cbn in Hc, Hst |- *.
  destruct (writes _ _); unfold set_blob, defer, set_storage; cbn; [by rewrite <- Hst|by rewrite Hst].
Qed.

Lemma set_blob_set_blob b b' w : set_blob b' (set_blob b w) = set_blob b' w.
Proof. unfold set_blob, set_storage. cbn. by rewrite partial_alter_partial_alter_eq. Qed.

(** A call the task page makes is a client step of TaskService.v. *)
Lemma call_client_step c w : ui_call c w -> client_step E w (exec (run E (RawStore.op_of c)) w).
Proof.
  destruct c as [|d|id u|id]; cbn [RawStore.op_of run ui_call]; intros Hu.
  - rewrite exec_bind_ret. constructor.
  - rewrite exec_bind_ret. constructor.
  - rewrite exec_bind_ret. by constructor.
  - replace (exec (deleteTask id ;;; ret AUnit) w) with (exec (deleteTask id) w)
      by (unfold exec, bind; by destruct (deleteTask id w) as [[] ?]).
    constructor.
Qed.

End Shape.

(** ** The invariant *)

Section Invariant.
Context `{!TaskCodec} (E : env).
Hypothesis Hclock : clock_monotone E.
Hypothesis Huuid : uuid_injective E.

Lemma wf_set_blob_defer b w w' :
  ticks w <= ticks w' -> uuids w <= uuids w' -> wf E (set_blob b w) -> wf E (set_blob b (defer w w')).
Proof. intros Ht Hu. apply wf_world_le; [done..|cbn; lia|cbn; lia]. Qed.

Lemma race_ok_step s l s' : race_ok E s -> race_step E s l s' -> race_ok E s'.
Proof.
  intros [Hw Hp] Hst. destruct Hst as [s i c Hi Hu|s i b Hi].
  - pose proof (call_client_step E c _ Hu) as Hcs. pose proof (wf_step E _ _ Hclock Huuid Hw Hcs) as Hw'.
    destruct (run_shape E c (cworld s)) as (_ & Ht & Huu & _).
    unfold call_step. split; cbn [cworld ctabs].
    + apply wf_world_le with (cworld s); [done|done|cbn; lia|cbn; lia|done].
    + intros j b' Hj. apply list_lookup_insert_Some in Hj as [(<- & Hb & _)|(Hne & Hj)].
      * destruct (writes c _) eqn:Hwr; [|done]. injection Hb as <-.
        pose proof (commit_after_call E c (cworld s)) as Hca. rewrite Hwr in Hca. by rewrite Hca.
      * apply wf_set_blob_defer; [lia|lia|]. by apply (Hp j).
  - unfold commit_step. split; cbn [cworld ctabs]; [by apply (Hp i)|].
    intros j b' Hj. apply list_lookup_insert_Some in Hj as [(_ & [=] & _)|(Hne & Hj)].
    rewrite set_blob_set_blob. by apply (Hp j).
Qed.

Lemma race_ok_steps s ls s' : race_ok E s -> steps (race_step E) s ls s' -> race_ok E s'.
Proof. intros Hs Hst. induction Hst as [|s l s1 ls s2 H1 _ IH]; [done|]. by apply IH, (race_ok_step s l). Qed.

End Invariant.

(** ** Runs *)

Section Runs.
Context `{!TaskCodec} (E : env).

Lemma race_step_next s l : race_enabled s l -> race_step E s l (race_next E s l).
Proof.
  destruct l as [i c|i]; cbn [race_enabled race_next].
  - intros [Hi Hu]. rewrite Hi. by constructor.
  - intros [b Hi]. rewrite Hi. by constructor.
Qed.

Lemma steps_run_race s ls : race_enabled_run E s ls -> steps (race_step E) s ls (run_race E s ls).
Proof.
  revert s. induction ls as [|l ls IH]; intros s; [constructor|].
  intros [Hl Hr]. econstructor; [by apply race_step_next|by apply IH].
Qed.

(** A call of tab [i] whose write lands at once. *)
Lemma atomic_pair s i c :
  ctabs s !! i = Some Idle ->
  cworld (race_next E (race_next E s (Call i c)) (Commit i)) = exec (run E (RawStore.op_of c)) (cworld s) ∧
  ctabs (race_next E (race_next E s (Call i c)) (Commit i)) !! i = Some Idle.
Proof.
  intros Hi. assert (Hlt : i < length (ctabs s)) by (by eapply lookup_lt_Some).
  pose proof (commit_after_call E c (cworld s)) as Hca.
  cbn [race_next]. rewrite Hi. unfold call_step. cbn [ctabs cworld].
  destruct (writes c _); rewrite list_lookup_insert_eq by done.
  - unfold commit_step. cbn [ctabs cworld]. rewrite list_insert_insert_eq, list_lookup_insert_eq by done.
    by split.
  - cbn [ctabs cworld]. rewrite list_lookup_insert_eq by done. by split.
Qed.

End Runs.

(** ** Properties *)

Section Properties.
Context `{!TaskCodec} (E : env).

(** Overlapping calls never corrupt the store: from a well-formed
    store with every tab idle, along any interleaving of the reads and
    the late writes of the task page's calls from any number of tabs
    (with a monotone clock and distinct UUIDs), the store stays
    well-formed, and so would it be if any waiting write landed now. *)
Theorem race_store_wf s0 ls s :
  clock_monotone E -> uuid_injective E -> wf E (cworld s0) -> Forall (fun t => t = Idle) (ctabs s0) ->
  steps (race_step E) s0 ls s ->
  wf E (cworld s) ∧ ∀ i b, ctabs s !! i = Some (Writing b) -> wf E (set_blob b (cworld s)).
Proof.
  intros Hc Hu Hw Hidle Hst. apply (race_ok_steps E Hc Hu s0 ls s); [|done].
  split; [done|]. intros i b Hi. rewrite Forall_lookup in Hidle. by pose proof (Hidle i _ Hi).
Qed.

(** Without overlap the store is the sequential one: when each call
    of a tab is followed at once by its write, the world after the
    schedule is the world the methods of TaskService.v leave, called one
    after the other. *)
Theorem race_serial s0 i cs :
  ctabs s0 !! i = Some Idle ->
  cworld (run_race E s0 (atomic i cs)) =
    fold_left (fun w c => exec (run E (RawStore.op_of c)) w) cs (cworld s0).
Proof.
  revert s0. induction cs as [|c cs IH]; intros s0 Hi; [done|].
  destruct (atomic_pair E s0 i c Hi) as [Hw Hi']. cbn [atomic fold_left].
  unfold run_race in IH |- *. cbn [fold_left]. rewrite IH by done. by rewrite Hw.
Qed.

End Properties.

(** Two tabs, both idle, over an empty store. *)
Definition race_s0 : config := mk_config empty_world [Idle; Idle].

Definition lost_adds : list label :=
  [Call 0 (RawStore.CAdd milk); Call 1 (RawStore.CAdd tea); Commit 0; Commit 1].

(** Two tabs adding at once lose a task: tab 0 reads the empty store
    and computes the milk task, tab 1 reads the still empty store and
    computes the tea task, tab 0's write lands, then tab 1's write lands
    over it.  Both calls answered with their task, and the store holds
    the tea task alone. *)
Theorem concurrent_adds_lose_task :
  steps (race_step demo_env) race_s0 lost_adds (run_race demo_env race_s0 lost_adds) ∧
  eval (run demo_env (OpAdd milk)) empty_world = Ok (ATask milk_task) ∧
  stored (cworld (run_race demo_env race_s0 lost_adds)) = Some [tea_task].
Proof.
  split_and!; [|vm_compute; reflexivity|vm_compute; reflexivity].
  apply steps_run_race. vm_compute. repeat (split || eexists).
Qed.

Lemma race_store_wf_witness :
  wf demo_env (cworld race_s0) ∧
  wf demo_env (cworld (run_race demo_env race_s0 lost_adds)).
Proof.
  assert (Hw : wf demo_env (cworld race_s0)) by (by apply wf_empty).
  assert (Hi : Forall (fun t => t = Idle) (ctabs race_s0)) by (repeat constructor).
  assert (Hst : steps (race_step demo_env) race_s0 lost_adds (run_race demo_env race_s0 lost_adds)).
  { apply steps_run_race. vm_compute. repeat (split || eexists). }
  split; [exact Hw|].
  exact (proj1 (race_store_wf demo_env race_s0 lost_adds _ demo_clock_monotone demo_uuid_injective Hw Hi Hst)).
Defined.

Definition serial_calls : list RawStore.call := [RawStore.CAdd milk; RawStore.CUpdate "u" done_patch].

Lemma race_serial_witness :
  ctabs (mk_config empty_world [Idle]) !! 0 = Some Idle ∧
  cworld (run_race demo_env (mk_config empty_world [Idle]) (atomic 0 serial_calls)) = w_done.
Proof.
  assert (Hi : ctabs (mk_config empty_world [Idle]) !! 0 = Some Idle) by reflexivity.
  split; [exact Hi|]. rewrite (race_serial demo_env (mk_config empty_world [Idle]) 0 serial_calls Hi).
  vm_compute. reflexivity.
Defined.

End Race.
