(* ===== verification/StoreShape.v ===== *)
(** * StoreShape: what the persisted blob looks like, and the range of its
    timestamps.

    Two invariants of the local-storage entry ["tasks"] along any sequence
    of the store calls a client makes ([TaskService.client_step]):

    - its type: the blob is JSON text of an array of objects with exactly
      the six members of a [Task], in the order the store writes them
      ([{...task, id, createdAt, updatedAt}], taskService.ts lines 29-34),
      each at its JSON type ([task_schema]); the code never checks this,
      TypeScript's types being erased, so it is what the store maintains;
    - its bounds: every timestamp is a time value read from [Date.now()],
      in [0, 8.64e15] (ECMAScript's TimeClip range, after the epoch), so
      the comparator [dateA - dateB] of [getTasksSortedByDate] (lines
      70-74) subtracts safe integers and its result is a safe integer:
      the float arithmetic of the code is exact and the integer model of
      it is faithful.

    Both follow, for the typed store, from [client_step_effect]: a client
    step leaves the world unchanged or writes the stored collection with
    one added task, one task updated in place with its creation time
    kept, or a filter.  The type of the blob also holds for the store as
    the code runs it on the values [JSON.parse] returns (RawStore.v),
    where the key order of the objects is JavaScript's: the literal of
    [addTask] defines the members in the schema's order and the spreads
    of [updateTask] set each member in place ([raw_blob_typed]). *)

From S2P Require Import Prelude Json Task Platform TaskService RawStore.

Module StoreShape.
Import Json TaskService.

(** ** What a client step does to the collection *)

Section Effect.
Context `{!TaskCodec} (E : env).

(** The collections a client step may write in place of [ts], in world [w]. *)
Inductive effect (w : world) (ts : list Task.t) : list Task.t -> Prop :=
  | eff_add d : effect w ts (ts ++ [new_task E d w])
  | eff_update i old u :
      ts !! i = Some old -> keeps_identity old u ->
      effect w ts (<[i := updated E old u w]> ts)
  | eff_delete id : effect w ts (filter (fun t => Task.id t ≠ id) ts).

Lemma client_step_effect w w' :
  client_step E w w' ->
  w' = w ∨ ∃ ts ts' w0, stored w = Some ts ∧ w' = write ts' w0 ∧ effect w ts ts'.
Proof.
  destruct 1 as [w|d w|id u w Hk|id w]; unfold exec.
  - left. unfold getTasks. by rewrite getTasksFromStorage_stored.
  - destruct (stored w) as [ts|] eqn:Hs; [right|left].
    + eexists _, _, _. rewrite (addTask_eq E d w ts Hs). split_and!; [done|done|constructor].
    + by rewrite (addTask_corrupt E d w Hs).
  - destruct (stored w) as [ts|] eqn:Hs; [|left; unfold updateTask, bind; by rewrite (get_err w Hs)].
    destruct (list_find (fun t => Task.id t = id) ts) as [[i old]|] eqn:Hf.
    + right. eexists _, _, _. rewrite (updateTask_found E id u w ts i old Hs Hf).
      split_and!; [done|done|]. constructor; [by apply list_find_Some in Hf as []|].
      exact (Hk ts i old eq_refl Hf).
    + left. apply list_find_None in Hf. by rewrite (updateTask_absent E id u w ts Hs Hf).
  - destruct (stored w) as [ts|] eqn:Hs; [right|left].
    + eexists _, _, _. rewrite (deleteTask_eq id w ts Hs). split_and!; [done|done|constructor].
    + by rewrite (deleteTask_corrupt id w Hs).
Qed.

(** An invariant of the entry that every write establishes holds along
    client steps. *)
Lemma rtc_client_step_ind (P : world -> Prop) :
  (∀ ts w, P (write ts w)) -> ∀ w w', rtc (client_step E) w w' -> P w -> P w'.
Proof.
  intros Hw w w' Hst. induction Hst as [w|w1 w2 w3 Hs _ IH]; [done|]. intros Hp. apply IH.
  destruct (client_step_effect w1 w2 Hs) as [->|(ts & ts' & w0 & _ & -> & _)]; [done|apply Hw].
Qed.
End Effect.

(** ** The schema of the blob *)

(** The JSON types of the members of a task. *)
Inductive jtype : Type := TString | TBoolean | TNumber.

Definition has_type (ty : jtype) (v : json) : bool :=
  match ty, v with
  | TString, JStr _ | TBoolean, JBool _ | TNumber, JNum _ => true
  | _, _ => false
  end.

(** The members of a task object, in the order the store writes them
    (lines 29-34: the spread [...task] of the draft's caption, body and
    done, then [id], [createdAt], [updatedAt]). *)
Definition task_schema : list (string * jtype) :=
  [("caption", TString); ("body", TString); ("done", TBoolean);
   ("id", TString); ("createdAt", TNumber); ("updatedAt", TNumber)]%string.

Fixpoint conforms_fields (fs : list (string * json)) (sch : list (string * jtype)) : bool :=
  match fs, sch with
  | [], [] => true
  | (k, v) :: fs', (k', ty) :: sch' => bool_decide (k = k') && has_type ty v && conforms_fields fs' sch'
  | _, _ => false
  end.

Definition conforms (v : json) : bool :=
  match v with JObj fs => conforms_fields fs task_schema | _ => false end.

(** The text is JSON of an array of conforming objects. *)
Definition blob_typed (s : string) : bool :=
  match parse s with Some (JArr vs) => forallb conforms vs | _ => false end.

Definition store_typed (w : world) : Prop :=
  ∀ s, storage w !! STORAGE_KEY = Some s -> blob_typed s = true.

Lemma conforms_to_json t : conforms (TaskJson.to_json t) = true.
Proof. by destruct t. Qed.

(** Every blob the store writes has the schema. *)
Lemma typed_write ts w : store_typed (write ts w).
Proof.
  intros s Hs. unfold write in Hs. simpl in Hs. rewrite lookup_insert_eq in Hs. injection Hs as <-.
  unfold blob_typed. simpl. rewrite TaskJson.parse_encode. apply forallb_forall.
  intros v Hv. apply list_elem_of_In, list_elem_of_fmap in Hv as (t & -> & _).
  apply conforms_to_json.
Qed.

(** ** The range of the timestamps *)

(** [Date.now()] is a time value: TimeClip bounds it by 8.64e15 ms, and a
    clock set after the epoch makes it non-negative. *)
Definition TIME_MAX : Z := 8640000000000000.

(** [Number.MAX_SAFE_INTEGER], 2^53 - 1: the integers up to it in
    absolute value are exact doubles, and so are sums and differences
    that stay within it. *)
Definition MAX_SAFE_INTEGER : Z := 9007199254740991.

Definition time_value (z : Z) : Prop := (0 <= z <= TIME_MAX)%Z.

Definition clock_in_range (E : env) : Prop := ∀ k, time_value (now_at E k).

Definition stamps_ok (t : Task.t) : Prop := time_value (Task.createdAt t) ∧ time_value (Task.updatedAt t).

Definition stamped `{!TaskCodec} (w : world) : Prop :=
  ∀ ts, stored w = Some ts -> Forall stamps_ok ts.

Section Stamps.
Context `{!TaskCodec} (E : env).
Hypothesis Hrange : clock_in_range E.

Lemma effect_stamped w ts ts' : Forall stamps_ok ts -> effect E w ts ts' -> Forall stamps_ok ts'.
Proof.
  intros Hok. destruct 1 as [d|i old u Hi [_ Hk]|id].
  - apply Forall_app. split; [done|]. repeat constructor; apply Hrange.
  - apply Forall_insert; [done|]. destruct (Forall_lookup_1 _ _ _ _ Hok Hi) as [Hc _].
    split; [|apply Hrange]. unfold updated, Task.set_updatedAt. cbn [Task.createdAt]. by rewrite Hk.
  - by apply Forall_filter_sub.
Qed.

Lemma stamped_step w w' : client_step E w w' -> stamped w -> stamped w'.
Proof.
  intros Hs Hst. destruct (client_step_effect E w w' Hs) as [->|(ts & ts' & w0 & Hs0 & -> & Heff)]; [done|].
  intros ts'' Hs''. rewrite stored_write in Hs''. injection Hs'' as <-.
  eapply effect_stamped; [by apply Hst|exact Heff].
Qed.

Lemma stamped_rtc w w' : rtc (client_step E) w w' -> stamped w -> stamped w'.
Proof. induction 1 as [|w1 w2 w3 Hs _ IH]; [done|]. intros Hw. by apply IH, (stamped_step w1). Qed.
End Stamps.

(** ** The schema on the values the code handles *)

(** A member [k: v] that the schema allows, at its type. *)
Definition fits (kv : string * json) : bool :=
  existsb (fun '(k, ty) => bool_decide (k = kv.1) && has_type ty kv.2) task_schema.

Section RawShape.
Context (E : env).

Lemma forallb_Forall {A} (f : A -> bool) l : forallb f l = true <-> Forall (fun x => f x = true) l.
Proof. rewrite forallb_forall, Forall_forall. by setoid_rewrite list_elem_of_In. Qed.

Lemma schema_nodup : NoDup (fst <$> task_schema).
Proof. apply (bool_decide_unpack _). vm_compute. reflexivity. Qed.

Lemma conforms_fields_keys fs sch : conforms_fields fs sch = true -> RawStore.keys fs = fst <$> sch.
Proof.
  revert sch. induction fs as [|[k v] fs IH]; intros [|[k' ty] sch]; simpl; try done.
  rewrite !andb_true_iff, bool_decide_eq_true. intros [[-> _] Hc]. unfold RawStore.keys in *.
  simpl. f_equal. by apply IH.
Qed.

Lemma conforms_fields_values fs sch :
  conforms_fields fs sch = true -> Forall (fun kv => RawStore.canonical kv.2 = true) fs.
Proof.
  revert sch. induction fs as [|[k v] fs IH]; intros [|[k' ty] sch]; simpl; try done.
  rewrite !andb_true_iff. intros [[_ Ht] Hc]. constructor; [|by eapply IH].
  by destruct ty, v.
Qed.

(** A conforming object is as JavaScript holds it. *)
Lemma conforms_canonical v : conforms v = true -> RawStore.canonical v = true.
Proof.
  destruct v as [| | | | |fs]; try done. intros Hc. simpl. unfold conforms in Hc.
  rewrite (conforms_fields_keys _ _ Hc), bool_decide_true by apply schema_nodup.
  simpl. apply forallb_forall. intros kv Hkv. apply list_elem_of_In in Hkv.
  pose proof (conforms_fields_values _ _ Hc) as Hv. rewrite Forall_forall in Hv. by apply Hv.
Qed.

(** Setting a member in place keeps the schema when the value has the
    member's type. *)
Lemma conforms_replace fs sch k ty v :
  NoDup (fst <$> sch) -> (k, ty) ∈ sch -> has_type ty v = true ->
  conforms_fields fs sch = true -> conforms_fields (RawStore.replace_key k v fs) sch = true.
Proof.
  revert sch. induction fs as [|[k' v'] fs IH]; intros [|[k'' ty'] sch] Hnd Hin Hty; simpl; try done.
  rewrite !andb_true_iff, bool_decide_eq_true. intros [[<- Ht] Hc].
  rewrite fmap_cons in Hnd. apply NoDup_cons in Hnd as [Hn Hnd].
  apply elem_of_cons in Hin as [[= -> ->]|Hin].
  - rewrite decide_True by done. simpl. by rewrite bool_decide_true, Hty, Hc.
  - assert (k ≠ k') by (intros ->; apply Hn, list_elem_of_fmap; by exists (k', ty)).
    rewrite decide_False by done. simpl. rewrite bool_decide_true, Ht by done. simpl. by apply IH.
Qed.

Lemma conforms_assign fs kvs :
  conforms_fields fs task_schema = true -> Forall (fun kv => fits kv = true) kvs ->
  conforms_fields (RawStore.assign fs kvs) task_schema = true.
Proof.
  revert fs. induction kvs as [|[k v] kvs IH]; intros fs Hc Hf; [done|]. inversion Hf as [|? ? Hkv Hf']; subst.
  change (RawStore.assign fs ((k, v) :: kvs)) with (RawStore.assign (RawStore.obj_set k v fs) kvs).
  apply IH; [|done]. apply existsb_exists in Hkv as ([k' ty] & Hin%list_elem_of_In & Hkv).
  simpl in Hkv. apply andb_true_iff in Hkv as [<-%bool_decide_eq_true Hty]. unfold RawStore.obj_set.
  rewrite decide_True; [apply (conforms_replace _ _ _ ty); [apply schema_nodup|done..]|].
  rewrite (conforms_fields_keys _ _ Hc). apply list_elem_of_fmap. by exists (k', ty).
Qed.

Lemma fits_patch u : Forall (fun kv => fits kv = true) (RawStore.patch_obj u).
Proof. destruct u as [[] [] [] [] [] []]; repeat constructor. Qed.

(** [{...tasks[i], ...updates, updatedAt}] of a conforming task conforms. *)
Lemma conforms_merged x u w :
  conforms x = true -> conforms (RawStore.merged_obj E x (RawStore.patch_obj u) w) = true.
Proof.
  destruct x as [| | | | |fs]; try done. intros Hc. unfold conforms in Hc.
  unfold RawStore.merged_obj, conforms. cbn [RawStore.own_entries].
  rewrite (RawStore.assign_ordered [] fs); rewrite ?app_nil_l, ?(conforms_fields_keys _ _ Hc);
    [| apply schema_nodup| reflexivity].
  apply conforms_assign; [apply conforms_assign; [done|apply fits_patch]|repeat constructor].
Qed.

Lemma find_task_lookup id xs i x : RawStore.find_task id xs = Ok (Some (i, x)) -> xs !! i = Some x.
Proof.
  revert i. induction xs as [|y xs IH]; intros i; simpl; [done|].
  destruct (RawStore.get_id y) as [p|e]; [|done]. destruct (RawStore.strict_eq_str p id); [by intros [= <- <-]|].
  destruct (RawStore.find_task id xs) as [[[j z]|]|e] eqn:Hf; intros H; inversion H; subst. by apply IH.
Qed.

Lemma filter_id_forall (P : json -> Prop) id xs ys :
  RawStore.filter_id id xs = Ok ys -> Forall P xs -> Forall P ys.
Proof.
  revert ys. induction xs as [|x xs IH]; intros ys Hf Hx; simpl in Hf; [by injection Hf as <-|].
  inversion Hx as [|? ? Hp Hxs]; subst. destruct (RawStore.get_id x); [|done].
  destruct (RawStore.filter_id id xs) as [zs|e]; [|done]. injection Hf as <-.
  destruct (RawStore.strict_eq_str _ _); [by apply IH|constructor; [done|by apply IH]].
Qed.

(** A typed blob reads as an array of conforming objects. *)
Lemma raw_read_typed w :
  store_typed w -> ∃ xs, RawStore.getTasksFromStorage w = (Ok (JArr xs), w) ∧ Forall (fun x => conforms x = true) xs.
Proof.
  intros Ht. unfold RawStore.getTasksFromStorage, local_get, bind. cbn [fst].
  destruct (storage w !! STORAGE_KEY) as [s|] eqn:Hs; [|by exists []].
  pose proof (Ht s Hs) as Hb. unfold blob_typed in Hb.
  destruct (parse s) as [[| | | |vs|]|] eqn:Hp; try done.
  rewrite decide_False by (intros ->; discriminate Hp). cbn.
  apply forallb_Forall in Hb. exists vs. split; [|done].
  change (ret (JArr (map RawStore.js_of vs)) w) with (Ok (JArr (map RawStore.js_of vs)) : outcome json, w).
  rewrite RawStore.map_id_in; [done|]. intros x Hx. apply RawStore.js_of_canonical, conforms_canonical.
  rewrite Forall_forall in Hb. by apply Hb.
Qed.

Lemma typed_raw_write xs w :
  Forall (fun x => conforms x = true) xs -> store_typed (RawStore.raw_write xs w).
Proof.
  intros Hxs s Hs. unfold RawStore.raw_write in Hs. cbn [storage set_storage] in Hs. rewrite lookup_insert_eq in Hs.
  assert (Hp : parse s = Some (JArr xs)) by (injection Hs as <-; exact (parse_stringify_eq (JArr xs))).
  unfold blob_typed. rewrite Hp. by apply forallb_Forall.
Qed.

(** One call of the task page on the raw store keeps the blob typed. *)
Lemma raw_step_typed c w : store_typed w -> store_typed (exec (RawStore.raw_run E c) w).
Proof.
  intros Ht. destruct (raw_read_typed w Ht) as (xs & Hr & Hxs).
  unfold exec. destruct c as [|d|id u|id]; cbn [RawStore.raw_run]; unfold bind.
  - unfold RawStore.getTasks. by rewrite Hr.
  - rewrite (RawStore.addTask_array E d w xs Hr). apply typed_raw_write, Forall_app. split; [done|].
    constructor; [|constructor]. rewrite RawStore.new_obj_fields. apply conforms_to_json.
  - destruct (RawStore.find_task id xs) as [[[i x]|]|e] eqn:Hf.
    + rewrite (RawStore.updateTask_found_raw E id _ w xs i x Hr Hf). apply typed_raw_write.
      apply Forall_insert; [done|]. apply conforms_merged.
      by apply (Forall_lookup_1 _ _ _ _ Hxs (find_task_lookup _ _ _ _ Hf)).
    + by rewrite (RawStore.updateTask_missing_raw E id _ w xs Hr Hf).
    + unfold RawStore.updateTask, bind. rewrite Hr. unfold RawStore.lift. by rewrite Hf.
  - destruct (RawStore.filter_id id xs) as [ys|e] eqn:Hf.
    + rewrite (RawStore.deleteTask_raw id w xs ys Hr Hf). apply typed_raw_write. by eapply filter_id_forall.
    + unfold RawStore.deleteTask, bind. rewrite Hr. unfold RawStore.lift. by rewrite Hf.
Qed.
End RawShape.

(** ** Properties *)

(** With the JSON codec, along any sequence of store calls from a
    world whose blob has the schema (or has no blob), the blob under
    ["tasks"] stays JSON text of an array of objects with exactly the
    members caption, body, done, id, createdAt, updatedAt, in this order,
    at the types string, string, boolean, string, number, number. *)
Theorem blob_typed_reachable E w0 w :
  store_typed w0 -> rtc (client_step E) w0 w -> store_typed w.
Proof. intros H0 Hst. exact (rtc_client_step_ind E store_typed typed_write w0 w Hst H0). Qed.

(** C16: the type of the blob as the code keeps it: from a world whose
    blob under ["tasks"] is JSON text of an array of objects with exactly
    the members caption, body, done, id, createdAt, updatedAt, in this
    order, at the types string, string, boolean, string, number, number
    (or that has no blob), any sequence of the task page's calls run on
    the values [JSON.parse] returns leaves such a blob: the literal
    [{...task, id, createdAt, updatedAt}] of [addTask] defines the members
    in this order, and the spreads of [updateTask] set each member of the
    update in its place, in JavaScript's key order. *)
Theorem raw_blob_typed E cs w :
  store_typed w -> store_typed (RawStore.trace (RawStore.raw_run E) cs w).2.
Proof.
  revert w. induction cs as [|c cs IH]; intros w Hw; [done|]. simpl.
  apply IH. by apply raw_step_typed.
Qed.

Section Bounds.
Context `{!TaskCodec} (E : env).

(** C17: with every clock reading a time value, along any sequence of
    store calls from a store whose timestamps are time values, every
    stored timestamp is a safe integer and the comparator of
    [getTasksSortedByDate] ([dateA - dateB] or [dateB - dateA]) on any two
    stored tasks is a safe integer: the subtraction on doubles is exact. *)
Theorem sort_comparator_safe w0 w ts asc a b :
  clock_in_range E -> stamped w0 -> rtc (client_step E) w0 w ->
  stored w = Some ts -> a ∈ ts -> b ∈ ts ->
  (0 <= Task.createdAt a <= MAX_SAFE_INTEGER)%Z ∧ (0 <= Task.updatedAt a <= MAX_SAFE_INTEGER)%Z ∧
  (Z.abs (by_key asc Task.createdAt a b) <= MAX_SAFE_INTEGER)%Z.
Proof.
  intros Hr H0 Hst Hs Ha Hb. pose proof (stamped_rtc E Hr w0 w Hst H0 ts Hs) as Hok.
  rewrite Forall_forall in Hok. destruct (Hok a Ha) as [Hca Hua], (Hok b Hb) as [Hcb _].
  unfold time_value, TIME_MAX, MAX_SAFE_INTEGER, by_key in *. destruct asc; lia.
Qed.
End Bounds.

(** ** Witnesses *)

(** A clock that stops at the end of the time-value range. *)
Definition clipped_env : env := mk_env (fun k => Z.min (Z.of_nat k) TIME_MAX) unary_uuid false.

Lemma clipped_in_range : clock_in_range clipped_env.
Proof. intros k. unfold time_value, clipped_env. cbn [now_at]. unfold TIME_MAX. lia. Qed.

Lemma blob_typed_reachable_witness :
  store_typed empty_world ∧ rtc (client_step demo_env) empty_world w_milk ∧ store_typed w_milk.
Proof.
  assert (H0 : store_typed empty_world) by (intros s Hs; discriminate Hs).
  assert (Hst : rtc (client_step demo_env) empty_world w_milk) by (apply rtc_once; constructor).
  split_and!; [exact H0|exact Hst|exact (blob_typed_reachable demo_env _ _ H0 Hst)].
Defined.

(** The milk task stored as [addTask] writes it; the task page then
    marks it done, adds a task, deletes the first and lists. *)
Definition w_schema : world := mk_world {["tasks" := stringify (JArr [TaskJson.to_json milk_task])]} ∅ 2 1.

Lemma raw_blob_typed_witness :
  store_typed w_schema ∧ store_typed (RawStore.trace (RawStore.raw_run demo_env) RawStore.milk_calls w_schema).2.
Proof.
  assert (H0 : store_typed w_schema)
    by (intros s Hs; vm_compute in Hs; injection Hs as <-; vm_compute; reflexivity).
  split; [exact H0|exact (raw_blob_typed demo_env _ _ H0)].
Defined.

Definition w_clipped : world := exec (addTask clipped_env milk) empty_world.

Lemma sort_comparator_safe_witness :
  clock_in_range clipped_env ∧ stamped empty_world ∧ rtc (client_step clipped_env) empty_world w_clipped ∧
  stored w_clipped = Some [Task.mk "u" "Buy milk" "2%" false 0 1] ∧
  (Z.abs (by_key true Task.createdAt (Task.mk "u" "Buy milk" "2%" false 0 1)
                                   (Task.mk "u" "Buy milk" "2%" false 0 1)) <= MAX_SAFE_INTEGER)%Z.
Proof.
  assert (H0 : stamped empty_world).
  { intros ts Hs. vm_compute in Hs. injection Hs as <-. constructor. }
  assert (Hst : rtc (client_step clipped_env) empty_world w_clipped) by (apply rtc_once; constructor).
  assert (Hs : stored w_clipped = Some [Task.mk "u" "Buy milk" "2%" false 0 1]) by (vm_compute; reflexivity).
  split_and!; [exact clipped_in_range|exact H0|exact Hst|exact Hs|].
  apply (sort_comparator_safe clipped_env _ _ _ _ _ _ clipped_in_range H0 Hst Hs); by left.
Defined.

End StoreShape.
