(* ===== verification/UserService.v ===== *)
(** * UserService: the mock user registry and cookie session of
    src/list/src/services/userService.ts.

    The class keeps the registered users in memory ([users], line 24) and
    the session as the cookie ["auth_token"] ([getAuthToken],
    [setAuthToken], [removeAuthToken], lines 26-40).  Its state here is
    [ustate]: the registry and the browser [world] of Platform.v; each
    method is a computation in [M ustate], the cookie and clock accesses
    lifted from [M world] by [on_world].

    The session is the two-state machine of the spec, LoggedOut and
    LoggedIn, observed through [isAuthenticated]; [session_of] abstracts a
    state to it and the theorems show each method moves it as the spec's
    machine does, time passing included: the cookie js-cookie writes
    expires seven days after the login, and [session_lifetime] bounds the
    session by that expiry.  [getCurrentUser] answers with the first
    registered user whatever the token, which the theorems make
    explicit. *)

From S2P Require Import Prelude Json Platform.

Module User.

(** [User] (lines 4-9). *)
Record t : Type := mk {
  id : string;
  firstName : string;
  lastName : string;
  email : string
}.

(** [User & { password: string }], an entry of [users] (line 24). *)
Record stored : Type := mk_stored {
  s_id : string;
  s_firstName : string;
  s_lastName : string;
  s_email : string;
  s_password : string
}.

(** [RegisterData] (lines 11-16). *)
Record register_data : Type := mk_register {
  r_firstName : string;
  r_lastName : string;
  r_email : string;
  r_password : string
}.

(** The object literal [{ id, firstName, lastName, email }] returned by
    [login] and [getCurrentUser]: the stored user without its password. *)
Definition public (u : stored) : t :=
  mk (s_id u) (s_firstName u) (s_lastName u) (s_email u).

End User.

Module UserService.

Record ustate : Type := mk_ustate {
  users : list User.stored;
  uw : world
}.

(** Run a computation on the browser world, keeping the registry. *)
Definition on_world {A} (m : M world A) : M ustate A :=
  fun s => let '(r, w') := m (uw s) in (r, mk_ustate (users s) w').

Definition set_users (us : list User.stored) : M ustate unit :=
  modify (fun s => mk_ustate us (uw s)).

Section Ops.
Context (E : env).

Definition COOKIE_NAME : string := "auth_token".
Definition COOKIE_EXPIRY_DAYS : Z := 7.

(** [getAuthToken] (lines 26-28). *)
Definition getAuthToken : M ustate (option string) := on_world (cookie_get COOKIE_NAME).

(** [setAuthToken] (lines 30-36): [secure] only in a production build. *)
Definition setAuthToken (token : string) : M ustate unit :=
  on_world (cookie_set E COOKIE_NAME token COOKIE_EXPIRY_DAYS (production E) "strict").

(** [removeAuthToken] (lines 38-40). *)
Definition removeAuthToken : M ustate unit := on_world (cookie_remove COOKIE_NAME).

(** [register] (lines 42-59): refuse an email already present (exact,
    case-sensitive comparison); otherwise draw an id and append. *)
Definition register (data : User.register_data) : M ustate bool :=
  s <- get ;;
  if bool_decide (Exists (fun user => User.s_email user = User.r_email data) (users s))
  then ret false
  else
    newId <- on_world (random_uuid E) ;;
    let newUser := User.mk_stored newId (User.r_firstName data) (User.r_lastName data)
                                  (User.r_email data) (User.r_password data) in
    s' <- get ;;
    set_users (users s' ++ [newUser]) ;;;
    ret true.

(** The token of [login] (line 66): [`demo_token_${Date.now()}`]. *)
Definition demo_token (now : Z) : string := "demo_token_" +:+ Json.print_number now.

(** [login] (lines 61-77): the first user with this email and password. *)
Definition login (email password : string) : M ustate (option User.t) :=
  s <- get ;;
  match list_find (fun u => User.s_email u = email ∧ User.s_password u = password) (users s) with
  | Some (_, user) =>
      now <- on_world (date_now E) ;;
      setAuthToken (demo_token now) ;;;
      ret (Some (User.public user))
  | None => ret None
  end.

(** [logout] (lines 79-81). *)
Definition logout : M ustate unit := removeAuthToken.

(** JavaScript truthiness of [string | undefined]. *)
Definition truthy (token : option string) : bool :=
  match token with
  | Some t => bool_decide (t ≠ EmptyString)
  | None => false
  end.

(** [getCurrentUser] (lines 83-98): with any truthy token, the first
    registered user. *)
Definition getCurrentUser : M ustate (option User.t) :=
  token <- getAuthToken ;;
  if negb (truthy token) then ret None
  else
    s <- get ;;
    match head (users s) with
    | None => ret None
    | Some user => ret (Some (User.public user))
    end.

(** [isAuthenticated] (lines 100-102): [!!this.getAuthToken()]. *)
Definition isAuthenticated : M ustate bool :=
  token <- getAuthToken ;;
  ret (truthy token).
End Ops.

(** ** The session machine of the spec *)

Inductive session : Type := LoggedOut | LoggedIn.

#[global] Instance session_eq_dec : EqDecision session.
Proof. solve_decision. Defined.

(** The state of the machine: logged in iff the cookie holds a truthy
    token, which is what [isAuthenticated] reports. *)
Definition session_of (s : ustate) : session :=
  if truthy (c_value <$> cookies (uw s) !! COOKIE_NAME) then LoggedIn else LoggedOut.

(** The calls the UI makes on the service, and time passing. *)
Inductive event : Type :=
  | EvRegister (d : User.register_data)
  | EvLogin (email password : string)
  | EvLogout
  | EvCurrentUser
  | EvIsAuthenticated
  | EvElapse.

(** The auth cookie's expiry time is past at time [now]. *)
Definition auth_expired (now : Z) (s : ustate) : bool :=
  match cookies (uw s) !! COOKIE_NAME with
  | Some c => bool_decide (c_expires c < now)%Z
  | None => false
  end.

Definition matches (email password : string) (u : User.stored) : Prop :=
  User.s_email u = email ∧ User.s_password u = password.

(** Whether [login email password] finds a user in [s]. *)
Definition login_succeeds (s : ustate) (email password : string) : bool :=
  bool_decide (Exists (matches email password) (users s)).

(** The spec's machine: [LoggedOut -> (login success) -> LoggedIn ->
    (logout) -> LoggedOut], and LoggedIn persists until the cookie
    expires: time passing to a clock reading past the expiry leads to
    LoggedOut; a failed login and every other call leave the state
    alone. *)
Definition session_next (E : env) (st : session) (s : ustate) (ev : event) : session :=
  match ev with
  | EvLogin email password => if login_succeeds s email password then LoggedIn else st
  | EvLogout => LoggedOut
  | EvElapse => if auth_expired (now_at E (ticks (uw s))) s then LoggedOut else st
  | _ => st
  end.

Inductive ustep (E : env) : ustate -> event -> ustate -> Prop :=
  | us_register d s : ustep E s (EvRegister d) (exec (register E d) s)
  | us_login email password s : ustep E s (EvLogin email password) (exec (login E email password) s)
  | us_logout s : ustep E s EvLogout (exec logout s)
  | us_current s : ustep E s EvCurrentUser (exec getCurrentUser s)
  | us_isauth s : ustep E s EvIsAuthenticated (exec isAuthenticated s)
  | us_elapse s : ustep E s EvElapse (exec (on_world (elapse E)) s).

(** The calls that leave the cookie to the clock: all but login and
    logout. *)
Definition quiet (ev : event) : bool :=
  match ev with EvLogin _ _ | EvLogout => false | _ => true end.

(** The registry invariant: no two users share an email. *)
Definition emails_distinct (s : ustate) : Prop := NoDup (User.s_email <$> users s).

(** ** Lemmas *)

Section Lemmas.
Context (E : env).

Lemma register_taken d s :
  Exists (fun user => User.s_email user = User.r_email d) (users s) ->
  register E d s = (Ok false, s).
Proof. intros Hex. unfold register, bind, get, ret. by rewrite bool_decide_eq_true_2. Qed.

Definition new_user (d : User.register_data) (s : ustate) : User.stored :=
  User.mk_stored (uuid_at E (uuids (uw s))) (User.r_firstName d) (User.r_lastName d)
                 (User.r_email d) (User.r_password d).

Lemma register_free d s :
  ¬ Exists (fun user => User.s_email user = User.r_email d) (users s) ->
  register E d s = (Ok true, mk_ustate (users s ++ [new_user d s]) (draw (uw s))).
Proof. intros Hex. unfold register, bind, get, ret. by rewrite bool_decide_eq_false_2. Qed.

Lemma login_found email password s i user :
  list_find (matches email password) (users s) = Some (i, user) ->
  login E email password s =
  (Ok (Some (User.public user)),
   mk_ustate (users s)
     (set_cookies (<[COOKIE_NAME := mk_cookie (demo_token (now_at E (ticks (uw s))))
                       (expiry_of (now_at E (S (ticks (uw s)))) COOKIE_EXPIRY_DAYS)
                       (production E) "strict"]> (cookies (uw s)))
        (tick (tick (uw s))))).
Proof. intros Hf. unfold login, bind, get. unfold matches in Hf. by rewrite Hf. Qed.

Lemma login_not_found email password s :
  list_find (matches email password) (users s) = None ->
  login E email password s = (Ok None, s).
Proof. intros Hf. unfold login, bind, get. unfold matches in Hf. by rewrite Hf. Qed.

Lemma demo_token_truthy now e sec ss :
  truthy (c_value <$> Some (mk_cookie (demo_token now) e sec ss)) = true.
Proof. by apply bool_decide_eq_true_2. Qed.

Lemma isAuthenticated_eq s : isAuthenticated s = (Ok (truthy (c_value <$> cookies (uw s) !! COOKIE_NAME)), s).
Proof. by destruct s. Qed.

Lemma getCurrentUser_eq s :
  getCurrentUser s =
  (Ok (if truthy (c_value <$> cookies (uw s) !! COOKIE_NAME)
       then User.public <$> head (users s) else None), s).
Proof.
  destruct s as [us w]. unfold getCurrentUser, bind, getAuthToken, on_world, cookie_get, get. simpl.
  destruct (truthy _); simpl; [|done]. by destruct us.
Qed.

Lemma logout_eq s :
  logout s = (Ok tt, mk_ustate (users s) (set_cookies (delete COOKIE_NAME (cookies (uw s))) (uw s))).
Proof. by destruct s. Qed.

Lemma list_find_Exists {A} (P : A -> Prop) `{!∀ x, Decision (P x)} l :
  is_Some (list_find P l) <-> Exists P l.
Proof.
  split.
  - intros [[i x] (Hi & HP & _)%list_find_Some]. apply Exists_exists.
    exists x. split; [by eapply list_elem_of_lookup_2|done].
  - intros Hex. destruct (list_find P l) eqn:Hf; [done|].
    apply list_find_None in Hf. exfalso. by apply (proj1 (Forall_Exists_neg _ _) Hf).
Qed.

Lemma emails_distinct_register d s :
  emails_distinct s -> emails_distinct (exec (register E d) s).
Proof.
  intros Hd. unfold exec.
  destruct (decide (Exists (fun user => User.s_email user = User.r_email d) (users s))) as [Hex|Hex].
  - by rewrite register_taken.
  - rewrite register_free by done. unfold emails_distinct. simpl.
    rewrite fmap_app. apply NoDup_app. split_and!; [done| |apply NoDup_singleton].
    intros x (u & -> & Hu)%list_elem_of_fmap Hx%list_elem_of_singleton.
    apply Hex, Exists_exists. by exists u.
Qed.

Lemma ustep_users s ev s' :
  ustep E s ev s' -> users s' = users s ∨ ∃ d, ev = EvRegister d.
Proof.
  destruct 1 as [d s|email password s|s|s|s|s]; [by right; eexists| left..].
  - unfold exec. destruct (list_find (matches email password) (users s)) as [[i u]|] eqn:Hf.
    + by rewrite (login_found _ _ _ i u Hf).
    + by rewrite (login_not_found _ _ _ Hf).
  - unfold exec. by rewrite logout_eq.
  - unfold exec. by rewrite getCurrentUser_eq.
  - unfold exec. by rewrite isAuthenticated_eq.
  - done.
Qed.
(** How each call moves the session. *)
Lemma session_register d s : session_of (exec (register E d) s) = session_of s.
Proof.
  unfold exec. destruct (decide (Exists (fun user => User.s_email user = User.r_email d) (users s))).
  - by rewrite register_taken.
  - by rewrite register_free.
Qed.

Lemma session_login email password s :
  session_of (exec (login E email password) s) =
  if login_succeeds s email password then LoggedIn else session_of s.
Proof.
  unfold exec, login_succeeds. destruct (list_find (matches email password) (users s)) as [[i u]|] eqn:Hf.
  - rewrite bool_decide_eq_true_2 by (apply (list_find_Exists (matches email password)); by rewrite Hf).
    rewrite (login_found _ _ _ i u Hf). unfold session_of. simpl.
    by rewrite lookup_insert_eq, demo_token_truthy.
  - rewrite bool_decide_eq_false_2; [by rewrite (login_not_found _ _ _ Hf)|].
    rewrite <- list_find_Exists, Hf. by intros [].
Qed.

Lemma session_elapse s :
  session_of (exec (on_world (elapse E)) s) =
  if auth_expired (now_at E (ticks (uw s))) s then LoggedOut else session_of s.
Proof.
  unfold session_of, auth_expired. simpl. unfold evict. rewrite map_lookup_filter.
  destruct (cookies (uw s) !! COOKIE_NAME) as [c|]; simpl; [|done].
  case_guard as Hg; simpl in *;
    [rewrite (bool_decide_false (c_expires c < _)%Z) by lia|rewrite (bool_decide_true (c_expires c < _)%Z) by lia]; done.
Qed.

Lemma session_logout s : session_of (exec logout s) = LoggedOut.
Proof. unfold exec. rewrite logout_eq. unfold session_of. simpl. by rewrite lookup_delete_eq. Qed.

(** The auth cookie after a login, whose expiry is [X]: still in the jar
    while the last clock reading is at most [X], evicted after. *)
Definition lifetime (X : Z) (s : ustate) : Prop :=
  (∃ c, cookies (uw s) !! COOKIE_NAME = Some c ∧ c_expires c = X ∧ c_value c ≠ EmptyString ∧
        (now_at E (pred (ticks (uw s))) <= X)%Z) ∨
  (cookies (uw s) !! COOKIE_NAME = None ∧ (X < now_at E (pred (ticks (uw s))))%Z).

Lemma lifetime_session X s : lifetime X s -> session_of s = LoggedIn <-> (now_at E (pred (ticks (uw s))) <= X)%Z.
Proof.
  unfold session_of. intros [(c & -> & _ & Hv & Hle)|(-> & Hlt)]; simpl.
  - rewrite bool_decide_true by done. tauto.
  - split; [done|lia].
Qed.

Lemma lifetime_login email password s :
  login_succeeds s email password = true ->
  lifetime (expiry_of (now_at E (S (ticks (uw s)))) COOKIE_EXPIRY_DAYS) (exec (login E email password) s).
Proof.
  unfold login_succeeds. intros Hl%bool_decide_eq_true_1.
  destruct (list_find (matches email password) (users s)) as [[i u]|] eqn:Hf;
    [|apply (list_find_Exists (matches email password)) in Hl; by rewrite Hf in Hl; destruct Hl].
  unfold exec. rewrite (login_found _ _ _ i u Hf). left. simpl. rewrite lookup_insert_eq.
  eexists. split_and!; [done|done| |].
  - unfold demo_token. by rewrite str_app_cons.
  - pose proof (expiry_of_bounds (now_at E (S (ticks (uw s)))) COOKIE_EXPIRY_DAYS). unfold DAY_MS, COOKIE_EXPIRY_DAYS in *. lia.
Qed.

Lemma lifetime_step X s ev s' :
  clock_monotone E -> quiet ev = true -> ustep E s ev s' -> lifetime X s -> lifetime X s'.
Proof.
  intros Hc Hq Hst Hl. destruct Hst as [d s|email password s|s|s|s|s]; try discriminate Hq.
  - unfold exec. destruct (decide (Exists (fun user => User.s_email user = User.r_email d) (users s))).
    + by rewrite register_taken.
    + by rewrite register_free.
  - unfold exec. by rewrite getCurrentUser_eq.
  - unfold exec. by rewrite isAuthenticated_eq.
  - unfold lifetime in *. simpl. unfold evict. rewrite map_lookup_filter.
    assert (Hm : (now_at E (pred (ticks (uw s))) <= now_at E (ticks (uw s)))%Z) by (apply Hc; lia).
    destruct (decide (now_at E (ticks (uw s)) <= X)%Z) as [Hle|Hgt].
    + destruct Hl as [(c & -> & Hx & Hv & _)|(_ & Hlt)]; [|lia].
      left. exists c. simpl. rewrite option_guard_True by (simpl; lia). split_and!; [done..|lia].
    + right. destruct (cookies (uw s) !! COOKIE_NAME) as [c|] eqn:Hck; simpl; [|split; [done|lia]].
      destruct Hl as [(c' & Hc' & Hx & _)|(Hn & _)]; [|congruence].
      injection Hc' as <-. rewrite option_guard_False by (simpl; lia). split; [done|lia].
Qed.

Lemma lifetime_steps X s evs s' :
  clock_monotone E -> steps (ustep E) s evs s' -> forallb quiet evs = true -> lifetime X s -> lifetime X s'.
Proof.
  intros Hc Hst. induction Hst as [|s1 ev s2 evs s3 Hs _ IH]; [done|]. simpl.
  intros [Hq1 Hq2]%andb_prop Hl. apply IH; [done|]. by eapply lifetime_step.
Qed.

(** [register] only appends; [login] leaves the registry alone. *)
Lemma users_register d s : users s `prefix_of` users (exec (register E d) s).
Proof.
  unfold exec. destruct (decide (Exists (fun user => User.s_email user = User.r_email d) (users s))).
  - by rewrite register_taken.
  - rewrite register_free by done. simpl. by eexists.
Qed.

Lemma users_login email password s : users (exec (login E email password) s) = users s.
Proof.
  unfold exec. destruct (list_find (matches email password) (users s)) as [[i u]|] eqn:Hf.
  - by rewrite (login_found _ _ _ i u Hf).
  - by rewrite (login_not_found _ _ _ Hf).
Qed.
End Lemmas.

(** ** Properties of the user service *)

Section Properties.
Context (E : env).

(** C31: [register] with an email that is already registered returns
    [false] and changes nothing: the existing user and its password stay
    as they were, and no UUID is drawn. *)
Theorem register_duplicate_email d s :
  User.r_email d ∈ User.s_email <$> users s -> register E d s = (Ok false, s).
Proof.
  intros (u & Heq & Hu)%list_elem_of_fmap. apply register_taken.
  apply Exists_exists. by exists u.
Qed.

(** [register] with a new email returns [true] and appends the new
    user, with a fresh UUID and the given name, email and password; the
    registry keeps distinct emails. *)
Theorem register_new_email d s :
  emails_distinct s -> User.r_email d ∉ User.s_email <$> users s ->
  ∃ s', register E d s = (Ok true, s') ∧
    users s' = users s ++ [User.mk_stored (uuid_at E (uuids (uw s))) (User.r_firstName d)
                             (User.r_lastName d) (User.r_email d) (User.r_password d)] ∧
    emails_distinct s' ∧ cookies (uw s') = cookies (uw s).
Proof.
  intros Hd Hn. pose proof (emails_distinct_register E d s Hd) as Hd'. unfold exec in Hd'.
  rewrite register_free in Hd' |- *; [by eexists|..];
    intros (u & Hu & Heq)%Exists_exists; apply Hn, list_elem_of_fmap; by exists u.
Qed.

(** [login] with the email and password of a registered user returns
    that user without its password, stores a ["demo_token_..."] cookie
    for 7 days with the build's [secure] flag and [sameSite=strict], and
    [isAuthenticated] then answers [true]; the token and the cookie's
    expiry come from two readings of the clock. *)
Theorem login_success email password s i user :
  list_find (matches email password) (users s) = Some (i, user) ->
  ∃ s', login E email password s = (Ok (Some (User.public user)), s') ∧
    users s' = users s ∧
    cookies (uw s') !! COOKIE_NAME =
      Some (mk_cookie (demo_token (now_at E (ticks (uw s))))
                      (expiry_of (now_at E (S (ticks (uw s)))) 7) (production E) "strict") ∧
    isAuthenticated s' = (Ok true, s') ∧ session_of s' = LoggedIn.
Proof.
  intros Hf. rewrite (login_found E _ _ _ i user Hf). eexists. split_and!; [done|done| |..].
  - simpl. by rewrite lookup_insert_eq.
  - rewrite isAuthenticated_eq. simpl. by rewrite lookup_insert_eq, demo_token_truthy.
  - unfold session_of. simpl. by rewrite lookup_insert_eq, demo_token_truthy.
Qed.

(** [login] with credentials no user has returns [null] and changes
    nothing, whether the email is unknown or the password wrong. *)
Theorem login_failure email password s :
  ¬ Exists (matches email password) (users s) -> login E email password s = (Ok None, s).
Proof.
  intros Hn. apply login_not_found. destruct (list_find _ _) eqn:Hf; [|done].
  exfalso. apply Hn, (list_find_Exists (matches email password)). by rewrite Hf.
Qed.

(** C11: every call moves the session as the spec's machine does: a
    successful login leads to LoggedIn, logout to LoggedOut, and nothing
    else changes it. *)
Theorem session_refinement s ev s' :
  ustep E s ev s' -> session_of s' = session_next E (session_of s) s ev.
Proof.
  destruct 1 as [d s|email password s|s|s|s|s].
  - apply session_register.
  - apply session_login.
  - apply session_logout.
  - unfold exec. by rewrite getCurrentUser_eq.
  - unfold exec. by rewrite isAuthenticated_eq.
  - apply session_elapse.
Qed.

(** C12: the session's lifetime: with a monotone clock, after a
    successful login and any sequence of calls other than login and
    logout (registrations, current-user and authentication checks, time
    passing), the session is LoggedIn exactly while the last clock reading
    is at most the cookie's expiry time, and that time lies in the last
    second before seven days after the clock reading js-cookie took at the
    login. *)
Theorem session_lifetime s email password evs s' :
  clock_monotone E -> login_succeeds s email password = true ->
  steps (ustep E) (exec (login E email password) s) evs s' -> forallb quiet evs = true ->
  (now_at E (S (ticks (uw s))) + COOKIE_EXPIRY_DAYS * DAY_MS - 1000
     < expiry_of (now_at E (S (ticks (uw s)))) COOKIE_EXPIRY_DAYS
     <= now_at E (S (ticks (uw s))) + COOKIE_EXPIRY_DAYS * DAY_MS)%Z ∧
  (session_of s' = LoggedIn <->
     (now_at E (pred (ticks (uw s'))) <= expiry_of (now_at E (S (ticks (uw s)))) COOKIE_EXPIRY_DAYS)%Z).
Proof.
  intros Hc Hl Hst Hq. split; [apply expiry_of_bounds|]. apply lifetime_session.
  eapply lifetime_steps; [done|exact Hst|done|by apply lifetime_login].
Qed.

(** [getCurrentUser] ignores who logged in: when the session is
    LoggedIn it answers with the first registered user, whoever the token
    was minted for, and with [null] when LoggedOut. *)
Theorem getCurrentUser_first_user s :
  getCurrentUser s =
  (Ok (match session_of s with
       | LoggedIn => User.public <$> head (users s)
       | LoggedOut => None
       end), s).
Proof. rewrite getCurrentUser_eq. unfold session_of. by destruct (truthy _). Qed.

(** The registry's emails stay distinct along any sequence of calls. *)
Theorem emails_distinct_reachable s s' evs :
  emails_distinct s -> steps (ustep E) s evs s' -> emails_distinct s'.
Proof.
  intros Hd Hs. induction Hs as [s|s ev s1 evs s2 Hst Hs IH]; [done|]. apply IH.
  destruct (ustep_users E s ev s1 Hst) as [Hu|[d ->]].
  - unfold emails_distinct. by rewrite Hu.
  - inversion Hst; subst. by apply emails_distinct_register.
Qed.
End Properties.

(** ** Witnesses and the first-user finding, in the demo environment *)

Definition alice : User.register_data := User.mk_register "Alice" "A" "alice@x" "pw1".
Definition bob : User.register_data := User.mk_register "Bob" "B" "bob@x" "pw2".
Definition s_empty : ustate := mk_ustate [] empty_world.
Definition s_alice : ustate := exec (register demo_env alice) s_empty.
Definition s_both : ustate := exec (register demo_env bob) s_alice.
Definition s_bob_in : ustate := exec (login demo_env "bob@x" "pw2") s_both.

(** After Alice and Bob register and Bob logs in, [login] answers
    with Bob but [getCurrentUser] with Alice, the first registered user. *)
Theorem getCurrentUser_ignores_login :
  login demo_env "bob@x" "pw2" s_both = (Ok (Some (User.mk "au" "Bob" "B" "bob@x")), s_bob_in) ∧
  getCurrentUser s_bob_in = (Ok (Some (User.mk "u" "Alice" "A" "alice@x")), s_bob_in).
Proof. split; by vm_compute. Qed.

Lemma register_duplicate_email_witness :
  (User.r_email alice ∈ User.s_email <$> users s_alice) ∧
  register demo_env alice s_alice = (Ok false, s_alice).
Proof.
  assert (H : User.r_email alice ∈ User.s_email <$> users s_alice) by (vm_compute; left).
  split; [exact H|]. by apply register_duplicate_email.
Defined.

Lemma register_new_email_witness :
  emails_distinct s_empty ∧ (User.r_email alice ∉ User.s_email <$> users s_empty) ∧
  ∃ s', register demo_env alice s_empty = (Ok true, s') ∧
    users s' = users s_empty ++ [User.mk_stored (uuid_at demo_env (uuids (uw s_empty)))
        (User.r_firstName alice) (User.r_lastName alice) (User.r_email alice) (User.r_password alice)] ∧
    emails_distinct s' ∧ cookies (uw s') = cookies (uw s_empty).
Proof.
  assert (Hd : emails_distinct s_empty) by constructor.
  assert (Hn : User.r_email alice ∉ User.s_email <$> users s_empty) by (vm_compute; inversion 1).
  split_and!; [exact Hd|exact Hn|]. by apply register_new_email.
Defined.

Lemma login_success_witness :
  list_find (matches "bob@x" "pw2") (users s_both)
    = Some (1, User.mk_stored "au" "Bob" "B" "bob@x" "pw2") ∧
  ∃ s', login demo_env "bob@x" "pw2" s_both = (Ok (Some (User.mk "au" "Bob" "B" "bob@x")), s') ∧
    users s' = users s_both ∧
    cookies (uw s') !! COOKIE_NAME =
      Some (mk_cookie (demo_token (now_at demo_env (ticks (uw s_both))))
                      (expiry_of (now_at demo_env (S (ticks (uw s_both)))) 7) (production demo_env) "strict") ∧
    isAuthenticated s' = (Ok true, s') ∧ session_of s' = LoggedIn.
Proof.
  assert (Hf : list_find (matches "bob@x" "pw2") (users s_both)
               = Some (1, User.mk_stored "au" "Bob" "B" "bob@x" "pw2")) by (by vm_compute).
  split; [exact Hf|]. exact (login_success demo_env _ _ _ _ _ Hf).
Defined.

Lemma login_failure_witness :
  ¬ Exists (matches "bob@x" "wrong") (users s_both) ∧
  login demo_env "bob@x" "wrong" s_both = (Ok None, s_both).
Proof.
  assert (Hn : ¬ Exists (matches "bob@x" "wrong") (users s_both)).
  { apply (bool_decide_unpack _). by vm_compute. }
  split; [exact Hn|]. by apply login_failure.
Defined.

Lemma session_refinement_witness :
  ustep demo_env s_both (EvLogin "bob@x" "pw2") s_bob_in ∧
  session_of s_bob_in = session_next demo_env (session_of s_both) s_both (EvLogin "bob@x" "pw2").
Proof.
  assert (Hs : ustep demo_env s_both (EvLogin "bob@x" "pw2") s_bob_in) by constructor.
  split; [exact Hs|]. by apply (session_refinement demo_env).
Defined.

(** Bob checks his session after some time has passed. *)
Definition s_bob_later : ustate := exec getCurrentUser (exec (on_world (elapse demo_env)) s_bob_in).

Lemma session_lifetime_witness :
  clock_monotone demo_env ∧ login_succeeds s_both "bob@x" "pw2" = true ∧
  steps (ustep demo_env) s_bob_in [EvElapse; EvCurrentUser] s_bob_later ∧
  session_of s_bob_later = LoggedIn.
Proof.
  assert (Hl : login_succeeds s_both "bob@x" "pw2" = true) by (vm_compute; reflexivity).
  assert (Hst : steps (ustep demo_env) s_bob_in [EvElapse; EvCurrentUser] s_bob_later).
  { econstructor; [constructor|]. econstructor; [constructor|]. constructor. }
  split_and!; [exact demo_clock_monotone|exact Hl|exact Hst|].
  apply (proj2 (session_lifetime demo_env s_both "bob@x" "pw2" _ _ demo_clock_monotone Hl Hst eq_refl)).
  vm_compute. discriminate.
Defined.

Lemma emails_distinct_reachable_witness :
  emails_distinct s_empty ∧ steps (ustep demo_env) s_empty [EvRegister alice; EvRegister bob] s_both ∧
  emails_distinct s_both.
Proof.
  assert (Hd : emails_distinct s_empty) by constructor.
  assert (Hs : steps (ustep demo_env) s_empty [EvRegister alice; EvRegister bob] s_both).
  { econstructor; [constructor|]. econstructor; [constructor|]. constructor. }
  split_and!; [exact Hd|exact Hs|]. by eapply emails_distinct_reachable.
Defined.

End UserService.
