(* ===== verification/TaskList.v ===== *)
(** * TaskList: the task page of src/list/src/components/TaskList.tsx.

    The component holds seven pieces of React state (lines 23-29), the
    record [ui]; it calls the task store of TaskService.v and copies what
    the store returns into its [tasks] cache.  A handler is a computation
    in [M app], where [app] pairs the component's state with the browser
    world: [svc] runs a store method on the world, [setState f] is one call
    of a [useState] setter.  Handlers read the state they were rendered
    with ([render]) before they await the store, as the closures of the
    component do.

    [dispatch] maps each clickable or editable element of the rendered
    page to its handler (lines 88-199); [ui_step] is one event.  The
    theorems show that the cache stays equal to the stored collection and
    the store stays well-formed along any sequence of events, and what the
    add, edit, toggle and delete handlers do, the blank-caption guard
    included. *)

From S2P Require Import Prelude Task Platform TaskService.
From Stdlib Require Import Ascii.

Module TaskList.

(** ** [String.prototype.trim] *)

(** The ECMAScript [WhiteSpace] and [LineTerminator] code points among the
    256 the model's characters stand for (U+0000 to U+00FF, the code units
    a [\u00XX] escape gives): tab, line feed, vertical tab, form feed,
    carriage return, space and no-break space (U+00A0, of category Zs).
    U+0085 is not white space in ECMAScript. *)
Definition is_js_space (c : ascii) : bool :=
  match c with
  | "009" | "010" | "011" | "012" | "013" | " " | "160" => true
  | _ => false
  end%char.

Fixpoint trim_start (s : string) : string :=
  match s with
  | EmptyString => EmptyString
  | String c s' => if is_js_space c then trim_start s' else s
  end.

Fixpoint trim_end (s : string) : string :=
  match s with
  | EmptyString => EmptyString
  | String c s' =>
      let r := trim_end s' in
      if is_js_space c && bool_decide (r = EmptyString) then EmptyString else String c r
  end.

Definition trim (s : string) : string := trim_end (trim_start s).

(** ** [trim] is empty exactly on blank strings *)

Definition all_space (s : string) : Prop :=
  Forall (fun c => is_js_space c = true) (String.list_ascii_of_string s).

#[global] Instance all_space_dec s : Decision (all_space s).
Proof. unfold all_space. apply _. Defined.

Lemma trim_start_all_space s : all_space (trim_start s) -> all_space s.
Proof.
  unfold all_space. induction s as [|c s IH]; simpl; [done|].
  destruct (is_js_space c) eqn:Hc; [|done]. intros H. constructor; [done|by apply IH].
Qed.

Lemma trim_start_space s : all_space s -> trim_start s = EmptyString.
Proof.
  unfold all_space. induction s as [|c s IH]; simpl; [done|].
  intros [Hc Hs]%Forall_cons. rewrite Hc. by apply IH.
Qed.

Lemma trim_end_empty s : trim_end s = EmptyString <-> all_space s.
Proof.
  unfold all_space. induction s as [|c s IH]; simpl; [done|].
  rewrite Forall_cons, <- IH.
  destruct (is_js_space c); simpl; [case_bool_decide|]; intuition congruence.
Qed.

Lemma trim_empty s : trim s = EmptyString <-> all_space s.
Proof.
  unfold trim. rewrite trim_end_empty. split; [apply trim_start_all_space|].
  intros Hs. rewrite (trim_start_space s Hs). constructor.
Qed.

(** [" \u00a0Tea\t".trim()] is ["Tea"], and a caption of no-break spaces
    is blank. *)
Example trim_nbsp :
  trim (String " " (String "160" (String "T" (String "e" (String "a" (String "009" EmptyString))))))%char
    = "Tea"%string ∧ all_space (String "160"%char (String "160"%char EmptyString)).
Proof. split; [reflexivity|]. repeat constructor. Qed.

(** ** The component's state *)

Record ui : Type := mk_ui {
  tasks : list Task.t;
  isAddingTask : bool;
  newTaskCaption : string;
  newTaskBody : string;
  editingTaskId : option string;
  editTaskCaption : string;
  editTaskBody : string
}.

(** The initial values of the [useState] calls. *)
Definition initial_ui : ui := mk_ui [] false EmptyString EmptyString None EmptyString EmptyString.

(** The setters of the seven [useState] hooks. *)
Definition setTasks (v : list Task.t) (u : ui) : ui :=
  mk_ui v (isAddingTask u) (newTaskCaption u) (newTaskBody u) (editingTaskId u) (editTaskCaption u) (editTaskBody u).
Definition setIsAddingTask (v : bool) (u : ui) : ui :=
  mk_ui (tasks u) v (newTaskCaption u) (newTaskBody u) (editingTaskId u) (editTaskCaption u) (editTaskBody u).
Definition setNewTaskCaption (v : string) (u : ui) : ui :=
  mk_ui (tasks u) (isAddingTask u) v (newTaskBody u) (editingTaskId u) (editTaskCaption u) (editTaskBody u).
Definition setNewTaskBody (v : string) (u : ui) : ui :=
  mk_ui (tasks u) (isAddingTask u) (newTaskCaption u) v (editingTaskId u) (editTaskCaption u) (editTaskBody u).
Definition setEditingTaskId (v : option string) (u : ui) : ui :=
  mk_ui (tasks u) (isAddingTask u) (newTaskCaption u) (newTaskBody u) v (editTaskCaption u) (editTaskBody u).
Definition setEditTaskCaption (v : string) (u : ui) : ui :=
  mk_ui (tasks u) (isAddingTask u) (newTaskCaption u) (newTaskBody u) (editingTaskId u) v (editTaskBody u).
Definition setEditTaskBody (v : string) (u : ui) : ui :=
  mk_ui (tasks u) (isAddingTask u) (newTaskCaption u) (newTaskBody u) (editingTaskId u) (editTaskCaption u) v.

(** The page in the browser: the component's state and the world. *)
Record app : Type := mk_app { view : ui; browser : world }.

(** Run a store method on the world. *)
Definition svc {A} (m : M world A) : M app A :=
  fun s => let '(r, w') := m (browser s) in (r, mk_app (view s) w').

(** The state the handler's closure was rendered with. *)
Definition render : M app ui := fun s => (Ok (view s), s).

Definition setState (f : ui -> ui) : M app unit :=
  modify (fun s => mk_app (f (view s)) (browser s)).

(** ** The handlers *)

Section Handlers.
Context `{!TaskCodec} (E : env).

(** [loadTasks], the mount effect (lines 31-37). *)
Definition loadTasks : M app unit :=
  loadedTasks <- svc (TaskService.getTasks) ;;
  setState (setTasks loadedTasks).

(** [handleAddTask] (lines 39-52). *)
Definition handleAddTask : M app unit :=
  st <- render ;;
  if decide (trim (newTaskCaption st) = EmptyString) then ret tt else
  newTask <- svc (TaskService.addTask E
                    (Task.mk_draft (newTaskCaption st) (newTaskBody st) false)) ;;
  setState (setTasks (tasks st ++ [newTask])) ;;;
  setState (setNewTaskCaption EmptyString) ;;;
  setState (setNewTaskBody EmptyString) ;;;
  setState (setIsAddingTask false).

(** The update of [handleEditTask]: [{caption, body}]. *)
Definition edit_patch (caption body : string) : Task.patch :=
  Task.mk_patch None (Some caption) (Some body) None None None.

(** [handleEditTask] (lines 54-64). *)
Definition handleEditTask (id : string) : M app unit :=
  st <- render ;;
  if decide (trim (editTaskCaption st) = EmptyString) then ret tt else
  updatedTask <- svc (TaskService.updateTask E id
                        (edit_patch (editTaskCaption st) (editTaskBody st))) ;;
  setState (setTasks ((fun task => if decide (Task.id task = id) then updatedTask else task)
                        <$> tasks st)) ;;;
  setState (setEditingTaskId None).

(** [handleDeleteTask] (lines 66-69). *)
Definition handleDeleteTask (id : string) : M app unit :=
  st <- render ;;
  svc (TaskService.deleteTask id) ;;;
  setState (setTasks (filter (fun task => Task.id task ≠ id) (tasks st))).

(** The update of [toggleTaskDone]: [{...task, done: !task.done}]. *)
Definition toggle_patch (task : Task.t) : Task.patch :=
  Task.mk_patch (Some (Task.id task)) (Some (Task.caption task)) (Some (Task.body task))
                (Some (negb (Task.done task))) (Some (Task.createdAt task))
                (Some (Task.updatedAt task)).

(** [toggleTaskDone] (lines 71-81): [tasks.find] is the second component
    of [list_find]. *)
Definition toggleTaskDone (id : string) : M app unit :=
  st <- render ;;
  match snd <$> list_find (fun t => Task.id t = id) (tasks st) with
  | None => ret tt
  | Some task =>
      updatedTask <- svc (TaskService.updateTask E id (toggle_patch task)) ;;
      setState (setTasks ((fun task => if decide (Task.id task = id) then updatedTask else task)
                            <$> tasks st))
  end.

(** The elements of the page that the user acts on. *)
Inductive event : Type :=
  | ClickAddTask                      (* line 88 *)
  | AddDialogOpenChange (open : bool) (* line 96 *)
  | NewCaptionChange (v : string)     (* line 109 *)
  | NewBodyChange (v : string)        (* line 120 *)
  | ClickCancelAdd                    (* line 128 *)
  | ClickConfirmAdd                   (* line 132 *)
  | EditCaptionChange (v : string)    (* line 145 *)
  | EditBodyChange (v : string)       (* line 150 *)
  | ClickCancelEdit                   (* line 156 *)
  | ClickSave (id : string)           (* line 160 *)
  | ClickToggle (id : string)         (* line 177 *)
  | ClickEdit (task : Task.t)         (* lines 190-194 *)
  | ClickRemove (id : string).        (* line 199 *)

(** The handler each element runs. *)
Definition dispatch (ev : event) : M app unit :=
  match ev with
  | ClickAddTask => setState (setIsAddingTask true)
  | AddDialogOpenChange open => setState (setIsAddingTask open)
  | NewCaptionChange v => setState (setNewTaskCaption v)
  | NewBodyChange v => setState (setNewTaskBody v)
  | ClickCancelAdd => setState (setIsAddingTask false)
  | ClickConfirmAdd => handleAddTask
  | EditCaptionChange v => setState (setEditTaskCaption v)
  | EditBodyChange v => setState (setEditTaskBody v)
  | ClickCancelEdit => setState (setEditingTaskId None)
  | ClickSave id => handleEditTask id
  | ClickToggle id => toggleTaskDone id
  | ClickEdit task =>
      setState (setEditingTaskId (Some (Task.id task))) ;;;
      setState (setEditTaskCaption (Task.caption task)) ;;;
      setState (setEditTaskBody (Task.body task))
  | ClickRemove id => handleDeleteTask id
  end.

(** One event, handled to completion before the next. *)
Inductive ui_step : app -> event -> app -> Prop :=
  | us_dispatch s ev : ui_step s ev (exec (dispatch ev) s).

(** The page after the mount effect, in world [w]. *)
Definition mounted (w : world) : app := exec loadTasks (mk_app initial_ui w).
End Handlers.

(** ** What the handlers do *)

Section Lemmas.
Context `{!TaskCodec} (E : env).

(** The cache shows the stored collection and the store is well-formed. *)
Definition coherent (s : app) : Prop :=
  TaskService.wf E (browser s) ∧ TaskService.stored (browser s) = Some (tasks (view s)).

Lemma svc_run {A} (m : M world A) s r w' :
  m (browser s) = (r, w') -> svc m s = (r, mk_app (view s) w').
Proof. unfold svc. by intros ->. Qed.

(** The map of [handleEditTask] and [toggleTaskDone] on a coherent cache
    is the store's in-place write. *)
Definition replace (id : string) (t : Task.t) (ts : list Task.t) : list Task.t :=
  (fun task => if decide (Task.id task = id) then t else task) <$> ts.

Lemma handleAddTask_blank s :
  trim (newTaskCaption (view s)) = EmptyString -> handleAddTask E s = (Ok tt, s).
Proof. intros Hb. unfold handleAddTask, bind, render. by rewrite decide_True. Qed.

Lemma handleAddTask_eq s ts :
  trim (newTaskCaption (view s)) ≠ EmptyString -> TaskService.stored (browser s) = Some ts ->
  let d := Task.mk_draft (newTaskCaption (view s)) (newTaskBody (view s)) false in
  let t := TaskService.new_task E d (browser s) in
  handleAddTask E s =
    (Ok tt, mk_app (setIsAddingTask false (setNewTaskBody EmptyString (setNewTaskCaption EmptyString
                      (setTasks (tasks (view s) ++ [t]) (view s)))))
                   (TaskService.write (ts ++ [t]) (tick (tick (draw (browser s)))))).
Proof.
  intros Hb Hs d t. unfold handleAddTask, bind at 1, render. rewrite decide_False by done.
  unfold bind. by rewrite (svc_run _ _ _ _ (TaskService.addTask_eq E _ _ ts Hs)).
Qed.
Lemma handleEditTask_blank s id :
  trim (editTaskCaption (view s)) = EmptyString -> handleEditTask E id s = (Ok tt, s).
Proof. intros Hb. unfold handleEditTask, bind, render. by rewrite decide_True. Qed.

Lemma handleEditTask_eq s id ts i old :
  trim (editTaskCaption (view s)) ≠ EmptyString -> TaskService.stored (browser s) = Some ts ->
  list_find (fun t => Task.id t = id) ts = Some (i, old) ->
  let t := TaskService.updated E old (edit_patch (editTaskCaption (view s)) (editTaskBody (view s)))
                                     (browser s) in
  handleEditTask E id s =
    (Ok tt, mk_app (setEditingTaskId None (setTasks (replace id t (tasks (view s))) (view s)))
                   (TaskService.write (<[i := t]> ts) (tick (browser s)))).
Proof.
  intros Hb Hs Hf t. unfold handleEditTask, bind at 1, render. rewrite decide_False by done.
  unfold bind. by rewrite (svc_run _ _ _ _ (TaskService.updateTask_found E _ _ _ ts i old Hs Hf)).
Qed.

Lemma handleEditTask_absent s id ts :
  trim (editTaskCaption (view s)) ≠ EmptyString -> TaskService.stored (browser s) = Some ts ->
  Forall (fun t => Task.id t ≠ id) ts ->
  handleEditTask E id s = (Throw "Task not found"%string, s).
Proof.
  intros Hb Hs Hf. unfold handleEditTask, bind at 1, render. rewrite decide_False by done.
  unfold bind. rewrite (svc_run _ _ _ _ (TaskService.updateTask_absent E _ _ _ ts Hs Hf)).
  by destruct s.
Qed.

Lemma toggleTaskDone_eq s id i task :
  TaskService.stored (browser s) = Some (tasks (view s)) ->
  list_find (fun t => Task.id t = id) (tasks (view s)) = Some (i, task) ->
  let t := TaskService.updated E task (toggle_patch task) (browser s) in
  toggleTaskDone E id s =
    (Ok tt, mk_app (setTasks (replace id t (tasks (view s))) (view s))
                   (TaskService.write (<[i := t]> (tasks (view s))) (tick (browser s)))).
Proof.
  intros Hs Hf t. unfold toggleTaskDone, bind at 1, render. rewrite Hf. simpl.
  unfold bind. by rewrite (svc_run _ _ _ _ (TaskService.updateTask_found E _ _ _ _ i task Hs Hf)).
Qed.

(** On a cache that may be older than the store: the task is taken from
    the cache, the stored task with its id is updated. *)
Lemma toggleTaskDone_store s id j task ts i old :
  list_find (fun t => Task.id t = id) (tasks (view s)) = Some (j, task) ->
  TaskService.stored (browser s) = Some ts -> list_find (fun t => Task.id t = id) ts = Some (i, old) ->
  let t := TaskService.updated E old (toggle_patch task) (browser s) in
  toggleTaskDone E id s =
    (Ok tt, mk_app (setTasks (replace id t (tasks (view s))) (view s))
                   (TaskService.write (<[i := t]> ts) (tick (browser s)))).
Proof.
  intros Hf Hs Hf' t. unfold toggleTaskDone, bind at 1, render. rewrite Hf. simpl.
  unfold bind. by rewrite (svc_run _ _ _ _ (TaskService.updateTask_found E _ _ _ _ i old Hs Hf')).
Qed.

Lemma toggleTaskDone_store_absent s id j task ts :
  list_find (fun t => Task.id t = id) (tasks (view s)) = Some (j, task) ->
  TaskService.stored (browser s) = Some ts -> Forall (fun t => Task.id t ≠ id) ts ->
  toggleTaskDone E id s = (Throw "Task not found"%string, s).
Proof.
  intros Hf Hs Hn. unfold toggleTaskDone, bind at 1, render. rewrite Hf. simpl.
  unfold bind. rewrite (svc_run _ _ _ _ (TaskService.updateTask_absent E _ _ _ ts Hs Hn)). by destruct s.
Qed.

Lemma toggleTaskDone_absent s id :
  list_find (fun t => Task.id t = id) (tasks (view s)) = None -> toggleTaskDone E id s = (Ok tt, s).
Proof. intros Hf. unfold toggleTaskDone, bind, render. by rewrite Hf. Qed.

Lemma handleDeleteTask_eq s id ts :
  TaskService.stored (browser s) = Some ts ->
  handleDeleteTask id s =
    (Ok tt, mk_app (setTasks (filter (fun t => Task.id t ≠ id) (tasks (view s))) (view s))
                   (TaskService.write (filter (fun t => Task.id t ≠ id) ts) (browser s))).
Proof.
  intros Hs. unfold handleDeleteTask, bind at 1, render.
  unfold bind. by rewrite (svc_run _ _ _ _ (TaskService.deleteTask_eq _ _ ts Hs)).
Qed.
(** On a coherent cache the ids are distinct, and the map by id is the
    store's in-place write. *)
Lemma replace_coherent s id i old t :
  coherent s -> list_find (fun t => Task.id t = id) (tasks (view s)) = Some (i, old) ->
  replace id t (tasks (view s)) = <[i := t]> (tasks (view s)).
Proof.
  intros [(ts & Hs' & Hnd & _) Hs] Hf. rewrite Hs in Hs'. injection Hs' as <-.
  symmetry. by eapply insert_as_replace.
Qed.
End Lemmas.

(** ** The cache stays the stored collection *)

Section Coherence.
Context `{!TaskCodec} (E : env).
Hypothesis Hclock : clock_monotone E.
Hypothesis Huuid : uuid_injective E.

Lemma coherent_view s v : tasks v = tasks (view s) -> coherent E s -> coherent E (mk_app v (browser s)).
Proof. unfold coherent. simpl. by intros ->. Qed.

Lemma coherent_update s id u i old v :
  coherent E s -> list_find (fun t => Task.id t = id) (tasks (view s)) = Some (i, old) ->
  TaskService.keeps_identity old u ->
  tasks v = replace id (TaskService.updated E old u (browser s)) (tasks (view s)) ->
  coherent E (mk_app v (TaskService.write (<[i := TaskService.updated E old u (browser s)]> (tasks (view s)))
                                          (tick (browser s)))).
Proof.
  intros [Hw Hs] Hf Hk Hv. split; simpl.
  - pose proof (TaskService.wf_update E id u _ _ i old Hclock Hw Hs Hf Hk) as Hw'.
    unfold exec in Hw'. by rewrite (TaskService.updateTask_found E id u _ _ i old Hs Hf) in Hw'.
  - rewrite TaskService.stored_write, Hv. by erewrite replace_coherent.
Qed.

Lemma edit_keeps_identity old c b : TaskService.keeps_identity old (edit_patch c b).
Proof. done. Qed.

Lemma toggle_keeps_identity old : TaskService.keeps_identity old (toggle_patch old).
Proof. done. Qed.

Lemma coherent_add s :
  coherent E s -> coherent E (exec (handleAddTask E) s).
Proof.
  intros [Hw Hs]. destruct (decide (trim (newTaskCaption (view s)) = EmptyString)) as [Hb|Hb].
  - unfold exec. by rewrite handleAddTask_blank.
  - unfold exec. rewrite (handleAddTask_eq E s _ Hb Hs). split; simpl.
    + pose proof (TaskService.wf_add E (Task.mk_draft (newTaskCaption (view s)) (newTaskBody (view s)) false)
                                    _ Hclock Huuid Hw) as Hw'. unfold exec in Hw'.
      by rewrite (TaskService.addTask_eq E _ _ _ Hs) in Hw'.
    + apply TaskService.stored_write.
Qed.

Lemma coherent_edit s id :
  coherent E s -> coherent E (exec (handleEditTask E id) s).
Proof.
  intros Hc. pose proof Hc as [Hw Hs]. unfold exec.
  destruct (decide (trim (editTaskCaption (view s)) = EmptyString)) as [Hb|Hb].
  { by rewrite handleEditTask_blank. }
  destruct (list_find (fun t => Task.id t = id) (tasks (view s))) as [[i old]|] eqn:Hf.
  - rewrite (handleEditTask_eq E s id _ i old Hb Hs Hf).
    by eapply coherent_update; [done|done|apply edit_keeps_identity|].
  - apply list_find_None in Hf. by rewrite (handleEditTask_absent E s id _ Hb Hs Hf).
Qed.
Lemma coherent_toggle s id :
  coherent E s -> coherent E (exec (toggleTaskDone E id) s).
Proof.
  intros Hc. pose proof Hc as [Hw Hs]. unfold exec.
  destruct (list_find (fun t => Task.id t = id) (tasks (view s))) as [[i task]|] eqn:Hf.
  - rewrite (toggleTaskDone_eq E s id i task Hs Hf).
    by eapply coherent_update; [done|done|apply toggle_keeps_identity|].
  - by rewrite toggleTaskDone_absent.
Qed.

Lemma coherent_delete s id :
  coherent E s -> coherent E (exec (handleDeleteTask id) s).
Proof.
  intros [Hw Hs]. unfold exec. rewrite (handleDeleteTask_eq s id _ Hs). split; simpl.
  - pose proof (TaskService.wf_delete E id _ Hw) as Hw'. unfold exec in Hw'.
    by rewrite (TaskService.deleteTask_eq id _ _ Hs) in Hw'.
  - apply TaskService.stored_write.
Qed.

(** Every event keeps the cache coherent. *)
Lemma coherent_dispatch s ev :
  coherent E s -> coherent E (exec (dispatch E ev) s).
Proof.
  intros Hc. destruct ev; simpl; try (by apply coherent_view).
  - by apply coherent_add.
  - by apply coherent_edit.
  - by apply coherent_toggle.
  - by apply coherent_delete.
Qed.

Lemma coherent_mounted w : TaskService.wf E w -> coherent E (mounted w).
Proof.
  intros Hw. pose proof Hw as (ts & Hs & _). unfold mounted, exec, loadTasks, bind, TaskService.getTasks.
  rewrite (svc_run _ (mk_app initial_ui w) _ _ (TaskService.get_ok w ts Hs)). by split.
Qed.
Lemma mounted_browser w : browser (mounted w) = w.
Proof.
  unfold mounted, exec, loadTasks, bind, TaskService.getTasks.
  rewrite (svc_run _ (mk_app initial_ui w) _ _ (TaskService.getTasksFromStorage_stored w)).
  by destruct (TaskService.stored w).
Qed.

Lemma coherent_steps s evs s' :
  coherent E s -> steps (ui_step E) s evs s' -> coherent E s'.
Proof.
  intros Hc Hst. induction Hst as [|s1 ev s2 evs s3 Hs _ IH]; [done|].
  apply IH. destruct Hs. by apply coherent_dispatch.
Qed.
(** Each event is a sequence of the store calls of [client_step]. *)
Lemma dispatch_client_rtc s ev :
  coherent E s -> rtc (TaskService.client_step E) (browser s) (browser (exec (dispatch E ev) s)).
Proof.
  intros [Hw Hs]. destruct ev; simpl; try apply rtc_refl.
  - destruct (decide (trim (newTaskCaption (view s)) = EmptyString)) as [Hb|Hb].
    { unfold exec. rewrite handleAddTask_blank by done. apply rtc_refl. }
    unfold exec. rewrite (handleAddTask_eq E s _ Hb Hs). apply rtc_once.
    pose proof (TaskService.cs_add E (Task.mk_draft (newTaskCaption (view s)) (newTaskBody (view s)) false)
                                   (browser s)) as Hst.
    unfold exec in Hst. by rewrite (TaskService.addTask_eq E _ _ _ Hs) in Hst.
  - destruct (decide (trim (editTaskCaption (view s)) = EmptyString)) as [Hb|Hb].
    { unfold exec. rewrite handleEditTask_blank by done. apply rtc_refl. }
    destruct (list_find (fun t => Task.id t = id) (tasks (view s))) as [[i old]|] eqn:Hf.
    + unfold exec. rewrite (handleEditTask_eq E s id _ i old Hb Hs Hf). apply rtc_once.
      pose proof (TaskService.cs_update E id (edit_patch (editTaskCaption (view s)) (editTaskBody (view s)))
                                        (browser s) (fun _ _ old' _ _ => edit_keeps_identity old' _ _)) as Hst.
      unfold exec in Hst. by rewrite (TaskService.updateTask_found E _ _ _ _ i old Hs Hf) in Hst.
    + apply list_find_None in Hf. unfold exec.
      rewrite (handleEditTask_absent E s id _ Hb Hs Hf). apply rtc_refl.
  - destruct (list_find (fun t => Task.id t = id) (tasks (view s))) as [[i task]|] eqn:Hf.
    + unfold exec. rewrite (toggleTaskDone_eq E s id i task Hs Hf). apply rtc_once.
      assert (Hk : ∀ ts i' old', TaskService.stored (browser s) = Some ts ->
                    list_find (fun t => Task.id t = id) ts = Some (i', old') ->
                    TaskService.keeps_identity old' (toggle_patch task)).
      { intros ts i' old' Hs' Hf'. rewrite Hs in Hs'. injection Hs' as <-.
        rewrite Hf in Hf'. injection Hf' as _ <-. apply toggle_keeps_identity. }
      pose proof (TaskService.cs_update E id (toggle_patch task) (browser s) Hk) as Hst.
      unfold exec in Hst. by rewrite (TaskService.updateTask_found E _ _ _ _ i task Hs Hf) in Hst.
    + unfold exec. rewrite toggleTaskDone_absent by done. apply rtc_refl.
  - unfold exec. rewrite (handleDeleteTask_eq s id _ Hs). apply rtc_once.
    pose proof (TaskService.cs_delete E id (browser s)) as Hst.
    unfold exec in Hst. by rewrite (TaskService.deleteTask_eq id _ _ Hs) in Hst.
Qed.
End Coherence.

(** ** Properties of the task page *)

Section Properties.
Context `{!TaskCodec} (E : env).

(** C7: from the page as mounted on a well-formed store, with a monotone
    clock and distinct UUIDs, after any sequence of events the cached
    [tasks] is exactly the stored collection and the store is well-formed. *)
Theorem coherent_reachable w0 evs s :
  clock_monotone E -> uuid_injective E -> TaskService.wf E w0 ->
  steps (ui_step E) (mounted w0) evs s -> coherent E s.
Proof.
  intros Hc Hu Hw Hst. eapply coherent_steps; [done|done| |exact Hst].
  by apply coherent_mounted.
Qed.
(** The page is a client of the store as [TaskService.client_step]
    describes it: from a coherent page, each event changes the world by at
    most one read, add, delete, or update that keeps the task's id and
    creation time. *)
Theorem dispatch_refines_client s ev :
  coherent E s -> rtc (TaskService.client_step E) (browser s) (browser (exec (dispatch E ev) s)).
Proof. apply dispatch_client_rtc. Qed.
(** C28: [handleAddTask] does nothing when the caption is blank (only
    white space, [!newTaskCaption.trim()]); otherwise it appends to the
    cache and to the store the same new task, with the caption and body
    typed and [done] false, clears both inputs and closes the dialog. *)
Theorem handleAddTask_spec s :
  TaskService.stored (browser s) = Some (tasks (view s)) ->
  (all_space (newTaskCaption (view s)) -> handleAddTask E s = (Ok tt, s)) ∧
  (¬ all_space (newTaskCaption (view s)) ->
   ∃ t s', handleAddTask E s = (Ok tt, s') ∧
     tasks (view s') = tasks (view s) ++ [t] ∧
     TaskService.stored (browser s') = Some (tasks (view s')) ∧
     Task.caption t = newTaskCaption (view s) ∧ Task.body t = newTaskBody (view s) ∧
     Task.done t = false ∧ newTaskCaption (view s') = EmptyString ∧
     newTaskBody (view s') = EmptyString ∧ isAddingTask (view s') = false).
Proof.
  intros Hs. split; intros Hb.
  - by apply handleAddTask_blank, trim_empty.
  - rewrite <- trim_empty in Hb. rewrite (handleAddTask_eq E s _ Hb Hs).
    eexists _, _. split_and!; [done|done|apply TaskService.stored_write|done..].
Qed.

(** C29: on a coherent page, toggling a cached task writes it back in
    place in both the cache and the store with [done] negated and its id,
    caption, body and creation time kept. *)
Theorem toggleTaskDone_spec s id i task :
  coherent E s -> list_find (fun t => Task.id t = id) (tasks (view s)) = Some (i, task) ->
  ∃ t s', toggleTaskDone E id s = (Ok tt, s') ∧
    tasks (view s') = <[i := t]> (tasks (view s)) ∧
    TaskService.stored (browser s') = Some (tasks (view s')) ∧
    Task.done t = negb (Task.done task) ∧ Task.id t = Task.id task ∧
    Task.caption t = Task.caption task ∧ Task.body t = Task.body task ∧
    Task.createdAt t = Task.createdAt task.
Proof.
  intros Hc Hf. pose proof Hc as [Hw Hs]. rewrite (toggleTaskDone_eq E s id i task Hs Hf).
  eexists _, _. simpl. rewrite (replace_coherent E s id i task _ Hc Hf).
  split_and!; [done|done|apply TaskService.stored_write|done..].
Qed.

(** C30: saving an edit with a non-blank caption on a coherent page writes
    the typed caption and body into the task in place, in the cache and in
    the store, keeps its id and done flag, and leaves edit mode; for an id
    that is not stored it throws [Task not found] and changes nothing, edit
    mode included. *)
Theorem handleEditTask_spec s id :
  coherent E s -> ¬ all_space (editTaskCaption (view s)) ->
  (∀ i old, list_find (fun t => Task.id t = id) (tasks (view s)) = Some (i, old) ->
   ∃ t s', handleEditTask E id s = (Ok tt, s') ∧
     tasks (view s') = <[i := t]> (tasks (view s)) ∧
     TaskService.stored (browser s') = Some (tasks (view s')) ∧
     Task.caption t = editTaskCaption (view s) ∧ Task.body t = editTaskBody (view s) ∧
     Task.id t = Task.id old ∧ Task.done t = Task.done old ∧ editingTaskId (view s') = None) ∧
  (id ∉ Task.id <$> tasks (view s) -> handleEditTask E id s = (Throw "Task not found"%string, s)).
Proof.
  intros Hc Hb. pose proof Hc as [Hw Hs]. rewrite <- trim_empty in Hb. split.
  - intros i old Hf. rewrite (handleEditTask_eq E s id _ i old Hb Hs Hf).
    eexists _, _. simpl. rewrite (replace_coherent E s id i old _ Hc Hf).
    split_and!; [done|done|apply TaskService.stored_write|done..].
  - intros Hn. apply (handleEditTask_absent E s id _ Hb Hs).
    apply Forall_forall. intros t Ht <-. apply Hn. by apply list_elem_of_fmap_2.
Qed.
End Properties.

(** ** Witnesses, with the JSON codec *)

Definition page_milk : app := mounted TaskService.w_milk.

Lemma wf_w_milk : TaskService.wf demo_env TaskService.w_milk.
Proof.
  apply TaskService.wf_add; [apply demo_clock_monotone|apply demo_uuid_injective|].
  by apply TaskService.wf_empty.
Qed.

Lemma coherent_page_milk : coherent demo_env page_milk.
Proof. apply coherent_mounted, wf_w_milk. Qed.

Lemma dispatch_refines_client_witness :
  coherent demo_env page_milk ∧
  rtc (TaskService.client_step demo_env) (browser page_milk)
      (browser (exec (dispatch demo_env (ClickToggle "u"%string)) page_milk)).
Proof.
  split; [apply coherent_page_milk|].
  apply (dispatch_refines_client demo_env page_milk). apply coherent_page_milk.
Defined.

Definition page_typed : app := exec (dispatch demo_env (NewCaptionChange "Tea"%string)) (mounted empty_world).
Definition page_tea : app := exec (dispatch demo_env ClickConfirmAdd) page_typed.

Lemma coherent_reachable_witness :
  clock_monotone demo_env ∧ uuid_injective demo_env ∧ TaskService.wf demo_env empty_world ∧
  steps (ui_step demo_env) (mounted empty_world) [NewCaptionChange "Tea"%string; ClickConfirmAdd] page_tea ∧
  coherent demo_env page_tea.
Proof.
  assert (Hst : steps (ui_step demo_env) (mounted empty_world)
                      [NewCaptionChange "Tea"%string; ClickConfirmAdd] page_tea).
  { econstructor; [constructor|]. econstructor; [constructor|]. constructor. }
  split_and!; [apply demo_clock_monotone|apply demo_uuid_injective|by apply TaskService.wf_empty|exact Hst|].
  apply (coherent_reachable demo_env empty_world [NewCaptionChange "Tea"%string; ClickConfirmAdd] page_tea
           demo_clock_monotone demo_uuid_injective); [|exact Hst].
  by apply TaskService.wf_empty.
Defined.

Lemma handleAddTask_spec_witness :
  TaskService.stored (browser page_typed) = Some (tasks (view page_typed)) ∧
  ¬ all_space (newTaskCaption (view page_typed)) ∧
  ∃ t s', handleAddTask demo_env page_typed = (Ok tt, s') ∧ tasks (view s') = [t] ∧
          Task.caption t = "Tea"%string.
Proof.
  assert (Hs : TaskService.stored (browser page_typed) = Some (tasks (view page_typed))) by reflexivity.
  assert (Hb : ¬ all_space (newTaskCaption (view page_typed))) by (apply (bool_decide_unpack _); vm_compute; reflexivity).
  split_and!; [exact Hs|exact Hb|].
  destruct (proj2 (handleAddTask_spec demo_env page_typed Hs) Hb) as (t & s' & Hrun & Hts & _ & Hcap & _).
  exists t, s'. split_and!; [exact Hrun|exact Hts|exact Hcap].
Defined.

Lemma toggleTaskDone_spec_witness :
  coherent demo_env page_milk ∧
  list_find (fun t => Task.id t = "u"%string) (tasks (view page_milk)) = Some (0, TaskService.milk_task) ∧
  ∃ t s', toggleTaskDone demo_env "u"%string page_milk = (Ok tt, s') ∧
          tasks (view s') = [t] ∧ Task.done t = true.
Proof.
  assert (Hf : list_find (fun t => Task.id t = "u"%string) (tasks (view page_milk))
               = Some (0, TaskService.milk_task)) by (vm_compute; reflexivity).
  split_and!; [apply coherent_page_milk|exact Hf|].
  destruct (toggleTaskDone_spec demo_env page_milk _ _ _ coherent_page_milk Hf)
    as (t & s' & Hrun & Hts & _ & Hd & _).
  exists t, s'. split_and!; [exact Hrun|exact Hts|exact Hd].
Defined.

Definition page_editing : app :=
  exec (dispatch demo_env (EditCaptionChange "Buy oat milk"%string))
       (exec (dispatch demo_env (ClickEdit TaskService.milk_task)) page_milk).

Lemma handleEditTask_spec_witness :
  coherent demo_env page_editing ∧ ¬ all_space (editTaskCaption (view page_editing)) ∧
  ∃ t s', handleEditTask demo_env "u"%string page_editing = (Ok tt, s') ∧
          tasks (view s') = [t] ∧ Task.caption t = "Buy oat milk"%string ∧
          editingTaskId (view s') = None.
Proof.
  assert (Hc : coherent demo_env page_editing).
  { apply (coherent_dispatch demo_env demo_clock_monotone demo_uuid_injective).
    apply (coherent_dispatch demo_env demo_clock_monotone demo_uuid_injective).
    apply coherent_page_milk. }
  assert (Hb : ¬ all_space (editTaskCaption (view page_editing))) by (apply (bool_decide_unpack _); vm_compute; reflexivity).
  assert (Hf : list_find (fun t => Task.id t = "u"%string) (tasks (view page_editing))
               = Some (0, TaskService.milk_task)) by (vm_compute; reflexivity).
  split_and!; [exact Hc|exact Hb|].
  destruct (proj1 (handleEditTask_spec demo_env page_editing _ Hc Hb) _ _ Hf)
    as (t & s' & Hrun & Hts & _ & Hcap & _ & _ & _ & Hed).
  exists t, s'. split_and!; [exact Hrun|exact Hts|exact Hcap|exact Hed].
Defined.

End TaskList.
