(* ===== verification/TaskListView.v ===== *)
(** * TaskListView: what the task page renders, and what the user can do.

    The JSX of src/list/src/components/TaskList.tsx (lines 83-219) as a
    value: the add dialog (open flag and its two inputs) and one card per
    cached task, keyed by the task's id.  A card shows either the edit
    form, when [editingTaskId === task.id], or the title with its menu and
    the body below it.  [offers u ev] says whether the element that fires
    [ev] is on the page rendered from [u] and takes events: while the
    modal add dialog is open, only its own elements do.  [offered_step]
    is a [TaskList.ui_step] restricted to such events.

    The theorems show that the React keys of the cards are distinct on
    every reachable page and at most one card is in edit mode, and that
    from any coherent page the user can edit any task to any non-blank
    caption by clicking what the page offers. *)

From S2P Require Import Prelude Task Platform TaskService TaskList.

Module TaskListView.
Import TaskList.

(** ** The rendered page *)

(** The header of a card: the edit form (lines 142-164), with the two
    inputs bound to [editTaskCaption] and [editTaskBody], or the title,
    struck through when done, and the menu whose first item toggles
    (lines 166-207). *)
Inductive header : Type :=
  | EditForm (caption body : string)
  | TitleMenu (caption : string) (struck : bool) (toggle : string).

(** A card (lines 139-217): its React key, the grey background of a done
    task, its header, and the body paragraph, shown unless the card is in
    edit mode (lines 210-216), struck through when done. *)
Record card : Type := mk_card {
  card_key : string;
  card_gray : bool;
  card_header : header;
  card_body : option (string * bool)
}.

(** The page: the dialog (lines 96-135) and the grid of cards. *)
Record page : Type := mk_page {
  dialog_open : bool;
  dialog_caption : string;
  dialog_body : string;
  cards : list card
}.

(** The label of the toggle item (lines 178-188). *)
Definition toggle_label (done : bool) : string :=
  if done then "Mark as Undone"%string else "Mark as Done"%string.

(** [editingTaskId === task.id]; [null] equals no id. *)
Definition editing (u : ui) (task : Task.t) : bool :=
  bool_decide (editingTaskId u = Some (Task.id task)).

Definition render_card (u : ui) (task : Task.t) : card :=
  mk_card (Task.id task) (Task.done task)
    (if editing u task then EditForm (editTaskCaption u) (editTaskBody u)
     else TitleMenu (Task.caption task) (Task.done task) (toggle_label (Task.done task)))
    (if editing u task then None else Some (Task.body task, Task.done task)).

Definition render_page (u : ui) : page :=
  mk_page (isAddingTask u) (newTaskCaption u) (newTaskBody u) (render_card u <$> tasks u).

Definition is_edit (c : card) : bool :=
  match card_header c with EditForm _ _ => true | TitleMenu _ _ _ => false end.

(** The elements of the add dialog (lines 96-135).  The dialog only ever
    asks to close ([onOpenChange(false)]: Escape, a click on the overlay,
    its close button): no trigger of it opens it. *)
Definition dialog_event (ev : event) : bool :=
  match ev with
  | AddDialogOpenChange false | NewCaptionChange _ | NewBodyChange _
  | ClickCancelAdd | ClickConfirmAdd => true
  | _ => false
  end.

(** The elements of the page behind the dialog: the Add Task button
    (lines 87-93); the edit form's inputs and buttons on a card in edit
    mode (lines 142-164); the menu items on a card that is not (lines
    166-207). *)
Definition page_event (u : ui) (ev : event) : bool :=
  match ev with
  | ClickAddTask => true
  | EditCaptionChange _ | EditBodyChange _ | ClickCancelEdit => existsb (editing u) (tasks u)
  | ClickSave id => existsb (fun t => editing u t && bool_decide (Task.id t = id)) (tasks u)
  | ClickToggle id | ClickRemove id =>
      existsb (fun t => negb (editing u t) && bool_decide (Task.id t = id)) (tasks u)
  | ClickEdit task => existsb (fun t => negb (editing u t) && bool_decide (t = task)) (tasks u)
  | _ => false
  end.

(** The element that fires the event is on the page and can be reached:
    the dialog is modal (Radix's [Dialog], [modal] by default), so while
    it is open only its own elements take events, and while it is closed
    they are not rendered. *)
Definition offers (u : ui) (ev : event) : bool :=
  if isAddingTask u then dialog_event ev else page_event u ev.

Section Steps.
Context `{!TaskCodec} (E : env).

(** One event fired by an element of the rendered page. *)
Inductive offered_step : app -> event -> app -> Prop :=
  | os_dispatch s ev : offers (view s) ev = true -> offered_step s ev (exec (dispatch E ev) s).
End Steps.

(** ** Lemmas *)

Lemma existsb_elem {A} (f : A -> bool) l x : x ∈ l -> f x = true -> existsb f l = true.
Proof. intros Hx Hf. apply existsb_exists. exists x. by rewrite <- list_elem_of_In. Qed.

Lemma card_keys u : card_key <$> cards (render_page u) = Task.id <$> tasks u.
Proof. simpl. rewrite <- list_fmap_compose. by apply list_fmap_ext. Qed.

Lemma is_edit_render u t : is_edit (render_card u t) = editing u t.
Proof. unfold is_edit, render_card. by destruct (editing u t). Qed.

(** With distinct ids at most one card shows the edit form. *)
Lemma edit_cards_length u ts :
  NoDup (Task.id <$> ts) -> length (filter (fun c => is_edit c = true) (render_card u <$> ts)) <= 1.
Proof.
  intros Hnd. destruct (editingTaskId u) as [k|] eqn:He.
  - etransitivity; [|exact (NoDup_key_filter_length Task.id ts k Hnd)]. clear Hnd.
    induction ts as [|t ts IH]; [done|]. rewrite fmap_cons, !filter_cons.
    pose proof (is_edit_render u t) as Hr. unfold editing in Hr. rewrite He in Hr.
    repeat case_decide; case_bool_decide; simpl; try congruence; lia.
  - assert (Hn : filter (fun c => is_edit c = true) (render_card u <$> ts) = []).
    { clear Hnd. induction ts as [|t ts IH]; [done|]. rewrite fmap_cons, filter_cons. case_decide as Hk; [|apply IH].
      exfalso. cbv beta in Hk. rewrite is_edit_render in Hk. unfold editing in Hk.
      by rewrite He, bool_decide_false in Hk. }
    rewrite Hn. simpl. lia.
Qed.

Lemma offered_steps_ui `{!TaskCodec} E s evs s' :
  steps (offered_step E) s evs s' -> steps (ui_step E) s evs s'.
Proof. induction 1 as [|s1 ev s2 evs s3 [] _ IH]; econstructor; [constructor|done..]. Qed.

Section Edit.
Context `{!TaskCodec} (E : env).
Hypothesis Hclock : clock_monotone E.
Hypothesis Huuid : uuid_injective E.

(** Cancel closes the add dialog if it is open; the cache and the edit
    state stay. *)
Lemma close_dialog s :
  coherent E s -> ∃ evs s1, steps (offered_step E) s evs s1 ∧ coherent E s1 ∧
    tasks (view s1) = tasks (view s) ∧ editingTaskId (view s1) = editingTaskId (view s) ∧
    isAddingTask (view s1) = false.
Proof.
  intros Hc. destruct (isAddingTask (view s)) eqn:Ha.
  - exists [ClickCancelAdd], (exec (dispatch E ClickCancelAdd) s). split_and!; [|by apply coherent_view|done..].
    econstructor; [constructor; unfold offers; by rewrite Ha|constructor].
  - exists [], s. split_and!; [constructor|done..].
Qed.

(** Then Cancel closes the edit form if a card shows it. *)
Lemma close_edit s :
  coherent E s -> isAddingTask (view s) = false ->
  ∃ evs s0, steps (offered_step E) s evs s0 ∧ coherent E s0 ∧ tasks (view s0) = tasks (view s) ∧
    isAddingTask (view s0) = false ∧ existsb (editing (view s0)) (tasks (view s0)) = false.
Proof.
  intros Hc Ha. destruct (existsb (editing (view s)) (tasks (view s))) eqn:Hx.
  - exists [ClickCancelEdit], (exec (dispatch E ClickCancelEdit) s). split_and!; [|by apply coherent_view|done..|].
    + econstructor; [constructor; unfold offers; by rewrite Ha|constructor].
    + apply not_true_iff_false. rewrite existsb_exists. intros (t & _ & Ht).
      unfold editing in Ht. simpl in Ht. discriminate.
  - exists [], s. split_and!; [constructor|done..].
Qed.

(** Clicking Edit on a card that is not in edit mode, typing a caption and
    clicking Save, with the dialog closed. *)
Lemma edit_from_idle s i task c :
  coherent E s -> tasks (view s) !! i = Some task -> editing (view s) task = false ->
  isAddingTask (view s) = false -> ¬ all_space c ->
  ∃ s', steps (offered_step E) s [ClickEdit task; EditCaptionChange c; ClickSave (Task.id task)] s' ∧
    coherent E s' ∧ editingTaskId (view s') = None ∧
    tasks (view s') = <[i := TaskService.updated E task (edit_patch c (Task.body task)) (browser s)]>
                        (tasks (view s)).
Proof.
  intros Hc Hi He Ha Hb. pose proof Hc as [(ts & Hs & Hnd & _) Hs']. rewrite Hs in Hs'. injection Hs' as ->.
  set (s2 := exec (dispatch E (EditCaptionChange c)) (exec (dispatch E (ClickEdit task)) s)).
  assert (Hc2 : coherent E s2) by (by do 2 apply (coherent_dispatch E Hclock Huuid)).
  assert (Hf : list_find (fun t => Task.id t = Task.id task) (tasks (view s2)) = Some (i, task))
    by (by apply NoDup_key_find).
  rewrite <- trim_empty in Hb.
  exists (exec (dispatch E (ClickSave (Task.id task))) s2). split_and!.
  - assert (Hin : task ∈ tasks (view s)) by (by eapply list_elem_of_lookup_2).
    econstructor; [constructor|]. { unfold offers. simpl. rewrite Ha. apply (existsb_elem _ _ task Hin). by rewrite He, bool_decide_true. }
    econstructor; [constructor|]. { unfold offers. simpl. rewrite Ha. apply (existsb_elem _ _ task Hin). by apply bool_decide_true. }
    econstructor; [constructor|constructor]. unfold offers. simpl. rewrite Ha. apply (existsb_elem _ _ task Hin).
    unfold editing. by rewrite !bool_decide_true.
  - by apply (coherent_dispatch E Hclock Huuid).
  - simpl. unfold exec. by rewrite (handleEditTask_eq E s2 _ _ i task Hb Hs Hf).
  - simpl. unfold exec. rewrite (handleEditTask_eq E s2 _ _ i task Hb Hs Hf). simpl.
    by rewrite (replace_coherent E s2 _ i task _ Hc2 Hf).
Qed.
(** The same after a run that closed the dialog and the edit form and
    left the cache as it was; the task's card then shows the new title. *)
Lemma edit_after s s0 evs0 i task c :
  coherent E s0 -> tasks (view s0) !! i = Some task -> existsb (editing (view s0)) (tasks (view s0)) = false ->
  isAddingTask (view s0) = false -> ¬ all_space c -> steps (offered_step E) s evs0 s0 ->
  ∃ evs s' t, steps (offered_step E) s evs s' ∧ coherent E s' ∧
    tasks (view s') = <[i := t]> (tasks (view s0)) ∧ Task.id t = Task.id task ∧
    Task.caption t = c ∧ Task.body t = Task.body task ∧ Task.done t = Task.done task ∧
    cards (render_page (view s')) !! i =
      Some (mk_card (Task.id task) (Task.done task)
                    (TitleMenu c (Task.done task) (toggle_label (Task.done task)))
                    (Some (Task.body task, Task.done task))).
Proof.
  intros Hc0 Hi Hx Ha Hb Hst0.
  assert (He0 : editing (view s0) task = false).
  { destruct (editing (view s0) task) eqn:Het; [|done].
    rewrite (existsb_elem _ _ task) in Hx; [done|by eapply list_elem_of_lookup_2|done]. }
  destruct (edit_from_idle s0 i task c Hc0 Hi He0 Ha Hb) as (s' & Hst & Hc' & Hed & Hts).
  eexists (evs0 ++ _), s', _. split_and!; [by eapply steps_app|done|exact Hts|done..|].
  simpl. rewrite Hts, list_lookup_fmap, list_lookup_insert_eq by (by eapply lookup_lt_Some).
  simpl. unfold render_card, editing. by rewrite Hed, bool_decide_false.
Qed.
End Edit.

(** ** Properties of the rendered page *)

Section Properties.
Context `{!TaskCodec} (E : env).

(** C9: on every page reachable from the mounted page on a well-formed
    store (monotone clock, distinct UUIDs), the cards are the stored
    tasks in stored order, their React keys ([key={task.id}]) are
    distinct, and at most one card shows the edit form. *)
Theorem keys_distinct_reachable w0 evs s :
  clock_monotone E -> uuid_injective E -> TaskService.wf E w0 ->
  steps (ui_step E) (mounted w0) evs s ->
  ∃ ts, TaskService.stored (browser s) = Some ts ∧
    card_key <$> cards (render_page (view s)) = Task.id <$> ts ∧
    NoDup (card_key <$> cards (render_page (view s))) ∧
    length (filter (fun c => is_edit c = true) (cards (render_page (view s)))) <= 1.
Proof.
  intros Hc Hu Hw Hst.
  assert (Hco : coherent E s) by (eapply coherent_steps; [done|done|by apply coherent_mounted|exact Hst]).
  destruct Hco as [(ts & Hs & Hnd & _) Hs']. rewrite Hs in Hs'. injection Hs' as ->.
  eexists. rewrite card_keys. split_and!; [done..|]. by apply edit_cards_length.
Qed.

(** C14: liveness of editing: from any coherent page, for any cached task
    and any non-blank caption, there is a run of events each fired by an
    element the page shows and not hidden behind the modal add dialog
    (Cancel on the dialog if it is open, Cancel on an open edit form if
    there is one, then Edit on the task's card, typing the caption, Save) after which
    the page is coherent, the task holds the caption in place, its id,
    body and done flag kept, and its card shows the new title. *)
Theorem edit_task_reachable s i task c :
  clock_monotone E -> uuid_injective E -> coherent E s ->
  tasks (view s) !! i = Some task -> ¬ all_space c ->
  ∃ evs s' t, steps (offered_step E) s evs s' ∧ coherent E s' ∧
    tasks (view s') = <[i := t]> (tasks (view s)) ∧
    Task.id t = Task.id task ∧ Task.caption t = c ∧ Task.body t = Task.body task ∧
    Task.done t = Task.done task ∧
    cards (render_page (view s')) !! i =
      Some (mk_card (Task.id task) (Task.done task)
                    (TitleMenu c (Task.done task) (toggle_label (Task.done task)))
                    (Some (Task.body task, Task.done task))).
Proof.
  intros Hcl Hu Hc Hi Hb.
  destruct (close_dialog E s Hc) as (evs1 & s1 & Hst1 & Hc1 & Ht1 & _ & Ha1).
  destruct (close_edit E s1 Hc1 Ha1) as (evs2 & s0 & Hst2 & Hc0 & Ht0 & Ha0 & Hx0).
  rewrite <- Ht1, <- Ht0 in Hi |- *.
  by apply (edit_after E Hcl Hu s s0 (evs1 ++ evs2) i task c); [..|eapply steps_app].
Qed.
End Properties.

(** ** Witnesses, with the JSON codec *)

Lemma keys_distinct_reachable_witness :
  steps (ui_step demo_env) (mounted empty_world) [NewCaptionChange "Tea"%string; ClickConfirmAdd] page_tea ∧
  ∃ ts, TaskService.stored (browser page_tea) = Some ts ∧
    card_key <$> cards (render_page (view page_tea)) = Task.id <$> ts ∧
    NoDup (card_key <$> cards (render_page (view page_tea))) ∧
    length (filter (fun c => is_edit c = true) (cards (render_page (view page_tea)))) <= 1.
Proof.
  assert (Hst : steps (ui_step demo_env) (mounted empty_world)
                      [NewCaptionChange "Tea"%string; ClickConfirmAdd] page_tea).
  { econstructor; [constructor|]. econstructor; [constructor|]. constructor. }
  split; [exact Hst|].
  exact (keys_distinct_reachable demo_env empty_world _ _ demo_clock_monotone demo_uuid_injective
           (TaskService.wf_empty demo_env empty_world eq_refl) Hst).
Defined.

Lemma edit_task_reachable_witness :
  coherent demo_env page_milk ∧ tasks (view page_milk) !! 0 = Some TaskService.milk_task ∧
  ¬ all_space "Buy oat milk"%string ∧
  ∃ evs s' t, steps (offered_step demo_env) page_milk evs s' ∧ tasks (view s') = [t] ∧
    Task.caption t = "Buy oat milk"%string.
Proof.
  assert (Hi : tasks (view page_milk) !! 0 = Some TaskService.milk_task) by (vm_compute; reflexivity).
  assert (Hb : ¬ all_space "Buy oat milk"%string) by (apply (bool_decide_unpack _); vm_compute; reflexivity).
  split_and!; [apply coherent_page_milk|exact Hi|exact Hb|].
  destruct (edit_task_reachable demo_env page_milk 0 _ _ demo_clock_monotone demo_uuid_injective
              coherent_page_milk Hi Hb) as (evs & s' & t & Hst & _ & Hts & _ & Hcap & _).
  exists evs, s', t. split_and!; [exact Hst| |exact Hcap].
  rewrite Hts. reflexivity.
Defined.

End TaskListView.
