(* ===== verification/RawPage.v ===== *)
(** * RawPage: the task page over the values [getTasks] returns.

    [loadTasks] (src/list/src/components/TaskList.tsx, lines 31-37) puts
    whatever [taskService.getTasks()] returns into the [tasks] state, and
    the page renders it with [tasks.map(task => <Card key={task.id} ...>)]
    (lines 137-218).  RawStore.v shows that the value is an array of task
    objects on every blob the typed store reads; on other blobs it is
    whatever [JSON.parse] made of the text.  This file renders the page
    from such a value, in the two phases React has:

    - the [map] call builds the elements ([render_card_raw]): it reads
      [task.id], [task.done], [task.caption] and [task.body], so a [null]
      element throws a [TypeError], and [tasks.map] on a value that is not
      an array throws one too;
    - React then renders the children [{task.caption}] and [{task.body}]
      ([child]): strings and numbers as text, [null], [undefined] and
      booleans as nothing, arrays element by element, and an object throws
      ("Objects are not valid as a React child").

    The theorems: on every readable blob the page is the page of
    TaskListView.v ([raw_page_refines]); on a blob of valid JSON that is
    not an array, or holds a [null], the page throws at its first render
    after the mount, where the typed model shows an empty list
    ([corrupt_blob_breaks_page]). *)

From S2P Require Import Prelude Json Task Platform TaskService TaskStoreSpec RawStore TaskList TaskListView.
From Stdlib Require Import String.

Module RawPage.
Import Json TaskService TaskList TaskListView.

(** ** Values in JSX *)

(** What React renders for a child value: its text nodes. *)
Fixpoint child_text (v : json) : outcome (list string) :=
  match v with
  | JNull | JBool _ => Ok []
  | JNum n => Ok [print_number n]
  | JStr s => Ok [s]
  | JArr xs =>
      (fix go (l : list json) : outcome (list string) :=
         match l with
         | [] => Ok []
         | x :: l' => match child_text x, go l' with
                      | Ok a, Ok b => Ok (a ++ b)
                      | Throw e, _ | _, Throw e => Throw e
                      end
         end) xs
  | JObj _ => Throw "Error"%string
  end.

(** A child that may be [undefined]. *)
Definition child (v : option json) : outcome (list string) :=
  match v with None => Ok [] | Some v => child_text v end.

(** JavaScript truthiness of a property's value. *)
Definition truthy (v : option json) : bool :=
  match v with
  | None | Some JNull | Some (JBool false) => false
  | Some (JNum n) => bool_decide (n ≠ 0%Z)
  | Some (JStr s) => bool_decide (s ≠ EmptyString)
  | _ => true
  end.

(** [editingTaskId === task.id], [editingTaskId] a string or [null]. *)
Definition strict_eq_id (eid : option string) (v : option json) : bool :=
  match eid, v with
  | None, Some JNull => true
  | Some s, Some (JStr s') => bool_decide (s = s')
  | _, _ => false
  end.

(** A property of a value that is not [null]. *)
Definition read (k : string) (x : json) : option json :=
  match x with JObj fs => TaskJson.field k fs | _ => None end.

(** ** The cards *)

Inductive raw_header : Type :=
  | RawEditForm (caption body : string)
  | RawTitleMenu (title : option json) (done : bool) (label : string).

Record raw_card : Type := mk_raw_card {
  rc_key : option json;
  rc_gray : bool;
  rc_header : raw_header;
  rc_body : option (option json * bool)
}.

Record raw_page : Type := mk_raw_page {
  rp_dialog_open : bool;
  rp_dialog_caption : string;
  rp_dialog_body : string;
  rp_cards : list raw_card
}.

(** The element the [map] callback builds for [task] (lines 139-216). *)
Definition render_card_raw (u : ui) (task : json) : outcome raw_card :=
  match task with
  | JNull => Throw "TypeError"%string
  | _ =>
      let d := truthy (read "done" task) in
      Ok (if strict_eq_id (editingTaskId u) (read "id" task)
          then mk_raw_card (read "id" task) d (RawEditForm (editTaskCaption u) (editTaskBody u)) None
          else mk_raw_card (read "id" task) d (RawTitleMenu (read "caption" task) d (toggle_label d))
                           (Some (read "body" task, d)))
  end.

Fixpoint omap {A B} (f : A -> outcome B) (l : list A) : outcome (list B) :=
  match l with
  | [] => Ok []
  | x :: l' => match f x with
               | Throw e => Throw e
               | Ok y => match omap f l' with Ok ys => Ok (y :: ys) | Throw e => Throw e end
               end
  end.

(** The values a card renders as children. *)
Definition card_children (c : raw_card) : list (option json) :=
  match rc_header c with RawTitleMenu t _ _ => [t] | RawEditForm _ _ => [] end ++
  match rc_body c with Some (b, _) => [b] | None => [] end.

(** The page (lines 83-221): the [map] over the [tasks] state, then
    React's rendering of the children. *)
Definition render_page_raw (tasks : json) (u : ui) : outcome raw_page :=
  match tasks with
  | JArr xs =>
      match omap (render_card_raw u) xs with
      | Throw e => Throw e
      | Ok cs =>
          match omap child (List.concat (card_children <$> cs)) with
          | Throw e => Throw e
          | Ok _ => Ok (mk_raw_page (isAddingTask u) (newTaskCaption u) (newTaskBody u) cs)
          end
      end
  | _ => Throw "TypeError"%string
  end.

(** The [tasks] state after the mount effect: what [getTasks] returned,
    or the initial [[]] when it threw (the rejection is unhandled). *)
Definition mounted_tasks (w : world) : json :=
  match eval RawStore.getTasks w with Ok v => v | Throw _ => JArr [] end.

(** A card of TaskListView.v as a raw card. *)
Definition raw_of_card (c : card) : raw_card :=
  mk_raw_card (Some (JStr (card_key c))) (card_gray c)
    (match card_header c with
     | EditForm cap body => RawEditForm cap body
     | TitleMenu cap d l => RawTitleMenu (Some (JStr cap)) d l
     end)
    ((fun '(b, d) => (Some (JStr b), d)) <$> card_body c).

Definition raw_of_page (p : TaskListView.page) : raw_page :=
  mk_raw_page (dialog_open p) (dialog_caption p) (dialog_body p) (raw_of_card <$> cards p).

(** ** Rendering a related array *)

Lemma omap_Forall2 {A B C} (f : A -> outcome B) (g : C -> B) xs ts :
  Forall2 (fun x t => f x = Ok (g t)) xs ts -> omap f xs = Ok (g <$> ts).
Proof. induction 1 as [|x t xs ts Hx _ IH]; [done|]. cbn [omap]. by rewrite Hx, IH. Qed.

Lemma omap_ok {A B} (f : A -> outcome B) l :
  Forall (fun x => ∃ y, f x = Ok y) l -> ∃ ys, omap f l = Ok ys.
Proof.
  induction 1 as [|x l [y Hy] _ [ys Hys]]; [by exists []|].
  exists (y :: ys). cbn [omap]. by rewrite Hy, Hys.
Qed.

(** The first element that throws decides the error. *)
Lemma omap_throw {A B} (f : A -> outcome B) l e :
  (∀ x, x ∈ l -> f x = Throw e ∨ ∃ y, f x = Ok y) -> (∃ x, x ∈ l ∧ f x = Throw e) ->
  omap f l = Throw e.
Proof.
  induction l as [|x l IH]; intros Hl [z [Hz Hfz]]; [set_solver|].
  cbn [omap]. destruct (Hl x) as [Hx|[y Hx]]; [apply elem_of_cons; by left|by rewrite Hx|]. rewrite Hx.
  rewrite IH; [done|intros; apply Hl, elem_of_cons; by right|]. apply elem_of_cons in Hz as [->|Hz]; [congruence|eauto].
Qed.

Lemma truthy_bool b : truthy (Some (JBool b)) = b.
Proof. by destruct b. Qed.

Lemma strict_eq_id_str eid s : strict_eq_id eid (Some (JStr s)) = bool_decide (eid = Some s).
Proof. destruct eid as [e|]; simpl; [apply bool_decide_ext; naive_solver|done]. Qed.

(** A task object renders as the typed card of its task. *)
Lemma render_card_rel u x t :
  RawStore.rel_task x t -> render_card_raw u x = Ok (raw_of_card (render_card u t)).
Proof.
  intros (fs & -> & _ & (Hid & Hc & Hb & Hd & _)%RawStore.of_json_iff).
  unfold render_card_raw, read, render_card, editing. rewrite Hid, Hc, Hb, Hd, truthy_bool, strict_eq_id_str.
  by destruct (bool_decide _).
Qed.

Lemma raw_of_card_children c : Forall (fun v => ∃ s, v = Some (JStr s)) (card_children (raw_of_card c)).
Proof.
  destruct c as [k g [] [[b d]|]]; unfold card_children; simpl; repeat constructor; eauto.
Qed.

(** The children of typed cards are text. *)
Lemma children_ok cs : ∃ r, omap child (List.concat (card_children <$> (raw_of_card <$> cs))) = Ok r.
Proof.
  apply omap_ok. induction cs as [|c cs IH]; [constructor|]. cbn [fmap list_fmap List.concat].
  apply Forall_app. split; [|done].
  eapply Forall_impl; [apply raw_of_card_children|]. intros v [s ->]. by exists [s].
Qed.

Lemma render_page_rel u xs ts :
  Forall2 RawStore.rel_task xs ts -> render_page_raw (JArr xs) u = Ok (raw_of_page (render_page (setTasks ts u))).
Proof.
  intros Hxs. unfold render_page_raw.
  rewrite (omap_Forall2 _ (raw_of_card ∘ render_card u) xs ts);
    [|eapply Forall2_impl; [exact Hxs|]; intros; by apply render_card_rel].
  rewrite list_fmap_compose. destruct (children_ok (render_card u <$> ts)) as [r ->].
  unfold raw_of_page, render_page. by destruct u.
Qed.

(** ** Corrupt values *)

Lemma js_of_null v : RawStore.js_of v = JNull <-> v = JNull.
Proof. split; [destruct v; simpl; congruence|by intros ->]. Qed.

Lemma render_card_ok u x : x ≠ JNull -> ∃ c, render_card_raw u x = Ok c.
Proof. destruct x; try done; eauto. Qed.

(** The [map] phase throws on an array holding [null]. *)
Lemma render_page_null xs u : JNull ∈ xs -> render_page_raw (JArr xs) u = Throw "TypeError"%string.
Proof.
  intros Hn. unfold render_page_raw. rewrite (omap_throw _ _ "TypeError"%string); [done| |by exists JNull].
  intros x _. destruct x; [by left|right; by apply render_card_ok..].
Qed.

Lemma render_page_non_array v u : (∀ xs, v ≠ JArr xs) -> render_page_raw v u = Throw "TypeError"%string.
Proof. intros Hv. destruct v as [| | | |xs|]; try done. by destruct (Hv xs). Qed.

(** ** The mount *)

Lemma view_mounted w :
  view (mounted w) = match stored w with Some ts => setTasks ts initial_ui | None => initial_ui end.
Proof.
  unfold mounted, exec, loadTasks, bind, TaskService.getTasks.
  rewrite (svc_run _ (mk_app initial_ui w) _ _ (TaskService.getTasksFromStorage_stored w)).
  by destruct (stored w).
Qed.

Lemma mounted_tasks_rel w ts :
  stored w = Some ts -> ∃ xs, mounted_tasks w = JArr xs ∧ Forall2 RawStore.rel_task xs ts.
Proof.
  intros (xs & Hg & Hxs)%RawStore.read_rel. exists xs. split; [|done].
  unfold mounted_tasks, eval, RawStore.getTasks. by rewrite Hg.
Qed.

(** A blob of valid JSON: the raw store returns its value, the typed store
    reads it as an array of tasks or fails. *)
Lemma mounted_parse w s v :
  storage w !! STORAGE_KEY = Some s -> s ≠ EmptyString -> parse s = Some v ->
  mounted_tasks w = RawStore.js_of v ∧ stored w = TaskJson.tasks_of_json v.
Proof.
  intros Hs Hne Hp.
  unfold mounted_tasks, RawStore.getTasks, RawStore.getTasksFromStorage, stored,
    TaskService.getTasksFromStorage, eval, local_get, bind. cbn [fst].
  rewrite Hs. repeat (case_decide; [done|]). cbn [decode_tasks json_codec]. unfold TaskJson.decode.
  rewrite Hp. cbn. split; [done|]. by destruct (TaskJson.tasks_of_json v).
Qed.

Lemma tasks_of_json_null xs : JNull ∈ xs -> TaskJson.tasks_of_json (JArr xs) = None.
Proof. intros Hn. apply mapM_None_2, Exists_exists. by exists JNull. Qed.

Lemma tasks_of_json_non_array v : (∀ xs, v ≠ JArr xs) -> TaskJson.tasks_of_json v = None.
Proof. intros Hv. destruct v as [| | | |xs|]; try done. by destruct (Hv xs). Qed.

Lemma js_of_null_in (xs : list json) : JNull ∈ xs -> JNull ∈ RawStore.js_of <$> xs.
Proof. intros Hn. apply list_elem_of_fmap. by exists JNull. Qed.

(** ** Properties *)

(** C5: on every blob the typed store reads as [ts], the mount puts [ts]
    in the typed state, and in every state of the other hooks the page the
    code renders from the value [getTasks] returned is the page
    TaskListView.v renders from the typed state: the keys, grey
    backgrounds, edit forms, titles, menus and bodies of the cards agree,
    and no child throws. *)
Theorem raw_page_refines w ts u :
  stored w = Some ts ->
  tasks (view (mounted w)) = ts ∧
  render_page_raw (mounted_tasks w) u = Ok (raw_of_page (render_page (setTasks ts u))).
Proof.
  intros Hs. destruct (mounted_tasks_rel w ts Hs) as (xs & -> & Hxs).
  rewrite view_mounted, Hs. split; [done|]. by apply render_page_rel.
Qed.

(** C27: on a blob of valid JSON that is not an array, or is an array
    holding [null], the first render after the mount throws a [TypeError]
    ([tasks.map] on a non-array, or [task.id] on [null]), while the typed
    model, whose store reads the blob as an error, shows the empty list
    the state starts with. *)
Theorem corrupt_blob_breaks_page w s v :
  storage w !! STORAGE_KEY = Some s -> s ≠ EmptyString -> parse s = Some v ->
  match v with JArr xs => JNull ∈ xs | _ => True end ->
  render_page_raw (mounted_tasks w) (view (mounted w)) = Throw "TypeError"%string ∧
  view (mounted w) = initial_ui.
Proof.
  intros Hs Hne Hp Hv. destruct (mounted_parse w s v Hs Hne Hp) as [-> Hst].
  rewrite view_mounted, Hst. destruct v as [| | | |xs|]; try (split; [|done];
    apply render_page_non_array, RawStore.js_of_non_array; congruence).
  rewrite tasks_of_json_null by done. split; [|done]. by apply render_page_null, js_of_null_in.
Qed.

(** A member of an object type is not a React child: a blob whose task
    has an object caption throws at the children phase instead. *)
Definition w_obj_caption : world :=
  mk_world {["tasks" := stringify (JArr [JObj [("caption"%string, JObj [])]])]} ∅ 0 0.

Example object_caption_throws :
  render_page_raw (mounted_tasks w_obj_caption) (view (mounted w_obj_caption)) = Throw "Error"%string ∧
  view (mounted w_obj_caption) = initial_ui.
Proof. split; vm_compute; reflexivity. Qed.

Definition editing_u : ui := setEditingTaskId (Some "u"%string) initial_ui.

Lemma raw_page_refines_witness :
  stored RawStore.w_raw = Some [milk_task] ∧
  render_page_raw (mounted_tasks RawStore.w_raw) editing_u =
    Ok (raw_of_page (render_page (setTasks [milk_task] editing_u))).
Proof.
  assert (Hs : stored RawStore.w_raw = Some [milk_task]) by (vm_compute; reflexivity).
  split; [exact Hs|]. exact (proj2 (raw_page_refines _ _ editing_u Hs)).
Defined.

Lemma corrupt_blob_breaks_page_witness :
  render_page_raw (mounted_tasks RawStore.w_null_last) (view (mounted RawStore.w_null_last)) = Throw "TypeError"%string ∧
  view (mounted RawStore.w_null_last) = initial_ui.
Proof.
  apply (corrupt_blob_breaks_page _ (stringify (JArr [RawStore.milk_obj; JNull])) (JArr [RawStore.milk_obj; JNull]));
    [reflexivity|vm_compute; discriminate|vm_compute; reflexivity|].
  right. left.
Defined.

End RawPage.
