(* ===== verification/Tabs.v ===== *)
(** * Tabs: several tabs of the application over one local storage.

    Every tab of the same origin runs its own TaskList
    (src/list/src/components/TaskList.tsx) with its own cache, and all of
    them read and write the one local-storage entry ["tasks"] of the task
    store (src/list/src/services/taskService.ts).  Section 5 of the spec
    calls this out: the read-modify-write of the whole blob is not safe
    against two tabs, and a tab's changes can be silently overwritten.

    [tabs] is the list of the open tabs' TaskList states with the shared
    world; [tabs_step] opens a tab (its mount effect reads the store),
    closes one, or runs one event of one tab's page, in any interleaving.
    A tab's cache may then be older than the store, so the coherence of
    TaskList.v does not hold; what does hold is that the store stays
    well-formed: every event of a tab, stale or not, is a sequence of
    [client_step]s, because a cached task never disagrees with the store
    on the creation time of its id.  The price is lost updates: a toggle
    writes a tab's whole cached task over the stored one
    ([stale_tab_toggle_loses_edit]), shown also at a concrete run. *)

From S2P Require Import Prelude Task Platform TaskService StoreShape TaskList.

Module Tabs.
Import TaskService StoreShape TaskList.

Record tabs : Type := mk_tabs { pages : list ui; shared : world }.

Inductive event : Type :=
  | OpenTab
  | CloseTab (i : nat)
  | TabEvent (i : nat) (ev : TaskList.event).

Section Tabs.
Context `{!TaskCodec} (E : env).

(** A new tab: TaskList mounts and loads the stored tasks. *)
Definition open_tab (s : tabs) : tabs :=
  let a := mounted (shared s) in mk_tabs (pages s ++ [view a]) (browser a).

(** Event [ev] on the page of tab [i], whose state is [u]. *)
Definition tab_event (i : nat) (u : ui) (ev : TaskList.event) (s : tabs) : tabs :=
  let a := exec (dispatch E ev) (mk_app u (shared s)) in
  mk_tabs (<[i := view a]> (pages s)) (browser a).

Inductive tabs_step : tabs -> event -> tabs -> Prop :=
  | ts_open s : tabs_step s OpenTab (open_tab s)
  | ts_close s i : tabs_step s (CloseTab i) (mk_tabs (delete i (pages s)) (shared s))
  | ts_event s i u ev : pages s !! i = Some u -> tabs_step s (TabEvent i ev) (tab_event i u ev s).

(** The same step as a function: an event of a tab that is not open
    changes nothing. *)
Definition tabs_next (s : tabs) (ev : event) : tabs :=
  match ev with
  | OpenTab => open_tab s
  | CloseTab i => mk_tabs (delete i (pages s)) (shared s)
  | TabEvent i e => match pages s !! i with Some u => tab_event i u e s | None => s end
  end.

Definition run_tabs (s : tabs) (evs : list event) : tabs := fold_left tabs_next evs s.

(** Every tab event of [evs] finds its tab open. *)
Fixpoint tabs_enabled (s : tabs) (evs : list event) : bool :=
  match evs with
  | [] => true
  | ev :: evs' =>
      match ev with TabEvent i _ => bool_decide (is_Some (pages s !! i)) | _ => true end
      && tabs_enabled (tabs_next s ev) evs'
  end.
End Tabs.

(** ** The invariant *)

Section Invariant.
Context `{!TaskCodec} (E : env).
Hypothesis Hclock : clock_monotone E.
Hypothesis Huuid : uuid_injective E.

(** The tasks of [ts] with the id of [t] were created when [t] was. *)
Definition agrees (ts : list Task.t) (t : Task.t) : Prop :=
  ∀ x, x ∈ ts -> Task.id x = Task.id t -> Task.createdAt x = Task.createdAt t.

(** A cached task: its id was drawn, and the store agrees with it. *)
Definition cache_ok (w : world) (t : Task.t) : Prop :=
  (∃ k, k < uuids w ∧ Task.id t = uuid_at E k) ∧ ∀ ts, stored w = Some ts -> agrees ts t.

Definition tabs_ok (s : tabs) : Prop :=
  wf E (shared s) ∧ Forall (fun u => Forall (cache_ok (shared s)) (tasks u)) (pages s).

Lemma cache_ok_same_key w t t' :
  Task.id t' = Task.id t -> Task.createdAt t' = Task.createdAt t -> cache_ok w t -> cache_ok w t'.
Proof.
  intros Hi Hc [(k & Hk & Hid) Ha]. split; [exists k; by rewrite Hi|].
  intros ts Hs x Hx Hxi. rewrite Hc. apply (Ha ts Hs x Hx). by rewrite Hxi.
Qed.

(** The stored tasks of a well-formed store are good cache entries. *)
Lemma wf_cache_ok w ts : wf E w -> stored w = Some ts -> Forall (cache_ok w) ts.
Proof.
  intros (ts0 & Hs0 & Hnd & Hok) Hs. rewrite Hs in Hs0. injection Hs0 as <-.
  apply Forall_forall. intros t Ht. split.
  - rewrite Forall_forall in Hok. destruct (Hok t Ht) as [(k & Hk & Hid) _]. by exists k.
  - intros ts' Hs' x Hx Hxi. rewrite Hs in Hs'. injection Hs' as <-.
    by rewrite (NoDup_key_elem_eq Task.id ts x t Hnd Hx Ht Hxi).
Qed.

Lemma agrees_effect w ts ts' t :
  effect E w ts ts' -> (∃ k, k < uuids w ∧ Task.id t = uuid_at E k) -> agrees ts t -> agrees ts' t.
Proof.
  intros Heff (k & Hk & Hid) Ha x Hx Hxi. destruct Heff as [d|i old u Hi [Hki Hkc]|id].
  - apply elem_of_app in Hx as [Hx|Hx%list_elem_of_singleton]; [by apply Ha|subst x].
    exfalso. simpl in Hxi. rewrite Hid in Hxi. apply Huuid in Hxi. lia.
  - apply elem_of_insert_inv in Hx as [->|Hx]; [|by apply Ha].
    assert (Hold : old ∈ ts) by (by eapply list_elem_of_lookup_2).
    unfold updated, Task.set_updatedAt in *. cbn [Task.id Task.createdAt] in *.
    rewrite Hkc. apply (Ha old Hold). by rewrite <- Hki.
  - apply list_elem_of_filter in Hx as [_ Hx]. by apply Ha.
Qed.

(** A cache entry stays good along the store calls of any tab. *)
Lemma cache_ok_step w w' t : client_step E w w' -> cache_ok w t -> cache_ok w' t.
Proof.
  intros Hs Hc. pose proof (client_step_counters E w w' Hs) as (_ & _ & Hu).
  destruct Hc as [(k & Hk & Hid) Ha]. split; [exists k; split; [lia|done]|].
  destruct (client_step_effect E w w' Hs) as [->|(ts & ts' & w0 & Hs0 & -> & Heff)]; [done|].
  intros ts'' Hs''. rewrite stored_write in Hs''. injection Hs'' as <-.
  eapply agrees_effect; [exact Heff|by exists k|by apply Ha].
Qed.

Lemma cache_ok_rtc w w' ts :
  rtc (client_step E) w w' -> Forall (cache_ok w) ts -> Forall (cache_ok w') ts.
Proof.
  induction 1 as [|w1 w2 w3 Hs _ IH]; [done|]. intros Hok. apply IH.
  eapply Forall_impl; [exact Hok|]. intros t. by apply cache_ok_step.
Qed.

Lemma wf_rtc w w' : rtc (client_step E) w w' -> wf E w -> wf E w'.
Proof. induction 1 as [|w1 w2 w3 Hs _ IH]; [done|]. intros Hw. by apply IH, (wf_step E w1). Qed.

(** A new cache made of entries of the old cache and of the new stored
    collection, after one store call, is good. *)
Lemma cache_from w w' ts' old new :
  client_step E w w' -> wf E w -> stored w' = Some ts' -> Forall (cache_ok w) old ->
  (∀ t, t ∈ new -> t ∈ old ∨ t ∈ ts') -> Forall (cache_ok w') new.
Proof.
  intros Hs Hw Hs' Hold Hnew. pose proof (wf_step E w w' Hclock Huuid Hw Hs) as Hw'.
  pose proof (wf_cache_ok w' ts' Hw' Hs') as Hst. rewrite Forall_forall in Hold, Hst |- *.
  intros t Ht. destruct (Hnew t Ht) as [Ho|Hn]; [|by apply Hst].
  eapply cache_ok_step; [exact Hs|by apply Hold].
Qed.

Ltac unchanged Hc := split; [apply rtc_refl|exact Hc].

(** A handler that made one store call and wrote the collection [ts']:
    its new cache is good when made of old entries and stored ones. *)
Lemma tab_write w ts' w0 old new :
  client_step E w (write ts' w0) -> wf E w -> Forall (cache_ok w) old ->
  (∀ t, t ∈ new -> t ∈ old ∨ t ∈ ts') ->
  rtc (client_step E) w (write ts' w0) ∧ Forall (cache_ok (write ts' w0)) new.
Proof.
  intros Hst Hw Hc Hn. split; [by apply rtc_once|].
  eapply cache_from; [exact Hst|exact Hw|apply stored_write|exact Hc|exact Hn].
Qed.

(** The cache after [setTasks(tasks.map(task => task.id === id ? t : task))]
    holds old entries and the task written at the index of [id]. *)
Lemma replace_cached (cache ts : list Task.t) id i old t :
  list_find (fun x => Task.id x = id) ts = Some (i, old) ->
  ∀ x, x ∈ replace id t cache -> x ∈ cache ∨ x ∈ <[i := t]> ts.
Proof.
  intros Hf x [->|Hx]%elem_of_replace_inv; [right|by left].
  apply list_elem_of_insert. apply list_find_Some in Hf as (Hi & _). by eapply lookup_lt_Some.
Qed.

(** The toggle of a cached task: the stored task with its id was created
    when the cached one was, so the update keeps its identity. *)
Lemma tab_toggle u w id :
  wf E w -> Forall (cache_ok w) (tasks u) ->
  rtc (client_step E) w (browser (exec (toggleTaskDone E id) (mk_app u w))) ∧
  Forall (cache_ok (browser (exec (toggleTaskDone E id) (mk_app u w))))
         (tasks (view (exec (toggleTaskDone E id) (mk_app u w)))).
Proof.
  intros Hw Hc. pose proof Hw as (ts & Hs & _). set (s := mk_app u w).
  destruct (list_find (fun t => Task.id t = id) (tasks u)) as [[j task]|] eqn:Hj;
    [|unfold exec; rewrite (toggleTaskDone_absent E s id Hj); unchanged Hc].
  destruct (list_find (fun t => Task.id t = id) ts) as [[i old]|] eqn:Hf;
    [|apply list_find_None in Hf; unfold exec; rewrite (toggleTaskDone_store_absent E s id j task ts Hj Hs Hf);
      unchanged Hc].
  assert (Hk : ∀ ts0 i0 old0, stored w = Some ts0 -> list_find (fun t => Task.id t = id) ts0 = Some (i0, old0) ->
               keeps_identity old0 (toggle_patch task)).
  { intros ts0 i0 old0 Hs0 Hf0. rewrite Hs in Hs0. injection Hs0 as <-. rewrite Hf in Hf0.
    injection Hf0 as _ <-. apply list_find_Some in Hj as (Hj & Hidt & _), Hf as (Hi & Hido & _).
    rewrite Forall_forall in Hc. destruct (Hc task (list_elem_of_lookup_2 _ _ _ Hj)) as [_ Ha].
    split; simpl; [congruence|]. symmetry. apply (Ha ts Hs old); [by eapply list_elem_of_lookup_2|congruence]. }
  pose proof (cs_update E id (toggle_patch task) w Hk) as Hst.
  unfold exec in Hst |- *. rewrite (updateTask_found E _ _ _ ts i old Hs Hf) in Hst.
  rewrite (toggleTaskDone_store E s id j task ts i old Hj Hs Hf).
  eapply tab_write; [exact Hst|exact Hw|exact Hc|]. by apply (replace_cached _ _ _ _ old).
Qed.

(** One event of a tab whose cache may be older than the store: the store
    calls it makes are [client_step]s, and the tab's new cache is good. *)
Lemma tab_dispatch u w ev :
  wf E w -> Forall (cache_ok w) (tasks u) ->
  rtc (client_step E) w (browser (exec (dispatch E ev) (mk_app u w))) ∧
  Forall (cache_ok (browser (exec (dispatch E ev) (mk_app u w)))) (tasks (view (exec (dispatch E ev) (mk_app u w)))).
Proof.
  intros Hw Hc. pose proof Hw as (ts & Hs & _). set (s := mk_app u w).
  destruct ev as [| | | | | |v|v| |id|id|task|id]; cbn [dispatch]; try unchanged Hc.
  - destruct (decide (trim (newTaskCaption u) = EmptyString)) as [Hb|Hb].
    { unfold exec. rewrite (handleAddTask_blank E s Hb). unchanged Hc. }
    pose proof (cs_add E (Task.mk_draft (newTaskCaption u) (newTaskBody u) false) w) as Hst.
    unfold exec in Hst |- *. rewrite (addTask_eq E _ _ ts Hs) in Hst.
    rewrite (handleAddTask_eq E s ts Hb Hs). eapply tab_write; [exact Hst|exact Hw|exact Hc|]. simpl.
    intros t [Ht|Ht]%elem_of_app; [by left|right; apply elem_of_app; by right].
  - destruct (decide (trim (editTaskCaption u) = EmptyString)) as [Hb|Hb].
    { unfold exec. rewrite (handleEditTask_blank E s id Hb). unchanged Hc. }
    destruct (list_find (fun t => Task.id t = id) ts) as [[i old]|] eqn:Hf.
    + pose proof (cs_update E id (edit_patch (editTaskCaption u) (editTaskBody u)) w
                    (fun _ _ old' _ _ => edit_keeps_identity old' _ _)) as Hst.
      unfold exec in Hst |- *. rewrite (updateTask_found E _ _ _ ts i old Hs Hf) in Hst.
      rewrite (handleEditTask_eq E s id ts i old Hb Hs Hf).
      eapply tab_write; [exact Hst|exact Hw|exact Hc|]. by apply (replace_cached _ _ _ _ old).
    + apply list_find_None in Hf. unfold exec. rewrite (handleEditTask_absent E s id ts Hb Hs Hf).
      unchanged Hc.
  - by apply tab_toggle.
  - pose proof (cs_delete E id w) as Hst. unfold exec in Hst |- *.
    rewrite (deleteTask_eq id w ts Hs) in Hst. rewrite (handleDeleteTask_eq s id ts Hs).
    eapply tab_write; [exact Hst|exact Hw|exact Hc|]. simpl.
    intros t Ht%list_elem_of_filter. left. apply Ht.
Qed.

Lemma tabs_ok_step s ev s' : tabs_ok s -> tabs_step E s ev s' -> tabs_ok s'.
Proof.
  intros [Hw Hp]. destruct 1 as [s|s i|s i u ev Hi]; unfold tabs_ok; cbn [shared pages].
  - unfold open_tab. cbn [shared pages]. rewrite mounted_browser. split; [done|].
    apply Forall_app. split; [done|]. repeat constructor.
    destruct (coherent_mounted E (shared s) Hw) as [_ Hs]. rewrite mounted_browser in Hs.
    by apply (wf_cache_ok _ _ Hw Hs).
  - split; [done|]. by apply Forall_delete.
  - unfold tab_event. cbn [shared pages].
    destruct (tab_dispatch u (shared s) ev Hw (Forall_lookup_1 _ _ _ _ Hp Hi)) as [Hst Hc].
    split; [by eapply wf_rtc|]. apply Forall_insert; [|exact Hc].
    eapply Forall_impl; [exact Hp|]. intros v Hv. by eapply cache_ok_rtc.
Qed.

Lemma tabs_ok_steps s evs s' : tabs_ok s -> steps (tabs_step E) s evs s' -> tabs_ok s'.
Proof.
  intros Hs Hst. induction Hst as [|s1 ev s2 evs s3 Hs12 _ IH]; [done|]. by apply IH, (tabs_ok_step s1 ev).
Qed.
End Invariant.

Lemma steps_run_tabs `{!TaskCodec} E s evs :
  tabs_enabled E s evs = true -> steps (tabs_step E) s evs (run_tabs E s evs).
Proof.
  revert s. induction evs as [|ev evs IH]; intros s He; simpl in *; [constructor|].
  apply andb_prop in He as [He1 He2]. econstructor; [|by apply IH].
  destruct ev as [|i|i e]; [constructor|constructor|]. simpl.
  apply bool_decide_eq_true_1 in He1 as [u Hu]. rewrite Hu. by constructor.
Qed.

(** ** Properties *)

Section Properties.
Context `{!TaskCodec} (E : env).

(** C8: with a monotone clock and distinct UUIDs, from a well-formed
    store and no tab open, along any interleaving of tabs opening and
    closing and of events on the pages of any tab, stale caches included,
    the store stays well-formed (distinct ids, ordered timestamps), and a
    task any tab shows never disagrees with the store on the creation
    time of its id. *)
Theorem tabs_store_wf w0 evs s :
  clock_monotone E -> uuid_injective E -> wf E w0 ->
  steps (tabs_step E) (mk_tabs [] w0) evs s ->
  wf E (shared s) ∧
  ∀ u t ts x, u ∈ pages s -> t ∈ tasks u -> stored (shared s) = Some ts -> x ∈ ts ->
    Task.id x = Task.id t -> Task.createdAt x = Task.createdAt t.
Proof.
  intros Hc Hu Hw Hst.
  assert (H0 : tabs_ok E (mk_tabs [] w0)) by (split; [done|constructor]).
  destruct (tabs_ok_steps E Hc Hu _ _ _ H0 Hst) as [Hw' Hp].
  split; [done|]. intros u t ts x Hu' Ht Hs Hx Hxi. rewrite Forall_forall in Hp.
  specialize (Hp u Hu'). rewrite Forall_forall in Hp. by apply (proj2 (Hp t Ht) ts Hs x).
Qed.

(** C35: last writer wins between tabs: when a tab fires the toggle of a
    task its cache holds, the stored task with that id is replaced in
    place by the tab's cached task with [done] negated, its caption and
    body included ([{...task, done: !task.done}] of the cache, lines
    71-81), whatever the store held: a caption or body another tab
    saved after this tab loaded is overwritten without an error. *)
Theorem stale_tab_toggle_loses_edit s k u j task ts i old s' :
  pages s !! k = Some u ->
  list_find (fun t => Task.id t = Task.id task) (tasks u) = Some (j, task) ->
  stored (shared s) = Some ts -> list_find (fun t => Task.id t = Task.id task) ts = Some (i, old) ->
  tabs_step E s (TabEvent k (ClickToggle (Task.id task))) s' ->
  ∃ t, stored (shared s') = Some (<[i := t]> ts) ∧ Task.id t = Task.id task ∧
    Task.caption t = Task.caption task ∧ Task.body t = Task.body task ∧
    Task.done t = negb (Task.done task) ∧ Task.createdAt t = Task.createdAt task.
Proof.
  intros Hk Hj Hs Hf Hst. inversion Hst as [| |s0 k0 u0 ev0 Hk0]; subst.
  rewrite Hk in Hk0. injection Hk0 as <-. unfold tab_event, exec. simpl.
  rewrite (toggleTaskDone_store E (mk_app u (shared s)) _ j task ts i old Hj Hs Hf).
  eexists. split_and!; [apply stored_write|reflexivity..].
Qed.
End Properties.

(** ** Two tabs *)

(** Two tabs load the store holding "Buy milk"; the second edits the
    caption, then the first, whose cache still has the old caption,
    marks the task done. *)
Definition two_tabs : list event :=
  [OpenTab; OpenTab;
   TabEvent 1 (ClickEdit milk_task); TabEvent 1 (EditCaptionChange "Buy oat milk"%string);
   TabEvent 1 (ClickSave "u"%string); TabEvent 0 (ClickToggle "u"%string)].

Definition two_tabs_end : tabs := run_tabs demo_env (mk_tabs [] w_milk) two_tabs.

Lemma tabs_store_wf_witness :
  steps (tabs_step demo_env) (mk_tabs [] w_milk) two_tabs two_tabs_end ∧ wf demo_env (shared two_tabs_end).
Proof.
  assert (Hw : wf demo_env w_milk).
  { apply wf_add; [apply demo_clock_monotone|apply demo_uuid_injective|by apply wf_empty]. }
  assert (Hst : steps (tabs_step demo_env) (mk_tabs [] w_milk) two_tabs two_tabs_end).
  { assert (He : tabs_enabled demo_env (mk_tabs [] w_milk) two_tabs = true) by (vm_compute; reflexivity).
    exact (steps_run_tabs demo_env _ _ He). }
  split; [exact Hst|].
  exact (proj1 (tabs_store_wf demo_env w_milk two_tabs two_tabs_end
                  demo_clock_monotone demo_uuid_injective Hw Hst)).
Defined.

(** The two-tab run: after the second tab saved "Buy oat milk", the
    first tab's toggle writes its cached "Buy milk" back. *)
Definition tabs_edited : tabs := run_tabs demo_env (mk_tabs [] w_milk) (take 5 two_tabs).

Lemma stale_tab_toggle_loses_edit_witness :
  option_map (map Task.caption) (stored (shared tabs_edited)) = Some ["Buy oat milk"%string] ∧
  ∀ s', tabs_step demo_env tabs_edited (TabEvent 0 (ClickToggle "u"%string)) s' ->
  ∃ t, stored (shared s') = Some [t] ∧ Task.caption t = "Buy milk"%string ∧ Task.done t = true.
Proof.
  split; [vm_compute; reflexivity|]. intros s' Hst.
  assert (Hk : pages tabs_edited !! 0 = Some (setTasks [milk_task] initial_ui)) by (vm_compute; reflexivity).
  assert (Hs : stored (shared tabs_edited) = Some [Task.mk "u" "Buy oat milk" "2%" false 0 2])
    by (vm_compute; reflexivity).
  destruct (stale_tab_toggle_loses_edit demo_env tabs_edited 0 _ 0 milk_task _ 0 _ s' Hk eq_refl Hs eq_refl Hst)
    as (t & Ht & _ & Hc & _ & Hd & _).
  exists t. split_and!; [exact Ht|exact Hc|exact Hd].
Defined.

End Tabs.
