(* ===== verification/App.v ===== *)
(** * App: the root component of src/list/src/App.tsx.

    The component holds four pieces of React state (lines 9-12), the record
    [appstate]; it asks the user service of UserService.v who is logged in
    and shows the task page, the login form or the registration form.
    A page is the component's state with the service's state ([page]);
    [usvc] runs a service method, [setState f] is one call of a
    [useState] setter.

    The login and registration forms ([@/components/Login],
    [@/components/Register]) are imported by App.tsx but are not part of
    the repository: their calls on the service are events
    ([FormLogin], [FormRegister]) and their [onLogin]/[onRegister]
    callbacks are events of their own, allowed at any time.  A reload of
    the browser tab is an event as well: the module is evaluated again, so
    the service's in-memory registry starts empty, while the cookie jar
    and the local storage of the world persist.

    The theorems show that the task page is shown only to a session (a
    truthy auth cookie and a registered user), that a reload always
    shows the login form, whatever the cookie, and that a new visitor
    reaches the task page by firing only events of elements the current
    screen renders ([offers]), the registration form staying on screen
    after registering. *)

From S2P Require Import Prelude Platform UserService.

Module App.
Import UserService.

(** The state of [App] (lines 9-12); [user] holds what [setUser] is given,
    the whole [User] object. *)
Record appstate : Type := mk_appstate {
  isAuthenticated : bool;
  isLoading : bool;
  showRegister : bool;
  user : option User.t
}.

Definition initial_state : appstate := mk_appstate false true false None.

Definition setIsAuthenticated (v : bool) (a : appstate) : appstate :=
  mk_appstate v (isLoading a) (showRegister a) (user a).
Definition setIsLoading (v : bool) (a : appstate) : appstate :=
  mk_appstate (isAuthenticated a) v (showRegister a) (user a).
Definition setShowRegister (v : bool) (a : appstate) : appstate :=
  mk_appstate (isAuthenticated a) (isLoading a) v (user a).
Definition setUser (v : option User.t) (a : appstate) : appstate :=
  mk_appstate (isAuthenticated a) (isLoading a) (showRegister a) v.

Record page : Type := mk_page { st : appstate; service : ustate }.

Definition usvc {A} (m : M ustate A) : M page A :=
  fun p => let '(r, s') := m (service p) in (r, mk_page (st p) s').

Definition setState (f : appstate -> appstate) : M page unit :=
  modify (fun p => mk_page (f (st p)) (service p)).

(** [if (currentUser) { setUser(currentUser); }] *)
Definition setUserIfAny (currentUser : option User.t) : M page unit :=
  match currentUser with
  | Some u => setState (setUser (Some u))
  | None => ret tt
  end.

(** [checkAuth], the mount effect (lines 14-24). *)
Definition checkAuth : M page unit :=
  currentUser <- usvc getCurrentUser ;;
  setState (setIsAuthenticated (bool_decide (is_Some currentUser))) ;;;
  setUserIfAny currentUser ;;;
  setState (setIsLoading false).

(** [handleLogin] (lines 26-34): the [.then] callback runs before the
    next event. *)
Definition handleLogin : M page unit :=
  setState (setIsAuthenticated true) ;;;
  currentUser <- usvc getCurrentUser ;;
  setUserIfAny currentUser.

(** [handleLogout] (lines 36-40). *)
Definition handleLogout : M page unit :=
  usvc logout ;;;
  setState (setIsAuthenticated false) ;;;
  setState (setUser None).

(** What the page renders (lines 42-98). *)
Inductive screen : Type :=
  | Loading
  | Tasks (u : User.t)
  | RegisterForm
  | LoginForm.

Definition render (a : appstate) : screen :=
  if isLoading a then Loading
  else match isAuthenticated a, user a with
       | true, Some u => Tasks u
       | _, _ => if showRegister a then RegisterForm else LoginForm
       end.

(** [str[0]] as a template-literal part: the first character, or
    ["undefined"] for the empty string. *)
Definition first_char (s : string) : string :=
  match s with
  | String c _ => String c EmptyString
  | EmptyString => "undefined"%string
  end.

(** The avatar's [initials] (line 56). *)
Definition initials (u : User.t) : string :=
  first_char (User.firstName u) +:+ first_char (User.lastName u).

(** [Avatar] of src/list/src/components/ui/avatar.tsx (lines 4-17): the
    round badge shows [initials] and the span beside it [name]; the
    class names and the other props only style the markup. *)
Record avatar : Type := mk_avatar { badge : string; label : string }.

Definition Avatar (initials name : string) : avatar := mk_avatar initials name.

(** The avatar at the top of the task page (lines 55-58), shown with the
    task list. *)
Definition header (a : appstate) : option avatar :=
  match render a with
  | Tasks u => Some (Avatar (initials u) (User.firstName u))
  | _ => None
  end.

(** A browser reload: the module's singleton is created again with an empty
    registry; the world persists. *)
Definition reload : M page unit :=
  modify (fun p => mk_page initial_state (mk_ustate [] (uw (service p)))).

(** The page as the browser first shows it, on service state [s]. *)
Definition mounted (s : ustate) : page := exec checkAuth (mk_page initial_state s).

Section Events.
Context (E : env).

(** What the user does on the page. *)
Inductive event : Type :=
  | Reload                                  (* reload of the tab *)
  | OnLogin                                 (* line 84, [onLogin] *)
  | OnRegister                              (* line 72, [onRegister] *)
  | ClickLogout                             (* line 60 *)
  | ShowRegister (b : bool)                 (* lines 75 and 87 *)
  | FormLogin (email password : string)     (* the login form's call *)
  | FormRegister (d : User.register_data).  (* the registration form's call *)

Definition dispatch (ev : event) : M page unit :=
  match ev with
  | Reload => reload ;;; checkAuth
  | OnLogin => handleLogin
  | OnRegister => handleLogin
  | ClickLogout => handleLogout
  | ShowRegister b => setState (setShowRegister b)
  | FormLogin email password => usvc (login E email password) ;;; ret tt
  | FormRegister d => usvc (register E d) ;;; ret tt
  end.

Inductive page_step : page -> event -> page -> Prop :=
  | ps_dispatch p ev : page_step p ev (exec (dispatch ev) p).

(** The elements of the screen [render a] that fire each event (lines
    52-96): the Logout button on the task page, the switch to the other
    form under each form, and each form's call and callback on its own
    screen; a reload is always possible. *)
Definition offers (a : appstate) (ev : event) : bool :=
  match render a, ev with
  | _, Reload => true
  | Tasks _, ClickLogout => true
  | LoginForm, ShowRegister b => b
  | RegisterForm, ShowRegister b => negb b
  | LoginForm, (OnLogin | FormLogin _ _) => true
  | RegisterForm, (OnRegister | FormRegister _) => true
  | _, _ => false
  end.

(** An event fired by an element of the screen the page shows. *)
Inductive offered_step : page -> event -> page -> Prop :=
  | os_dispatch p ev : offers (st p) ev = true -> offered_step p ev (exec (dispatch ev) p).
End Events.

(** Every event of [evs] is offered by the screen it is fired on. *)
Fixpoint offered_run (E : env) (evs : list event) (p : page) : bool :=
  match evs with
  | [] => true
  | ev :: evs' => offers (st p) ev && offered_run E evs' (exec (dispatch E ev) p)
  end.

(** A visitor registers, switches to the login form and logs in. *)
Definition onboarding (d : User.register_data) : list event :=
  [ShowRegister true; FormRegister d; OnRegister; ShowRegister false;
   FormLogin (User.r_email d) (User.r_password d); OnLogin].
(** ** The page shows the task list only to a session *)

(** Every user the page holds came from [getCurrentUser] while the cookie
    was set: the session is LoggedIn and the user is registered. *)
Definition sound (p : page) : Prop :=
  ∀ u, user (st p) = Some u ->
       session_of (service p) = LoggedIn ∧ u ∈ User.public <$> users (service p).

Lemma usvc_run {A} (m : M ustate A) p r s' :
  m (service p) = (r, s') -> usvc m p = (r, mk_page (st p) s').
Proof. unfold usvc. by intros ->. Qed.

(** What [getCurrentUser] answers on the page. *)
Definition current (s : ustate) : option User.t :=
  if truthy (c_value <$> cookies (uw s) !! COOKIE_NAME) then User.public <$> head (users s) else None.

Lemma current_sound s u :
  current s = Some u -> session_of s = LoggedIn ∧ u ∈ User.public <$> users s.
Proof.
  unfold current, session_of. destruct (truthy _); [|done].
  destruct (users s) as [|v us]; [done|]. intros [= <-]. split; [done|]. by left.
Qed.

Lemma setUserIfAny_eq c p :
  setUserIfAny c p = (Ok tt, mk_page (match c with Some u => setUser (Some u) (st p) | None => st p end) (service p)).
Proof. by destruct c, p. Qed.

Lemma checkAuth_eq p :
  checkAuth p =
  (Ok tt, mk_page (setIsLoading false
                     (match current (service p) with
                      | Some u => setUser (Some u) | None => fun a => a end
                        (setIsAuthenticated (bool_decide (is_Some (current (service p)))) (st p))))
                  (service p)).
Proof.
  unfold checkAuth, bind at 1. rewrite (usvc_run _ _ _ _ (getCurrentUser_eq (service p))).
  unfold current. destruct (truthy _), (users (service p)); reflexivity.
Qed.

Lemma handleLogin_eq p :
  handleLogin p =
  (Ok tt, mk_page (match current (service p) with
                   | Some u => setUser (Some u) | None => fun a => a end
                     (setIsAuthenticated true (st p)))
                  (service p)).
Proof.
  unfold handleLogin, bind at 1. unfold setState at 1, modify. simpl.
  unfold bind.
  rewrite (usvc_run _ (mk_page (setIsAuthenticated true (st p)) (service p)) _ _ (getCurrentUser_eq (service p))).
  unfold current. destruct (truthy _), (users (service p)); reflexivity.
Qed.

Lemma reload_eq p :
  (reload ;;; checkAuth) p = checkAuth (mk_page initial_state (mk_ustate [] (uw (service p)))).
Proof. reflexivity. Qed.

Lemma sound_setUser_current p a :
  (∀ u, user a = Some u -> session_of (service p) = LoggedIn ∧ u ∈ User.public <$> users (service p)) ->
  sound (mk_page (match current (service p) with
                  | Some u => setUser (Some u) | None => fun a => a end a) (service p)).
Proof.
  intros Ha u. simpl. destruct (current (service p)) eqn:Hc; simpl.
  - intros [= <-]. by apply current_sound.
  - apply Ha.
Qed.

Lemma sound_user p p' :
  user (st p') = user (st p) -> service p' = service p -> sound p -> sound p'.
Proof. unfold sound. intros -> ->. done. Qed.

Lemma exec_usvc {A} (m : M ustate A) p :
  exec (usvc m ;;; ret tt) p = mk_page (st p) (exec m (service p)).
Proof. unfold exec, bind, usvc. by destruct (m (service p)) as [[] ?]. Qed.

Lemma sound_mounted s : sound (mounted s).
Proof.
  unfold mounted, exec. rewrite checkAuth_eq.
  eapply sound_user; [| |apply (sound_setUser_current (mk_page initial_state s))]; [done..|].
  by intros u.
Qed.

Lemma sound_dispatch E ev p : sound p -> sound (exec (dispatch E ev) p).
Proof.
  intros Hp. destruct ev as [| | | |b|email password|d]; simpl.
  - unfold exec, bind at 1, reload, modify. simpl. rewrite checkAuth_eq.
    eapply sound_user;
      [| |apply (sound_setUser_current (mk_page initial_state (mk_ustate [] (uw (service p)))))];
      [done..|].
    by intros u.
  - unfold exec. rewrite handleLogin_eq. by apply sound_setUser_current.
  - unfold exec. rewrite handleLogin_eq. by apply sound_setUser_current.
  - unfold exec, handleLogout, bind at 1. rewrite (usvc_run _ _ _ _ (logout_eq (service p))).
    by intros u.
  - by apply (sound_user p).
  - rewrite exec_usvc. intros u Hu. destruct (Hp u Hu) as [Hs Hin]. simpl.
    rewrite session_login, users_login. by destruct (login_succeeds _ _ _).
  - rewrite exec_usvc. intros u Hu. destruct (Hp u Hu) as [Hs Hin]. simpl.
    rewrite session_register. split; [done|].
    destruct (users_register E d (service p)) as [k ->]. rewrite fmap_app, elem_of_app. by left.
Qed.

Lemma sound_steps E p evs p' : sound p -> steps (page_step E) p evs p' -> sound p'.
Proof.
  intros Hp Hst. induction Hst as [|p1 ev p2 evs p3 Hs _ IH]; [done|].
  apply IH. destruct Hs. by apply sound_dispatch.
Qed.

Lemma render_tasks a u : render a = Tasks u -> user a = Some u.
Proof. unfold render. destruct (isLoading a), (isAuthenticated a), (user a), (showRegister a); naive_solver. Qed.

(** The events run one after the other. *)
Definition run (E : env) (evs : list event) (p : page) : page :=
  fold_left (fun p ev => exec (dispatch E ev) p) evs p.

Lemma steps_run E evs p : steps (page_step E) p evs (run E evs p).
Proof.
  revert p. induction evs as [|ev evs IH]; intros p; simpl; [constructor|].
  econstructor; [constructor|apply IH].
Qed.

(** Once mounted the page is never loading again: [checkAuth], the only
    code that sets [isLoading], sets it to false. *)
Lemma loaded_mounted s : isLoading (st (mounted s)) = false.
Proof. unfold mounted, exec. rewrite checkAuth_eq. done. Qed.

Lemma loaded_dispatch E ev p : isLoading (st p) = false -> isLoading (st (exec (dispatch E ev) p)) = false.
Proof.
  intros Hl. destruct ev as [| | | |b|email password|d]; simpl.
  - unfold exec. rewrite reload_eq, checkAuth_eq. done.
  - unfold exec. rewrite handleLogin_eq. simpl. by destruct (current _).
  - unfold exec. rewrite handleLogin_eq. simpl. by destruct (current _).
  - done.
  - done.
  - by rewrite exec_usvc.
  - by rewrite exec_usvc.
Qed.

Lemma loaded_steps E s0 evs p : steps (page_step E) (mounted s0) evs p -> isLoading (st p) = false.
Proof.
  intros Hst. pose proof (loaded_mounted s0) as Hl. revert Hl.
  induction Hst as [|p1 ev p2 evs p3 [] _ IH]; [done|]. intros Hl. by apply IH, loaded_dispatch.
Qed.

(** [getCurrentUser] answers the first registered user while the session
    is on. *)
Lemma current_logged_in s v vs :
  session_of s = LoggedIn -> users s = v :: vs -> current s = Some (User.public v).
Proof. unfold session_of, current. intros Hs ->. by destruct (truthy _). Qed.

(** Logging in on a loaded page: a user whose email and password are
    registered gets the task page by submitting the login form (its call
    on the service) and its [onLogin] callback: the session is on, and
    the page shows the task list with the avatar of the first registered
    user. *)
Lemma login_tasks_page E p email password :
  isLoading (st p) = false -> Exists (matches email password) (users (service p)) ->
  ∃ v, head (users (service p)) = Some v ∧
    session_of (service (run E [FormLogin email password; OnLogin] p)) = LoggedIn ∧
    render (st (run E [FormLogin email password; OnLogin] p)) = Tasks (User.public v) ∧
    header (st (run E [FormLogin email password; OnLogin] p)) =
      Some (Avatar (initials (User.public v)) (User.s_firstName v)) ∧
    users (service (run E [FormLogin email password; OnLogin] p)) = users (service p).
Proof.
  intros Hl Hex.
  destruct (users (service p)) as [|v vs] eqn:Hu; [by inversion Hex|]. exists v.
  assert (Hs : session_of (exec (login E email password) (service p)) = LoggedIn).
  { rewrite session_login. unfold login_succeeds. rewrite Hu. by rewrite bool_decide_eq_true_2. }
  assert (Hc : current (exec (login E email password) (service p)) = Some (User.public v)).
  { apply current_logged_in with vs; [done|]. by rewrite users_login. }
  simpl. rewrite exec_usvc. set (p1 := mk_page (st p) (exec (login E email password) (service p))).
  assert (Hp : exec handleLogin p1 = mk_page (setUser (Some (User.public v)) (setIsAuthenticated true (st p)))
                                             (service p1)).
  { unfold exec. rewrite handleLogin_eq. simpl. by rewrite Hc. }
  rewrite Hp. unfold header, render. simpl. rewrite Hl, users_login, Hu. by split_and!.
Qed.

Lemma current_logged_out s : session_of s = LoggedOut -> current s = None.
Proof. unfold session_of, current. by destruct (truthy _). Qed.

(** Mounted without a session, the page shows the login form. *)
Lemma mounted_logged_out s : session_of s = LoggedOut -> mounted s = mk_page (mk_appstate false false false None) s.
Proof.
  intros Hs. unfold mounted, exec. rewrite checkAuth_eq. cbn [service st].
  by rewrite (current_logged_out s Hs).
Qed.

Lemma steps_offered_run E evs p : offered_run E evs p = true -> steps (offered_step E) p evs (run E evs p).
Proof.
  revert p. induction evs as [|ev evs IH]; intros p; simpl; [constructor|].
  intros [Ho Hr]%andb_prop. econstructor; [by constructor|by apply IH].
Qed.

(** ** Properties of the root component *)

(** C10: along any sequence of events from the mounted page (reloads,
    logins and logouts, registrations, the forms' callbacks), the task
    page is shown only while the auth cookie holds a truthy token, and the
    user it shows is a registered user. *)
Theorem tasks_page_needs_session E s0 evs p u :
  steps (page_step E) (mounted s0) evs p -> render (st p) = Tasks u ->
  session_of (service p) = LoggedIn ∧ u ∈ User.public <$> users (service p).
Proof.
  intros Hst Hr. eapply (sound_steps E (mounted s0)); [apply sound_mounted|exact Hst|].
  by apply render_tasks.
Qed.

(** C15: onboarding is possible by clicking what the page shows: from the
    page mounted without a session, a visitor whose email is not yet
    registered switches to the registration form, registers (the form's
    call and its [onRegister] callback), switches back to the login form
    and logs in, each event fired by an element of the screen it is fired
    on, and reaches the task page, with the first registered user; after
    registering the page still shows the registration form, as
    [onRegister] is [handleLogin] and [getCurrentUser] finds no session. *)
Theorem onboarding_reaches_tasks E s0 d :
  session_of s0 = LoggedOut -> User.r_email d ∉ User.s_email <$> users s0 ->
  steps (offered_step E) (mounted s0) (onboarding d) (run E (onboarding d) (mounted s0)) ∧
  render (st (run E (take 3 (onboarding d)) (mounted s0))) = RegisterForm ∧
  ∃ v, head (users (service (run E (onboarding d) (mounted s0)))) = Some v ∧
       render (st (run E (onboarding d) (mounted s0))) = Tasks (User.public v).
Proof.
  intros Hs Hn. rewrite (mounted_logged_out s0 Hs).
  set (s2 := exec (register E d) s0).
  assert (Hs2 : session_of s2 = LoggedOut) by (unfold s2; by rewrite session_register).
  assert (Hex : Exists (matches (User.r_email d) (User.r_password d)) (users s2)).
  { unfold s2, exec. rewrite register_free; [|intros (u & Hu & He)%Exists_exists; apply Hn, list_elem_of_fmap; by exists u].
    apply Exists_app. right. constructor. by split. }
  set (p0 := mk_page (mk_appstate false false false None) s0).
  set (p4 := mk_page (mk_appstate true false false None) s2).
  assert (E1 : exec (dispatch E (ShowRegister true)) p0 = mk_page (mk_appstate false false true None) s0) by done.
  assert (E2 : exec (dispatch E (FormRegister d)) (mk_page (mk_appstate false false true None) s0)
               = mk_page (mk_appstate false false true None) s2) by apply exec_usvc.
  assert (E3 : exec (dispatch E OnRegister) (mk_page (mk_appstate false false true None) s2)
               = mk_page (mk_appstate true false true None) s2).
  { unfold exec. cbn [dispatch]. rewrite handleLogin_eq. cbn [st service]. by rewrite (current_logged_out s2 Hs2). }
  assert (E4 : exec (dispatch E (ShowRegister false)) (mk_page (mk_appstate true false true None) s2) = p4) by done.
  assert (E5 : exec (dispatch E (FormLogin (User.r_email d) (User.r_password d))) p4
               = mk_page (st p4) (exec (login E (User.r_email d) (User.r_password d)) s2)) by apply exec_usvc.
  destruct (login_tasks_page E p4 _ _ eq_refl Hex) as (v & Hv & _ & Hr & _ & Hu).
  split_and!.
  - apply steps_offered_run. unfold onboarding. cbn [offered_run]. by rewrite E1, E2, E3, E4, E5.
  - unfold onboarding. cbn [take run fold_left]. by rewrite E1, E2, E3.
  - assert (Hr4 : run E (onboarding d) p0 = run E [FormLogin (User.r_email d) (User.r_password d); OnLogin] p4).
    { unfold onboarding, run. cbn [fold_left]. by rewrite E1, E2, E3, E4. }
    exists v. rewrite Hr4, Hu. by split.
Qed.

(** C32: after a reload the page shows the login form, whatever the
    cookie: the session the cookie keeps is not restored, because the
    registry [getCurrentUser] reads starts empty. *)
Theorem reload_shows_login E p :
  render (st (exec (dispatch E Reload) p)) = LoginForm ∧
  session_of (service (exec (dispatch E Reload) p)) = session_of (service p).
Proof.
  unfold exec, dispatch. rewrite reload_eq, checkAuth_eq. unfold current. simpl.
  split; [by destruct (truthy _)|reflexivity].
Qed.

(** ** Runs in the demo environment *)

Definition page0 : page := mounted s_empty.

Definition doe : User.register_data := User.mk_register EmptyString "Doe" "doe@x" "pw".

(** Registration accepts an empty first name, and the avatar of
    that user, logged in, shows the initials ["undefinedD"]
    ([firstName[0]] of the empty string is [undefined]) and an empty
    name. *)
Theorem empty_first_name_initials :
  render (st (run demo_env [FormRegister doe; FormLogin "doe@x" "pw"; OnLogin] page0))
    = Tasks (User.mk "u" EmptyString "Doe" "doe@x") ∧
  header (st (run demo_env [FormRegister doe; FormLogin "doe@x" "pw"; OnLogin] page0))
    = Some (Avatar "undefinedD" EmptyString).
Proof. split; vm_compute; reflexivity. Qed.

Definition bob_logged_in : page :=
  run demo_env [FormRegister alice; FormRegister bob; FormLogin "bob@x" "pw2"; OnLogin] page0.

(** After Alice and Bob register and Bob logs in, the page shows the
    task list with Alice's avatar: her initials and her first name. *)
Theorem page_shows_first_user :
  render (st bob_logged_in) = Tasks (User.mk "u" "Alice" "A" "alice@x") ∧
  header (st bob_logged_in) = Some (Avatar "AA" "Alice").
Proof. split; vm_compute; reflexivity. Qed.


Lemma tasks_page_needs_session_witness :
  steps (page_step demo_env) page0
        [FormRegister alice; FormRegister bob; FormLogin "bob@x" "pw2"; OnLogin] bob_logged_in ∧
  render (st bob_logged_in) = Tasks (User.mk "u" "Alice" "A" "alice@x") ∧
  session_of (service bob_logged_in) = LoggedIn ∧
  User.mk "u" "Alice" "A" "alice@x" ∈ User.public <$> users (service bob_logged_in).
Proof.
  assert (Hst : steps (page_step demo_env) page0
                  [FormRegister alice; FormRegister bob; FormLogin "bob@x" "pw2"; OnLogin] bob_logged_in)
    by apply steps_run.
  assert (Hr : render (st bob_logged_in) = Tasks (User.mk "u" "Alice" "A" "alice@x"))
    by (vm_compute; reflexivity).
  destruct (tasks_page_needs_session demo_env s_empty _ _ _ Hst Hr) as [Hs Hin].
  split_and!; [exact Hst|exact Hr|exact Hs|exact Hin].
Defined.

Lemma onboarding_reaches_tasks_witness :
  session_of s_empty = LoggedOut ∧ User.r_email alice ∉ User.s_email <$> users s_empty ∧
  render (st (run demo_env (take 3 (onboarding alice)) (mounted s_empty))) = RegisterForm ∧
  render (st (run demo_env (onboarding alice) (mounted s_empty))) = Tasks (User.mk "u" "Alice" "A" "alice@x").
Proof.
  assert (Hs : session_of s_empty = LoggedOut) by reflexivity.
  assert (Hn : User.r_email alice ∉ User.s_email <$> users s_empty) by (vm_compute; inversion 1).
  destruct (onboarding_reaches_tasks demo_env s_empty alice Hs Hn) as (_ & Hr3 & _).
  assert (Hr : render (st (run demo_env (onboarding alice) (mounted s_empty)))
               = Tasks (User.mk "u" "Alice" "A" "alice@x")) by (vm_compute; reflexivity).
  split_and!; [exact Hs|exact Hn|exact Hr3|exact Hr].
Defined.

End App.
