(* ===== verification/Root.v ===== *)
(** * Root: the whole application, App with its TaskList.

    App.tsx renders [<TaskList />] inside the task page (line 66), so the
    page's state is the root component's state, the user service's
    registry, one browser world shared by both services, and, while the
    task page is on screen, the state of the mounted TaskList.  React keeps
    the TaskList mounted while the task page stays on screen, mounts it
    (running its [loadTasks] effect) when the page appears, and drops its
    state when the page goes away: [reconcile].

    An event is an event of App.v or, while the list is mounted, of
    TaskList.v.  The main theorem is the invariant of the whole program:
    on every reachable page the store is well-formed, and whenever the
    task list is on screen a live session and a registered user are shown
    and the list shows exactly the stored collection.  Its companion is
    the liveness of login: from any reachable page, logging in with
    registered credentials mounts the list on the stored collection. *)

From S2P Require Import Prelude Task Platform TaskService UserService TaskList App.

Module Root.
Import TaskService UserService.

Record root : Type := mk_root {
  page : App.page;
  taskList : option TaskList.ui
}.

Definition world_of (p : App.page) : world := uw (App.service p).

(** The page with the world replaced, as after a call of the task store. *)
Definition with_world (p : App.page) (w : world) : App.page :=
  App.mk_page (App.st p) (mk_ustate (users (App.service p)) w).

Definition showing (a : App.appstate) : bool :=
  match App.render a with App.Tasks _ => true | _ => false end.

Section Root.
Context `{!TaskCodec} (E : env).

(** The TaskList after App has rendered page [p]. *)
Definition reconcile (l : option TaskList.ui) (p : App.page) : root :=
  if showing (App.st p) then
    match l with
    | Some u => mk_root p (Some u)
    | None =>
        let a := TaskList.mounted (world_of p) in
        mk_root (with_world p (TaskList.browser a)) (Some (TaskList.view a))
    end
  else mk_root p None.

(** The page as the browser first shows it. *)
Definition root_init (s : ustate) : root := reconcile None (App.mounted s).

Inductive event : Type :=
  | AppEvent (e : App.event)
  | ListEvent (e : TaskList.event).

Inductive root_step : root -> event -> root -> Prop :=
  | rs_app r e :
      root_step r (AppEvent e) (reconcile (taskList r) (exec (App.dispatch E e) (page r)))
  | rs_list r u e :
      taskList r = Some u ->
      let a := exec (TaskList.dispatch E e) (TaskList.mk_app u (world_of (page r))) in
      root_step r (ListEvent e) (mk_root (with_world (page r) (TaskList.browser a)) (Some (TaskList.view a))).

(** The same step as a function: a list event with no list on screen
    changes nothing. *)
Definition next (r : root) (ev : event) : root :=
  match ev with
  | AppEvent e => reconcile (taskList r) (exec (App.dispatch E e) (page r))
  | ListEvent e =>
      match taskList r with
      | Some u =>
          let a := exec (TaskList.dispatch E e) (TaskList.mk_app u (world_of (page r))) in
          mk_root (with_world (page r) (TaskList.browser a)) (Some (TaskList.view a))
      | None => r
      end
  end.

Definition run_root (r : root) (evs : list event) : root := fold_left next evs r.

(** Every list event of [evs] finds the list on screen. *)
Fixpoint enabled (r : root) (evs : list event) : bool :=
  match evs with
  | [] => true
  | ev :: evs' =>
      match ev with
      | ListEvent _ => bool_decide (is_Some (taskList r))
      | AppEvent _ => true
      end && enabled (next r ev) evs'
  end.
End Root.

(** ** The invariant of the application *)

Section Lemmas.
Context `{!TaskCodec} (E : env).
Hypothesis Hclock : clock_monotone E.
Hypothesis Huuid : uuid_injective E.

(** The world only moves forward outside the task store: same storage,
    clock and UUID counters not decreasing. *)
Definition world_le (w w' : world) : Prop :=
  storage w' = storage w ∧ ticks w <= ticks w' ∧ uuids w <= uuids w'.

Ltac le_solve := simpl; split_and!; [reflexivity|lia|lia].

Lemma app_dispatch_world e p : world_le (world_of p) (world_of (exec (App.dispatch E e) p)).
Proof.
  unfold world_le, world_of. destruct e as [| | | |b|email password|d]; unfold App.dispatch.
  - unfold exec. rewrite App.reload_eq, App.checkAuth_eq. le_solve.
  - unfold exec. rewrite App.handleLogin_eq. le_solve.
  - unfold exec. rewrite App.handleLogin_eq. le_solve.
  - unfold exec, App.handleLogout, bind at 1.
    rewrite (App.usvc_run _ _ _ _ (logout_eq (App.service p))). le_solve.
  - le_solve.
  - rewrite App.exec_usvc. simpl.
    destruct (list_find (matches email password) (users (App.service p))) as [[i u]|] eqn:Hf.
    + unfold exec. rewrite (login_found E _ _ _ i u Hf). le_solve.
    + unfold exec. rewrite (login_not_found E _ _ _ Hf). le_solve.
  - rewrite App.exec_usvc. unfold exec. simpl.
    destruct (decide (Exists (fun user => User.s_email user = User.r_email d) (users (App.service p)))).
    + rewrite register_taken by done. le_solve.
    + rewrite register_free by done. le_solve.
Qed.

Lemma with_world_id p : with_world p (world_of p) = p.
Proof. by destruct p as [? []]. Qed.

(** The page is sound, the store well-formed, the list mounted exactly
    while the task page is on screen, and its cache coherent. *)
Definition root_ok (r : root) : Prop :=
  App.sound (page r) ∧ wf E (world_of (page r)) ∧
  (is_Some (taskList r) <-> showing (App.st (page r)) = true) ∧
  (∀ u, taskList r = Some u -> TaskList.coherent E (TaskList.mk_app u (world_of (page r)))).

Lemma reconcile_ok l p :
  App.sound p -> wf E (world_of p) ->
  (∀ u, l = Some u -> TaskList.coherent E (TaskList.mk_app u (world_of p))) ->
  root_ok (reconcile l p).
Proof.
  intros Hs Hw Hc. unfold reconcile, root_ok. destruct (showing (App.st p)) eqn:Hsh.
  - destruct l as [u|]; cbn [page taskList].
    + split_and!; [done|done|split; [intros _; exact Hsh|by eexists]|done].
    + rewrite TaskList.mounted_browser, with_world_id.
      split_and!; [done|done|split; [intros _; exact Hsh|by eexists]|].
      intros u [= <-]. pose proof (TaskList.coherent_mounted E _ Hw) as Hm.
      pose proof (TaskList.mounted_browser (world_of p)) as Hb.
      destruct (TaskList.mounted (world_of p)) as [v w0]. simpl in *. by subst.
  - cbn [page taskList]. split_and!; [done|done| |done].
    split; [intros [? Hn]; discriminate Hn|rewrite Hsh; intros Hn; discriminate Hn].
Qed.

Lemma root_init_ok s : wf E (uw s) -> root_ok (root_init s).
Proof.
  intros Hw. apply reconcile_ok; [apply App.sound_mounted| |done].
  unfold App.mounted, exec. by rewrite App.checkAuth_eq.
Qed.

Lemma coherent_world_le u w w' :
  world_le w w' -> TaskList.coherent E (TaskList.mk_app u w) -> TaskList.coherent E (TaskList.mk_app u w').
Proof.
  intros (Hst & Ht & Hu) [Hw Hs]. split; simpl in *.
  - by eapply wf_world_le.
  - by rewrite (stored_storage _ _ Hst).
Qed.

Lemma app_event_ok r e : root_ok r -> root_ok (reconcile (taskList r) (exec (App.dispatch E e) (page r))).
Proof.
  intros (Hs & Hw & _ & Hc). pose proof (app_dispatch_world e (page r)) as Hle.
  apply reconcile_ok.
  - by apply App.sound_dispatch.
  - destruct Hle as (Hst & Ht & Hu). by eapply wf_world_le.
  - intros u Hl. eapply coherent_world_le; [exact Hle|by apply Hc].
Qed.

Lemma list_event_ok r u e :
  root_ok r -> taskList r = Some u ->
  let a := exec (TaskList.dispatch E e) (TaskList.mk_app u (world_of (page r))) in
  root_ok (mk_root (with_world (page r) (TaskList.browser a)) (Some (TaskList.view a))).
Proof.
  intros (Hs & Hw & Hiff & Hc) Hl a. pose proof (Hc u Hl) as Hcu.
  pose proof (TaskList.coherent_dispatch E Hclock Huuid _ e Hcu) as Hca.
  pose proof (rtc_client_step_cookies E _ _ (TaskList.dispatch_client_rtc E _ e Hcu)) as Hck.
  fold a in Hca, Hck. destruct a as [v w']. simpl in *. split_and!.
  - intros usr Husr. destruct (Hs usr Husr) as [Hses Hin]. split; [|done].
    unfold session_of in *. simpl. by rewrite Hck.
  - apply Hca.
  - split; [intros _; apply Hiff; by eexists|by eexists].
  - by intros u' [= <-].
Qed.

Lemma root_steps_ok r evs r' : root_ok r -> steps (root_step E) r evs r' -> root_ok r'.
Proof.
  intros Hr Hst. induction Hst as [|r1 ev r2 evs r3 Hs _ IH]; [done|]. apply IH.
  destruct Hs as [r1 e|r1 u e Hl]; [by apply app_event_ok|by apply list_event_ok].
Qed.
(** Mounting or dropping the list leaves App's page as it is. *)
Lemma reconcile_page l p : page (reconcile l p) = p.
Proof.
  unfold reconcile. destruct (showing (App.st p)); [|done].
  destruct l; [done|]. simpl. by rewrite TaskList.mounted_browser, with_world_id.
Qed.

Lemma root_steps_loaded r evs r' :
  App.isLoading (App.st (page r)) = false -> steps (root_step E) r evs r' ->
  App.isLoading (App.st (page r')) = false.
Proof.
  intros Hl Hst. induction Hst as [|r1 ev r2 evs r3 Hs _ IH]; [done|]. apply IH.
  destruct Hs as [r1 e|r1 u e _]; [rewrite reconcile_page; by apply App.loaded_dispatch|done].
Qed.

(** A run of App events runs App. *)
Lemma run_root_app r es : page (run_root E r (AppEvent <$> es)) = App.run E es (page r).
Proof.
  revert r. induction es as [|e es IH]; intros r; [done|]. simpl. rewrite IH. simpl.
  by rewrite reconcile_page.
Qed.

Lemma steps_run_root r evs : enabled E r evs = true -> steps (root_step E) r evs (run_root E r evs).
Proof.
  revert r. induction evs as [|ev evs IH]; intros r He; simpl in *; [constructor|].
  apply andb_prop in He as [He1 He2]. econstructor; [|by apply IH].
  destruct ev as [e|e]; [constructor|]. simpl.
  apply bool_decide_eq_true_1 in He1 as [u Hu]. rewrite Hu. by constructor.
Qed.
(** Events of App alone find nothing to be enabled for. *)
Lemma enabled_app r es : enabled E r (AppEvent <$> es) = true.
Proof. revert r. induction es as [|e es IH]; intros r; [done|]. apply IH. Qed.

(** App's events leave the local storage as it is. *)
Lemma app_run_storage es p : storage (world_of (App.run E es p)) = storage (world_of p).
Proof.
  revert p. induction es as [|e es IH]; intros p; [done|]. simpl. rewrite IH.
  apply (app_dispatch_world e p).
Qed.
End Lemmas.

(** ** The application's invariant and a run with two users *)

Section Properties.
Context `{!TaskCodec} (E : env).

(** C1: the whole application, from its first render on a well-formed
    store (monotone clock, distinct UUIDs), along any sequence of page and
    task-list events: the store stays well-formed, and whenever the task
    list is on screen the page shows a registered user with a live
    session and the list shows exactly the stored collection. *)
Theorem app_invariant s0 evs r :
  clock_monotone E -> uuid_injective E -> wf E (uw s0) ->
  steps (root_step E) (root_init s0) evs r ->
  wf E (world_of (page r)) ∧
  ∀ u, taskList r = Some u ->
    (∃ usr, App.render (App.st (page r)) = App.Tasks usr ∧
            session_of (App.service (page r)) = LoggedIn ∧
            usr ∈ User.public <$> users (App.service (page r))) ∧
    stored (world_of (page r)) = Some (TaskList.tasks u).
Proof.
  intros Hc Hu Hw Hst.
  destruct (root_steps_ok E Hc Hu _ _ _ (root_init_ok E _ Hw) Hst) as (Hs & Hw' & Hiff & Hco).
  split; [done|]. intros u Hl. split; [|apply (Hco u Hl)].
  assert (Hsh : showing (App.st (page r)) = true) by (apply Hiff; by eexists).
  unfold showing in Hsh. destruct (App.render (App.st (page r))) as [|usr| |] eqn:Hr; try discriminate.
  exists usr. apply App.render_tasks in Hr. destruct (Hs usr Hr). done.
Qed.

(** C13: liveness of login in the whole application: on any page reachable
    from the first render on a well-formed store, a user whose email and
    password are registered, by submitting the login form and its
    [onLogin] callback, gets the task page with the avatar of the first
    registered user, and the TaskList mounted on the stored collection. *)
Theorem login_mounts_task_list s0 evs r email password :
  clock_monotone E -> uuid_injective E -> wf E (uw s0) ->
  steps (root_step E) (root_init s0) evs r ->
  Exists (matches email password) (users (App.service (page r))) ->
  ∃ v u, head (users (App.service (page r))) = Some v ∧
    App.header (App.st (page (run_root E r [AppEvent (App.FormLogin email password); AppEvent App.OnLogin])))
      = Some (App.Avatar (App.initials (User.public v)) (User.s_firstName v)) ∧
    taskList (run_root E r [AppEvent (App.FormLogin email password); AppEvent App.OnLogin]) = Some u ∧
    stored (world_of (page (run_root E r [AppEvent (App.FormLogin email password); AppEvent App.OnLogin])))
      = Some (TaskList.tasks u).
Proof.
  intros Hc Hu Hw Hst Hex.
  assert (Hl : App.isLoading (App.st (page r)) = false).
  { eapply root_steps_loaded; [|exact Hst]. unfold root_init. rewrite reconcile_page. apply App.loaded_mounted. }
  destruct (App.login_tasks_page E (page r) email password Hl Hex) as (v & Hv & _ & Hr & Hh & _).
  pose proof (run_root_app E r [App.FormLogin email password; App.OnLogin]) as Hp. simpl fmap in Hp.
  assert (Hst' : steps (root_step E) (root_init s0) (evs ++ [AppEvent (App.FormLogin email password); AppEvent App.OnLogin])
                   (run_root E r [AppEvent (App.FormLogin email password); AppEvent App.OnLogin]))
    by (eapply steps_app; [exact Hst|by apply steps_run_root]).
  destruct (root_steps_ok E Hc Hu _ _ _ (root_init_ok E _ Hw) Hst') as (_ & _ & Hiff & Hco).
  rewrite Hp in Hiff, Hco |- *. destruct (proj2 Hiff) as [u Hu']; [unfold showing; by rewrite Hr|].
  exists v, u. split_and!; [done|done|done|]. apply (Hco u Hu').
Qed.

(** C36: the task collection is one blob for every user: from any page
    reachable from the first render on a well-formed store on which the
    task list is shown, along any sequence of App's events (logging out,
    reloading, registering, logging in as anyone), whenever the task list
    is on screen again it lists the same tasks: the store has no notion
    of whose tasks they are. *)
Theorem tasks_shared_between_users s0 evs r es u u' :
  clock_monotone E -> uuid_injective E -> wf E (uw s0) ->
  steps (root_step E) (root_init s0) evs r -> taskList r = Some u ->
  taskList (run_root E r (AppEvent <$> es)) = Some u' -> TaskList.tasks u' = TaskList.tasks u.
Proof.
  intros Hc Hu Hw Hst Hl Hl'.
  assert (Hst' : steps (root_step E) (root_init s0) (evs ++ (AppEvent <$> es)) (run_root E r (AppEvent <$> es)))
    by (eapply steps_app; [exact Hst|apply steps_run_root, enabled_app]).
  destruct (root_steps_ok E Hc Hu _ _ _ (root_init_ok E _ Hw) Hst) as (_ & _ & _ & Hco).
  destruct (root_steps_ok E Hc Hu _ _ _ (root_init_ok E _ Hw) Hst') as (_ & _ & _ & Hco').
  destruct (Hco u Hl) as [_ Hs]. destruct (Hco' u' Hl') as [_ Hs']. simpl in Hs, Hs'.
  rewrite run_root_app, (stored_storage _ _ (app_run_storage E es (page r))) in Hs'. congruence.
Qed.
End Properties.


Definition alice_adds : list event :=
  [AppEvent (App.FormRegister alice); AppEvent (App.FormLogin "alice@x" "pw1"); AppEvent App.OnLogin;
   ListEvent (TaskList.NewCaptionChange "Buy milk"); ListEvent TaskList.ClickConfirmAdd].


Definition alice_page : root := run_root demo_env (root_init s_empty) alice_adds.

Lemma app_invariant_witness :
  clock_monotone demo_env ∧ uuid_injective demo_env ∧ wf demo_env (uw s_empty) ∧
  steps (root_step demo_env) (root_init s_empty) alice_adds alice_page ∧
  taskList alice_page = Some (TaskList.mk_ui [Task.mk "au" "Buy milk" EmptyString false 2 3]
                                             false EmptyString EmptyString None EmptyString EmptyString) ∧
  stored (world_of (page alice_page)) = Some [Task.mk "au" "Buy milk" EmptyString false 2 3].
Proof.
  assert (Hw : wf demo_env (uw s_empty)) by (by apply wf_empty).
  assert (Hst : steps (root_step demo_env) (root_init s_empty) alice_adds alice_page).
  { assert (He : enabled demo_env (root_init s_empty) alice_adds = true) by (vm_compute; reflexivity).
    exact (steps_run_root demo_env (root_init s_empty) alice_adds He). }
  assert (Hl : taskList alice_page = Some (TaskList.mk_ui [Task.mk "au" "Buy milk" EmptyString false 2 3]
                                             false EmptyString EmptyString None EmptyString EmptyString))
    by (by vm_compute).
  split_and!; [apply demo_clock_monotone|apply demo_uuid_injective|exact Hw|exact Hst|exact Hl|].
  destruct (app_invariant demo_env s_empty alice_adds alice_page
              demo_clock_monotone demo_uuid_injective Hw Hst) as [_ Hinv].
  exact (proj2 (Hinv _ Hl)).
Defined.

Definition alice_registered : root := run_root demo_env (root_init s_empty) [AppEvent (App.FormRegister alice)].

Lemma login_mounts_task_list_witness :
  steps (root_step demo_env) (root_init s_empty) [AppEvent (App.FormRegister alice)] alice_registered ∧
  Exists (matches "alice@x" "pw1") (users (App.service (page alice_registered))) ∧
  ∃ v u, App.header (App.st (page (run_root demo_env alice_registered
                                     [AppEvent (App.FormLogin "alice@x" "pw1"); AppEvent App.OnLogin])))
           = Some (App.Avatar (App.initials (User.public v)) (User.s_firstName v)) ∧
         stored (world_of (page (run_root demo_env alice_registered
                                   [AppEvent (App.FormLogin "alice@x" "pw1"); AppEvent App.OnLogin])))
           = Some (TaskList.tasks u).
Proof.
  assert (Hst : steps (root_step demo_env) (root_init s_empty) [AppEvent (App.FormRegister alice)] alice_registered).
  { assert (He : enabled demo_env (root_init s_empty) [AppEvent (App.FormRegister alice)] = true) by reflexivity.
    exact (steps_run_root demo_env (root_init s_empty) _ He). }
  assert (Hex : Exists (matches "alice@x" "pw1") (users (App.service (page alice_registered)))).
  { apply (bool_decide_unpack _). vm_compute. reflexivity. }
  split_and!; [exact Hst|exact Hex|].
  destruct (login_mounts_task_list demo_env s_empty _ _ _ _ demo_clock_monotone demo_uuid_injective
              (wf_empty demo_env (uw s_empty) eq_refl) Hst Hex) as (v & u & _ & Hh & _ & Hs).
  exists v, u. split; [exact Hh|exact Hs].
Defined.

(** Alice adds a task and logs out; after a reload Bob registers and
    logs in: the page greets Bob and lists Alice's task. *)
Definition bob_events : list App.event :=
  [App.ClickLogout; App.Reload; App.FormRegister bob; App.FormLogin "bob@x" "pw2"; App.OnLogin].

Lemma tasks_shared_between_users_witness :
  App.render (App.st (page (run_root demo_env alice_page (AppEvent <$> bob_events))))
    = App.Tasks (User.mk "aau" "Bob" "B" "bob@x") ∧
  ∃ u', taskList (run_root demo_env alice_page (AppEvent <$> bob_events)) = Some u' ∧
    TaskList.tasks u' = [Task.mk "au" "Buy milk" EmptyString false 2 3].
Proof.
  assert (Hw : wf demo_env (uw s_empty)) by (apply wf_empty; reflexivity).
  assert (Hst : steps (root_step demo_env) (root_init s_empty) alice_adds alice_page).
  { assert (He : enabled demo_env (root_init s_empty) alice_adds = true) by (vm_compute; reflexivity).
    exact (steps_run_root demo_env (root_init s_empty) alice_adds He). }
  assert (Hl : taskList alice_page = Some (TaskList.mk_ui [Task.mk "au" "Buy milk" EmptyString false 2 3]
                                             false EmptyString EmptyString None EmptyString EmptyString))
    by (by vm_compute).
  assert (Hl' : taskList (run_root demo_env alice_page (AppEvent <$> bob_events))
                = Some (TaskList.mk_ui [Task.mk "au" "Buy milk" EmptyString false 2 3]
                          false EmptyString EmptyString None EmptyString EmptyString)) by (by vm_compute).
  split; [vm_compute; reflexivity|]. eexists. split; [exact Hl'|].
  exact (tasks_shared_between_users demo_env s_empty alice_adds alice_page bob_events _ _
           demo_clock_monotone demo_uuid_injective Hw Hst Hl Hl').
Defined.

End Root.
